(** * Sourcegraph configuration migration scripts: export-config.js and
      import-config.js

    A shallow embedding of the two Node.js scripts and of the platform
    functions they call (JSON.parse, JSON.stringify, String.replaceAll,
    the fs and http modules), followed by the properties the specification
    states about them. *)

From Stdlib Require Import List Bool Arith ZArith NArith Lia String Ascii.
From Stdlib Require Import Permutation Sorted.
Import ListNotations.

Local Open Scope list_scope.
Abbreviation length := List.length.

(** ** JavaScript strings

    A JavaScript string is a sequence of UTF-16 code units. *)

Definition unit16 := N.
Definition jsstring := list unit16.

Definition js (s : string) : jsstring :=
  map N_of_ascii (list_ascii_of_string s).

Fixpoint jsstring_eqb (a b : jsstring) : bool :=
  match a, b with
  | [], [] => true
  | x :: a', y :: b' => N.eqb x y && jsstring_eqb a' b'
  | _, _ => false
  end.

(** [is_prefix p s]: [s] starts with [p] (String.prototype.startsWith). *)
Fixpoint is_prefix (p s : jsstring) : bool :=
  match p, s with
  | [], _ => true
  | x :: p', y :: s' => N.eqb x y && is_prefix p' s'
  | _ :: _, [] => false
  end.

(** Number of positions of [s] at which [pat] occurs. *)
Fixpoint occurrences (pat s : jsstring) : nat :=
  (if is_prefix pat s then 1 else 0) +
  match s with
  | [] => 0
  | _ :: s' => occurrences pat s'
  end.

(** String.prototype.replaceAll(pat, rep) for a string pattern: the matches
    are found left to right and do not overlap.  [skip] counts the code
    units of the current match that are still to be dropped.  The
    replacement is inserted as it is: the [$] patterns of GetSubstitution
    only apply to a replacement that contains a dollar sign, which the
    sentinel of the scripts does not. *)
Fixpoint replace_from (pat rep : jsstring) (skip : nat) (s : jsstring) : jsstring :=
  match s with
  | [] => []
  | c :: s' =>
      match skip with
      | S k => replace_from pat rep k s'
      | O =>
          if is_prefix pat s
          then rep ++ replace_from pat rep (length pat - 1) s'
          else c :: replace_from pat rep O s'
      end
  end.

Definition replaceAll (s pat rep : jsstring) : jsstring :=
  match pat with
  | [] => rep ++ flat_map (fun c => c :: rep) s
  | _ :: _ => replace_from pat rep 0 s
  end.

(** The two sentinels of export-config.js. *)
Definition REDACTED : jsstring := Eval cbv in js "REDACTED".
Definition NEEDS_UPDATING : jsstring := Eval cbv in js "NEEDS_UPDATING".

(** [sanitize_text s] is [s.replaceAll("REDACTED", "NEEDS_UPDATING")]. *)
Definition sanitize_text (s : jsstring) : jsstring :=
  replaceAll s REDACTED NEEDS_UPDATING.

(** *** Overlaps of a pattern with a block of text

    Used to state when the occurrences of the sentinels can be counted
    block by block. *)

(** [agree q b]: neither of [q] and [b] differs from the other on their
    common length, so that [q] may be a prefix of [b] followed by more
    text. *)
Fixpoint agree (q b : jsstring) : bool :=
  match q, b with
  | x :: q', y :: b' => N.eqb x y && agree q' b'
  | _, _ => true
  end.

(** The non-empty tails of a string, the string itself left out. *)
Fixpoint proper_tails (b : jsstring) : list jsstring :=
  match b with
  | [] => []
  | _ :: b' => match b' with [] => [] | _ :: _ => b' :: proper_tails b' end
  end.

(** [clear_of p b]: [p] cannot start at any position inside [b] but the
    first, whatever follows [b]. *)
Definition clear_of (p b : jsstring) : bool :=
  forallb (fun q => negb (agree p q)) (proper_tails b).

(** [inert pat rep q]: [q] clashes with both [pat] and [rep] at each of
    its positions. *)
Fixpoint inert (pat rep q : jsstring) : bool :=
  match q with
  | [] => true
  | _ :: q' => negb (agree q rep) && negb (agree q pat) && inert pat rep q'
  end.


(** ** JSON values

    The values JSON.parse returns.  An object keeps its members in the
    order JavaScript goes through them: the names that are array indices
    in the order of the indices, then the others in the order of their
    creation.  A number is kept as the text Number::toString gives for
    it, which is also what JSON.stringify writes when the number is
    finite. *)

Unset Elimination Schemes.
Inductive JSON : Type :=
| JNull
| JBool (b : bool)
| JNumber (text : jsstring)
| JString (s : jsstring)
| JArray (items : list JSON)
| JObject (members : list (jsstring * JSON)).
Set Elimination Schemes.

(** A JavaScript value that may be [undefined]. *)
Definition JSValue := option JSON.
Definition undefined : JSValue := None.

(** *** JSON.stringify *)

Fixpoint join (sep : jsstring) (parts : list jsstring) : jsstring :=
  match parts with
  | [] => []
  | p :: rest =>
      match rest with
      | [] => p
      | _ :: _ => p ++ sep ++ join sep rest
      end
  end.

Definition hex_digit (d : N) : unit16 :=
  if (d <? 10)%N then (48 + d)%N else (87 + d)%N.

Definition hex4 (c : unit16) : jsstring :=
  [hex_digit ((c / 4096) mod 16); hex_digit ((c / 256) mod 16);
   hex_digit ((c / 16) mod 16); hex_digit (c mod 16)]%N.

(** [\uXXXX] *)
Definition unicode_escape (c : unit16) : jsstring := 92%N :: 117%N :: hex4 c.

Definition is_high_surrogate (c : unit16) : bool :=
  ((55296 <=? c) && (c <=? 56319))%N.
Definition is_low_surrogate (c : unit16) : bool :=
  ((56320 <=? c) && (c <=? 57343))%N.

(** QuoteJSONString on a code unit that is not a surrogate. *)
Definition escape_unit (c : unit16) : jsstring :=
  if (c =? 8)%N then [92; 98]%N            (* \b *)
  else if (c =? 9)%N then [92; 116]%N      (* \t *)
  else if (c =? 10)%N then [92; 110]%N     (* \n *)
  else if (c =? 12)%N then [92; 102]%N     (* \f *)
  else if (c =? 13)%N then [92; 114]%N     (* \r *)
  else if (c =? 34)%N then [92; 34]%N      (* escaped quote *)
  else if (c =? 92)%N then [92; 92]%N      (* escaped backslash *)
  else if (c <? 32)%N then unicode_escape c
  else [c].

(** The text between the quotes: a surrogate pair is copied, a lone
    surrogate is escaped (well-formed JSON.stringify). *)
Fixpoint quote_body (s : jsstring) : jsstring :=
  match s with
  | [] => []
  | c :: s' =>
      if is_high_surrogate c then
        match s' with
        | d :: s'' =>
            if is_low_surrogate d then c :: d :: quote_body s''
            else unicode_escape c ++ quote_body s'
        | [] => unicode_escape c
        end
      else if is_low_surrogate c then unicode_escape c ++ quote_body s'
      else escape_unit c ++ quote_body s'
  end.

Definition quote (s : jsstring) : jsstring := 34%N :: quote_body s ++ [34%N].

Definition txt_null : jsstring := Eval cbv in js "null".
Definition txt_true : jsstring := Eval cbv in js "true".
Definition txt_false : jsstring := Eval cbv in js "false".

Definition is_nil {A : Type} (l : list A) : bool :=
  match l with [] => true | _ :: _ => false end.

(** *** The lexer of JSON *)

Definition is_ws (c : unit16) : bool :=
  ((c =? 32) || (c =? 9) || (c =? 10) || (c =? 13))%N.

Fixpoint skip_ws (s : jsstring) : jsstring :=
  match s with
  | [] => []
  | c :: s' => if is_ws c then skip_ws s' else s
  end.

Definition is_digit (c : unit16) : bool := ((48 <=? c) && (c <=? 57))%N.

(** The longest run of digits at the head of [s], and what follows it. *)
Fixpoint span_digits (s : jsstring) : jsstring * jsstring :=
  match s with
  | [] => ([], [])
  | c :: s' =>
      if is_digit c
      then let (ds, r) := span_digits s' in (c :: ds, r)
      else ([], s)
  end.

(** int: a zero, or a digit that is not zero followed by digits. *)
Definition lex_int (s : jsstring) : option (jsstring * jsstring) :=
  match s with
  | [] => None
  | c :: s' =>
      if (c =? 48)%N then Some ([48%N], s')
      else if is_digit c
           then let (ds, r) := span_digits s' in Some (c :: ds, r)
           else None
  end.

(** frac: nothing, or a point followed by one digit at least. *)
Definition lex_frac (s : jsstring) : option (jsstring * jsstring) :=
  match s with
  | [] => Some ([], s)
  | c :: s' =>
      if (c =? 46)%N then
        match span_digits s' with
        | ([], _) => None
        | (d :: ds, r) => Some (46%N :: d :: ds, r)
        end
      else Some ([], s)
  end.

(** exp: nothing, or [e] or [E], a sign if any, and one digit at least. *)
Definition lex_exp (s : jsstring) : option (jsstring * jsstring) :=
  match s with
  | [] => Some ([], s)
  | c :: s' =>
      if ((c =? 101) || (c =? 69))%N then
        let (sign, s'') :=
          match s' with
          | d :: t => if ((d =? 43) || (d =? 45))%N then ([d], t) else ([], s')
          | [] => ([], s')
          end in
        match span_digits s'' with
        | ([], _) => None
        | (d :: ds, r) => Some (101%N :: sign ++ d :: ds, r)
        end
      else Some ([], s)
  end.

Definition lex_number (s : jsstring) : option (jsstring * jsstring) :=
  let (minus, s1) :=
    match s with
    | c :: t => if (c =? 45)%N then ([45%N], t) else ([], s)
    | [] => ([], s)
    end in
  match lex_int s1 with
  | None => None
  | Some (i, s2) =>
      match lex_frac s2 with
      | None => None
      | Some (f, s3) =>
          match lex_exp s3 with
          | None => None
          | Some (e, s4) => Some (minus ++ i ++ f ++ e, s4)
          end
      end
  end.

(** *** Numbers

    A JSON literal is read as a decimal and rounded to binary64; the
    number is written as Number::toString writes it. *)

Fixpoint digits_value (acc : N) (ds : jsstring) : N :=
  match ds with
  | [] => acc
  | d :: ds' => digits_value (acc * 10 + (d - 48))%N ds'
  end.

(** The exponent written in [e], the output of [lex_exp]. *)
Definition exponent_value (e : jsstring) : Z :=
  match e with
  | [] => 0%Z
  | _ :: ds =>
      match ds with
      | d :: ds' =>
          if (d =? 43)%N then Z.of_N (digits_value 0 ds')
          else if (d =? 45)%N then (- Z.of_N (digits_value 0 ds'))%Z
          else Z.of_N (digits_value 0 ds)
      | [] => 0%Z
      end
  end.

(** Sign, mantissa and power of ten of a literal. *)
Definition decimal_of_literal (lit : jsstring) : option (bool * N * Z) :=
  let (neg, s1) :=
    match lit with
    | c :: t => if (c =? 45)%N then (true, t) else (false, lit)
    | [] => (false, lit)
    end in
  match lex_int s1 with
  | None => None
  | Some (i, s2) =>
      match lex_frac s2 with
      | None => None
      | Some (f, s3) =>
          match lex_exp s3 with
          | None => None
          | Some (e, _) =>
              Some (neg, digits_value 0 (i ++ tl f),
                    (exponent_value e - Z.of_nat (length (tl f)))%Z)
          end
      end
  end.

(** The magnitude of a binary64 number: [m * 2^e] with [m < 2^53] and
    [-1074 <= e <= 971], normalised. *)
Inductive binary64 : Type :=
| B64_zero
| B64_finite (m : N) (e : Z)
| B64_infinity.

(** [n / d] rounded to the nearest integer, ties to even. *)
Definition round_half_even (n d : N) : N :=
  let q := (n / d)%N in
  let r := (n mod d)%N in
  if (2 * r <? d)%N then q
  else if (d <? 2 * r)%N then (q + 1)%N
  else if N.even q then q else (q + 1)%N.

(** [mant * 10^ex] rounded to binary64. *)
Definition round_binary64 (mant : N) (ex : Z) : binary64 :=
  if (mant =? 0)%N then B64_zero
  else
    let num := if (0 <=? ex)%Z then (mant * 10 ^ Z.to_N ex)%N else mant in
    let den := if (0 <=? ex)%Z then 1%N else (10 ^ Z.to_N (- ex))%N in
    let scaled (e : Z) : N * N :=
      if (0 <=? e)%Z then (num, den * 2 ^ Z.to_N e)%N
      else (num * 2 ^ Z.to_N (- e), den)%N in
    let l := (Z.of_N (N.log2 num) - Z.of_N (N.log2 den))%Z in
    let e0 :=
      let (n0, d0) := scaled (l - 52)%Z in
      if (2 ^ 52 <=? n0 / d0)%N then (l - 52)%Z else (l - 53)%Z in
    let e1 := Z.max e0 (-1074) in
    let (n1, d1) := scaled e1 in
    let m := round_half_even n1 d1 in
    let (m', e') :=
      if (2 ^ 53 <=? m)%N then ((2 ^ 52)%N, (e1 + 1)%Z) else (m, e1) in
    if (m' =? 0)%N then B64_zero
    else if (971 <? e')%Z then B64_infinity
    else B64_finite m' e'.

Definition binary64_eqb (a b : binary64) : bool :=
  match a, b with
  | B64_zero, B64_zero => true
  | B64_infinity, B64_infinity => true
  | B64_finite m e, B64_finite m' e' => (m =? m')%N && (e =? e')%Z
  | _, _ => false
  end.

(** The digits of [n] in base ten, before those of [acc]. *)
Fixpoint decimal_digits (fuel : nat) (n : N) (acc : jsstring) : jsstring :=
  match fuel with
  | O => acc
  | S fuel' =>
      if (n <? 10)%N then (48 + n)%N :: acc
      else decimal_digits fuel' (n / 10)%N ((48 + n mod 10)%N :: acc)
  end.

(** A number below [2^k] has [k] digits at most. *)
Definition decimal (n : N) : jsstring :=
  decimal_digits (S (N.to_nat (N.log2 n))) n [].

(** **** Number::toString

    The text of a number above zero: the fewest digits that read back as
    the number and, among those, the nearest to it. *)

(** The [n] with [10^(n-1) <= a / b < 10^n]: by their numbers of digits,
    [a / b] is between [10^(d-1)] and [10^(d+1)]. *)
Definition magnitude (a b : N) : Z :=
  let d := (Z.of_nat (length (decimal a)) - Z.of_nat (length (decimal b)))%Z in
  if (0 <=? d)%Z
  then if (b * 10 ^ Z.to_N d <=? a)%N then (d + 1)%Z else d
  else if (b <=? a * 10 ^ Z.to_N (- d))%N then (d + 1)%Z else d.

(** The number [m * 2^e] as a fraction. *)
Definition fraction (m : N) (e : Z) : N * N :=
  if (0 <=? e)%Z then ((m * 2 ^ Z.to_N e)%N, 1%N)
  else (m, (2 ^ Z.to_N (- e))%N).

(** The [s] of [k] digits for which [s * 10^(n-k)] reads back as
    [m * 2^e], if there is one: the integer below the number scaled or
    the one above it, and the nearer of them when both do, or the even one
    when they are as near. *)
Definition digits_at (m : N) (e n k : Z) : option N :=
  let (a, b) := fraction m e in
  let q := (n - k)%Z in
  let num := if (0 <=? q)%Z then a else (a * 10 ^ Z.to_N (- q))%N in
  let den := if (0 <=? q)%Z then (b * 10 ^ Z.to_N q)%N else b in
  let lo := (num / den)%N in
  let r := (num mod den)%N in
  let hi := (lo + 1)%N in
  let reads s := binary64_eqb (round_binary64 s q) (B64_finite m e) in
  let lo_nearer := ((2 * r <? den) || (2 * r =? den) && N.even lo)%N in
  match reads lo, reads hi with
  | true, true => Some (if lo_nearer then lo else hi)
  | true, false => Some lo
  | false, true => Some hi
  | false, false => None
  end.

(** The digits [s] and the [n] of the text, trying [k] digits, then one
    more, [fuel] times.  The integer above a number made of nines is a
    power of ten: one digit, and [n] one more. *)
Fixpoint shortest (fuel : nat) (m : N) (e n k : Z) : option (N * Z) :=
  match fuel with
  | O => None
  | S fuel' =>
      match digits_at m e n k with
      | Some s =>
          Some (if (s =? 10 ^ Z.to_N k)%N then (1%N, (n + 1)%Z) else (s, n))
      | None => shortest fuel' m e n (k + 1)%Z
      end
  end.

Definition zeros (n : nat) : jsstring := repeat 48%N n.

(** The text of [s * 10^(n-k)], where [k] is the number of digits of
    [s]. *)
Definition number_text (s : N) (n : Z) : jsstring :=
  let ds := decimal s in
  let k := Z.of_nat (length ds) in
  if ((k <=? n) && (n <=? 21))%Z then ds ++ zeros (Z.to_nat (n - k))
  else if ((0 <? n) && (n <=? 21))%Z
       then firstn (Z.to_nat n) ds ++ 46%N :: skipn (Z.to_nat n) ds
       else if ((-6 <? n) && (n <=? 0))%Z
            then 48%N :: 46%N :: zeros (Z.to_nat (- n)) ++ ds
            else
              let e := (n - 1)%Z in
              let sign := if (e <? 0)%Z then 45%N else 43%N in
              let mantissa :=
                match ds with
                | d :: rest => if is_nil rest then [d] else d :: 46%N :: rest
                | [] => []
                end in
              mantissa ++ 101%N :: sign :: decimal (Z.to_N (Z.abs e)).

Definition txt_Infinity : jsstring := Eval cbv in js "Infinity".
Definition txt_minus_Infinity : jsstring := Eval cbv in js "-Infinity".

(** Number::toString; seventeen digits are enough for a binary64
    number. *)
Definition Number_toString (neg : bool) (x : binary64) : option jsstring :=
  match x with
  | B64_zero => Some [48%N]
  | B64_infinity => Some (if neg then txt_minus_Infinity else txt_Infinity)
  | B64_finite m e =>
      let (a, b) := fraction m e in
      match shortest 17 m e (magnitude a b) 1 with
      | Some (s, n) => Some ((if neg then [45%N] else []) ++ number_text s n)
      | None => None
      end
  end.

(** The text of a number that is not finite. *)
Definition is_infinite (text : jsstring) : bool :=
  jsstring_eqb text txt_Infinity || jsstring_eqb text txt_minus_Infinity.

(** Sign and magnitude of the number a text denotes. *)
Definition number_of_literal (lit : jsstring) : bool * binary64 :=
  if jsstring_eqb lit txt_Infinity then (false, B64_infinity)
  else if jsstring_eqb lit txt_minus_Infinity then (true, B64_infinity)
  else
    match decimal_of_literal lit with
    | Some (neg, mant, ex) => (neg, round_binary64 mant ex)
    | None => (false, B64_zero)
    end.

(** The same number; zero has one text, whatever its sign. *)
Definition same_number (a b : bool * binary64) : bool :=
  binary64_eqb (snd a) (snd b)
  && (binary64_eqb (snd a) B64_zero || Bool.eqb (fst a) (fst b)).

(** [text] is a JSON literal, or is not finite, and denotes [x]. *)
Definition reads_as (text : jsstring) (x : bool * binary64) : bool :=
  (is_infinite text
   || match lex_number text with
      | Some (literal, []) => jsstring_eqb literal text
      | _ => false
      end)
  && same_number (number_of_literal text) x.

(** The text of the number a JSON literal denotes: what Number::toString
    gives for the number.  That text reads back as the number; where the
    test of it fails the literal is kept, so that a number always reads
    back from its text. *)
Definition canonical_literal (literal : jsstring) : jsstring :=
  let x := number_of_literal literal in
  match Number_toString (fst x) (snd x) with
  | Some text => if reads_as text x then text else literal
  | None => literal
  end.

(** *** JSON.stringify, the values *)

(** SerializeJSONProperty with the gap [gap] at the indentation [indent].
    [gap] is empty for [JSON.stringify(v)] and two spaces for
    [JSON.stringify(v, null, 2)]. *)
Fixpoint serialize (gap indent : jsstring) (v : JSON) : jsstring :=
  let inner := indent ++ gap in
  let opening := if is_nil gap then [] else 10%N :: inner in
  let closing := if is_nil gap then [] else 10%N :: indent in
  let sep := if is_nil gap then [44%N] else 44%N :: 10%N :: inner in
  let colon := if is_nil gap then [58%N] else [58%N; 32%N] in
  match v with
  | JNull => txt_null
  | JBool true => txt_true
  | JBool false => txt_false
  | JNumber text => if is_infinite text then txt_null else text
  | JString s => quote s
  | JArray items =>
      match items with
      | [] => [91; 93]%N
      | _ :: _ =>
          91%N :: opening ++ join sep (map (serialize gap inner) items)
            ++ closing ++ [93%N]
      end
  | JObject members =>
      match members with
      | [] => [123; 125]%N
      | _ :: _ =>
          123%N :: opening
            ++ join sep (map (fun m => quote (fst m) ++ colon
                                         ++ serialize gap inner (snd m)) members)
            ++ closing ++ [125%N]
      end
  end.

(** [JSON.stringify(v)] *)
Definition JSON_stringify (v : JSON) : jsstring := serialize [] [] v.

(** [JSON.stringify(v, null, 2)] *)
Definition JSON_stringify_pretty (v : JSON) : jsstring :=
  serialize [32; 32]%N [] v.

(** *** JSON.parse *)

Definition unhex_digit (c : unit16) : option N :=
  if is_digit c then Some (c - 48)%N
  else if ((97 <=? c) && (c <=? 102))%N then Some (c - 87)%N
  else if ((65 <=? c) && (c <=? 70))%N then Some (c - 55)%N
  else None.

Definition unhex4 (h1 h2 h3 h4 : unit16) : option unit16 :=
  match unhex_digit h1, unhex_digit h2, unhex_digit h3, unhex_digit h4 with
  | Some a, Some b, Some c, Some d => Some (((a * 16 + b) * 16 + c) * 16 + d)%N
  | _, _, _, _ => None
  end.

(** The character a one-letter escape stands for. *)
Definition unescape (e : unit16) : option unit16 :=
  if (e =? 34)%N then Some 34%N
  else if (e =? 92)%N then Some 92%N
  else if (e =? 47)%N then Some 47%N
  else if (e =? 98)%N then Some 8%N
  else if (e =? 102)%N then Some 12%N
  else if (e =? 110)%N then Some 10%N
  else if (e =? 114)%N then Some 13%N
  else if (e =? 116)%N then Some 9%N
  else None.

Definition prepend (u : unit16) (r : option (jsstring * jsstring))
  : option (jsstring * jsstring) :=
  match r with
  | Some (t, rest) => Some (u :: t, rest)
  | None => None
  end.

(** A string after its opening quote: the text up to the closing quote,
    and what follows that quote. *)
Fixpoint parse_string_body (s : jsstring) : option (jsstring * jsstring) :=
  match s with
  | [] => None
  | c :: s1 =>
      if (c =? 34)%N then Some ([], s1)
      else if (c =? 92)%N then
        match s1 with
        | [] => None
        | e :: s2 =>
            if (e =? 117)%N then
              match s2 with
              | h1 :: h2 :: h3 :: h4 :: s3 =>
                  match unhex4 h1 h2 h3 h4 with
                  | Some u => prepend u (parse_string_body s3)
                  | None => None
                  end
              | _ => None
              end
            else
              match unescape e with
              | Some u => prepend u (parse_string_body s2)
              | None => None
              end
        end
      else if (c <? 32)%N then None
      else prepend c (parse_string_body s1)
  end.

(** An array index: the decimal text, without leading zeros, of a number
    below [2^32 - 1]. *)
Definition index_key (k : jsstring) : option N :=
  match k with
  | [] => None
  | c :: t =>
      if forallb is_digit k && implb (c =? 48)%N (is_nil t)
         && (digits_value 0 k <? 4294967295)%N
      then Some (digits_value 0 k)
      else None
  end.

Definition is_index (m : jsstring * JSON) : bool :=
  match index_key (fst m) with Some _ => true | None => false end.

Definition index_of (m : jsstring * JSON) : N :=
  match index_key (fst m) with Some i => i | None => 0%N end.

(** [m] put at its place among members in the order of their indices. *)
Fixpoint insert_member (m : jsstring * JSON) (l : list (jsstring * JSON))
  : list (jsstring * JSON) :=
  match l with
  | [] => [m]
  | x :: l' =>
      if (index_of m <=? index_of x)%N then m :: l else x :: insert_member m l'
  end.

Definition sort_members (l : list (jsstring * JSON)) : list (jsstring * JSON) :=
  fold_right insert_member [] l.

(** OrdinaryOwnPropertyKeys: the members whose names are array indices,
    in the order of the indices, then the others in the order of their
    creation. *)
Definition own_property_order (members : list (jsstring * JSON))
  : list (jsstring * JSON) :=
  sort_members (filter is_index members)
  ++ filter (fun m => negb (is_index m)) members.

(** CreateDataProperty on the object being built: a key that is there
    already keeps its place and takes the new value. *)
Fixpoint obj_set (m : list (jsstring * JSON)) (k : jsstring) (v : JSON)
  : list (jsstring * JSON) :=
  match m with
  | [] => [(k, v)]
  | (k', v') :: m' =>
      if jsstring_eqb k' k then (k', v) :: m' else (k', v') :: obj_set m' k v
  end.

Inductive parsed (A : Type) : Type :=
| Parsed (a : A) (rest : jsstring)
| Malformed
| Exhausted.
Arguments Parsed {A} a rest.
Arguments Malformed {A}.
Arguments Exhausted {A}.

Fixpoint parse_value (fuel : nat) (s : jsstring) {struct fuel} : parsed JSON :=
  match fuel with
  | O => Exhausted
  | S fuel' =>
      match skip_ws s with
      | [] => Malformed
      | c :: s1 =>
          if (c =? 34)%N then
            match parse_string_body s1 with
            | Some (t, r) => Parsed (JString t) r
            | None => Malformed
            end
          else if (c =? 91)%N then
            match skip_ws s1 with
            | [] => Malformed
            | d :: s2 =>
                if (d =? 93)%N then Parsed (JArray []) s2
                else parse_elements fuel' s1 []
            end
          else if (c =? 123)%N then
            match skip_ws s1 with
            | [] => Malformed
            | d :: s2 =>
                if (d =? 125)%N then Parsed (JObject []) s2
                else parse_members fuel' s1 []
            end
          else if is_prefix txt_null (c :: s1) then Parsed JNull (skipn 4 (c :: s1))
          else if is_prefix txt_true (c :: s1) then Parsed (JBool true) (skipn 4 (c :: s1))
          else if is_prefix txt_false (c :: s1) then Parsed (JBool false) (skipn 5 (c :: s1))
          else
            match lex_number (c :: s1) with
            | Some (literal, r) => Parsed (JNumber (canonical_literal literal)) r
            | None => Malformed
            end
      end
  end
with parse_elements (fuel : nat) (s : jsstring) (acc : list JSON) {struct fuel}
  : parsed JSON :=
  match fuel with
  | O => Exhausted
  | S fuel' =>
      match parse_value fuel' s with
      | Parsed v r =>
          match skip_ws r with
          | [] => Malformed
          | d :: r' =>
              if (d =? 44)%N then parse_elements fuel' r' (acc ++ [v])
              else if (d =? 93)%N then Parsed (JArray (acc ++ [v])) r'
              else Malformed
          end
      | Malformed => Malformed
      | Exhausted => Exhausted
      end
  end
with parse_members (fuel : nat) (s : jsstring) (acc : list (jsstring * JSON))
  {struct fuel} : parsed JSON :=
  match fuel with
  | O => Exhausted
  | S fuel' =>
      match skip_ws s with
      | [] => Malformed
      | q :: s1 =>
          if (q =? 34)%N then
            match parse_string_body s1 with
            | None => Malformed
            | Some (k, r) =>
                match skip_ws r with
                | [] => Malformed
                | col :: r1 =>
                    if (col =? 58)%N then
                      match parse_value fuel' r1 with
                      | Parsed v r2 =>
                          match skip_ws r2 with
                          | [] => Malformed
                          | d :: r3 =>
                              if (d =? 44)%N
                              then parse_members fuel' r3 (obj_set acc k v)
                              else if (d =? 125)%N
                                   then Parsed (JObject (own_property_order
                                                           (obj_set acc k v))) r3
                                   else Malformed
                          end
                      | Malformed => Malformed
                      | Exhausted => Exhausted
                      end
                    else Malformed
                end
            end
          else Malformed
      end
  end.

(** Enough fuel for a text of that length: a value is read with more
    than twice the length of the text left, a list of elements or of
    members with one more. *)
Definition parse_fuel (s : jsstring) : nat := 2 * length s + 1.

(** [JSON.parse(s)]; [None] stands for the SyntaxError it throws. *)
Definition JSON_parse (s : jsstring) : option JSON :=
  match parse_value (parse_fuel s) s with
  | Parsed v rest => if is_nil (skip_ws rest) then Some v else None
  | Malformed => None
  | Exhausted => None
  end.

(** ** Numbers

    What the scripts observe of a number: whether it is zero, whether it is
    above zero, and whether it is equal to another. *)

(** A literal denotes zero when its digits are all zero, or when it is so
    small that binary64 rounds it to zero: at most [2^-1075], half the
    least number above zero. *)
Definition number_is_zero (lit : jsstring) : bool :=
  if is_infinite lit then false else
  match decimal_of_literal lit with
  | Some (_, mant, ex) =>
      (mant =? 0)%N
      || ((ex <? 0)%Z && (mant * 2 ^ 1075 <=? 10 ^ Z.to_N (- ex))%N)
  | None => true
  end.

Definition number_positive (lit : jsstring) : bool :=
  negb (fst (number_of_literal lit)) && negb (number_is_zero lit).

Definition number_eqb (a b : jsstring) : bool :=
  let (na, ma) := number_of_literal a in
  let (nb, mb) := number_of_literal b in
  binary64_eqb ma mb && (binary64_eqb ma B64_zero || Bool.eqb na nb).

(** The number [n], for a length or a count. *)
Definition number_of_nat (n : nat) : JSON := JNumber (decimal (N.of_nat n)).

(** *** StringToNumber, as far as [x > 0] needs it *)

Definition is_js_space (c : unit16) : bool :=
  ((9 <=? c) && (c <=? 13) || (c =? 32) || (c =? 160) || (c =? 5760)
   || (8192 <=? c) && (c <=? 8202) || (c =? 8232) || (c =? 8233)
   || (c =? 8239) || (c =? 8287) || (c =? 12288) || (c =? 65279))%N.

Fixpoint trim_start (s : jsstring) : jsstring :=
  match s with
  | [] => []
  | c :: s' => if is_js_space c then trim_start s' else s
  end.

Definition trim (s : jsstring) : jsstring :=
  rev (trim_start (rev (trim_start s))).

(** Digits in base [base], one at least of them other than zero. *)
Definition radix_positive (base : N) (ds : jsstring) : bool :=
  negb (is_nil ds)
  && forallb (fun c => match unhex_digit c with
                       | Some d => (d <? base)%N
                       | None => false
                       end) ds
  && existsb (fun c => negb (c =? 48)%N) ds.

(** StrUnsignedDecimalLiteral without [Infinity]: digits, a point and
    digits, an exponent; one digit at least before the exponent. *)
Definition decimal_positive (s : jsstring) : bool :=
  let (ip, s1) := span_digits s in
  let (fp, s2) :=
    match s1 with
    | c :: t => if (c =? 46)%N then span_digits t else ([], s1)
    | [] => ([], s1)
    end in
  if is_nil ip && is_nil fp then false
  else
    match lex_exp s2 with
    | Some (e, []) =>
        negb (binary64_eqb
                (round_binary64 (digits_value 0 (ip ++ fp))
                   (exponent_value e - Z.of_nat (length fp))%Z)
                B64_zero)
    | _ => false
    end.

(** [ToNumber(s) > 0] for a string [s]. *)
Definition string_positive (s : jsstring) : bool :=
  match trim s with
  | [] => false
  | c :: t =>
      if (c =? 45)%N then false
      else
        let u := if (c =? 43)%N then t else c :: t in
        if jsstring_eqb u txt_Infinity then true
        else
          match c :: t with
          | z :: x :: ds =>
              if (z =? 48)%N && ((x =? 120) || (x =? 88))%N then radix_positive 16 ds
              else if (z =? 48)%N && ((x =? 111) || (x =? 79))%N then radix_positive 8 ds
              else if (z =? 48)%N && ((x =? 98) || (x =? 66))%N then radix_positive 2 ds
              else decimal_positive u
          | _ => decimal_positive u
          end
  end.

(** [ToNumber(ToString(v)) > 0] for an element [v] of an array: an array
    becomes the texts of its elements with commas between them. *)
Fixpoint element_positive (v : JSON) : bool :=
  match v with
  | JNumber lit => number_positive lit
  | JString s => string_positive s
  | JArray items =>
      match items with
      | [x] => element_positive x
      | _ => false
      end
  | _ => false
  end.

(** ** Values and their properties *)

(** Exceptions the scripts throw or meet. *)
Inductive Error : Type :=
| TypeError       (* a property of null or undefined, a call of what is
                     no function, a loop over what is no iterable, data of
                     a type fs.writeFileSync refuses, a value that has no
                     text *)
| SyntaxError     (* JSON.parse *)
| SystemError     (* an fs operation the operating system refuses *)
| HttpError (status : Z) (body : jsstring)
                  (* HTTP Error: status body *)
| ParseResponseError (cause : Error)
                  (* Failed to parse response: message of the cause *)
| GraphQLError (message : jsstring)
                  (* GraphQL Error: the text of the message *)
| RequestError    (* Request error: ... *)
| RetrievalError (what : string).
                  (* Failed to retrieve ... *)

Inductive completion (A : Type) : Type :=
| Normal (a : A)
| Abrupt (e : Error).
Arguments Normal {A} a.
Arguments Abrupt {A} e.

Fixpoint lookup (m : list (jsstring * JSON)) (k : jsstring) : JSValue :=
  match m with
  | [] => None
  | (k', v) :: m' => if jsstring_eqb k' k then Some v else lookup m' k
  end.

Definition txt_length : jsstring := Eval cbv in js "length".

(** The array index a property name denotes, if it denotes one. *)
Definition array_index (k : jsstring) : option nat :=
  match k with
  | [] => None
  | c :: t =>
      if forallb is_digit k && implb (c =? 48)%N (is_nil t)
      then Some (N.to_nat (digits_value 0 k))
      else None
  end.

(** [v.k] or [v[k]] for the property names the scripts read: own
    properties, the length and the elements of an array or a string.
    None of these names is a member of a prototype but [length]. *)
Definition get_prop (v : JSValue) (k : jsstring) : completion JSValue :=
  match v with
  | None => Abrupt TypeError
  | Some JNull => Abrupt TypeError
  | Some (JObject m) => Normal (lookup m k)
  | Some (JArray items) =>
      if jsstring_eqb k txt_length then Normal (Some (number_of_nat (length items)))
      else match array_index k with
           | Some i => Normal (nth_error items i)
           | None => Normal None
           end
  | Some (JString s) =>
      if jsstring_eqb k txt_length then Normal (Some (number_of_nat (length s)))
      else match array_index k with
           | Some i => Normal (option_map (fun c => JString [c]) (nth_error s i))
           | None => Normal None
           end
  | Some (JBool _) => Normal None
  | Some (JNumber _) => Normal None
  end.

(** [v?.k] *)
Definition get_opt (v : JSValue) (k : jsstring) : JSValue :=
  match get_prop v k with
  | Normal x => x
  | Abrupt _ => None
  end.

(** ToBoolean *)
Definition truthy (v : JSValue) : bool :=
  match v with
  | None => false
  | Some JNull => false
  | Some (JBool b) => b
  | Some (JNumber lit) => negb (number_is_zero lit)
  | Some (JString s) => negb (is_nil s)
  | Some (JArray _) => true
  | Some (JObject _) => true
  end.

(** [a === b] for values read from two different JSON texts: an object
    or an array is only equal to itself, and the two sides never share
    one. *)
Definition strict_eq (a b : JSValue) : bool :=
  match a, b with
  | None, None => true
  | Some JNull, Some JNull => true
  | Some (JBool x), Some (JBool y) => Bool.eqb x y
  | Some (JNumber x), Some (JNumber y) => number_eqb x y
  | Some (JString x), Some (JString y) => jsstring_eqb x y
  | _, _ => false
  end.

(** An object literal as JSON.stringify sees it: a property whose value
    is undefined is left out. *)
Fixpoint object_literal (fields : list (jsstring * JSValue))
  : list (jsstring * JSON) :=
  match fields with
  | [] => []
  | (k, Some v) :: rest => (k, v) :: object_literal rest
  | (_, None) :: rest => object_literal rest
  end.

(** *** ToString

    The text a template literal puts in the place of a value that
    JSON.parse has made.  An object has the [toString] of Object.prototype
    unless a member of its own hides it; no member of such an object is a
    function, so OrdinaryToPrimitive goes on to [valueOf], which is a
    member that is no function either or the one of Object.prototype,
    which returns the object, and throws a TypeError.  An array has the
    [toString] of Array.prototype, which joins the texts of its elements
    with commas, null giving the empty text. *)

Definition txt_undefined : jsstring := Eval cbv in js "undefined".
Definition txt_object_Object : jsstring := Eval cbv in js "[object Object]".
Definition txt_toString : jsstring := Eval cbv in js "toString".

Section Elements.
Variable text_of : JSON -> completion jsstring.

(** The texts of the elements of an array. *)
Fixpoint elements_text (l : list JSON) : completion (list jsstring) :=
  match l with
  | [] => Normal []
  | x :: rest =>
      match match x with
            | JNull => Normal []
            | _ => text_of x
            end with
      | Abrupt e => Abrupt e
      | Normal t =>
          match elements_text rest with
          | Abrupt e => Abrupt e
          | Normal ts => Normal (t :: ts)
          end
      end
  end.
End Elements.

Fixpoint ToString_of (v : JSON) : completion jsstring :=
  match v with
  | JNull => Normal txt_null
  | JBool b => Normal (if b then txt_true else txt_false)
  | JNumber text => Normal text
  | JString s => Normal s
  | JArray items =>
      match elements_text ToString_of items with
      | Normal ts => Normal (join [44%N] ts)
      | Abrupt e => Abrupt e
      end
  | JObject members =>
      match lookup members txt_toString with
      | Some _ => Abrupt TypeError
      | None => Normal txt_object_Object
      end
  end.

Definition ToString (v : JSValue) : completion jsstring :=
  match v with
  | None => Normal txt_undefined
  | Some x => ToString_of x
  end.

(** [v > 0]: an object or an array is turned into its text first, which
    may throw. *)
Definition greater_than_zero (v : JSValue) : completion bool :=
  match v with
  | Some (JBool b) => Normal b
  | Some (JNumber lit) => Normal (number_positive lit)
  | Some (JString s) => Normal (string_positive s)
  | Some (JArray items) =>
      match ToString_of (JArray items) with
      | Normal _ => Normal (element_positive (JArray items))
      | Abrupt e => Abrupt e
      end
  | Some (JObject members) =>
      match ToString_of (JObject members) with
      | Normal _ => Normal false
      | Abrupt e => Abrupt e
      end
  | _ => Normal false
  end.

(** ** The world of a script: files, the remote instance, the console *)

Definition path := jsstring.

Inductive FsNode : Type :=
| Directory
| File (content : jsstring).

(** A POST to the GraphQL endpoint: the URL, the access token of the
    Authorization header, and the query and the variables that
    JSON.stringify writes into the body. *)
Record Request : Type := mkRequest {
  req_endpoint : jsstring;
  req_token : jsstring;
  req_query : jsstring;
  req_variables : JSON
}.

(** What a request ends with: a response, once its last chunk has
    arrived; the error event of the request (the URL is no URL, its
    scheme is not served, the connection fails); or a response that
    breaks off after its headers, for which neither the end event of the
    response nor the error event of the request comes.  A request that
    never ends is the end of no run, and is not among the replies. *)
Inductive Reply : Type :=
| Response (statusCode : Z) (responseData : jsstring)
| Failure
| BrokenOff.

(** console.log and console.error, by the line of the script that
    prints, with the texts the template literal of the line puts in. *)
Inductive Console : Type :=
| Usage
| InputDirectoryMissing (dir : path)
| SiteConfigFileMissing (p : path)
| ExternalServicesFileMissing (p : path)
| Importing
| Found (count : jsstring)
| Skipping (displayName kind : jsstring)
| Added (displayName kind : jsstring)
| Imported (added skipped : nat)
| ImportCompleted (summaryPath : path)
| ImportFailed (e : Error)
| ExportingSiteConfig
| SiteConfigExported (p : path)
| ExportingExternalServices
| ExternalServicesExported (count : jsstring) (p : path)
| ExportCompleted (summaryPath : path)
| ExportFailed (e : Error)
| GettingSiteConfigId.

Inductive Event : Type :=
| Exists (p : path)                      (* fs.existsSync *)
| MkDir (p : path)                       (* fs.mkdirSync *)
| Read (p : path)                        (* fs.readFileSync *)
| Write (p : path) (data : jsstring)     (* fs.writeFileSync(p, data), done *)
| Post (r : Request) (reply : Reply)     (* executeQuery *)
| Print (c : Console).

(** What a run is given: the arguments after the script name, the time
    [new Date().toISOString()] shows, the remote instance as a function
    of the requests it has got so far and of the one it gets, and the
    paths on which the operating system refuses to work. *)
Record Env : Type := mkEnv {
  argv : list jsstring;
  clock : jsstring;
  remote : list Request -> Request -> Reply;
  refused : path -> bool
}.

(** The state a run changes: the files, and the events so far, the
    earliest first. *)
Record World : Type := mkWorld {
  files : path -> option FsNode;
  events : list Event
}.

Definition emit (e : Event) (w : World) : World :=
  mkWorld (files w) (events w ++ [e]).

Definition set_file (p : path) (n : FsNode) (w : World) : World :=
  mkWorld (fun q => if jsstring_eqb q p then Some n else files w q) (events w).

(** The requests among the events. *)
Fixpoint posted (evs : list Event) : list Request :=
  match evs with
  | [] => []
  | Post r _ :: rest => r :: posted rest
  | _ :: rest => posted rest
  end.

(** The files written among the events. *)
Fixpoint written (evs : list Event) : list (path * jsstring) :=
  match evs with
  | [] => []
  | Write p d :: rest => (p, d) :: written rest
  | _ :: rest => written rest
  end.

(** *** Computations *)

Inductive Outcome (A : Type) : Type :=
| Returned (a : A)
| Thrown (e : Error)
| Exited (code : Z)         (* process.exit(code) *)
| Stalled.                  (* an await on a promise that never settles:
                               nothing of the script runs after it *)
Arguments Returned {A} a.
Arguments Thrown {A} e.
Arguments Exited {A} code.
Arguments Stalled {A}.

Definition M (A : Type) : Type := World -> Outcome A * World.

Definition ret {A : Type} (a : A) : M A := fun w => (Returned a, w).

Definition bind {A B : Type} (c : M A) (k : A -> M B) : M B :=
  fun w =>
    match c w with
    | (Returned a, w') => k a w'
    | (Thrown e, w') => (Thrown e, w')
    | (Exited code, w') => (Exited code, w')
    | (Stalled, w') => (Stalled, w')
    end.

Definition throw {A : Type} (e : Error) : M A := fun w => (Thrown e, w).

Definition process_exit {A : Type} (code : Z) : M A := fun w => (Exited code, w).

(** [try { c } catch (error) { handler error }] *)
Definition try_catch {A : Type} (c : M A) (handler : Error -> M A) : M A :=
  fun w =>
    match c w with
    | (Thrown e, w') => handler e w'
    | other => other
    end.

Definition lift {A : Type} (c : completion A) : M A :=
  match c with
  | Normal a => ret a
  | Abrupt e => throw e
  end.

Definition print (c : Console) : M unit :=
  fun w => (Returned tt, emit (Print c) w).

Declare Scope script_scope.
Delimit Scope script_scope with script.
Notation "x <- c ;; k" := (bind c (fun x => k))
  (at level 61, c at next level, right associativity) : script_scope.
Notation "c ;; k" := (bind c (fun _ => k))
  (at level 61, right associativity) : script_scope.

(** The same for expressions, which change nothing and may throw. *)
Definition cbind {A B : Type} (c : completion A) (k : A -> completion B)
  : completion B :=
  match c with
  | Normal a => k a
  | Abrupt e => Abrupt e
  end.

Declare Scope completion_scope.
Delimit Scope completion_scope with completion.
Notation "x <- c ;; k" := (cbind c (fun x => k))
  (at level 61, c at next level, right associativity) : completion_scope.

(** *** The fs module *)

Definition is_some {A : Type} (o : option A) : bool :=
  match o with Some _ => true | None => false end.

Definition existsSync (p : path) : M bool :=
  fun w => (Returned (is_some (files w p)), emit (Exists p) w).

Definition readFileSync (env : Env) (p : path) : M jsstring :=
  fun w =>
    let w' := emit (Read p) w in
    if refused env p then (Thrown SystemError, w')
    else match files w p with
         | Some (File content) => (Returned content, w')
         | _ => (Thrown SystemError, w')
         end.

(** A file is kept as the text that reading it as UTF-8 gives.  The
    data of [fs.writeFileSync] is stored as UTF-8, in which a surrogate
    without its partner is written as U+FFFD: what is read back is
    [data.toWellFormed()]. *)
Fixpoint toWellFormed (s : jsstring) : jsstring :=
  match s with
  | [] => []
  | c :: s' =>
      if is_high_surrogate c then
        match s' with
        | d :: s'' =>
            if is_low_surrogate d then c :: d :: toWellFormed s''
            else 65533%N :: toWellFormed s'
        | [] => [65533%N]
        end
      else if is_low_surrogate c then 65533%N :: toWellFormed s'
      else c :: toWellFormed s'
  end.

(** The data has to be a string; a directory is not written over. *)
Definition writeFileSync (env : Env) (p : path) (data : JSValue) : M unit :=
  fun w =>
    match data with
    | Some (JString text) =>
        if refused env p then (Thrown SystemError, w)
        else match files w p with
             | Some Directory => (Thrown SystemError, w)
             | _ => (Returned tt,
                     emit (Write p text)
                       (set_file p (File (toWellFormed text)) w))
             end
    | _ => (Thrown TypeError, w)
    end.

(** [fs.mkdirSync(p, { recursive: true })]; the files are a flat table
    of paths, and the directories above [p] that the call makes on its
    way are not entered in it. *)
Definition mkdirSync (env : Env) (p : path) : M unit :=
  fun w =>
    if refused env p then (Thrown SystemError, w)
    else match files w p with
         | Some (File _) => (Thrown SystemError, w)
         | _ => (Returned tt, emit (MkDir p) (set_file p Directory w))
         end.

(** [path.join(dir, name)], without the normalisation of dots and of
    repeated separators: a path is only used to name a file. *)
Definition path_join (dir name : jsstring) : path :=
  match rev dir with
  | [] => name
  | c :: _ => if (c =? 47)%N then dir ++ name else dir ++ 47%N :: name
  end.

(** [url.replace(/\/$/, '')] *)
Definition strip_trailing_slash (url : jsstring) : jsstring :=
  match rev url with
  | c :: r => if (c =? 47)%N then rev r else url
  | [] => url
  end.

Definition graphqlEndpoint (baseUrl : jsstring) : jsstring :=
  baseUrl ++ js "/.api/graphql".

(** ** The transport client

    [executeQuery] is the same function in the two scripts. *)

Definition txt_errors : jsstring := Eval cbv in js "errors".
Definition txt_message : jsstring := Eval cbv in js "message".
Definition txt_data : jsstring := Eval cbv in js "data".
Definition txt_0 : jsstring := Eval cbv in js "0".

(** How the promise of [executeQuery] settles, if it does. *)
Inductive settled : Type :=
| Resolve (v : JSValue)
| Reject (e : Error)
| Pending.

(** The body of the [try] in the handler of the [end] event. *)
Definition read_response (responseData : jsstring) : completion settled :=
  (parsedData <- match JSON_parse responseData with
                 | Some v => Normal (Some v)
                 | None => Abrupt SyntaxError
                 end ;;
   errors <- get_prop parsedData txt_errors ;;
   if truthy errors then
     len <- get_prop errors txt_length ;;
     positive <- greater_than_zero len ;;
     if positive then
       first <- get_prop errors txt_0 ;;
       message <- get_prop first txt_message ;;
       text <- ToString message ;;
       Normal (Reject (GraphQLError text))
     else
       data <- get_prop parsedData txt_data ;;
       Normal (Resolve data)
   else
     data <- get_prop parsedData txt_data ;;
     Normal (Resolve data))%completion.

(** The handler of the [end] event of the response. *)
Definition on_end (statusCode : Z) (responseData : jsstring) : settled :=
  if (400 <=? statusCode)%Z then Reject (HttpError statusCode responseData)
  else
    match read_response responseData with
    | Normal s => s
    | Abrupt e => Reject (ParseResponseError e)
    end.

Definition settle (r : Reply) : settled :=
  match r with
  | Response statusCode responseData => on_end statusCode responseData
  | Failure => Reject RequestError
  | BrokenOff => Pending
  end.

Definition executeQuery (env : Env) (baseUrl accessToken : jsstring)
  (query : jsstring) (variables : JSON) : M JSValue :=
  fun w =>
    let r := mkRequest (graphqlEndpoint baseUrl) accessToken query variables in
    let reply := remote env (posted (events w)) r in
    let w' := emit (Post r reply) w in
    match settle reply with
    | Resolve v => (Returned v, w')
    | Reject e => (Thrown e, w')
    | Pending => (Stalled, w')
    end.

(** *** The end of a run *)

(** The exit status of the process: that of [process.exit], 1 after an
    exception nothing catches, 0 when the script runs to its end, and 0
    as well when it waits for a promise that never settles and nothing
    is left that could settle it. *)
Definition exit_status {A : Type} (o : Outcome A) : Z :=
  match o with
  | Returned _ => 0%Z
  | Thrown _ => 1%Z
  | Exited code => code
  | Stalled => 0%Z
  end.

Definition run (script : M unit) (w : World) : Z * World :=
  let (o, w') := script w in (exit_status o, w').

Definition txt_site : jsstring := Eval cbv in js "site".
Definition txt_configuration : jsstring := Eval cbv in js "configuration".
Definition txt_effectiveContents : jsstring := Eval cbv in js "effectiveContents".
Definition txt_id : jsstring := Eval cbv in js "id".
Definition txt_externalServices : jsstring := Eval cbv in js "externalServices".
Definition txt_nodes : jsstring := Eval cbv in js "nodes".
Definition txt_displayName : jsstring := Eval cbv in js "displayName".
Definition txt_kind : jsstring := Eval cbv in js "kind".
Definition txt_config : jsstring := Eval cbv in js "config".
Definition txt_input : jsstring := Eval cbv in js "input".
Definition txt_timestamp : jsstring := Eval cbv in js "timestamp".
Definition txt_sourcegraphUrl : jsstring := Eval cbv in js "sourcegraphUrl".
Definition txt_siteConfigId : jsstring := Eval cbv in js "siteConfigId".
Definition txt_externalServicesCount : jsstring :=
  Eval cbv in js "externalServicesCount".
Definition txt_targetUrl : jsstring := Eval cbv in js "targetUrl".
Definition txt_status : jsstring := Eval cbv in js "status".
Definition txt_completed : jsstring := Eval cbv in js "completed".

Definition site_config_json : jsstring := Eval cbv in js "site-config.json".
Definition external_services_json : jsstring :=
  Eval cbv in js "external-services.json".
Definition export_summary_json : jsstring := Eval cbv in js "export-summary.json".
Definition import_summary_json : jsstring := Eval cbv in js "import-summary.json".

(** ** export-config.js *)

Module Export_config.

Definition site_config_query : jsstring := js "
    query {
      site {
        configuration {
          id
          effectiveContents
        }
      }
    }
  ".

Definition external_services_query : jsstring := js "
    query {
      externalServices {
        nodes {
          id
          kind
          displayName
          config
        }
      }
    }
  ".

(** [JSON.parse(JSON.stringify(data).replaceAll("REDACTED", "NEEDS_UPDATING"))];
    JSON.stringify(undefined) is undefined, which has no replaceAll. *)
Definition sanitize (data : JSValue) : completion JSValue :=
  match data with
  | None => Abrupt TypeError
  | Some v =>
      match JSON_parse (sanitize_text (JSON_stringify v)) with
      | Some v' => Normal (Some v')
      | None => Abrupt SyntaxError
      end
  end.

(** [JSON.stringify(v, null, 2)], undefined when [v] is. *)
Definition stringify_pretty (v : JSValue) : JSValue :=
  option_map (fun x => JString (JSON_stringify_pretty x)) v.

Section Script.
Variable env : Env.
Variables baseUrl accessToken outputDir : jsstring.

Local Open Scope script_scope.

Definition exportSiteConfig : M JSValue :=
  print ExportingSiteConfig ;;
  data <- executeQuery env baseUrl accessToken site_config_query (JObject []) ;;
  if negb (truthy (get_opt (get_opt data txt_site) txt_configuration))
  then throw (RetrievalError "site configuration")
  else
    sanitizedData <- lift (sanitize data) ;;
    let configPath := path_join outputDir site_config_json in
    site <- lift (get_prop sanitizedData txt_site) ;;
    configuration <- lift (get_prop site txt_configuration) ;;
    config <- lift (get_prop configuration txt_effectiveContents) ;;
    writeFileSync env configPath config ;;
    print (SiteConfigExported configPath) ;;
    id <- lift (get_prop config txt_id) ;;
    ret id.

Definition exportExternalServices : M JSValue :=
  print ExportingExternalServices ;;
  data <- executeQuery env baseUrl accessToken external_services_query
            (JObject []) ;;
  if negb (truthy (get_opt (get_opt data txt_externalServices) txt_nodes))
  then throw (RetrievalError "external services")
  else
    sanitizedData <- lift (sanitize data) ;;
    let servicesPath := path_join outputDir external_services_json in
    externalServices <- lift (get_prop sanitizedData txt_externalServices) ;;
    services <- lift (get_prop externalServices txt_nodes) ;;
    writeFileSync env servicesPath (stringify_pretty services) ;;
    count <- lift (get_prop services txt_length) ;;
    countText <- lift (ToString count) ;;
    print (ExternalServicesExported countText servicesPath) ;;
    ret services.

Definition main : M unit :=
  try_catch
    (siteConfigId <- exportSiteConfig ;;
     externalServices <- exportExternalServices ;;
     externalServicesCount <- lift (get_prop externalServices txt_length) ;;
     let summary :=
       JObject (object_literal
         [(txt_timestamp, Some (JString (clock env)));
          (txt_sourcegraphUrl, Some (JString baseUrl));
          (txt_siteConfigId, siteConfigId);
          (txt_externalServicesCount, externalServicesCount)]) in
     let summaryPath := path_join outputDir export_summary_json in
     writeFileSync env summaryPath (stringify_pretty (Some summary)) ;;
     print (ExportCompleted summaryPath))
    (fun error => print (ExportFailed error) ;; process_exit 1%Z).

End Script.

(** The script from its first line. *)
Definition script (env : Env) : M unit :=
  match argv env with
  | sourcegraphUrl :: accessToken :: outputDir :: _ =>
      (there <- existsSync outputDir ;;
       (if there then ret tt else mkdirSync env outputDir) ;;
       main env (strip_trailing_slash sourcegraphUrl) accessToken outputDir
      )%script
  | _ => (print Usage ;; process_exit 1%Z)%script
  end.

End Export_config.

(** ** import-config.js *)

Module Import_config.

Definition site_config_id_query : jsstring := js "
    query {
      site {
        configuration {
          id
        }
      }
    }
  ".

Definition existing_services_query : jsstring := js "
    query {
      externalServices {
        nodes {
          id
          displayName
          kind
        }
      }
    }
  ".

Definition add_external_service_mutation : jsstring := js "
      mutation AddExternalService($input: AddExternalServiceInput!) {
        addExternalService(input: $input) {
          id
        }
      }
    ".

(** The code points of a string, each as a string: what a [for ... of]
    over a string goes through. *)
Fixpoint code_points (s : jsstring) : list jsstring :=
  match s with
  | [] => []
  | c :: s' =>
      if is_high_surrogate c then
        match s' with
        | d :: s'' =>
            if is_low_surrogate d then [c; d] :: code_points s''
            else [c] :: code_points s'
        | [] => [[c]]
        end
      else [c] :: code_points s'
  end.

(** The values a [for (const x of v)] goes through. *)
Definition iterate (v : JSValue) : completion (list JSON) :=
  match v with
  | Some (JArray items) => Normal items
  | Some (JString s) => Normal (map JString (code_points s))
  | _ => Abrupt TypeError
  end.

(** [items.find(callback)] on the elements of an array. *)
Fixpoint find_first (items : list JSON) (callback : JSValue -> completion bool)
  : completion JSValue :=
  match items with
  | [] => Normal undefined
  | s :: rest =>
      match callback (Some s) with
      | Abrupt e => Abrupt e
      | Normal true => Normal (Some s)
      | Normal false => find_first rest callback
      end
  end.

(** [v.find(callback)]: only an array has the method. *)
Definition find (v : JSValue) (callback : JSValue -> completion bool)
  : completion JSValue :=
  match v with
  | None => Abrupt TypeError
  | Some (JArray items) => find_first items callback
  | Some _ => Abrupt TypeError
  end.

(** [s => s.displayName === service.displayName && s.kind === service.kind] *)
Definition same_service (service s : JSValue) : completion bool :=
  (a <- get_prop s txt_displayName ;;
   b <- get_prop service txt_displayName ;;
   if strict_eq a b then
     c <- get_prop s txt_kind ;;
     d <- get_prop service txt_kind ;;
     Normal (strict_eq c d)
   else Normal false)%completion.

(** The variables of the mutation for one service. *)
Definition add_variables (displayName kind config : JSValue) : JSON :=
  JObject (object_literal
    [(txt_input,
      Some (JObject (object_literal
        [(txt_displayName, displayName);
         (txt_kind, kind);
         (txt_config, config)])))]).

(** [data?.externalServices?.nodes || []] *)
Definition existing_services (data : JSValue) : JSValue :=
  let nodes := get_opt (get_opt data txt_externalServices) txt_nodes in
  if truthy nodes then nodes else Some (JArray []).

Section Script.
Variable env : Env.
Variables baseUrl accessToken inputDir : jsstring.

Let siteConfigPath := path_join inputDir site_config_json.
Let externalServicesPath := path_join inputDir external_services_json.

Local Open Scope script_scope.

(** Defined in the script and never called. *)
Definition getCurrentSiteConfigId : M JSValue :=
  print GettingSiteConfigId ;;
  data <- executeQuery env baseUrl accessToken site_config_id_query (JObject []) ;;
  if negb (truthy (get_opt (get_opt (get_opt data txt_site) txt_configuration)
                     txt_id))
  then throw (RetrievalError "current site configuration ID")
  else
    site <- lift (get_prop data txt_site) ;;
    configuration <- lift (get_prop site txt_configuration) ;;
    lift (get_prop configuration txt_id).

(** The body of the loop over the services of the file, from the
    service [service] on, with the two counters. *)
Fixpoint import_services (existingServices : JSValue) (services : list JSON)
  (added skipped : nat) : M (nat * nat) :=
  match services with
  | [] => ret (added, skipped)
  | service :: rest =>
      existingService <- lift (find existingServices (same_service (Some service))) ;;
      if truthy existingService then
        displayName <- lift (get_prop (Some service) txt_displayName) ;;
        nameText <- lift (ToString displayName) ;;
        kind <- lift (get_prop (Some service) txt_kind) ;;
        kindText <- lift (ToString kind) ;;
        print (Skipping nameText kindText) ;;
        import_services existingServices rest added (S skipped)
      else
        displayName <- lift (get_prop (Some service) txt_displayName) ;;
        kind <- lift (get_prop (Some service) txt_kind) ;;
        config <- lift (get_prop (Some service) txt_config) ;;
        executeQuery env baseUrl accessToken add_external_service_mutation
          (add_variables displayName kind config) ;;
        displayName' <- lift (get_prop (Some service) txt_displayName) ;;
        nameText <- lift (ToString displayName') ;;
        kind' <- lift (get_prop (Some service) txt_kind) ;;
        kindText <- lift (ToString kind') ;;
        print (Added nameText kindText) ;;
        import_services existingServices rest (S added) skipped
  end.

Definition importExternalServices : M unit :=
  print Importing ;;
  text <- readFileSync env externalServicesPath ;;
  services <- lift (match JSON_parse text with
                    | Some v => Normal (Some v)
                    | None => Abrupt SyntaxError
                    end) ;;
  data <- executeQuery env baseUrl accessToken existing_services_query
            (JObject []) ;;
  let existingServices := existing_services data in
  count <- lift (get_prop existingServices txt_length) ;;
  countText <- lift (ToString count) ;;
  print (Found countText) ;;
  items <- lift (iterate services) ;;
  counts <- import_services existingServices items 0 0 ;;
  print (Imported (fst counts) (snd counts)).

Definition main : M unit :=
  try_catch
    (importExternalServices ;;
     let summary :=
       JObject [(txt_timestamp, JString (clock env));
                (txt_targetUrl, JString baseUrl);
                (txt_status, JString txt_completed)] in
     let summaryPath := path_join inputDir import_summary_json in
     writeFileSync env summaryPath (Some (JString (JSON_stringify_pretty summary))) ;;
     print (ImportCompleted summaryPath))
    (fun error => print (ImportFailed error) ;; process_exit 1%Z).

End Script.

(** The script from its first line. *)
Definition script (env : Env) : M unit :=
  match argv env with
  | targetUrl :: accessToken :: inputDir :: _ =>
      (there <- existsSync inputDir ;;
       if negb there
       then print (InputDirectoryMissing inputDir) ;; process_exit 1%Z
       else
         let siteConfigPath := path_join inputDir site_config_json in
         let externalServicesPath := path_join inputDir external_services_json in
         there <- existsSync siteConfigPath ;;
         if negb there
         then print (SiteConfigFileMissing siteConfigPath) ;; process_exit 1%Z
         else
           there <- existsSync externalServicesPath ;;
           if negb there
           then print (ExternalServicesFileMissing externalServicesPath) ;;
                process_exit 1%Z
           else main env (strip_trailing_slash targetUrl) accessToken inputDir
      )%script
  | _ => (print Usage ;; process_exit 1%Z)%script
  end.

End Import_config.

(** ** Reading a trace *)

(** The promise of the request settles with a rejection. *)
Definition rejects (reply : Reply) : bool :=
  match settle reply with
  | Reject _ => true
  | _ => false
  end.

(** The promise of the request never settles. *)
Definition breaks_off (reply : Reply) : bool :=
  match settle reply with
  | Pending => true
  | _ => false
  end.

(** The promise of the request is resolved. *)
Definition resolves (reply : Reply) : bool :=
  match settle reply with
  | Resolve _ => true
  | _ => false
  end.

(** Some request of the trace was rejected. *)
Fixpoint has_failure (evs : list Event) : bool :=
  match evs with
  | [] => false
  | Post _ reply :: rest => rejects reply || has_failure rest
  | _ :: rest => has_failure rest
  end.

(** Some request of the trace broke off. *)
Fixpoint has_break (evs : list Event) : bool :=
  match evs with
  | [] => false
  | Post _ reply :: rest => breaks_off reply || has_break rest
  | _ :: rest => has_break rest
  end.

(** No request follows one that was not resolved. *)
Fixpoint stops_at_failure (evs : list Event) : bool :=
  match evs with
  | [] => true
  | Post _ reply :: rest =>
      (if resolves reply then true else is_nil (posted rest))
      && stops_at_failure rest
  | _ :: rest => stops_at_failure rest
  end.

(** The last event is a request that broke off. *)
Definition ends_with_break (evs : list Event) : Prop :=
  exists pre r reply, evs = pre ++ [Post r reply] /\ breaks_off reply = true.

(** The files read among the events. *)
Fixpoint reads (evs : list Event) : list path :=
  match evs with
  | [] => []
  | Read p :: rest => p :: reads rest
  | _ :: rest => reads rest
  end.

(** The lines printed among the events. *)
Fixpoint printed (evs : list Event) : list Console :=
  match evs with
  | [] => []
  | Print c :: rest => c :: printed rest
  | _ :: rest => printed rest
  end.

(** A run starts with the files it finds and no event. *)
Definition initial (fs : path -> option FsNode) : World := mkWorld fs [].

(** *** The requests of the importer *)

Definition list_request (baseUrl accessToken : jsstring) : Request :=
  mkRequest (graphqlEndpoint baseUrl) accessToken
    Import_config.existing_services_query (JObject []).

(** The mutation that creates [service]. *)
Definition add_request (baseUrl accessToken : jsstring) (service : JSON) : Request :=
  mkRequest (graphqlEndpoint baseUrl) accessToken
    Import_config.add_external_service_mutation
    (Import_config.add_variables
       (get_opt (Some service) txt_displayName)
       (get_opt (Some service) txt_kind)
       (get_opt (Some service) txt_config)).

(** The variables of a creation carry [service]: their only member is an
    input whose members are the [displayName], the [kind] and the
    [config] of [service], those of the three that [service] has, in
    this order, and no other member. *)
Definition carries (variables : JSON) (service : JSON) : Prop :=
  exists input,
    variables = JObject [(txt_input, JObject input)]
    /\ map fst input
       = filter (fun k => is_some (get_opt (Some service) k))
           [txt_displayName; txt_kind; txt_config]
    /\ forall k, In k [txt_displayName; txt_kind; txt_config] ->
                 lookup input k = get_opt (Some service) k.

(** The loop finds [service] among the existing services [items]. *)
Definition already_there (items : list JSON) (service : JSON) : bool :=
  match Import_config.find_first items (Import_config.same_service (Some service)) with
  | Normal v => truthy v
  | Abrupt _ => false
  end.

(** The loop can print [service]: it is not null, and its [displayName]
    and its [kind] have texts. *)
Definition printable (service : JSON) : bool :=
  match service with
  | JNull => false
  | _ =>
      match ToString (get_opt (Some service) txt_displayName),
            ToString (get_opt (Some service) txt_kind) with
      | Normal _, Normal _ => true
      | _, _ => false
      end
  end.

(** [v] is an object whose [displayName] and [kind] are the strings
    [name] and [kind]. *)
Definition names (v : JSON) (name kind : jsstring) : Prop :=
  exists members,
    v = JObject members
    /\ lookup members txt_displayName = Some (JString name)
    /\ lookup members txt_kind = Some (JString kind).

(** The requests [importExternalServices] may post when the files are
    [fs]: the query for the services of the target, and the creation of a
    service of the external-services file. *)
Definition import_request (baseUrl accessToken inputDir : jsstring)
  (fs : path -> option FsNode) (r : Request) : Prop :=
  r = list_request baseUrl accessToken
  \/ exists text v items service,
       fs (path_join inputDir external_services_json) = Some (File text)
       /\ JSON_parse text = Some v
       /\ Import_config.iterate (Some v) = Normal items
       /\ In service items
       /\ r = add_request baseUrl accessToken service.

(** The text of the import summary. *)
Definition import_summary (env : Env) (baseUrl : jsstring) : jsstring :=
  JSON_stringify_pretty
    (JObject [(txt_timestamp, JString (clock env));
              (txt_targetUrl, JString baseUrl);
              (txt_status, JString txt_completed)]).

(** [calm fs P R c Q]: run from a world whose files are [fs], [c] changes
    and writes no file, reads files in [R] only, posts requests in [P]
    only, posts nothing after a request that was not resolved, throws
    when a request was rejected, stalls right after a request that broke
    off and in no other case, never exits, and returns values in [Q]. *)
Definition calm (fs : path -> option FsNode) (P : Request -> Prop)
  (R : path -> Prop) {A : Type} (c : M A) (Q : A -> Prop) : Prop :=
  forall w o w',
    files w = fs -> c w = (o, w') ->
    exists new,
      events w' = events w ++ new
      /\ files w' = fs
      /\ written new = []
      /\ Forall R (reads new)
      /\ stops_at_failure new = true
      /\ (has_failure new = true -> exists e, o = Thrown e)
      /\ (has_break new = true -> o = Stalled)
      /\ (o = Stalled -> ends_with_break new)
      /\ (forall code, o <> Exited code)
      /\ Forall P (posted new)
      /\ (forall a, o = Returned a -> Q a).


(** The lines that report a failure. *)
Definition failure_line (c : Console) : bool :=
  match c with
  | Usage => true
  | InputDirectoryMissing _ => true
  | SiteConfigFileMissing _ => true
  | ExternalServicesFileMissing _ => true
  | ImportFailed _ => true
  | ExportFailed _ => true
  | _ => false
  end.

(** [same_but p w w']: the two worlds have seen the same events and hold
    the same files, but for what the file at [p] holds. *)
Definition same_but (p : path) (w w' : World) : Prop :=
  events w = events w'
  /\ (forall q, q <> p -> files w q = files w' q)
  /\ is_some (files w p) = is_some (files w' p).

(** [blind p c]: what [c] does and returns does not depend on what the
    file at [p] holds. *)
Definition blind (p : path) {A : Type} (c : M A) : Prop :=
  forall w w',
    same_but p w w' ->
    fst (c w) = fst (c w') /\ same_but p (snd (c w)) (snd (c w')).

(** *** The transport client as the specification states it

    A status of 400 or more: a transport error with the status and the
    body.  Else a body that does not parse: a decode error.  Else a list
    of errors that is not empty: a remote error with the message of the
    first.  Else the [data] of the envelope. *)

(** The text of a message, empty where it has none. *)
Definition message_text (message : JSValue) : jsstring :=
  match ToString message with
  | Normal text => text
  | Abrupt _ => []
  end.

Definition stated_on_end (statusCode : Z) (responseData : jsstring) : settled :=
  if (400 <=? statusCode)%Z then Reject (HttpError statusCode responseData)
  else
    match JSON_parse responseData with
    | None => Reject (ParseResponseError SyntaxError)
    | Some envelope =>
        match get_opt (Some envelope) txt_errors with
        | Some (JArray (first :: _)) =>
            Reject (GraphQLError (message_text (get_opt (Some first) txt_message)))
        | _ => Resolve (get_opt (Some envelope) txt_data)
        end
    end.

(** ** Sample data

    A directory of exported files, and remote instances that answer as a
    Sourcegraph instance does. *)

Definition sample_service (name kind config : string) : JSON :=
  JObject [(txt_id, JString (js "RXh0ZXJuYWxTZXJ2aWNlOjE="));
           (txt_kind, JString (js kind));
           (txt_displayName, JString (js name));
           (txt_config, JString (js config))].

Definition github : JSON :=
  sample_service "github" "GITHUB" "{ url: https://github.com, token: REDACTED }".
Definition gitlab : JSON :=
  sample_service "gitlab" "GITLAB" "{ url: https://gitlab.com, token: REDACTED }".

(** The body of a response whose [data] is [data]. *)
Definition envelope (data : JSON) : jsstring :=
  JSON_stringify (JObject [(txt_data, data)]).

Definition services_data (nodes : list JSON) : JSON :=
  JObject [(txt_externalServices, JObject [(txt_nodes, JArray nodes)])].

Definition site_data (id : JSON) (contents : string) : JSON :=
  JObject [(txt_site,
            JObject [(txt_configuration,
                      JObject [(txt_id, id);
                               (txt_effectiveContents, JString (js contents))])])].

Definition created : Reply :=
  Response 200 (envelope (JObject [(js "addExternalService",
                                    JObject [(txt_id, JString (js "RXh0ZXJuYWxTZXJ2aWNlOjI="))])])).

(** A target that holds the services [existing] and accepts every
    creation. *)
Definition target (existing : list JSON) (hist : list Request) (r : Request) : Reply :=
  if jsstring_eqb (req_query r) Import_config.existing_services_query
  then Response 200 (envelope (services_data existing))
  else created.


(** A source that answers the two queries of the exporter. *)
Definition source (site : JSON) (nodes : list JSON) (hist : list Request)
  (r : Request) : Reply :=
  if jsstring_eqb (req_query r) Export_config.site_config_query
  then Response 200 (envelope site)
  else Response 200 (envelope (services_data nodes)).

Definition backup : jsstring := Eval cbv in js "backup".

(** The directory [backup] with a site configuration and the text
    [services] as external-services file. *)
Definition backup_files (services : jsstring) (p : path) : option FsNode :=
  if jsstring_eqb p backup then Some Directory
  else if jsstring_eqb p (path_join backup site_config_json)
       then Some (File (js "{ }"))
       else if jsstring_eqb p (path_join backup external_services_json)
            then Some (File services)
            else None.

Definition no_files (p : path) : option FsNode := None.

Definition sample_env (remote : list Request -> Request -> Reply) : Env :=
  mkEnv [js "https://sourcegraph.example.com/"; js "sgp_0123456789abcdef"; backup]
    (js "2025-01-01T00:00:00.000Z") remote (fun _ => false).

Definition sample_url : jsstring := Eval cbv in js "https://sourcegraph.example.com".
Definition sample_token : jsstring := Eval cbv in js "sgp_0123456789abcdef".

(** A service that was imported before and not updated since: its name
    still says so. *)
Definition stale : JSON :=
  sample_service "gitlab (NEEDS_UPDATING)" "GITLAB"
    "{ url: https://gitlab.com, token: REDACTED }".

Definition sample_site : JSON :=
  site_data (JNumber (js "17")) "{ auth.providers: [ { clientSecret: REDACTED } ] }".

(** A service one of whose members is named by the redaction sentinel
    and another by the replacement sentinel. *)
Definition colliding : JSON :=
  JObject [(txt_displayName, JString (js "github"));
           (js "REDACTED", JString (js "first"));
           (js "NEEDS_UPDATING", JString (js "second"))].


(** A target as [target], but the answer to the request that follows [n]
    others breaks off after its headers. *)
Definition breaking_target (existing : list JSON) (n : nat)
  (hist : list Request) (r : Request) : Reply :=
  if Nat.eqb (length hist) n then BrokenOff
  else target existing hist r.



(** The creation of a service with these members, written out. *)
Definition sample_creation (name kind config : string) : Request :=
  mkRequest (js "https://sourcegraph.example.com/.api/graphql")
    (js "sgp_0123456789abcdef")
    Import_config.add_external_service_mutation
    (JObject [(js "input",
               JObject [(js "displayName", JString (js name));
                        (js "kind", JString (js kind));
                        (js "config", JString (js config))])]).

(** ** The rewrite of the sentinel, on values

    What the textual replacement does to the value that is serialized and
    read again: every string of it, member names included, is rewritten,
    and a number that is not finite, written as [null], is read as
    null. *)
Fixpoint sanitize_value (v : JSON) : JSON :=
  match v with
  | JNumber text => if is_infinite text then JNull else JNumber text
  | JString s => JString (sanitize_text s)
  | JArray items => JArray (map sanitize_value items)
  | JObject members =>
      JObject (map (fun m => (sanitize_text (fst m), sanitize_value (snd m)))
                 members)
  | other => other
  end.

(** A code unit of [REDACTED]. *)
Definition in_redacted (c : unit16) : bool := existsb (N.eqb c) REDACTED.

(** The characters of a number literal. *)
Definition number_char (c : unit16) : bool :=
  (is_digit c || (c =? 43) || (c =? 45) || (c =? 46) || (c =? 101))%N.

Section All.
Context {A : Type} (P : A -> Prop).

(** [P] holds of every element of the list. *)
Fixpoint all_of (l : list A) : Prop :=
  match l with
  | [] => True
  | x :: l' => P x /\ all_of l'
  end.
End All.

(** The text of a number: the text of a number that is not finite, or
    a JSON literal; and the text that is written for the number it
    denotes. *)
Definition number_form (text : jsstring) : Prop :=
  (is_infinite text = true \/ lex_number text = Some (text, []))
  /\ canonical_literal text = text.

(** The values JSON.parse returns: a number has the text of a number,
    the members of an object have different names and are in the order
    of the properties of an object. *)
Fixpoint well_formed (v : JSON) : Prop :=
  match v with
  | JNumber text => number_form text
  | JArray items => all_of well_formed items
  | JObject members =>
      NoDup (map fst members)
      /\ own_property_order members = members
      /\ all_of (fun m => well_formed (snd m)) members
  | _ => True
  end.

(** The members of an object that is being read: different names, values
    that are well formed, in the order of their creation. *)
Definition members_so_far (m : list (jsstring * JSON)) : Prop :=
  NoDup (map fst m) /\ all_of (fun x => well_formed (snd x)) m.

(** Every number of the value is finite. *)
Fixpoint finite (v : JSON) : Prop :=
  match v with
  | JNumber text => is_infinite text = false
  | JArray items => all_of finite items
  | JObject members => all_of (fun m => finite (snd m)) members
  | _ => True
  end.

(** Every number of the value has the text of a number. *)
Fixpoint numbered (v : JSON) : Prop :=
  match v with
  | JNumber text => number_form text
  | JArray items => all_of numbered items
  | JObject members => all_of (fun m => numbered (snd m)) members
  | _ => True
  end.

(** The members an object gets from members that are read one after the
    other: CreateDataProperty for each in its turn. *)
Definition collect (members : list (jsstring * JSON)) : list (jsstring * JSON) :=
  fold_left (fun acc m => obj_set acc (fst m) (snd m)) members [].

(** What JSON.parse makes of the text that JSON.stringify writes for
    [v], also when two members of an object of [v] have one name: the
    first of them keeps its place and the last its value. *)
Fixpoint reparse (v : JSON) : JSON :=
  match v with
  | JArray items => JArray (map reparse items)
  | JObject members =>
      JObject (own_property_order
                 (collect (map (fun m => (fst m, reparse (snd m))) members)))
  | other => other
  end.

(** No string of the value, and no member name, holds the sentinel. *)
Fixpoint clean (v : JSON) : Prop :=
  match v with
  | JString s => occurrences REDACTED s = 0
  | JArray items => all_of clean items
  | JObject members =>
      all_of (fun m => occurrences REDACTED (fst m) = 0 /\ clean (snd m)) members
  | _ => True
  end.

(** The rewrite of the sentinel makes no two member names of an object
    of the value the same. *)
Fixpoint apart (v : JSON) : Prop :=
  match v with
  | JArray items => all_of apart items
  | JObject members =>
      NoDup (map (fun m => sanitize_text (fst m)) members)
      /\ all_of (fun m => apart (snd m)) members
  | _ => True
  end.

(** Fuel that [parse_value] needs to read back the text of a value: one
    more than the elements before a value and the levels above it. *)
Fixpoint parse_need (v : JSON) : nat :=
  match v with
  | JArray items =>
      S (fold_right (fun x n => S (Nat.max (parse_need x) n)) 0 items)
  | JObject members =>
      S (fold_right (fun m n => S (Nat.max (parse_need (snd m)) n)) 0 members)
  | _ => 1
  end.

(** What follows a number literal does not go on with it. *)
Definition number_ends (rest : jsstring) : Prop :=
  match rest with
  | [] => True
  | c :: _ => (is_digit c || (c =? 46) || (c =? 101) || (c =? 69))%N = false
  end.

(** ** More of the scripts: devices for what follows the claims *)

(** A text of white space, as JSON.stringify puts between tokens. *)
Definition blank (s : jsstring) : Prop := Forall (fun c => is_ws c = true) s.

(** The text of [v], written with the gap [gap] at any indentation and
    followed by [rest], is read back as [v]. *)
Definition reads_back_with (gap : jsstring) (v : JSON) : Prop :=
  well_formed v -> finite v ->
  forall indent fuel (rest : jsstring),
    blank indent -> parse_need v <= fuel -> number_ends rest ->
    parse_value fuel (serialize gap indent v ++ rest) = Parsed v rest.

(** *** The requests and the files of the exporter *)

Definition site_request (baseUrl accessToken : jsstring) : Request :=
  mkRequest (graphqlEndpoint baseUrl) accessToken
    Export_config.site_config_query (JObject []).

Definition services_request (baseUrl accessToken : jsstring) : Request :=
  mkRequest (graphqlEndpoint baseUrl) accessToken
    Export_config.external_services_query (JObject []).

(** The text of the export summary when [exportSiteConfig] has returned
    undefined and the length of the services is [count]: JSON.stringify
    leaves out [siteConfigId], and the count when it is undefined. *)
Definition export_summary (env : Env) (baseUrl : jsstring) (count : JSValue)
  : jsstring :=
  JSON_stringify_pretty
    (JObject (object_literal
       [(txt_timestamp, Some (JString (clock env)));
        (txt_sourcegraphUrl, Some (JString baseUrl));
        (txt_siteConfigId, undefined);
        (txt_externalServicesCount, count)])).

(** *** What a file keeps of a text *)

Definition is_surrogate (c : unit16) : bool :=
  is_high_surrogate c || is_low_surrogate c.

(** A code unit that [toWellFormed] neither changes nor puts in. *)
Definition plain_unit (c : unit16) : bool :=
  negb (is_surrogate c) && negb (c =? 65533)%N.

(** *** What the inductions on a value carry *)

(** The order of the integer-like names of an object. *)
Definition index_le (x y : jsstring * JSON) : Prop :=
  (index_of x <= index_of y)%N.

(** The first code unit of the text of a value: no white space, no
    closing bracket. *)
Definition opens_value (c : unit16) : Prop :=
  is_ws c = false /\ (c =? 93)%N = false /\ (c =? 125)%N = false.

(** What the induction on the text of a value gives for the elements of
    an array and the values of the members of an object. *)
Definition reads_back (v : JSON) : Prop :=
  well_formed v -> finite v ->
  forall fuel rest,
    parse_need v <= fuel -> number_ends rest ->
    parse_value fuel (serialize [] [] v ++ rest) = Parsed v rest.

(** The same, for a value in which two members of an object may have
    one name. *)
Definition reads_again (v : JSON) : Prop :=
  numbered v -> finite v ->
  forall fuel rest,
    parse_need v <= fuel -> number_ends rest ->
    parse_value fuel (serialize [] [] v ++ rest) = Parsed (reparse v) rest.

(** *** Facts on prefixes *)

Lemma jsstring_eqb_eq a b : jsstring_eqb a b = true <-> a = b.
Proof.
  revert b; induction a as [|x a IH]; intros [|y b]; simpl; split; intro H;
    try congruence; try discriminate.
  - apply andb_true_iff in H as [H1 H2]. apply N.eqb_eq in H1.
    apply IH in H2. congruence.
  - inversion H; subst. rewrite N.eqb_refl. simpl. now apply IH.
Qed.

Lemma jsstring_eqb_refl a : jsstring_eqb a a = true.
Proof. now apply jsstring_eqb_eq. Qed.

Lemma is_prefix_app p s : is_prefix p (p ++ s) = true.
Proof. induction p as [|x p IH]; simpl; auto. now rewrite N.eqb_refl. Qed.

Lemma is_prefix_split p s :
  is_prefix p s = true -> exists s', s = p ++ s'.
Proof.
  revert s; induction p as [|x p IH]; intros s H.
  - now exists s.
  - destruct s as [|y s]; simpl in H; [discriminate|].
    apply andb_true_iff in H as [H1 H2]. apply N.eqb_eq in H1. subst y.
    destruct (IH _ H2) as [s' ->]. now exists s'.
Qed.

Lemma agree_false_prefix q b rest :
  agree q b = false -> is_prefix q (b ++ rest) = false.
Proof.
  revert b; induction q as [|x q IH]; intros [|y b] H; simpl in *;
    try discriminate.
  destruct (N.eqb x y); simpl in *; auto.
Qed.

Lemma occurrences_cons pat c s :
  occurrences pat (c :: s) =
  (if is_prefix pat (c :: s) then 1 else 0) + occurrences pat s.
Proof. reflexivity. Qed.

Lemma occurrences_block p b rest :
  b <> [] -> clear_of p b = true ->
  occurrences p (b ++ rest) =
  (if is_prefix p (b ++ rest) then 1 else 0) + occurrences p rest.
Proof.
  unfold clear_of. induction b as [|x b IH]; intros Hne Hc; [congruence|].
  destruct b as [|y b].
  - reflexivity.
  - change ((x :: y :: b) ++ rest) with (x :: (y :: b) ++ rest).
    rewrite occurrences_cons.
    simpl proper_tails in Hc. simpl forallb in Hc.
    apply andb_true_iff in Hc as [H1 H2].
    rewrite IH; [|discriminate|exact H2].
    apply negb_true_iff in H1.
    rewrite (agree_false_prefix _ _ rest H1). reflexivity.
Qed.

(** *** The recursion of replaceAll *)

Lemma replace_from_skip pat rep a s :
  replace_from pat rep (length a) (a ++ s) = replace_from pat rep 0 s.
Proof. induction a as [|x a IH]; simpl; auto. Qed.

Section Replace.
Variables pat rep : jsstring.
Hypothesis pat_nonempty : pat <> [].

Let repl := replace_from pat rep 0.

Lemma replace_nil : repl [] = [].
Proof. reflexivity. Qed.

Lemma replace_match s : repl (pat ++ s) = rep ++ repl s.
Proof.
  unfold repl. destruct pat as [|p pt] eqn:E; [congruence|].
  change ((p :: pt) ++ s) with (p :: pt ++ s).
  cbn [replace_from].
  change (p :: pt ++ s) with ((p :: pt) ++ s).
  rewrite is_prefix_app.
  replace (length (p :: pt) - 1) with (length pt) by (simpl; lia).
  now rewrite replace_from_skip.
Qed.

Lemma replace_step c s :
  is_prefix pat (c :: s) = false -> repl (c :: s) = c :: repl s.
Proof. unfold repl. cbn [replace_from]. now intros ->. Qed.

(** Induction following the way replaceAll scans its input. *)
Lemma replace_ind (P : jsstring -> Prop) :
  P [] ->
  (forall s, P s -> P (pat ++ s)) ->
  (forall c s, is_prefix pat (c :: s) = false -> P s -> P (c :: s)) ->
  forall s, P s.
Proof.
  intros Hnil Hmatch Hstep s.
  remember (length s) as n eqn:En.
  revert s En. induction n as [n IH] using lt_wf_ind. intros s En.
  destruct s as [|c s]; [exact Hnil|].
  destruct (is_prefix pat (c :: s)) eqn:E.
  - destruct (is_prefix_split _ _ E) as [s' Es']. rewrite Es'.
    apply Hmatch. apply (IH (length s')); [|reflexivity].
    subst n. rewrite Es', length_app.
    destruct pat; [congruence|simpl; lia].
  - apply Hstep; [exact E|]. apply (IH (length s)); [|reflexivity].
    subst n. simpl. lia.
Qed.

(** A string that clashes with both sentinels at each of its positions is
    a prefix of the output exactly when it is a prefix of the input. *)
Lemma is_prefix_replace q :
  inert pat rep q = true -> forall t, is_prefix q (repl t) = is_prefix q t.
Proof.
  induction q as [|x q IH]; intros Hq t; [reflexivity|].
  cbn [inert] in Hq.
  apply andb_true_iff in Hq as [Hq H3].
  apply andb_true_iff in Hq as [H1 H2].
  apply negb_true_iff in H1, H2.
  destruct t as [|c t]; [reflexivity|].
  destruct (is_prefix pat (c :: t)) eqn:E.
  - destruct (is_prefix_split _ _ E) as [t' ->].
    rewrite replace_match.
    rewrite (agree_false_prefix _ _ _ H1).
    now rewrite (agree_false_prefix _ _ _ H2).
  - rewrite (replace_step _ _ E). simpl. now rewrite IH.
Qed.

Hypothesis pat_border_free : clear_of pat pat = true.
Hypothesis rep_border_free : clear_of rep rep = true.
Hypothesis pat_not_in_rep : agree pat rep = false /\ clear_of pat rep = true.
Hypothesis rep_not_in_pat : agree rep pat = false /\ clear_of rep pat = true.
Hypothesis pat_tail_inert : inert pat rep (tl pat) = true.
Hypothesis rep_tail_inert : inert pat rep (tl rep) = true.
Hypothesis rep_nonempty : rep <> [].

Lemma is_prefix_tl_replace p c s :
  inert pat rep (tl p) = true ->
  is_prefix p (c :: repl s) = is_prefix p (c :: s).
Proof.
  destruct p as [|x p]; [reflexivity|]. simpl tl. intro H.
  simpl. now rewrite (is_prefix_replace _ H).
Qed.

(** No occurrence of the pattern is left. *)
Lemma occurrences_pat_replace s : occurrences pat (repl s) = 0.
Proof.
  induction s as [| s IH | c s E IH] using replace_ind.
  - rewrite replace_nil. simpl. destruct pat; [congruence|reflexivity].
  - rewrite replace_match.
    rewrite occurrences_block; [|exact rep_nonempty|apply pat_not_in_rep].
    rewrite (agree_false_prefix _ _ _ (proj1 pat_not_in_rep)).
    exact IH.
  - rewrite (replace_step _ _ E), occurrences_cons, IH.
    rewrite (is_prefix_tl_replace _ _ _ pat_tail_inert), E. reflexivity.
Qed.

(** Every occurrence of the pattern becomes one of the replacement, and
    the occurrences of the replacement that were there stay. *)
Lemma occurrences_rep_replace s :
  occurrences rep (repl s) = occurrences pat s + occurrences rep s.
Proof.
  induction s as [| s IH | c s E IH] using replace_ind.
  - rewrite replace_nil. simpl.
    destruct pat; [congruence|]. destruct rep; [congruence|reflexivity].
  - rewrite replace_match.
    rewrite (occurrences_block rep rep _ rep_nonempty rep_border_free).
    rewrite (occurrences_block pat pat _ pat_nonempty pat_border_free).
    rewrite (occurrences_block rep pat _ pat_nonempty (proj2 rep_not_in_pat)).
    rewrite !is_prefix_app.
    rewrite (agree_false_prefix _ _ _ (proj1 rep_not_in_pat)).
    rewrite IH. lia.
  - rewrite (replace_step _ _ E), !occurrences_cons, IH, E.
    rewrite (is_prefix_tl_replace _ _ _ rep_tail_inert). lia.
Qed.

End Replace.

(** The sentinels of the exporter fulfil the side conditions above. *)
Lemma sanitize_text_no_redacted s :
  occurrences REDACTED (sanitize_text s) = 0.
Proof.
  unfold sanitize_text, replaceAll, REDACTED at 2.
  apply occurrences_pat_replace; try discriminate; repeat split; reflexivity.
Qed.

Lemma sanitize_text_count s :
  occurrences NEEDS_UPDATING (sanitize_text s) =
  occurrences REDACTED s + occurrences NEEDS_UPDATING s.
Proof.
  unfold sanitize_text, replaceAll, REDACTED at 1.
  apply occurrences_rep_replace; try discriminate; repeat split; reflexivity.
Qed.

(** ** Numbers that are not finite *)

Lemma is_infinite_spec text :
  is_infinite text = true <-> text = txt_Infinity \/ text = txt_minus_Infinity.
Proof.
  unfold is_infinite. rewrite orb_true_iff, !jsstring_eqb_eq. tauto.
Qed.

Lemma is_infinite_false text :
  is_infinite text = false ->
  jsstring_eqb text txt_Infinity = false
  /\ jsstring_eqb text txt_minus_Infinity = false.
Proof. unfold is_infinite. intro H. now apply orb_false_iff in H. Qed.

(** A JSON literal is the text of no number that is not finite. *)
Lemma lex_number_finite s literal r :
  lex_number s = Some (literal, r) -> is_infinite s = false.
Proof.
  intro H. destruct (is_infinite s) eqn:E; [|reflexivity].
  apply is_infinite_spec in E as [-> | ->]; vm_compute in H; discriminate.
Qed.

Lemma digit_head_finite d ds : is_digit d = true -> is_infinite (d :: ds) = false.
Proof.
  intro Hd. unfold is_digit in Hd. apply andb_true_iff in Hd as [H1 H2].
  apply N.leb_le in H1, H2.
  destruct (is_infinite (d :: ds)) eqn:E; [|reflexivity].
  apply is_infinite_spec in E as [E|E]; inversion E; subst; lia.
Qed.

(** ** Steps of a script and their traces *)

(** Induction on a value, with the elements and the members of it. *)
Lemma JSON_induction (P : JSON -> Prop) :
  P JNull ->
  (forall b, P (JBool b)) ->
  (forall literal, P (JNumber literal)) ->
  (forall s, P (JString s)) ->
  (forall items, Forall P items -> P (JArray items)) ->
  (forall members, Forall (fun m => P (snd m)) members -> P (JObject members)) ->
  forall v, P v.
Proof.
  intros Hnull Hbool Hnum Hstr Harr Hobj.
  fix IH 1. intros [ |b|literal|s|items|members].
  - exact Hnull.
  - apply Hbool.
  - apply Hnum.
  - apply Hstr.
  - apply Harr. induction items as [|x items IHitems]; constructor.
    + apply IH.
    + exact IHitems.
  - apply Hobj. induction members as [|m members IHmembers]; constructor.
    + apply IH.
    + exact IHmembers.
Qed.

Lemma all_of_Forall {A} (P : A -> Prop) l : all_of P l <-> Forall P l.
Proof.
  induction l as [|x l IH]; simpl; split; intro H; auto.
  - destruct H. constructor; tauto.
  - inversion H; subst. tauto.
Qed.


Lemma posted_app a b : posted (a ++ b) = posted a ++ posted b.
Proof.
  induction a as [|e a IH]; simpl; auto. destruct e; simpl; auto.
  now rewrite IH.
Qed.

Lemma written_app a b : written (a ++ b) = written a ++ written b.
Proof.
  induction a as [|e a IH]; simpl; auto. destruct e; simpl; auto.
  now rewrite IH.
Qed.

Lemma reads_app a b : reads (a ++ b) = reads a ++ reads b.
Proof.
  induction a as [|e a IH]; simpl; auto. destruct e; simpl; auto.
  now rewrite IH.
Qed.

Lemma printed_app a b : printed (a ++ b) = printed a ++ printed b.
Proof.
  induction a as [|e a IH]; simpl; auto. destruct e; simpl; auto.
  now rewrite IH.
Qed.

Lemma has_failure_app a b :
  has_failure (a ++ b) = has_failure a || has_failure b.
Proof.
  induction a as [|e a IH]; simpl; auto. destruct e; simpl; auto.
  now rewrite IH, orb_assoc.
Qed.

Lemma has_break_app a b :
  has_break (a ++ b) = has_break a || has_break b.
Proof.
  induction a as [|e a IH]; simpl; auto. destruct e; simpl; auto.
  now rewrite IH, orb_assoc.
Qed.

(** A promise is resolved, is rejected, or stays pending. *)
Lemma settle_cases reply :
  (resolves reply = true /\ rejects reply = false /\ breaks_off reply = false)
  \/ (resolves reply = false /\ rejects reply = true /\ breaks_off reply = false)
  \/ (resolves reply = false /\ rejects reply = false /\ breaks_off reply = true).
Proof. unfold resolves, rejects, breaks_off. destruct (settle reply); auto. Qed.

Lemma resolves_settle reply :
  resolves reply = true -> exists v, settle reply = Resolve v.
Proof. unfold resolves. destruct (settle reply); try discriminate. eauto. Qed.

Lemma settle_resolves reply v : settle reply = Resolve v -> resolves reply = true.
Proof. unfold resolves. now intros ->. Qed.

Lemma stops_at_failure_app a b :
  stops_at_failure a = true -> stops_at_failure b = true ->
  (has_failure a = true \/ has_break a = true -> posted b = []) ->
  stops_at_failure (a ++ b) = true.
Proof.
  induction a as [|e a IH]; simpl; intros Ha Hb Hf; auto.
  destruct e; simpl; auto.
  apply andb_true_iff in Ha as [H1 H2].
  apply andb_true_iff; split.
  - destruct (settle_cases reply) as [(Hr & _)|[(Hr & Hj & _)|(Hr & _ & Hk)]];
      rewrite Hr in *; auto.
    + rewrite posted_app, Hf by (left; now rewrite Hj).
      destruct (posted a); [reflexivity|discriminate].
    + rewrite posted_app, Hf by (right; now rewrite Hk).
      destruct (posted a); [reflexivity|discriminate].
  - apply IH; auto. intros [H|H]; apply Hf; [left|right]; rewrite H;
      apply orb_true_r.
Qed.



(** A trace without requests stops where it has to. *)
Lemma stops_at_failure_quiet tail : posted tail = [] -> stops_at_failure tail = true.
Proof.
  induction tail as [|e t IH]; auto.
  destruct e; simpl; auto; discriminate.
Qed.

Lemma has_failure_quiet tail : posted tail = [] -> has_failure tail = false.
Proof.
  induction tail as [|e t IH]; auto.
  destruct e; simpl; auto; discriminate.
Qed.

Lemma has_break_quiet tail : posted tail = [] -> has_break tail = false.
Proof.
  induction tail as [|e t IH]; auto.
  destruct e; simpl; auto; discriminate.
Qed.

Lemma get_prop_not_null v k :
  v <> JNull -> get_prop (Some v) k = Normal (get_opt (Some v) k).
Proof.
  intro H. unfold get_opt. destruct (get_prop (Some v) k) eqn:E; auto.
  destruct v; unfold get_prop in E; try congruence;
    repeat match type of E with
           | context [if ?b then _ else _] => destruct b
           | context [match ?x with _ => _ end] => destruct x
           end; discriminate.
Qed.

(** Reading a property fails in one way. *)
Lemma get_prop_abrupt v k e : get_prop v k = Abrupt e -> e = TypeError.
Proof.
  unfold get_prop. destruct v as [[ |b|text|s|items|members]|]; intro H;
    try (now inversion H).
  - destruct (jsstring_eqb k txt_length); [discriminate|].
    destruct (array_index k); discriminate.
  - destruct (jsstring_eqb k txt_length); [discriminate|].
    destruct (array_index k); discriminate.
Qed.

(** *** One step of a script *)

Lemma print_bind {B} c (k : unit -> M B) w :
  bind (print c) k w = k tt (emit (Print c) w).
Proof. reflexivity. Qed.

Lemma lift_bind {A B} (c : completion A) (k : A -> M B) w :
  bind (lift c) k w
  = match c with
    | Normal a => k a w
    | Abrupt e => (Thrown e, w)
    end.
Proof. destruct c; reflexivity. Qed.

Lemma query_bind {B} env baseUrl accessToken query variables (k : JSValue -> M B) w :
  bind (executeQuery env baseUrl accessToken query variables) k w
  = let r := mkRequest (graphqlEndpoint baseUrl) accessToken query variables in
    let reply := remote env (posted (events w)) r in
    match settle reply with
    | Resolve v => k v (emit (Post r reply) w)
    | Reject e => (Thrown e, emit (Post r reply) w)
    | Pending => (Stalled, emit (Post r reply) w)
    end.
Proof.
  unfold bind, executeQuery. cbv zeta. now destruct (settle _).
Qed.

Lemma write_bind {B} env p data (k : unit -> M B) w :
  bind (writeFileSync env p data) k w
  = match data with
    | Some (JString text) =>
        if refused env p then (Thrown SystemError, w)
        else match files w p with
             | Some Directory => (Thrown SystemError, w)
             | _ => k tt (emit (Write p text)
                            (set_file p (File (toWellFormed text)) w))
             end
    | _ => (Thrown TypeError, w)
    end.
Proof.
  unfold bind, writeFileSync.
  destruct data as [[]|]; try reflexivity.
  destruct (refused env p); [reflexivity|].
  now destruct (files w p) as [[|c]|].
Qed.

Lemma throw_bind {A B} e (k : A -> M B) w : bind (throw e) k w = (Thrown e, w).
Proof. reflexivity. Qed.

Lemma ret_bind {A B} (a : A) (k : A -> M B) w : bind (ret a) k w = k a w.
Proof. reflexivity. Qed.

(** One step of a script in the hypothesis [H]: the step is run, or the
    cases of what it depends on are told apart. *)
Ltac run_step H :=
  first [ rewrite print_bind in H
        | rewrite query_bind in H
        | rewrite lift_bind in H
        | rewrite write_bind in H
        | rewrite throw_bind in H
        | match type of H with
          | context [match ?x with _ => _ end] => destruct x eqn:?
          end ];
  cbv beta zeta in H.

(** *** The texts the loop prints *)

Lemma ToString_of_abrupt v : forall e, ToString_of v = Abrupt e -> e = TypeError.
Proof.
  pattern v. apply JSON_induction; clear v; try discriminate.
  - intros items IH e. cbn [ToString_of].
    assert (Hel : forall e', elements_text ToString_of items = Abrupt e' ->
                             e' = TypeError).
    { induction IH as [|x items Hx _ IHitems]; intros e' H; [discriminate|].
      cbn [elements_text] in H.
      destruct (match x with JNull => Normal [] | _ => ToString_of x end)
        eqn:Ex.
      - destruct (elements_text ToString_of items) eqn:El; [discriminate|].
        inversion H; subst. now apply IHitems.
      - inversion H; subst. destruct x; try discriminate; now apply Hx. }
    destruct (elements_text ToString_of items) eqn:E; [discriminate|].
    intro H. inversion H; subst. now apply Hel.
  - intros members _ e. cbn [ToString_of].
    destruct (lookup members txt_toString); intro H; now inversion H.
Qed.

Lemma ToString_abrupt v e : ToString v = Abrupt e -> e = TypeError.
Proof.
  destruct v as [v|]; [|discriminate]. apply ToString_of_abrupt.
Qed.
(** ** The importer *)

#[local] Arguments get_prop : simpl never.
#[local] Arguments get_opt : simpl never.
#[local] Arguments truthy : simpl never.
#[local] Arguments strict_eq : simpl never.
#[local] Arguments settle : simpl never.
#[local] Arguments JSON_parse : simpl never.
#[local] Arguments executeQuery : simpl never.
#[local] Arguments ToString : simpl never.
#[local] Arguments Import_config.find : simpl never.
#[local] Arguments Import_config.add_variables : simpl never.
#[local] Arguments path_join : simpl never.
#[local] Arguments graphqlEndpoint : simpl never.
#[local] Arguments strip_trailing_slash : simpl never.

Lemma printable_texts service :
  printable service = true ->
  service <> JNull
  /\ exists name kind,
       ToString (get_opt (Some service) txt_displayName) = Normal name
       /\ ToString (get_opt (Some service) txt_kind) = Normal kind.
Proof.
  unfold printable. intro H.
  assert (Hnn : service <> JNull) by (intros ->; discriminate).
  split; [exact Hnn|].
  destruct (ToString (get_opt (Some service) txt_displayName)) as [name|];
    [|destruct service; discriminate].
  destruct (ToString (get_opt (Some service) txt_kind)) as [kind|];
    [|destruct service; discriminate].
  eauto.
Qed.

(** *** Steps that leave the files alone *)

Section Calm.
Variable fs : path -> option FsNode.
Variable P : Request -> Prop.
Variable R : path -> Prop.

Ltac calm_nil :=
  exists []; rewrite app_nil_r; repeat split;
  try reflexivity; try assumption; try (intros; discriminate);
  try constructor.

Lemma calm_ret {A} (a : A) (Q : A -> Prop) : Q a -> calm fs P R (ret a) Q.
Proof.
  intros HQ w o w' Hfs H. inversion H; subst. calm_nil.
  intros a' Ha. now inversion Ha; subst.
Qed.

Lemma calm_throw {A} (e : Error) (Q : A -> Prop) : calm fs P R (throw e) Q.
Proof. intros w o w' Hfs H. inversion H; subst. calm_nil. Qed.

Lemma calm_lift {A} (c : completion A) (Q : A -> Prop) :
  (forall a, c = Normal a -> Q a) -> calm fs P R (lift c) Q.
Proof.
  intro HQ. destruct c as [a|e]; simpl.
  - apply calm_ret. now apply HQ.
  - apply calm_throw.
Qed.

Lemma calm_print (c : Console) : calm fs P R (print c) (fun _ => True).
Proof.
  intros w o w' Hfs H. inversion H; subst. exists [Print c].
  repeat split; try reflexivity; try assumption; try (intros; discriminate).
  constructor. constructor.
Qed.

Lemma calm_weaken {A} (c : M A) (Q Q' : A -> Prop) :
  (forall a, Q a -> Q' a) -> calm fs P R c Q -> calm fs P R c Q'.
Proof.
  intros HQ Hc w o w' Hfs H.
  destruct (Hc w o w' Hfs H)
    as (new & ? & ? & ? & ? & ? & ? & ? & ? & ? & ? & HQa).
  exists new. repeat split; auto.
Qed.

Lemma calm_bind {A B} (c : M A) (k : A -> M B) (Q1 : A -> Prop) (Q2 : B -> Prop) :
  calm fs P R c Q1 ->
  (forall a, Q1 a -> calm fs P R (k a) Q2) ->
  calm fs P R (bind c k) Q2.
Proof.
  intros Hc Hk w o w' Hfs H. unfold bind in H.
  destruct (c w) as [o1 w1] eqn:Ec.
  destruct (Hc w o1 w1 Hfs Ec)
    as (new1 & He1 & Hf1 & Hw1 & Hr1 & Hs1 & Hfail1 & Hbrk1 & Hstall1 & Hex1
        & Hp1 & HQ1).
  destruct o1 as [a|e|code|].
  - destruct (Hk a (HQ1 a eq_refl) w1 o w' Hf1 H)
      as (new2 & He2 & Hf2 & Hw2 & Hr2 & Hs2 & Hfail2 & Hbrk2 & Hstall2 & Hex2
          & Hp2 & HQ2).
    exists (new1 ++ new2).
    rewrite He2, He1, app_assoc, written_app, reads_app, posted_app,
      has_failure_app, has_break_app.
    rewrite Hw1, Hw2.
    repeat split; auto.
    + apply Forall_app; auto.
    + apply stops_at_failure_app; auto.
      intros [Hf|Hf]; [destruct (Hfail1 Hf) as [e He]|specialize (Hbrk1 Hf)];
        discriminate.
    + intro Hf. apply orb_true_iff in Hf as [Hf|Hf]; auto.
      destruct (Hfail1 Hf) as [e He]. discriminate.
    + intro Hf. apply orb_true_iff in Hf as [Hf|Hf]; auto.
      specialize (Hbrk1 Hf). discriminate.
    + intro Ho. destruct (Hstall2 Ho) as (pre & r & reply & -> & Hb).
      exists (new1 ++ pre), r, reply. now rewrite app_assoc.
    + apply Forall_app; auto.
  - inversion H; subst. exists new1.
    repeat split; eauto; try (intros; discriminate).
    intro Hf. specialize (Hbrk1 Hf). discriminate.
  - exfalso. now apply (Hex1 code).
  - inversion H; subst. exists new1.
    repeat split; eauto; try (intros; discriminate).
    intro Hf. destruct (Hfail1 Hf) as [e He]. discriminate.
Qed.

Lemma calm_read env p :
  R p -> calm fs P R (readFileSync env p) (fun text => fs p = Some (File text)).
Proof.
  intros HR w o w' Hfs H. unfold readFileSync in H.
  exists [Read p].
  assert (Hw' : w' = emit (Read p) w).
  { destruct (refused env p); [now inversion H|].
    destruct (files w p) as [[|c]|]; now inversion H. }
  assert (Ho : (exists text, o = Returned text /\ fs p = Some (File text))
               \/ o = Thrown SystemError).
  { rewrite <- Hfs. destruct (refused env p); [inversion H; auto|].
    destruct (files w p) as [[|c]|]; inversion H; eauto. }
  subst w'. repeat split; try reflexivity; try assumption;
    try (intros; discriminate).
  - constructor; [exact HR|constructor].
  - intros ->. destruct Ho as [(text & Ho & _)|Ho]; discriminate.
  - intros code ->. destruct Ho as [(text & Ho & _)|Ho]; discriminate.
  - constructor.
  - intros a ->. destruct Ho as [(text & Ho & Hf)|Ho]; [|discriminate].
    now inversion Ho; subst.
Qed.

Lemma calm_query env baseUrl accessToken query variables :
  P (mkRequest (graphqlEndpoint baseUrl) accessToken query variables) ->
  calm fs P R (executeQuery env baseUrl accessToken query variables)
    (fun _ => True).
Proof.
  intros HP w o w' Hfs H. unfold executeQuery in H.
  set (r := mkRequest _ _ _ _) in *.
  set (reply := remote env (posted (events w)) r) in *.
  destruct (settle reply) as [v|e|] eqn:Es; inversion H; subst;
    exists [Post r reply]; simpl; unfold rejects, breaks_off, resolves;
    rewrite Es;
    repeat split; auto; try (intros; discriminate); eauto.
  intros _. exists [], r, reply. unfold breaks_off. now rewrite Es.
Qed.

End Calm.

Lemma calm_requests fs (P P' : Request -> Prop) R {A} (c : M A) Q :
  (forall r, P r -> P' r) -> calm fs P R c Q -> calm fs P' R c Q.
Proof.
  intros HP Hc w o w' Hfs H.
  destruct (Hc w o w' Hfs H)
    as (new & ? & ? & ? & ? & ? & ? & ? & ? & ? & Hp & ?).
  exists new. repeat split; auto.
  revert Hp. apply Forall_impl. exact HP.
Qed.

Section ImportLoop.
Variable env : Env.
Variables baseUrl accessToken inputDir : jsstring.

Let loop := Import_config.import_services env baseUrl accessToken.

(** A service that is not null has properties to read, and so has
    every existing service that is not null: the search ends. *)
Lemma find_first_normal items service :
  Forall (fun s => s <> JNull) items -> service <> JNull ->
  exists v,
    Import_config.find_first items (Import_config.same_service (Some service))
    = Normal v.
Proof.
  intros Hitems Hs. induction Hitems as [|s items Hnn _ IH]; simpl; eauto.
  unfold Import_config.same_service at 1.
  rewrite !(get_prop_not_null _ _ Hnn), !(get_prop_not_null _ _ Hs).
  simpl. destruct (strict_eq _ _); simpl; auto.
  destruct (strict_eq _ _); simpl; eauto.
Qed.

(** The loop when nothing goes wrong: the services that are there are
    skipped, the others are created in the order of the list. *)
Lemma import_services_success items services :
  Forall (fun s => s <> JNull) items ->
  Forall (fun s => printable s = true) services ->
  (forall hist service,
      In service services -> already_there items service = false ->
      resolves (remote env hist (add_request baseUrl accessToken service)) = true) ->
  forall added skipped w,
  exists w',
    loop (Some (JArray items)) services added skipped w
    = (Returned (added + length (filter (fun s => negb (already_there items s)) services),
                 skipped + length (filter (already_there items) services)), w')
    /\ files w' = files w
    /\ written (events w') = written (events w)
    /\ posted (events w')
       = posted (events w)
         ++ map (add_request baseUrl accessToken)
              (filter (fun s => negb (already_there items s)) services).
Proof.
  unfold loop. intros Hitems Hservices.
  induction Hservices as [|service rest Hpr _ IH]; intros Hok added skipped w.
  - exists w. simpl. rewrite !Nat.add_0_r, app_nil_r. auto.
  - destruct (printable_texts service Hpr) as (Hnn & name & kind & Hname & Hkind).
    destruct (find_first_normal items service Hitems Hnn) as [found Hfound].
    assert (Hthere : already_there items service = truthy found)
      by (unfold already_there; now rewrite Hfound).
    cbn [Import_config.import_services filter map length].
    unfold Import_config.find at 1. rewrite Hfound, Hthere.
    rewrite !(get_prop_not_null _ _ Hnn).
    rewrite lift_bind.
    destruct (truthy found) eqn:Et.
    + rewrite !lift_bind, Hname. rewrite !lift_bind, Hkind. rewrite print_bind.
      cbn [negb].
      destruct (IH (fun h s Hin => Hok h s (or_intror Hin)) added (S skipped)
                  (emit (Print (Skipping name kind)) w))
        as (w' & Hrun & Hf & Hw & Hp).
      exists w'. rewrite Hrun. simpl in Hw, Hp.
      rewrite written_app in Hw. rewrite posted_app in Hp.
      simpl in Hw, Hp. rewrite app_nil_r in Hw, Hp.
      repeat split; auto. simpl length. rewrite <- ?plus_n_Sm. reflexivity.
    + rewrite !lift_bind. rewrite query_bind. cbv beta zeta.
      fold (add_request baseUrl accessToken service).
      set (r := add_request baseUrl accessToken service).
      set (reply := remote env (posted (events w)) r).
      assert (Hres : resolves reply = true)
        by (apply Hok; [now left|now rewrite Hthere]).
      destruct (resolves_settle reply Hres) as [v Hv]. rewrite Hv.
      rewrite !lift_bind, Hname. rewrite !lift_bind, Hkind. rewrite print_bind.
      destruct (IH (fun h s Hin => Hok h s (or_intror Hin)) (S added) skipped
                  (emit (Print (Added name kind)) (emit (Post r reply) w)))
        as (w' & Hrun & Hf & Hw & Hp).
      exists w'. cbn [negb]. rewrite Hrun. simpl in Hw, Hp.
      rewrite !written_app in Hw. rewrite !posted_app in Hp.
      simpl in Hw, Hp. rewrite !app_nil_r in Hw.
      rewrite app_nil_r, <- app_assoc in Hp.
      repeat split; auto. simpl length. rewrite <- ?plus_n_Sm. reflexivity.
Qed.

End ImportLoop.

Section ImportRun.
Variable env : Env.
Variables baseUrl accessToken inputDir : jsstring.
Variable fs : path -> option FsNode.

Let externalServicesPath := path_join inputDir external_services_json.

Let import_request := import_request baseUrl accessToken inputDir fs.

Let reads_services (p : path) : Prop := p = externalServicesPath.

Lemma get_prop_get_opt v k a : get_prop v k = Normal a -> a = get_opt v k.
Proof. intro H. unfold get_opt. now rewrite H. Qed.

(** Whatever the remote answers, the loop changes no file, reads none,
    posts creations of services of the list only, and stops at the
    first creation that is not accepted. *)
Lemma calm_import_services existing services :
  forall added skipped,
  calm fs (fun r => exists service,
             In service services /\ r = add_request baseUrl accessToken service)
    reads_services
    (Import_config.import_services env baseUrl accessToken existing services
       added skipped)
    (fun _ => True).
Proof.
  induction services as [|service rest IH]; intros added skipped.
  - apply calm_ret. exact I.
  - assert (Hrest : forall a s,
               calm fs (fun r => exists x,
                          In x (service :: rest)
                          /\ r = add_request baseUrl accessToken x)
                 reads_services
                 (Import_config.import_services env baseUrl accessToken existing
                    rest a s)
                 (fun _ => True)).
    { intros a s. eapply calm_requests; [|apply IH].
      intros r (x & Hin & ->). exists x. split; [now right|reflexivity]. }
    cbn [Import_config.import_services].
    eapply calm_bind; [apply calm_lift; intros; exact I|intros found _].
    destruct (truthy found).
    + eapply calm_bind; [apply calm_lift; intros; exact I|intros ? _].
      eapply calm_bind; [apply calm_lift; intros; exact I|intros ? _].
      eapply calm_bind; [apply calm_lift; intros; exact I|intros ? _].
      eapply calm_bind; [apply calm_lift; intros; exact I|intros ? _].
      eapply calm_bind; [apply calm_print|intros _ _].
      apply Hrest.
    + eapply calm_bind;
        [apply calm_lift; intros a Ha; exact (get_prop_get_opt _ _ _ Ha)|].
      intros dn ->.
      eapply calm_bind;
        [apply calm_lift; intros a Ha; exact (get_prop_get_opt _ _ _ Ha)|].
      intros kd ->.
      eapply calm_bind;
        [apply calm_lift; intros a Ha; exact (get_prop_get_opt _ _ _ Ha)|].
      intros cf ->.
      eapply calm_bind.
      { apply calm_query. exists service. split; [now left|reflexivity]. }
      intros _ _.
      eapply calm_bind; [apply calm_lift; intros; exact I|intros ? _].
      eapply calm_bind; [apply calm_lift; intros; exact I|intros ? _].
      eapply calm_bind; [apply calm_lift; intros; exact I|intros ? _].
      eapply calm_bind; [apply calm_lift; intros; exact I|intros ? _].
      eapply calm_bind; [apply calm_print|intros _ _].
      apply Hrest.
Qed.

Lemma calm_importExternalServices :
  calm fs import_request reads_services
    (Import_config.importExternalServices env baseUrl accessToken inputDir)
    (fun _ => True).
Proof.
  unfold Import_config.importExternalServices.
  fold externalServicesPath.
  eapply calm_bind; [apply calm_print|intros _ _].
  eapply calm_bind; [apply calm_read; reflexivity|intros text Htext].
  eapply calm_bind; [apply calm_lift; intros a Ha; exact Ha|].
  intros services Hservices. cbv beta in Hservices.
  destruct (JSON_parse text) as [v|] eqn:Ev; [|discriminate].
  inversion Hservices; subst services. clear Hservices.
  eapply calm_bind; [apply calm_query; now left|intros data _].
  eapply calm_bind; [apply calm_lift; intros a Ha; exact I|intros count _].
  eapply calm_bind; [apply calm_lift; intros a Ha; exact I|intros countText _].
  eapply calm_bind; [apply calm_print|intros _ _].
  eapply calm_bind; [apply calm_lift; intros a Ha; exact Ha|].
  intros items Hitems. cbv beta in Hitems.
  eapply calm_bind; [|intros counts _; apply calm_print].
  eapply calm_requests; [|apply calm_import_services].
  intros r (service & Hin & ->). right.
  exists text, v, items, service. auto.
Qed.

Let summaryPath := path_join inputDir import_summary_json.

(** [main] ends in one of three ways.  It writes the summary as its only
    file, after requests that were all resolved.  Or it writes nothing,
    prints the failure and exits with status 1.  Or it writes nothing and
    waits, without end, for the answer to its last request, which broke
    off. *)
Lemma main_trace w o w' :
  files w = fs ->
  Import_config.main env baseUrl accessToken inputDir w = (o, w') ->
  exists new,
    events w' = events w ++ new
    /\ Forall reads_services (reads new)
    /\ stops_at_failure new = true
    /\ Forall import_request (posted new)
    /\ ((o = Returned tt /\ has_failure new = false /\ has_break new = false
         /\ written new = [(summaryPath, import_summary env baseUrl)]
         /\ exists pre,
             new = pre ++ [Write summaryPath (import_summary env baseUrl);
                           Print (ImportCompleted summaryPath)])
        \/ (o = Exited 1%Z /\ written new = [] /\ files w' = fs
            /\ has_break new = false
            /\ exists e pre, new = pre ++ [Print (ImportFailed e)])
        \/ (o = Stalled /\ written new = [] /\ files w' = fs
            /\ has_failure new = false
            /\ ends_with_break new)).
Proof.
  intros Hfs H.
  unfold Import_config.main, try_catch in H.
  unfold bind at 1 in H.
  destruct (Import_config.importExternalServices env baseUrl accessToken inputDir w)
    as [o1 w1] eqn:E1.
  destruct (calm_importExternalServices w o1 w1 Hfs E1)
    as (new1 & He1 & Hf1 & Hw1 & Hr1 & Hs1 & Hfail1 & Hbrk1 & Hstall1 & Hex1
        & Hp1 & _).
  assert (Hquiet : forall tail,
             posted tail = [] -> reads tail = [] ->
             Forall reads_services (reads (new1 ++ tail))
             /\ stops_at_failure (new1 ++ tail) = true
             /\ Forall import_request (posted (new1 ++ tail))
             /\ has_break (new1 ++ tail) = has_break new1
             /\ has_failure (new1 ++ tail) = has_failure new1).
  { intros tail Hp Hr.
    rewrite reads_app, posted_app, has_break_app, has_failure_app, Hp, Hr,
      !app_nil_r.
    rewrite (has_break_quiet tail Hp), (has_failure_quiet tail Hp), !orb_false_r.
    repeat split; auto. apply stops_at_failure_app; auto.
    now apply stops_at_failure_quiet. }
  assert (Hnb : forall e, o1 = Thrown e \/ o1 = Returned tt -> has_break new1 = false).
  { intros e Ho. destruct (has_break new1); auto.
    specialize (Hbrk1 eq_refl). destruct Ho; congruence. }
  destruct o1 as [[]|e|code|].
  - assert (Hnf : has_failure new1 = false).
    { destruct (has_failure new1); auto.
      destruct (Hfail1 eq_refl); discriminate. }
    specialize (Hnb TypeError (or_intror eq_refl)).
    unfold bind, writeFileSync, print, process_exit in H.
    fold summaryPath in H. fold (import_summary env baseUrl) in H.
    destruct (refused env summaryPath).
    + inversion H; subst.
      exists (new1 ++ [Print (ImportFailed SystemError)]).
      simpl. rewrite He1, <- app_assoc.
      destruct (Hquiet [Print (ImportFailed SystemError)])
        as (? & ? & ? & Hb & ?); auto.
      repeat split; auto. right. left.
      rewrite written_app, Hw1, Hb. repeat split; eauto.
    + destruct (files w1 summaryPath) as [[|text]|]; inversion H; subst.
      * exists (new1 ++ [Print (ImportFailed SystemError)]).
        simpl. rewrite He1, <- app_assoc.
        destruct (Hquiet [Print (ImportFailed SystemError)])
          as (? & ? & ? & Hb & ?); auto.
        repeat split; auto. right. left.
        rewrite written_app, Hw1, Hb. repeat split; eauto.
      * exists (new1 ++ [Write summaryPath (import_summary env baseUrl);
                         Print (ImportCompleted summaryPath)]).
        simpl. rewrite He1, <- !app_assoc.
        destruct (Hquiet [Write summaryPath (import_summary env baseUrl);
                          Print (ImportCompleted summaryPath)])
          as (? & ? & ? & Hb & Hf); auto.
        repeat split; auto. left.
        rewrite written_app, Hw1, Hb, Hf. repeat split; eauto.
      * exists (new1 ++ [Write summaryPath (import_summary env baseUrl);
                         Print (ImportCompleted summaryPath)]).
        simpl. rewrite He1, <- !app_assoc.
        destruct (Hquiet [Write summaryPath (import_summary env baseUrl);
                          Print (ImportCompleted summaryPath)])
          as (? & ? & ? & Hb & Hf); auto.
        repeat split; auto. left.
        rewrite written_app, Hw1, Hb, Hf. repeat split; eauto.
  - unfold bind, print, process_exit in H. inversion H; subst.
    specialize (Hnb e (or_introl eq_refl)).
    exists (new1 ++ [Print (ImportFailed e)]).
    simpl. rewrite He1, <- app_assoc.
    destruct (Hquiet [Print (ImportFailed e)]) as (? & ? & ? & Hb & ?); auto.
    repeat split; auto. right. left.
    rewrite written_app, Hw1, Hb. repeat split; eauto.
  - exfalso. now apply (Hex1 code).
  - inversion H; subst. exists new1.
    repeat split; auto. right. right. repeat split; auto.
    destruct (has_failure new1); auto.
    destruct (Hfail1 eq_refl); discriminate.
Qed.

(** [importExternalServices] when the file holds the list [bundle],
    the target answers with the services [items], and every creation
    asked for is accepted. *)
Lemma importExternalServices_success text bundle data items w :
  files w = fs -> posted (events w) = [] ->
  fs externalServicesPath = Some (File text) ->
  refused env externalServicesPath = false ->
  JSON_parse text = Some (JArray bundle) ->
  settle (remote env [] (list_request baseUrl accessToken)) = Resolve data ->
  Import_config.existing_services data = Some (JArray items) ->
  Forall (fun s => s <> JNull) items ->
  Forall (fun s => printable s = true) bundle ->
  (forall hist service,
      In service bundle -> already_there items service = false ->
      resolves (remote env hist (add_request baseUrl accessToken service)) = true) ->
  exists w',
    Import_config.importExternalServices env baseUrl accessToken inputDir w
    = (Returned tt, w')
    /\ files w' = fs
    /\ written (events w') = written (events w)
    /\ posted (events w')
       = list_request baseUrl accessToken
         :: map (add_request baseUrl accessToken)
              (filter (fun s => negb (already_there items s)) bundle)
    /\ exists pre,
         events w'
         = pre ++ [Print (Imported
                            (length (filter (fun s => negb (already_there items s))
                                       bundle))
                            (length (filter (already_there items) bundle)))].
Proof.
  intros Hfs Hposted Htext Hrefused Hparse Hreply Hexisting Hitems Hbundle Hok.
  unfold Import_config.importExternalServices.
  fold externalServicesPath.
  rewrite print_bind.
  unfold bind at 1, readFileSync at 1.
  cbn [emit files events]. rewrite Hrefused, Hfs, Htext.
  rewrite lift_bind, Hparse. rewrite query_bind. cbv beta zeta.
  cbn [emit files events].
  rewrite !posted_app, Hposted. cbn [posted app].
  fold (list_request baseUrl accessToken). rewrite Hreply.
  rewrite Hexisting.
  rewrite (get_prop_not_null (JArray items) txt_length) by discriminate.
  rewrite !lift_bind.
  change (ToString (get_opt (Some (JArray items)) txt_length))
    with (@Normal jsstring (decimal (N.of_nat (length items)))).
  cbv iota beta. rewrite print_bind.
  unfold Import_config.iterate. rewrite lift_bind.
  unfold bind at 1.
  match goal with
  | |- context [Import_config.import_services _ _ _ _ _ _ _ ?w0] =>
      destruct (import_services_success env baseUrl accessToken items bundle
                  Hitems Hbundle Hok 0 0 w0) as (w1 & Hrun & Hf & Hw & Hp)
  end.
  cbv zeta in Hrun. rewrite Hrun.
  unfold print. cbn [fst snd Nat.add].
  eexists. split; [reflexivity|].
  cbn [emit files events] in *.
  rewrite written_app, posted_app, Hw, Hp.
  rewrite !written_app, !posted_app, Hposted.
  cbn [written posted printed app]. rewrite !app_nil_r.
  repeat split; auto.
  - congruence.
  - eexists. reflexivity.
Qed.

End ImportRun.

(** *** A run of import-config.js *)

(** Every run: what it reads and posts, and its three ends. *)
Lemma import_run env fs code w :
  run (Import_config.script env) (initial fs) = (code, w) ->
  match argv env with
  | targetUrl :: accessToken :: inputDir :: _ =>
      let baseUrl := strip_trailing_slash targetUrl in
      let summaryPath := path_join inputDir import_summary_json in
      Forall (fun p => p = path_join inputDir external_services_json)
        (reads (events w))
      /\ stops_at_failure (events w) = true
      /\ Forall (import_request baseUrl accessToken inputDir fs) (posted (events w))
      /\ ((code = 0%Z /\ has_failure (events w) = false
           /\ has_break (events w) = false
           /\ written (events w) = [(summaryPath, import_summary env baseUrl)]
           /\ exists pre,
               events w = pre ++ [Write summaryPath (import_summary env baseUrl);
                                  Print (ImportCompleted summaryPath)])
          \/ (code = 1%Z /\ written (events w) = [] /\ files w = fs
              /\ has_break (events w) = false
              /\ exists pre c, events w = pre ++ [Print c] /\ failure_line c = true)
          \/ (code = 0%Z /\ written (events w) = [] /\ files w = fs
              /\ has_failure (events w) = false
              /\ ends_with_break (events w)))
  | _ => code = 1%Z /\ events w = [Print Usage] /\ files w = fs
  end.
Proof.
  unfold run, Import_config.script. intro H.
  destruct (argv env) as [|targetUrl [|accessToken [|inputDir more]]];
    try (inversion H; subst; repeat split; reflexivity).
  cbv zeta.
  unfold bind at 1, existsSync at 1 in H. cbn [initial files events emit] in H.
  destruct (fs inputDir) as [n1|]; cbn [is_some negb] in H.
  2:{ inversion H; subst. cbn. repeat split; auto. right. left.
      repeat split; auto.
      exists [Exists inputDir], (InputDirectoryMissing inputDir). auto. }
  unfold bind at 1, existsSync at 1 in H. cbn [initial files events emit] in H.
  destruct (fs (path_join inputDir site_config_json)) as [n2|]; cbn [is_some negb] in H.
  2:{ inversion H; subst. cbn. repeat split; auto. right. left.
      repeat split; auto.
      exists [Exists inputDir; Exists (path_join inputDir site_config_json)],
        (SiteConfigFileMissing (path_join inputDir site_config_json)). auto. }
  unfold bind at 1, existsSync at 1 in H. cbn [initial files events emit] in H.
  destruct (fs (path_join inputDir external_services_json)) as [n3|] eqn:E3;
    cbn [is_some negb] in H.
  2:{ inversion H; subst. cbn. repeat split; auto. right. left.
      repeat split; auto.
      exists [Exists inputDir; Exists (path_join inputDir site_config_json);
              Exists (path_join inputDir external_services_json)],
        (ExternalServicesFileMissing (path_join inputDir external_services_json)).
      auto. }
  match type of H with
  | (let (_, _) := Import_config.main _ _ _ _ ?w0 in _) = _ =>
      destruct (Import_config.main env (strip_trailing_slash targetUrl)
                  accessToken inputDir w0) as [o w1] eqn:Em;
      apply (main_trace env (strip_trailing_slash targetUrl) accessToken inputDir fs)
        in Em as (new & He & Hr & Hs & Hp & Hend); [|reflexivity]
  end.
  inversion H; subst. cbn [events] in He. rewrite He.
  rewrite reads_app, posted_app, written_app, has_failure_app, has_break_app.
  cbn [reads posted written has_failure has_break app orb].
  repeat split; auto.
  destruct Hend as [(-> & Hnf & Hnb & Hw & pre & ->)
                   |[(-> & Hw & Hf & Hnb & e & pre & ->)
                    |(-> & Hw & Hf & Hnf & pre & r & reply & -> & Hb)]].
  - left. repeat split; auto. eexists. rewrite app_assoc. reflexivity.
  - right. left. repeat split; auto.
    exists ([Exists inputDir; Exists (path_join inputDir site_config_json);
             Exists (path_join inputDir external_services_json)] ++ pre),
      (ImportFailed e).
    rewrite <- app_assoc. auto.
  - right. right. repeat split; auto.
    exists ([Exists inputDir; Exists (path_join inputDir site_config_json);
             Exists (path_join inputDir external_services_json)] ++ pre),
      r, reply.
    rewrite <- app_assoc. auto.
Qed.

(** *** Finding a service by its name and kind *)

(** Only an object has a [displayName]. *)
Lemma displayName_object h v :
  get_prop (Some h) txt_displayName = Normal (Some v) ->
  exists members, h = JObject members /\ lookup members txt_displayName = Some v.
Proof.
  intro H. destruct h; unfold get_prop in H; try discriminate.
  inversion H. eauto.
Qed.

Lemma strict_eq_string a s :
  strict_eq a (Some (JString s)) = true <-> a = Some (JString s).
Proof.
  split.
  - destruct a as [[]|]; unfold strict_eq; try discriminate.
    intro H. apply jsstring_eqb_eq in H. now subst.
  - intros ->. unfold strict_eq. apply jsstring_eqb_refl.
Qed.

Lemma names_get v name kind :
  names v name kind ->
  v <> JNull
  /\ get_prop (Some v) txt_displayName = Normal (Some (JString name))
  /\ get_prop (Some v) txt_kind = Normal (Some (JString kind)).
Proof.
  intros (m & -> & Hn & Hk). unfold get_prop. rewrite Hn, Hk.
  repeat split. discriminate.
Qed.

(** The test of the loop on an existing service that is not null: true
    exactly when the service has the name and the kind of the entry. *)
Lemma same_service_names entry name kind s :
  names entry name kind -> s <> JNull ->
  exists b,
    Import_config.same_service (Some entry) (Some s) = Normal b
    /\ (b = true <-> names s name kind).
Proof.
  intros He Hs. destruct (names_get _ _ _ He) as (_ & Hen & Hek).
  unfold Import_config.same_service.
  rewrite Hen, Hek. rewrite !(get_prop_not_null _ _ Hs). simpl.
  destruct (strict_eq (get_opt (Some s) txt_displayName) (Some (JString name)))
    eqn:E1.
  - simpl. eexists. split; [reflexivity|].
    apply strict_eq_string in E1.
    assert (H1 : get_prop (Some s) txt_displayName = Normal (Some (JString name)))
      by (rewrite (get_prop_not_null _ _ Hs); now f_equal).
    destruct (displayName_object _ _ H1) as (m & -> & Hm).
    rewrite strict_eq_string. unfold get_opt, get_prop. split.
    + intro H. exists m. auto.
    + intros (m' & Heq & _ & Hk). inversion Heq; subst. exact Hk.
  - exists false. split; [reflexivity|]. split; [discriminate|].
    intros (m & -> & Hn & _).
    unfold get_opt, get_prop in E1. rewrite Hn in E1.
    rewrite (proj2 (strict_eq_string _ _) eq_refl) in E1. discriminate.
Qed.

(** An entry whose name and kind some existing service has is found. *)
Lemma already_there_named items entry name kind :
  Forall (fun s => s <> JNull) items ->
  names entry name kind ->
  (exists s, In s items /\ names s name kind) ->
  already_there items entry = true.
Proof.
  intros Hitems He (s & Hin & Hs). unfold already_there.
  induction Hitems as [|h items Hnn _ IH]; [destruct Hin|].
  simpl. destruct (same_service_names _ _ _ h He Hnn) as (b & -> & Hb).
  destruct b.
  - destruct (proj1 Hb eq_refl) as (m & -> & _). reflexivity.
  - destruct Hin as [->|Hin]; [|now apply IH].
    apply Hb in Hs. discriminate.
Qed.

(** An entry whose name and kind no existing service has is not found. *)
Lemma already_there_unnamed items entry name kind :
  Forall (fun s => s <> JNull) items ->
  names entry name kind ->
  (forall s, In s items -> ~ names s name kind) ->
  already_there items entry = false.
Proof.
  intros Hitems He Hno. unfold already_there.
  induction Hitems as [|h items Hnn _ IH]; [reflexivity|].
  simpl. destruct (same_service_names _ _ _ h He Hnn) as (b & -> & Hb).
  destruct b.
  - exfalso. apply (Hno h); [now left|]. now apply Hb.
  - apply IH. intros s Hin. apply Hno. now right.
Qed.


(** *** A run of import-config.js in which nothing fails before the
    summary: the world after the loop, and the end of the run, which
    depends on the summary only. *)
Lemma import_script_ends
  env fs targetUrl accessToken inputDir more text bundle data items :
  let baseUrl := strip_trailing_slash targetUrl in
  let externalServicesPath := path_join inputDir external_services_json in
  let summaryPath := path_join inputDir import_summary_json in
  let summary := import_summary env baseUrl in
  let created := filter (fun s => negb (already_there items s)) bundle in
  argv env = targetUrl :: accessToken :: inputDir :: more ->
  fs inputDir <> None ->
  fs (path_join inputDir site_config_json) <> None ->
  fs externalServicesPath = Some (File text) ->
  refused env externalServicesPath = false ->
  JSON_parse text = Some (JArray bundle) ->
  settle (remote env [] (list_request baseUrl accessToken)) = Resolve data ->
  Import_config.existing_services data = Some (JArray items) ->
  Forall (fun s => s <> JNull) items ->
  Forall (fun s => printable s = true) bundle ->
  (forall hist service,
      In service bundle -> already_there items service = false ->
      resolves (remote env hist (add_request baseUrl accessToken service)) = true) ->
  exists w1,
    files w1 = fs
    /\ written (events w1) = []
    /\ posted (events w1)
       = list_request baseUrl accessToken
         :: map (add_request baseUrl accessToken) created
    /\ (exists pre,
          events w1
          = pre ++ [Print (Imported (length created)
                             (length (filter (already_there items) bundle)))])
    /\ run (Import_config.script env) (initial fs)
       = if refused env summaryPath
         then (1%Z, emit (Print (ImportFailed SystemError)) w1)
         else match fs summaryPath with
              | Some Directory => (1%Z, emit (Print (ImportFailed SystemError)) w1)
              | _ => (0%Z,
                      emit (Print (ImportCompleted summaryPath))
                        (emit (Write summaryPath summary)
                           (set_file summaryPath (File (toWellFormed summary)) w1)))
              end.
Proof.
  intros baseUrl externalServicesPath summaryPath summary created Hargv Hdir
    Hsite Hext Href Hparse Hreply Hexisting Hitems Hbundle Hok.
  unfold run, Import_config.script. rewrite Hargv.
  unfold bind at 1, existsSync at 1. cbn [initial files events emit].
  destruct (fs inputDir) as [n1|]; [|congruence]. cbn [is_some negb].
  unfold bind at 1, existsSync at 1. cbn [initial files events emit].
  destruct (fs (path_join inputDir site_config_json)) as [n2|]; [|congruence].
  cbn [is_some negb].
  unfold bind at 1, existsSync at 1. cbn [initial files events emit].
  fold externalServicesPath. rewrite Hext. cbn [is_some negb].
  fold baseUrl.
  unfold Import_config.main, try_catch. unfold bind at 1.
  match goal with
  | |- context [Import_config.importExternalServices _ _ _ _ ?w0] =>
      destruct (importExternalServices_success env baseUrl accessToken inputDir fs
                  text bundle data items w0 eq_refl eq_refl Hext Href Hparse
                  Hreply Hexisting Hitems Hbundle Hok)
        as (w1 & Hrun & Hf & Hw & Hp & Hin)
  end.
  rewrite Hrun. exists w1.
  split; [exact Hf|]. split; [exact Hw|]. split; [exact Hp|]. split; [exact Hin|].
  unfold bind, writeFileSync, print, process_exit.
  fold summaryPath. fold (import_summary env baseUrl). fold summary.
  destruct (refused env summaryPath); [reflexivity|].
  rewrite Hf. now destruct (fs summaryPath) as [[|t]|].
Qed.

Lemma in_last {A} (pre : list A) x : In x (pre ++ [x]).
Proof. apply in_or_app. right. now left. Qed.

(** The requests and the counts of such a run, however it ends. *)
Lemma import_run_success
  env fs targetUrl accessToken inputDir more text bundle data items :
  let baseUrl := strip_trailing_slash targetUrl in
  let externalServicesPath := path_join inputDir external_services_json in
  argv env = targetUrl :: accessToken :: inputDir :: more ->
  fs inputDir <> None ->
  fs (path_join inputDir site_config_json) <> None ->
  fs externalServicesPath = Some (File text) ->
  refused env externalServicesPath = false ->
  JSON_parse text = Some (JArray bundle) ->
  settle (remote env [] (list_request baseUrl accessToken)) = Resolve data ->
  Import_config.existing_services data = Some (JArray items) ->
  Forall (fun s => s <> JNull) items ->
  Forall (fun s => printable s = true) bundle ->
  (forall hist service,
      In service bundle -> already_there items service = false ->
      resolves (remote env hist (add_request baseUrl accessToken service)) = true) ->
  exists code w,
    run (Import_config.script env) (initial fs) = (code, w)
    /\ posted (events w)
       = list_request baseUrl accessToken
         :: map (add_request baseUrl accessToken)
              (filter (fun s => negb (already_there items s)) bundle)
    /\ In (Imported (length (filter (fun s => negb (already_there items s)) bundle))
             (length (filter (already_there items) bundle)))
         (printed (events w)).
Proof.
  intros baseUrl externalServicesPath Hargv Hdir Hsite Hext Href Hparse Hreply
    Hexisting Hitems Hbundle Hok.
  destruct (import_script_ends env fs targetUrl accessToken inputDir more text
              bundle data items Hargv Hdir Hsite Hext Href Hparse Hreply
              Hexisting Hitems Hbundle Hok)
    as (w1 & Hf & Hw & Hp & (pre & Hpre) & Hrun).
  fold baseUrl in Hp, Hrun. rewrite Hrun.
  assert (Hin : In (Imported
                      (length (filter (fun s => negb (already_there items s)) bundle))
                      (length (filter (already_there items) bundle)))
                  (printed (events w1))).
  { rewrite Hpre, printed_app. apply in_last. }
  destruct (refused env (path_join inputDir import_summary_json)).
  - do 2 eexists. split; [reflexivity|]. cbn [events emit].
    rewrite posted_app, printed_app, Hp, app_nil_r.
    split; [reflexivity|]. apply in_or_app. now left.
  - destruct (fs (path_join inputDir import_summary_json)) as [[|t]|];
      (do 2 eexists; split; [reflexivity|]); cbn [events emit set_file];
      rewrite ?posted_app, ?printed_app, Hp, ?app_nil_r;
      (split; [reflexivity|]); repeat (apply in_or_app; left); exact Hin.
Qed.

(** *** What a run does not look at *)

Section Blind.
Variable site : path.

Lemma blind_ret {A} (a : A) : blind site (ret a).
Proof. intros w w' H. split; [reflexivity|exact H]. Qed.

Lemma blind_throw {A} (e : Error) : blind site (@throw A e).
Proof. intros w w' H. split; [reflexivity|exact H]. Qed.

Lemma blind_exit {A} (code : Z) : blind site (@process_exit A code).
Proof. intros w w' H. split; [reflexivity|exact H]. Qed.

Lemma blind_lift {A} (c : completion A) : blind site (lift c).
Proof. destruct c; [apply blind_ret|apply blind_throw]. Qed.

Lemma same_but_emit e w w' :
  same_but site w w' -> same_but site (emit e w) (emit e w').
Proof.
  intros (He & Hf & Hs). repeat split; simpl; auto. now rewrite He.
Qed.

Lemma same_but_set_file p n w w' :
  p <> site -> same_but site w w' ->
  same_but site (set_file p n w) (set_file p n w').
Proof.
  intros Hp (He & Hf & Hs). repeat split; simpl; auto.
  - intros q Hq. destruct (jsstring_eqb q p); auto.
  - destruct (jsstring_eqb site p); auto.
Qed.

Lemma blind_print c : blind site (print c).
Proof. intros w w' H. split; [reflexivity|now apply same_but_emit]. Qed.

Lemma blind_bind {A B} (c : M A) (k : A -> M B) :
  blind site c -> (forall a, blind site (k a)) -> blind site (bind c k).
Proof.
  intros Hc Hk w w' H. unfold bind.
  destruct (Hc w w' H) as [Ho Hw].
  destruct (c w) as [o w1], (c w') as [o' w1']. simpl in Ho, Hw. subst o'.
  destruct o; [apply Hk; exact Hw|split; auto|split; auto|split; auto].
Qed.

Lemma blind_try_catch {A} (c : M A) (handler : Error -> M A) :
  blind site c -> (forall e, blind site (handler e)) ->
  blind site (try_catch c handler).
Proof.
  intros Hc Hh w w' H. unfold try_catch.
  destruct (Hc w w' H) as [Ho Hw].
  destruct (c w) as [o w1], (c w') as [o' w1']. simpl in Ho, Hw. subst o'.
  destruct o; [split; auto|apply Hh; exact Hw|split; auto|split; auto].
Qed.

Lemma blind_exists p : blind site (existsSync p).
Proof.
  intros w w' H. unfold existsSync. simpl.
  split; [|now apply same_but_emit].
  destruct H as (_ & Hf & Hs). f_equal.
  destruct (jsstring_eqb p site) eqn:E.
  - apply jsstring_eqb_eq in E. now subst.
  - rewrite Hf; auto. intros ->. rewrite jsstring_eqb_refl in E. discriminate.
Qed.

Lemma blind_read env p : p <> site -> blind site (readFileSync env p).
Proof.
  intros Hp w w' H. unfold readFileSync.
  assert (Hf : files w p = files w' p) by (apply H; exact Hp).
  rewrite Hf. destruct (refused env p); simpl.
  - split; [reflexivity|now apply same_but_emit].
  - destruct (files w' p) as [[|c]|]; simpl;
      (split; [reflexivity|now apply same_but_emit]).
Qed.

Lemma blind_write env p data : p <> site -> blind site (writeFileSync env p data).
Proof.
  intros Hp w w' H. unfold writeFileSync.
  assert (Hf : files w p = files w' p) by (apply H; exact Hp).
  destruct data as [[]|]; try (split; [reflexivity|exact H]).
  rewrite Hf. destruct (refused env p); [split; [reflexivity|exact H]|].
  destruct (files w' p) as [[|c]|]; simpl;
    try (split; [reflexivity|exact H]);
    (split; [reflexivity|apply same_but_emit; now apply same_but_set_file]).
Qed.

Lemma blind_query env baseUrl accessToken query variables :
  blind site (executeQuery env baseUrl accessToken query variables).
Proof.
  intros w w' H. unfold executeQuery.
  destruct H as (He & Hf & Hs). rewrite He.
  destruct (settle _); simpl;
    (split; [reflexivity|apply same_but_emit; repeat split; auto]).
Qed.

Lemma blind_import_services env baseUrl accessToken existing services :
  forall added skipped,
    blind site (Import_config.import_services env baseUrl accessToken existing
                  services added skipped).
Proof.
  induction services as [|service rest IH]; intros added skipped; simpl.
  - apply blind_ret.
  - apply blind_bind; [apply blind_lift|intro found].
    destruct (truthy found).
    + repeat (apply blind_bind; [first [apply blind_lift|apply blind_print]|intro]).
      apply IH.
    + repeat (apply blind_bind;
              [first [apply blind_lift|apply blind_print|apply blind_query]|intro]).
      apply IH.
Qed.

End Blind.

Lemma path_join_inj dir a b : path_join dir a = path_join dir b -> a = b.
Proof.
  unfold path_join. destruct (rev dir) as [|c r]; auto.
  destruct (c =? 47)%N; intro H; apply app_inv_head in H; congruence.
Qed.

(** import-config.js does not look at what the site-config file holds. *)
Lemma blind_import_script env :
  match argv env with
  | _ :: _ :: inputDir :: _ =>
      blind (path_join inputDir site_config_json) (Import_config.script env)
  | _ => True
  end.
Proof.
  unfold Import_config.script.
  destruct (argv env) as [|targetUrl [|accessToken [|inputDir more]]]; auto.
  set (site := path_join inputDir site_config_json).
  assert (Hext : path_join inputDir external_services_json <> site)
    by (intro H; apply path_join_inj in H; discriminate).
  assert (Hsum : path_join inputDir import_summary_json <> site)
    by (intro H; apply path_join_inj in H; discriminate).
  apply blind_bind; [apply blind_exists|intros [|]]; simpl.
  2:{ apply blind_bind; [apply blind_print|intro; apply blind_exit]. }
  apply blind_bind; [apply blind_exists|intros [|]]; simpl.
  2:{ apply blind_bind; [apply blind_print|intro; apply blind_exit]. }
  apply blind_bind; [apply blind_exists|intros [|]]; simpl.
  2:{ apply blind_bind; [apply blind_print|intro; apply blind_exit]. }
  unfold Import_config.main. apply blind_try_catch.
  - apply blind_bind.
    + unfold Import_config.importExternalServices.
      apply blind_bind; [apply blind_print|intro].
      apply blind_bind; [apply blind_read; exact Hext|intro].
      apply blind_bind; [apply blind_lift|intro].
      apply blind_bind; [apply blind_query|intro].
      apply blind_bind; [apply blind_lift|intro].
      apply blind_bind; [apply blind_lift|intro].
      apply blind_bind; [apply blind_print|intro].
      apply blind_bind; [apply blind_lift|intro].
      apply blind_bind; [apply blind_import_services|intro].
      apply blind_print.
    + intro. apply blind_bind; [apply blind_write; exact Hsum|intro].
      apply blind_print.
  - intro e. apply blind_bind; [apply blind_print|intro; apply blind_exit].
Qed.

(** ** The transport client *)

#[local] Arguments greater_than_zero : simpl never.

(** C5, as stated, fails: the body [null] is JSON and holds no list of
    errors, and the call ends with the decode error, not with the [data]
    of the envelope. *)
Lemma on_end_null_body_is_decode_error :
  JSON_parse (js "null") = Some JNull
  /\ on_end 200 (js "null") = Reject (ParseResponseError TypeError)
  /\ ~ (forall statusCode responseData,
          on_end statusCode responseData = stated_on_end statusCode responseData).
Proof.
  split; [reflexivity|]. split; [reflexivity|].
  intro H. specialize (H 200%Z (js "null")). vm_compute in H. discriminate.
Qed.

(** The length of a list that is not empty is above zero. *)
Lemma decimal_digits_shape fuel :
  forall n acc,
    (0 < n)%N -> (n < 2 ^ N.of_nat fuel)%N ->
    Forall (fun c => is_digit c = true) acc ->
    exists d ds,
      decimal_digits fuel n acc = d :: ds
      /\ is_digit d = true /\ d <> 48%N
      /\ Forall (fun c => is_digit c = true) ds.
Proof.
  induction fuel as [|fuel IH]; intros n acc Hpos Hlt Hacc.
  - simpl in Hlt. lia.
  - cbn [decimal_digits]. destruct (n <? 10)%N eqn:E.
    + apply N.ltb_lt in E. exists (48 + n)%N, acc. repeat split; auto; [|lia].
      unfold is_digit. apply andb_true_iff. split; apply N.leb_le; lia.
    + apply N.ltb_ge in E. apply IH.
      * apply N.div_str_pos. lia.
      * rewrite Nat2N.inj_succ, N.pow_succ_r' in Hlt.
        apply N.Div0.div_lt_upper_bound. lia.
      * constructor; auto. unfold is_digit.
        assert (n mod 10 < 10)%N by (apply N.mod_upper_bound; discriminate).
        set (x := (n mod 10)%N) in *. clearbody x. clear - H.
        apply andb_true_iff. split; apply N.leb_le; lia.
Qed.

Lemma span_digits_all ds :
  Forall (fun c => is_digit c = true) ds -> span_digits ds = (ds, []).
Proof.
  induction 1 as [|c ds Hc _ IH]; simpl; auto. now rewrite Hc, IH.
Qed.

Lemma digits_value_positive ds :
  forall acc, (0 < acc)%N -> (0 < digits_value acc ds)%N.
Proof.
  induction ds as [|d ds IH]; intros acc H; simpl; auto. apply IH. lia.
Qed.

Lemma number_positive_decimal n :
  (0 < n)%N -> number_positive (decimal n) = true.
Proof.
  intro Hpos. unfold decimal.
  destruct (decimal_digits_shape (S (N.to_nat (N.log2 n))) n [] Hpos)
    as (d & ds & -> & Hd & Hnz & Hds); [|constructor|].
  { rewrite Nat2N.inj_succ, N2Nat.id. now apply N.log2_spec. }
  assert (Hdec : decimal_of_literal (d :: ds)
                 = Some (false, digits_value 0 (d :: ds), 0%Z)).
  { unfold decimal_of_literal.
    assert (Hm : (d =? 45)%N = false).
    { apply N.eqb_neq. intros ->. discriminate. }
    rewrite Hm. unfold lex_int.
    apply N.eqb_neq in Hnz. rewrite Hnz, Hd.
    rewrite (span_digits_all ds Hds). cbn [lex_frac lex_exp tl length].
    rewrite app_nil_r. reflexivity. }
  pose proof (digit_head_finite d ds Hd) as Hfin.
  destruct (is_infinite_false _ Hfin) as [Hf1 Hf2].
  unfold number_positive, number_of_literal, number_is_zero.
  rewrite Hfin, Hf1, Hf2, Hdec. cbn [fst snd negb andb].
  assert (Hv : (0 < digits_value 0 (d :: ds))%N).
  { cbn [digits_value]. apply digits_value_positive.
    unfold is_digit in Hd. apply andb_true_iff in Hd as [H1 H2].
    apply N.leb_le in H1, H2. lia. }
  apply N.lt_neq in Hv. apply not_eq_sym in Hv. apply N.eqb_neq in Hv.
  rewrite Hv. reflexivity.
Qed.

Lemma length_positive (l : list JSON) :
  greater_than_zero (Some (number_of_nat (length l))) = Normal (negb (is_nil l)).
Proof.
  destruct l as [|x l]; [reflexivity|].
  unfold greater_than_zero, number_of_nat. cbn [is_nil negb]. f_equal.
  apply number_positive_decimal. simpl length. lia.
Qed.

(** C5, amended.  A status of 400 or more: the call fails with the
    transport error that carries the status and the body.  Else, a body
    that is no JSON text: the decode error.  Else, a body that is the
    JSON text [null]: the decode error again.  Else, an envelope whose
    [errors] is a list that is not empty: the remote error with the text
    of the [message] of the first error, as the template literal makes
    it; or the decode error, when the first error is null, and when its
    [message] has no text ([ToString] throws: the message is an object
    with a member named [toString], or a list that holds one).  Else, an
    envelope without [errors], or whose [errors] is null or the empty
    list: the call returns the [data] of the envelope. *)
Theorem on_end_cases statusCode responseData :
  ((400 <= statusCode)%Z ->
   on_end statusCode responseData = Reject (HttpError statusCode responseData))
  /\ ((statusCode < 400)%Z ->
      (JSON_parse responseData = None ->
       on_end statusCode responseData = Reject (ParseResponseError SyntaxError))
      /\ (JSON_parse responseData = Some JNull ->
          on_end statusCode responseData = Reject (ParseResponseError TypeError))
      /\ (forall envelope first rest,
             JSON_parse responseData = Some envelope ->
             get_prop (Some envelope) txt_errors
             = Normal (Some (JArray (first :: rest))) ->
             on_end statusCode responseData
             = match first with
               | JNull => Reject (ParseResponseError TypeError)
               | _ =>
                   match ToString (get_opt (Some first) txt_message) with
                   | Normal text => Reject (GraphQLError text)
                   | Abrupt _ => Reject (ParseResponseError TypeError)
                   end
               end)
      /\ (forall envelope errors,
             JSON_parse responseData = Some envelope ->
             get_prop (Some envelope) txt_errors = Normal errors ->
             errors = None \/ errors = Some JNull \/ errors = Some (JArray []) ->
             on_end statusCode responseData
             = Resolve (get_opt (Some envelope) txt_data))).
Proof.
  unfold on_end. split.
  - intro H. apply Z.leb_le in H. now rewrite H.
  - intro H. apply Z.leb_gt in H. rewrite H. unfold read_response.
    repeat split.
    + intros ->. reflexivity.
    + intros ->. reflexivity.
    + intros envelope first rest -> He. cbn [cbind]. rewrite He. cbn [cbind].
      change (truthy (Some (JArray (first :: rest)))) with true. cbv iota.
      rewrite (get_prop_not_null (JArray (first :: rest)) txt_length) by discriminate.
      cbn [cbind].
      change (get_opt (Some (JArray (first :: rest))) txt_length)
        with (Some (number_of_nat (length (first :: rest)))).
      rewrite length_positive. cbn [is_nil negb cbind].
      change (get_prop (Some (JArray (first :: rest))) txt_0)
        with (Normal (Some first)).
      cbn [cbind].
      assert (Hgo : first <> JNull ->
                match
                  (message <- get_prop (Some first) txt_message;;
                   text <- ToString message;;
                   Normal (Reject (GraphQLError text)))%completion
                with
                | Normal s => s
                | Abrupt e => Reject (ParseResponseError e)
                end
                = match ToString (get_opt (Some first) txt_message) with
                  | Normal text => Reject (GraphQLError text)
                  | Abrupt _ => Reject (ParseResponseError TypeError)
                  end).
      { intro Hnn. rewrite get_prop_not_null by exact Hnn. cbn [cbind].
        destruct (ToString (get_opt (Some first) txt_message)) as [text|e] eqn:Et;
          [reflexivity|].
        apply ToString_abrupt in Et. now subst. }
      destruct first; try (apply Hgo; discriminate). reflexivity.
    + intros envelope errors -> He Hnone. cbn [cbind]. rewrite He. cbn [cbind].
      assert (Hnn : envelope <> JNull) by (intros ->; discriminate).
      rewrite (get_prop_not_null envelope txt_data Hnn).
      destruct Hnone as [-> | [-> | ->]]; reflexivity.
Qed.

Lemma on_end_cases_witness :
  on_end 503 (js "Service Unavailable")
  = Reject (HttpError 503 (js "Service Unavailable"))
  /\ on_end 200 (js "<html>") = Reject (ParseResponseError SyntaxError)
  /\ on_end 200 (JSON_stringify
                   (JObject [(txt_errors,
                              JArray [JObject [(txt_message, JString (js "boom"))]]);
                             (txt_data, JNull)]))
     = Reject (GraphQLError (js "boom"))
  /\ on_end 200 (JSON_stringify
                   (JObject [(txt_errors,
                              JArray [JObject [(txt_message,
                                                JObject [(txt_toString, JNull)])]])]))
     = Reject (ParseResponseError TypeError)
  /\ on_end 200 (envelope (services_data [github]))
     = Resolve (Some (services_data [github])).
Proof.
  split; [|split; [|split; [|split]]].
  - apply (proj1 (on_end_cases 503 (js "Service Unavailable"))). lia.
  - apply (proj2 (on_end_cases 200 (js "<html>"))); [lia|reflexivity].
  - refine (proj1 (proj2 (proj2 (proj2 (on_end_cases 200 _) _)))
              (JObject [(txt_errors,
                         JArray [JObject [(txt_message, JString (js "boom"))]]);
                        (txt_data, JNull)])
              (JObject [(txt_message, JString (js "boom"))]) [] _ _);
      [lia|vm_compute; reflexivity|reflexivity].
  - refine (proj1 (proj2 (proj2 (proj2 (on_end_cases 200 _) _)))
              (JObject [(txt_errors,
                         JArray [JObject [(txt_message,
                                           JObject [(txt_toString, JNull)])]])])
              (JObject [(txt_message, JObject [(txt_toString, JNull)])]) [] _ _);
      [lia|vm_compute; reflexivity|reflexivity].
  - refine (proj2 (proj2 (proj2 (proj2 (on_end_cases 200 _) _)))
              (JObject [(txt_data, services_data [github])]) None _ _ _);
      [lia|vm_compute; reflexivity|reflexivity|now left].
Defined.

(** ** The exporter *)

Lemma bind_returned {A B} (c : M A) (k : A -> M B) w b w' :
  bind c k w = (Returned b, w') ->
  exists a w1, c w = (Returned a, w1) /\ k a w1 = (Returned b, w').
Proof.
  unfold bind. destruct (c w) as [[a|e|code|] w1]; intro H;
    try discriminate. eauto.
Qed.

Lemma lift_returned {A} (c : completion A) w a w' :
  lift c w = (Returned a, w') -> c = Normal a /\ w' = w.
Proof.
  destruct c; simpl; intro H; inversion H; auto.
Qed.

Lemma writeFileSync_returned env p data w u w' :
  writeFileSync env p data w = (Returned u, w') ->
  exists text,
    data = Some (JString text)
    /\ w' = emit (Write p text) (set_file p (File (toWellFormed text)) w).
Proof.
  unfold writeFileSync.
  destruct data as [[]|]; try discriminate.
  destruct (refused env p); [discriminate|].
  destruct (files w p) as [[|c]|]; intro H; inversion H; eauto.
Qed.

(** A string has no property [id]. *)
Lemma string_id text : get_prop (Some (JString text)) txt_id = Normal None.
Proof. reflexivity. Qed.

(** C1 fails on the code.  Whenever [exportSiteConfig] returns, it has
    written a string, the effective contents, and what it returns is the
    [id] of that string: undefined, whatever identifier the remote
    gave. *)
Lemma exportSiteConfig_returns_undefined
  env baseUrl accessToken outputDir w v w' :
  Export_config.exportSiteConfig env baseUrl accessToken outputDir w
  = (Returned v, w') ->
  v = undefined.
Proof.
  unfold Export_config.exportSiteConfig. intro H.
  apply bind_returned in H as (_ & w1 & _ & H).
  apply bind_returned in H as (data & w2 & _ & H).
  destruct (negb _); [discriminate|].
  apply bind_returned in H as (sanitizedData & w3 & _ & H).
  apply bind_returned in H as (site & w4 & _ & H).
  apply bind_returned in H as (configuration & w5 & _ & H).
  apply bind_returned in H as (config & w6 & _ & H).
  apply bind_returned in H as (u & w7 & Hwrite & H).
  apply writeFileSync_returned in Hwrite as (text & -> & _).
  apply bind_returned in H as (_ & w8 & _ & H).
  apply bind_returned in H as (id & w9 & Hid & H).
  apply lift_returned in Hid as [Hid _]. rewrite string_id in Hid.
  inversion Hid; subst id. inversion H. reflexivity.
Qed.

(** C1 at a sample source: the remote gives the identifier 17, the
    export succeeds, [exportSiteConfig] returns undefined, and the summary
    holds no [siteConfigId]. *)
Theorem export_summary_lacks_site_config_id :
  let site := site_data (JNumber (js "17")) "{ auth.providers: [] }" in
  let env := sample_env (source site [github; gitlab]) in
  let result := run (Export_config.script env) (initial no_files) in
  get_opt (get_opt (get_opt (Some site) txt_site) txt_configuration) txt_id
  = Some (JNumber (js "17"))
  /\ fst result = 0%Z
  /\ fst (Export_config.exportSiteConfig env sample_url sample_token backup
            (initial no_files))
     = Returned undefined
  /\ files (snd result) (path_join backup export_summary_json)
     = Some (File (JSON_stringify_pretty
                     (JObject [(txt_timestamp, JString (clock env));
                               (txt_sourcegraphUrl, JString sample_url);
                               (txt_externalServicesCount, JNumber (js "2"))]))).
Proof. vm_compute. repeat split; reflexivity. Qed.

(** ** The rewrite of the sentinel and JSON.stringify *)

(** *** The rewrite on a text, step by step *)

Lemma sanitize_text_nil : sanitize_text [] = [].
Proof. reflexivity. Qed.

Lemma sanitize_text_match s :
  sanitize_text (REDACTED ++ s) = NEEDS_UPDATING ++ sanitize_text s.
Proof.
  unfold sanitize_text, replaceAll, REDACTED at 2 4.
  apply replace_match. discriminate.
Qed.

Lemma sanitize_text_step c s :
  is_prefix REDACTED (c :: s) = false ->
  sanitize_text (c :: s) = c :: sanitize_text s.
Proof.
  unfold sanitize_text, replaceAll, REDACTED at 2 3. apply replace_step.
Qed.

Lemma sanitize_text_ind (P : jsstring -> Prop) :
  P [] ->
  (forall s, P s -> P (REDACTED ++ s)) ->
  (forall c s, is_prefix REDACTED (c :: s) = false -> P s -> P (c :: s)) ->
  forall s, P s.
Proof. apply (replace_ind REDACTED NEEDS_UPDATING). unfold REDACTED. discriminate. Qed.

Lemma in_redacted_spec c :
  in_redacted c = true <->
  c = 82%N \/ c = 69%N \/ c = 68%N \/ c = 65%N \/ c = 67%N \/ c = 84%N.
Proof.
  unfold in_redacted, REDACTED. cbn [existsb].
  rewrite !orb_true_iff, !N.eqb_eq. intuition discriminate.
Qed.

Lemma foreign_not_head c s :
  in_redacted c = false -> is_prefix REDACTED (c :: s) = false.
Proof.
  intro H. unfold REDACTED. cbn [is_prefix].
  destruct (N.eqb_spec 82 c) as [<-|]; [cbv in H; discriminate H|reflexivity].
Qed.

Lemma sanitize_text_foreign c s :
  in_redacted c = false -> sanitize_text (c :: s) = c :: sanitize_text s.
Proof. intro H. apply sanitize_text_step. now apply foreign_not_head. Qed.

(** A block without a code unit of the sentinel goes through. *)
Lemma sanitize_text_block b s :
  Forall (fun c => in_redacted c = false) b ->
  sanitize_text (b ++ s) = b ++ sanitize_text s.
Proof.
  induction 1 as [|c b Hc _ IH]; simpl; auto.
  rewrite sanitize_text_foreign by exact Hc. now rewrite IH.
Qed.

Lemma is_prefix_before_foreign p a c t :
  existsb (N.eqb c) p = false ->
  is_prefix p (a ++ c :: t) = is_prefix p a.
Proof.
  revert a. induction p as [|x p IH]; intros a H; [reflexivity|].
  cbn [existsb] in H. apply orb_false_iff in H as [H1 H2].
  destruct a as [|y a]; simpl.
  - rewrite N.eqb_sym, H1. reflexivity.
  - now rewrite IH.
Qed.

(** The rewrite works on the two sides of a code unit that is not of the
    sentinel. *)
Lemma sanitize_text_sep a c t :
  in_redacted c = false ->
  sanitize_text (a ++ c :: t) = sanitize_text a ++ c :: sanitize_text t.
Proof.
  intro Hc. pattern a. apply sanitize_text_ind; clear a;
    [|intros a IH|intros x a E IH].
  - simpl. now apply sanitize_text_foreign.
  - rewrite <- app_assoc, !sanitize_text_match, IH, app_assoc. reflexivity.
  - simpl. rewrite !sanitize_text_step, IH; auto.
    change (x :: a ++ c :: t) with ((x :: a) ++ c :: t).
    now rewrite is_prefix_before_foreign.
Qed.

(** *** The rewrite and the quoting of a string *)

Lemma in_redacted_outside c :
  (c < 65 \/ 84 < c)%N -> in_redacted c = false.
Proof.
  intro H. destruct (in_redacted c) eqn:E; auto.
  apply in_redacted_spec in E. lia.
Qed.

Lemma hex_digit_foreign d : (d < 16)%N -> in_redacted (hex_digit d) = false.
Proof.
  intro H. apply in_redacted_outside. unfold hex_digit.
  destruct (d <? 10)%N eqn:E; [apply N.ltb_lt in E|apply N.ltb_ge in E]; lia.
Qed.

Lemma unicode_escape_foreign c :
  Forall (fun x => in_redacted x = false) (unicode_escape c).
Proof.
  unfold unicode_escape, hex4.
  repeat constructor; try apply hex_digit_foreign;
    apply N.mod_upper_bound; discriminate.
Qed.

(** What quoting makes of a code unit that is not of the sentinel holds
    no code unit of the sentinel. *)
Lemma escape_unit_foreign c :
  in_redacted c = false ->
  Forall (fun x => in_redacted x = false) (escape_unit c).
Proof.
  intro H. unfold escape_unit.
  repeat match goal with
         | |- context [if ?b then _ else _] => destruct b
         end;
    try (repeat constructor; fail).
  - apply unicode_escape_foreign.
  - repeat constructor. exact H.
Qed.

Lemma surrogate_foreign c :
  is_high_surrogate c = true \/ is_low_surrogate c = true -> in_redacted c = false.
Proof.
  unfold is_high_surrogate, is_low_surrogate.
  intros [H|H]; apply andb_true_iff in H as [H _]; apply N.leb_le in H;
    apply in_redacted_outside; lia.
Qed.

(** A code unit of the sentinel is quoted as it is. *)
Lemma quote_body_redacted c s :
  in_redacted c = true -> quote_body (c :: s) = c :: quote_body s.
Proof.
  intro H. apply in_redacted_spec in H.
  destruct H as [-> | [-> | [-> | [-> | [-> | ->]]]]]; reflexivity.
Qed.

Lemma quote_body_head_foreign c s :
  in_redacted c = false ->
  exists h t, quote_body (c :: s) = h :: t /\ in_redacted h = false.
Proof.
  intro H. cbn [quote_body].
  destruct (is_high_surrogate c).
  - destruct s as [|d s]; [|destruct (is_low_surrogate d)];
      do 2 eexists; split; reflexivity || eauto.
  - destruct (is_low_surrogate c).
    + do 2 eexists. split; reflexivity.
    + pose proof (escape_unit_foreign c H) as Hf.
      destruct (escape_unit c) as [|h t] eqn:E.
      * exfalso. unfold escape_unit in E.
        repeat match type of E with
               | context [if ?b then _ else _] => destruct b
               end; discriminate.
      * inversion Hf; subst. do 2 eexists. split; [reflexivity|assumption].
Qed.

(** A text of code units of the sentinel starts the quoted string when
    it starts the string. *)
Lemma is_prefix_quote_body p :
  Forall (fun c => in_redacted c = true) p ->
  forall s, is_prefix p (quote_body s) = is_prefix p s.
Proof.
  induction 1 as [|x p Hx _ IH]; intro s; [reflexivity|].
  destruct s as [|c s]; [reflexivity|].
  destruct (in_redacted c) eqn:Hc.
  - rewrite quote_body_redacted by exact Hc. simpl. now rewrite IH.
  - destruct (quote_body_head_foreign c s Hc) as (h & t & -> & Hh).
    simpl. destruct (N.eqb_spec x h) as [<-|]; [congruence|].
    destruct (N.eqb_spec x c) as [<-|]; [congruence|reflexivity].
Qed.

Lemma sanitize_text_head_not_low s :
  match s with
  | d :: _ => is_low_surrogate d = false
  | [] => True
  end ->
  match sanitize_text s with
  | d :: _ => is_low_surrogate d = false
  | [] => True
  end.
Proof.
  destruct s as [|d s]; [auto|]. intro H.
  destruct (is_prefix REDACTED (d :: s)) eqn:E.
  - destruct (is_prefix_split _ _ E) as [s' ->].
    rewrite sanitize_text_match. reflexivity.
  - rewrite sanitize_text_step by exact E. exact H.
Qed.

Lemma redacted_of_sentinel : Forall (fun c => in_redacted c = true) REDACTED.
Proof. repeat constructor. Qed.

(** Quoting the rewritten string is rewriting the quoted string. *)
Lemma sanitize_text_quote_body s :
  sanitize_text (quote_body s) = quote_body (sanitize_text s).
Proof.
  remember (length s) as n eqn:En. revert s En.
  induction n as [n IH] using lt_wf_ind. intros s En.
  destruct s as [|c s]; [reflexivity|].
  destruct (is_prefix REDACTED (c :: s)) eqn:E.
  - destruct (is_prefix_split _ _ E) as [s' Hs']. rewrite Hs'.
    change (quote_body (REDACTED ++ s')) with (REDACTED ++ quote_body s').
    rewrite !sanitize_text_match.
    change (quote_body (NEEDS_UPDATING ++ sanitize_text s'))
      with (NEEDS_UPDATING ++ quote_body (sanitize_text s')).
    f_equal. apply (IH (length s')); [|reflexivity].
    subst n. rewrite Hs', length_app. simpl. lia.
  - rewrite (sanitize_text_step _ _ E).
    destruct (in_redacted c) eqn:Hc.
    + rewrite !quote_body_redacted by exact Hc.
      rewrite sanitize_text_step.
      * f_equal. apply (IH (length s)); [subst n; simpl; lia|reflexivity].
      * rewrite <- (quote_body_redacted c s Hc).
        rewrite (is_prefix_quote_body REDACTED redacted_of_sentinel). exact E.
    + cbn [quote_body].
      destruct (is_high_surrogate c) eqn:Hh.
      * destruct s as [|d s].
        -- rewrite sanitize_text_nil. cbv iota.
           rewrite <- (app_nil_r (unicode_escape c)) at 1.
           rewrite sanitize_text_block by apply unicode_escape_foreign.
           rewrite sanitize_text_nil. apply app_nil_r.
        -- destruct (is_low_surrogate d) eqn:Hl.
           ++ assert (Hd : in_redacted d = false)
                by (apply surrogate_foreign; now right).
              rewrite (sanitize_text_foreign d s Hd), Hl.
              rewrite !sanitize_text_foreign by assumption.
              do 2 f_equal. apply (IH (length s)); [subst n; simpl; lia|reflexivity].
           ++ rewrite sanitize_text_block by apply unicode_escape_foreign.
              rewrite (IH (length (d :: s))) with (s := d :: s);
                [|subst n; simpl; lia|reflexivity].
              pose proof (sanitize_text_head_not_low (d :: s) Hl) as Hhead.
              destruct (sanitize_text (d :: s)) as [|d' t]; [reflexivity|].
              now rewrite Hhead.
      * destruct (is_low_surrogate c) eqn:Hl.
        -- rewrite sanitize_text_block by apply unicode_escape_foreign.
           f_equal. apply (IH (length s)); [subst n; simpl; lia|reflexivity].
        -- rewrite sanitize_text_block by (now apply escape_unit_foreign).
           f_equal. apply (IH (length s)); [subst n; simpl; lia|reflexivity].
Qed.

Lemma sanitize_text_quote s rest :
  sanitize_text (quote s ++ rest) = quote (sanitize_text s) ++ sanitize_text rest.
Proof.
  unfold quote. cbn [app]. rewrite <- app_assoc. cbn [app].
  rewrite sanitize_text_foreign by reflexivity.
  rewrite sanitize_text_sep by reflexivity.
  rewrite sanitize_text_quote_body, <- app_assoc. reflexivity.
Qed.

(** *** The rewrite and the text of a value *)

Lemma span_digits_spec s ds r :
  span_digits s = (ds, r) ->
  Forall (fun c => is_digit c = true) ds /\ s = ds ++ r.
Proof.
  revert ds r. induction s as [|c s IH]; intros ds r H; simpl in H.
  - inversion H. auto.
  - destruct (is_digit c) eqn:E.
    + destruct (span_digits s) as [ds' r'] eqn:Es. inversion H; subst.
      destruct (IH ds' r eq_refl) as [Hd ->]. auto.
    + inversion H. auto.
Qed.

Lemma digit_number_char c : is_digit c = true -> number_char c = true.
Proof. intro H. unfold number_char. now rewrite H. Qed.

Lemma digits_number_chars ds :
  Forall (fun c => is_digit c = true) ds ->
  Forall (fun c => number_char c = true) ds.
Proof. apply Forall_impl. exact digit_number_char. Qed.

Lemma lex_int_chars s i r :
  lex_int s = Some (i, r) -> Forall (fun c => number_char c = true) i.
Proof.
  unfold lex_int. destruct s as [|c s]; [discriminate|].
  destruct (c =? 48)%N.
  - intro H. inversion H. repeat constructor.
  - destruct (is_digit c) eqn:E; [|discriminate].
    destruct (span_digits s) as [ds r'] eqn:Es. intro H. inversion H; subst.
    constructor; [now apply digit_number_char|].
    apply digits_number_chars. now apply (span_digits_spec s ds r).
Qed.

Lemma lex_frac_chars s f r :
  lex_frac s = Some (f, r) -> Forall (fun c => number_char c = true) f.
Proof.
  unfold lex_frac. destruct s as [|c s]; [intro H; inversion H; constructor|].
  destruct (c =? 46)%N.
  - destruct (span_digits s) as [[|d ds] r'] eqn:Es; [discriminate|].
    intro H. inversion H; subst. constructor; [reflexivity|].
    apply digits_number_chars. now apply (span_digits_spec s (d :: ds) r).
  - intro H. inversion H. constructor.
Qed.

Lemma lex_exp_chars s e r :
  lex_exp s = Some (e, r) -> Forall (fun c => number_char c = true) e.
Proof.
  unfold lex_exp. destruct s as [|c s]; [intro H; inversion H; constructor|].
  destruct ((c =? 101) || (c =? 69))%N; [|intro H; inversion H; constructor].
  assert (Hsign : forall sign s'',
             (match s with
              | d :: t => if ((d =? 43) || (d =? 45))%N then ([d], t) else ([], s)
              | [] => ([], s)
              end) = (sign, s'') ->
             Forall (fun c => number_char c = true) sign).
  { intros sign s''. destruct s as [|d t]; [intro H; inversion H; constructor|].
    destruct ((d =? 43) || (d =? 45))%N eqn:E; intro H; inversion H; subst;
      constructor; auto.
    apply orb_true_iff in E as [E|E]; apply N.eqb_eq in E; subst; reflexivity. }
  destruct (match s with
            | d :: t => if ((d =? 43) || (d =? 45))%N then ([d], t) else ([], s)
            | [] => ([], s)
            end) as [sign s''] eqn:Es.
  destruct (span_digits s'') as [[|d ds] r'] eqn:Ed; [discriminate|].
  intro H. inversion H; subst. constructor; [reflexivity|].
  apply Forall_app. split; [now apply (Hsign sign s'')|].
  apply digits_number_chars. now apply (span_digits_spec s'' (d :: ds) r).
Qed.

(** A literal of the lexer is made of digits, signs, a point and [e]. *)
Lemma lex_number_chars s literal r :
  lex_number s = Some (literal, r) ->
  Forall (fun c => number_char c = true) literal.
Proof.
  unfold lex_number.
  destruct (match s with
            | c :: t => if (c =? 45)%N then ([45%N], t) else ([], s)
            | [] => ([], s)
            end) as [minus s1] eqn:Em.
  assert (Hminus : Forall (fun c => number_char c = true) minus).
  { destruct s as [|c t]; [inversion Em; constructor|].
    destruct (c =? 45)%N; inversion Em; repeat constructor. }
  destruct (lex_int s1) as [[i s2]|] eqn:Ei; [|discriminate].
  destruct (lex_frac s2) as [[f s3]|] eqn:Ef; [|discriminate].
  destruct (lex_exp s3) as [[e s4]|] eqn:Ee; [|discriminate].
  intro H. inversion H; subst.
  repeat (apply Forall_app; split); auto.
  - now apply (lex_int_chars s1 i s2).
  - now apply (lex_frac_chars s2 f s3).
  - now apply (lex_exp_chars s3 e r).
Qed.

Lemma number_char_foreign c : number_char c = true -> in_redacted c = false.
Proof.
  unfold number_char, is_digit. intro H.
  apply in_redacted_outside.
  repeat (apply orb_true_iff in H as [H|H]);
    try (apply N.eqb_eq in H; lia).
  apply andb_true_iff in H as [_ H]. apply N.leb_le in H. lia.
Qed.

Lemma sanitize_text_join (A : Type) (f f' : A -> jsstring) sep items :
  Forall (fun c => in_redacted c = false) sep ->
  Forall (fun x => forall rest,
              sanitize_text (f x ++ rest) = f' x ++ sanitize_text rest) items ->
  forall rest,
    sanitize_text (join sep (map f items) ++ rest)
    = join sep (map f' items) ++ sanitize_text rest.
Proof.
  intros Hsep Hitems. induction Hitems as [|x items Hx Hrest IH]; intro rest.
  - reflexivity.
  - cbn [map join]. destruct items as [|y items].
    + apply Hx.
    + cbn [map] in *. rewrite <- !app_assoc. rewrite Hx.
      rewrite sanitize_text_block by exact Hsep. now rewrite IH.
Qed.

Lemma match_map {A B T : Type} (f : A -> B) (l : list A) (a b : T) :
  match map f l with [] => a | _ :: _ => b end
  = match l with [] => a | _ :: _ => b end.
Proof. destruct l; reflexivity. Qed.

(** The rewrite of the text of a value is the text of the rewritten
    value, with any gap of spaces. *)
Lemma sanitize_text_serialize gap :
  Forall (fun c => in_redacted c = false) gap ->
  forall v,
    well_formed v ->
    forall indent rest,
      Forall (fun c => in_redacted c = false) indent ->
      sanitize_text (serialize gap indent v ++ rest)
      = serialize gap indent (sanitize_value v) ++ sanitize_text rest.
Proof.
  intros Hgap v. pattern v. apply JSON_induction; clear v.
  - intros _ indent rest _. now apply sanitize_text_block; repeat constructor.
  - intros [|] _ indent rest _; now apply sanitize_text_block; repeat constructor.
  - intros text Hwf indent rest _. cbn [serialize sanitize_value].
    destruct (is_infinite text) eqn:Ei.
    + now apply sanitize_text_block; repeat constructor.
    + cbn [serialize]. rewrite Ei. apply sanitize_text_block.
      destruct Hwf as [[Hinf|Hlex] _]; [congruence|].
      apply lex_number_chars in Hlex. revert Hlex. apply Forall_impl.
      exact number_char_foreign.
  - intros s _ indent rest _. apply sanitize_text_quote.
  - intros items IH Hwf indent rest Hindent.
    cbn [well_formed] in Hwf. apply all_of_Forall in Hwf.
    cbn [serialize sanitize_value].
    rewrite match_map.
    destruct items as [|x items'] eqn:El;
      [now apply sanitize_text_block; repeat constructor|].
    rewrite <- El in *. clear El x items'.
    assert (Hinner : Forall (fun c => in_redacted c = false) (indent ++ gap))
      by (apply Forall_app; auto).
    rewrite map_map.
    cbn [app]. rewrite sanitize_text_foreign by reflexivity. f_equal.
    rewrite <- !app_assoc.
    rewrite sanitize_text_block
      by (destruct (is_nil gap); repeat constructor; exact Hinner).
    f_equal.
    rewrite (sanitize_text_join JSON (serialize gap (indent ++ gap))
               (fun x => serialize gap (indent ++ gap) (sanitize_value x))).
    + f_equal. rewrite sanitize_text_block
        by (destruct (is_nil gap); repeat constructor; exact Hindent).
      f_equal; try (now rewrite sanitize_text_foreign by reflexivity).
    + destruct (is_nil gap); repeat constructor; exact Hinner.
    + induction IH as [|y l Hy _ IHl]; constructor.
      * intro rest'. inversion Hwf; subst. now apply Hy.
      * apply IHl. now inversion Hwf.
  - intros members IH Hwf indent rest Hindent.
    cbn [well_formed] in Hwf. destruct Hwf as (_ & _ & Hwf).
    apply all_of_Forall in Hwf.
    cbn [serialize sanitize_value].
    rewrite match_map.
    destruct members as [|m members'] eqn:El;
      [now apply sanitize_text_block; repeat constructor|].
    rewrite <- El in *. clear El m members'.
    assert (Hinner : Forall (fun c => in_redacted c = false) (indent ++ gap))
      by (apply Forall_app; auto).
    rewrite map_map. cbn [fst snd].
    cbn [app]. rewrite sanitize_text_foreign by reflexivity. f_equal.
    rewrite <- !app_assoc.
    rewrite sanitize_text_block
      by (destruct (is_nil gap); repeat constructor; exact Hinner).
    f_equal.
    rewrite (sanitize_text_join (jsstring * JSON)
               (fun m0 => quote (fst m0)
                            ++ (if is_nil gap then [58%N] else [58%N; 32%N])
                            ++ serialize gap (indent ++ gap) (snd m0))
               (fun m0 => quote (sanitize_text (fst m0))
                            ++ (if is_nil gap then [58%N] else [58%N; 32%N])
                            ++ serialize gap (indent ++ gap) (sanitize_value (snd m0)))).
    + f_equal. rewrite sanitize_text_block
        by (destruct (is_nil gap); repeat constructor; exact Hindent).
      f_equal; try (now rewrite sanitize_text_foreign by reflexivity).
    + destruct (is_nil gap); repeat constructor; exact Hinner.
    + induction IH as [|y l Hy _ IHl]; constructor.
      * intro rest'. inversion Hwf; subst.
        rewrite <- !app_assoc. rewrite sanitize_text_quote. f_equal.
        rewrite sanitize_text_block by (destruct (is_nil gap); repeat constructor).
        f_equal. now apply Hy.
      * apply IHl. now inversion Hwf.
Qed.

(** ** The order of the members of an object *)

Lemma insert_member_perm m l : Permutation (insert_member m l) (m :: l).
Proof.
  induction l as [|x l IH]; cbn [insert_member]; [reflexivity|].
  destruct (index_of m <=? index_of x)%N; [reflexivity|].
  rewrite IH. apply perm_swap.
Qed.

Lemma sort_members_perm l : Permutation (sort_members l) l.
Proof.
  induction l as [|x l IH]; cbn [sort_members fold_right]; [reflexivity|].
  fold (sort_members l). rewrite insert_member_perm. now constructor.
Qed.

Lemma filter_split_perm {A} (f : A -> bool) l :
  Permutation (filter f l ++ filter (fun x => negb (f x)) l) l.
Proof.
  induction l as [|x l IH]; cbn [filter]; [reflexivity|].
  destruct (f x); cbn [negb app].
  - now constructor.
  - symmetry. apply Permutation_cons_app. now symmetry.
Qed.

Lemma own_property_order_perm l : Permutation (own_property_order l) l.
Proof.
  unfold own_property_order. rewrite sort_members_perm. apply filter_split_perm.
Qed.

Lemma insert_member_sorted m l :
  Sorted index_le l -> Sorted index_le (insert_member m l).
Proof.
  induction 1 as [|x l Hl IH Hhd]; cbn [insert_member].
  - repeat constructor.
  - destruct (index_of m <=? index_of x)%N eqn:E.
    + apply N.leb_le in E. repeat constructor; assumption.
    + apply N.leb_gt in E. constructor; [exact IH|].
      destruct Hhd as [|y l' Hxy]; cbn [insert_member].
      * constructor. unfold index_le. lia.
      * destruct (index_of m <=? index_of y)%N; constructor;
          unfold index_le in *; lia.
Qed.

Lemma sort_members_sorted l : Sorted index_le (sort_members l).
Proof.
  induction l as [|x l IH]; cbn [sort_members fold_right]; [constructor|].
  now apply insert_member_sorted.
Qed.

Lemma sort_members_id l : Sorted index_le l -> sort_members l = l.
Proof.
  induction 1 as [|x l Hl IH Hhd]; cbn [sort_members fold_right]; [reflexivity|].
  fold (sort_members l). rewrite IH.
  destruct Hhd as [|y l' Hxy]; cbn [insert_member]; [reflexivity|].
  unfold index_le in Hxy. apply N.leb_le in Hxy. now rewrite Hxy.
Qed.

Lemma filter_keeps {A} (f : A -> bool) l :
  Forall (fun x => f x = true) l -> filter f l = l.
Proof.
  induction 1 as [|x l Hx _ IH]; cbn [filter]; [reflexivity|].
  now rewrite Hx, IH.
Qed.

Lemma filter_drops {A} (f : A -> bool) l :
  Forall (fun x => f x = false) l -> filter f l = [].
Proof.
  induction 1 as [|x l Hx _ IH]; cbn [filter]; [reflexivity|].
  now rewrite Hx.
Qed.

Lemma filter_holds {A} (f : A -> bool) l :
  Forall (fun x => f x = true) (filter f l).
Proof.
  induction l as [|x l IH]; cbn [filter]; [constructor|].
  destruct (f x) eqn:E; [constructor|]; assumption.
Qed.

(** The order of the properties of an object is kept when its members
    are put in that order again. *)
Lemma own_property_order_again l :
  own_property_order (own_property_order l) = own_property_order l.
Proof.
  unfold own_property_order at 1.
  set (A := sort_members (filter is_index l)).
  set (B := filter (fun m => negb (is_index m)) l).
  assert (HA : Forall (fun m => is_index m = true) A).
  { eapply Permutation_Forall;
      [symmetry; apply sort_members_perm|apply filter_holds]. }
  assert (HB : Forall (fun m => negb (is_index m) = true) B)
    by apply (filter_holds (fun m => negb (is_index m))).
  assert (HA' : Forall (fun m => negb (is_index m) = false) A).
  { revert HA. apply Forall_impl. intros m ->. reflexivity. }
  assert (HB' : Forall (fun m => is_index m = false) B).
  { revert HB. apply Forall_impl. intros m H. now apply negb_true_iff in H. }
  unfold own_property_order. fold A. fold B.
  rewrite !filter_app.
  rewrite (filter_keeps is_index A HA), (filter_drops is_index B HB').
  rewrite (filter_drops (fun m => negb (is_index m)) A HA').
  rewrite (filter_keeps (fun m => negb (is_index m)) B HB).
  rewrite app_nil_r. cbn [app]. f_equal.
  apply sort_members_id. apply sort_members_sorted.
Qed.

Lemma own_property_order_names l :
  NoDup (map fst l) -> NoDup (map fst (own_property_order l)).
Proof.
  apply Permutation_NoDup. apply Permutation_map. symmetry.
  apply own_property_order_perm.
Qed.

Lemma own_property_order_all (P : jsstring * JSON -> Prop) l :
  all_of P l -> all_of P (own_property_order l).
Proof.
  rewrite !all_of_Forall. apply Permutation_Forall. symmetry.
  apply own_property_order_perm.
Qed.

(** The order depends on the indices the names denote only. *)
Section SameNames.
Variable g : jsstring * JSON -> jsstring * JSON.
Hypothesis g_name : forall m, index_key (fst (g m)) = index_key (fst m).

Lemma is_index_same m : is_index (g m) = is_index m.
Proof. unfold is_index. now rewrite g_name. Qed.

Lemma index_of_same m : index_of (g m) = index_of m.
Proof. unfold index_of. now rewrite g_name. Qed.

Lemma insert_member_same m l :
  insert_member (g m) (map g l) = map g (insert_member m l).
Proof.
  induction l as [|x l IH]; cbn [map insert_member]; [reflexivity|].
  rewrite !index_of_same. destruct (index_of m <=? index_of x)%N; [reflexivity|].
  cbn [map]. now rewrite IH.
Qed.

Lemma sort_members_same l : sort_members (map g l) = map g (sort_members l).
Proof.
  induction l as [|x l IH]; cbn [map sort_members fold_right]; [reflexivity|].
  fold (sort_members (map g l)). fold (sort_members l).
  now rewrite IH, insert_member_same.
Qed.

Lemma filter_same (f : jsstring * JSON -> bool) l :
  (forall m, f (g m) = f m) -> filter f (map g l) = map g (filter f l).
Proof.
  intro Hf. induction l as [|x l IH]; cbn [map filter]; [reflexivity|].
  rewrite Hf. destruct (f x); cbn [map]; now rewrite IH.
Qed.

Lemma own_property_order_same l :
  own_property_order (map g l) = map g (own_property_order l).
Proof.
  unfold own_property_order. rewrite map_app.
  rewrite (filter_same is_index l is_index_same).
  rewrite (filter_same (fun m => negb (is_index m)) l)
    by (intro m; now rewrite is_index_same).
  now rewrite sort_members_same.
Qed.
End SameNames.

(** ** What a file keeps of the text written to it *)

Lemma toWellFormed_unit c s :
  is_surrogate c = false -> toWellFormed (c :: s) = c :: toWellFormed s.
Proof.
  unfold is_surrogate. intro H. apply orb_false_iff in H as [Hh Hl].
  cbn [toWellFormed]. now rewrite Hh, Hl.
Qed.

Lemma toWellFormed_block b s :
  Forall (fun c => is_surrogate c = false) b ->
  toWellFormed (b ++ s) = b ++ toWellFormed s.
Proof.
  induction 1 as [|c b Hc _ IH]; [reflexivity|].
  cbn [app]. rewrite toWellFormed_unit by exact Hc. now rewrite IH.
Qed.

Lemma below_surrogates c : (c < 55296)%N -> is_surrogate c = false.
Proof.
  intro H. unfold is_surrogate, is_high_surrogate, is_low_surrogate.
  apply orb_false_iff. split; apply andb_false_iff; left; apply N.leb_gt; lia.
Qed.

Lemma hex_digit_below d : (d < 16)%N -> (hex_digit d < 55296)%N.
Proof.
  intro H. unfold hex_digit. destruct (d <? 10)%N; lia.
Qed.

Lemma unicode_escape_plain c :
  Forall (fun x => is_surrogate x = false) (unicode_escape c).
Proof.
  unfold unicode_escape, hex4.
  repeat constructor; apply below_surrogates; try apply hex_digit_below;
    try (apply N.mod_upper_bound; discriminate); lia.
Qed.

Lemma escape_unit_plain c :
  is_surrogate c = false ->
  Forall (fun x => is_surrogate x = false) (escape_unit c).
Proof.
  intro H. unfold escape_unit.
  repeat match goal with
         | |- context [if ?b then _ else _] => destruct b
         end;
    try (repeat constructor; fail).
  - apply unicode_escape_plain.
  - repeat constructor. exact H.
Qed.

(** The text between the quotes holds no surrogate without its
    partner. *)
Lemma toWellFormed_quote_body s :
  forall rest,
    toWellFormed (quote_body s ++ rest) = quote_body s ++ toWellFormed rest.
Proof.
  remember (length s) as n eqn:En. revert s En.
  induction n as [n IH] using lt_wf_ind. intros s En rest.
  destruct s as [|c s]; [reflexivity|].
  cbn [quote_body].
  destruct (is_high_surrogate c) eqn:Hh.
  - destruct s as [|d s].
    + rewrite toWellFormed_block by apply unicode_escape_plain. reflexivity.
    + destruct (is_low_surrogate d) eqn:Hl.
      * cbn [app toWellFormed]. rewrite Hh, Hl. do 2 f_equal.
        apply (IH (length s)); [subst n; simpl; lia|reflexivity].
      * rewrite <- !app_assoc.
        rewrite toWellFormed_block by apply unicode_escape_plain. f_equal.
        apply (IH (length (d :: s))); [subst n; simpl; lia|reflexivity].
  - destruct (is_low_surrogate c) eqn:Hl.
    + rewrite <- !app_assoc.
      rewrite toWellFormed_block by apply unicode_escape_plain. f_equal.
      apply (IH (length s)); [subst n; simpl; lia|reflexivity].
    + rewrite <- !app_assoc.
      rewrite toWellFormed_block
        by (apply escape_unit_plain; unfold is_surrogate; now rewrite Hh, Hl).
      f_equal. apply (IH (length s)); [subst n; simpl; lia|reflexivity].
Qed.

Lemma toWellFormed_quote s rest :
  toWellFormed (quote s ++ rest) = quote s ++ toWellFormed rest.
Proof.
  unfold quote. cbn [app]. rewrite <- !app_assoc. cbn [app].
  rewrite toWellFormed_unit by reflexivity. f_equal.
  rewrite toWellFormed_quote_body. reflexivity.
Qed.

Lemma number_char_plain c : number_char c = true -> is_surrogate c = false.
Proof.
  unfold number_char, is_digit. intro H. apply below_surrogates.
  repeat (apply orb_true_iff in H as [H|H]);
    try (apply N.eqb_eq in H; lia).
  apply andb_true_iff in H as [_ H]. apply N.leb_le in H. lia.
Qed.

Lemma toWellFormed_join (A : Type) (f : A -> jsstring) sep items :
  Forall (fun c => is_surrogate c = false) sep ->
  Forall (fun x => forall rest,
              toWellFormed (f x ++ rest) = f x ++ toWellFormed rest) items ->
  forall rest,
    toWellFormed (join sep (map f items) ++ rest)
    = join sep (map f items) ++ toWellFormed rest.
Proof.
  intros Hsep Hitems. induction Hitems as [|x items Hx Hrest IH]; intro rest.
  - reflexivity.
  - cbn [map join]. destruct items as [|y items].
    + apply Hx.
    + cbn [map] in *. rewrite <- !app_assoc. rewrite Hx.
      rewrite toWellFormed_block by exact Hsep. now rewrite IH.
Qed.

(** The text of a value holds no surrogate without its partner: a file
    keeps it as it is. *)
Lemma toWellFormed_serialize gap :
  Forall (fun c => is_surrogate c = false) gap ->
  forall v,
    well_formed v ->
    forall indent rest,
      Forall (fun c => is_surrogate c = false) indent ->
      toWellFormed (serialize gap indent v ++ rest)
      = serialize gap indent v ++ toWellFormed rest.
Proof.
  intros Hgap v. pattern v. apply JSON_induction; clear v.
  - intros _ indent rest _. now apply toWellFormed_block; repeat constructor.
  - intros [|] _ indent rest _; now apply toWellFormed_block; repeat constructor.
  - intros text Hwf indent rest _. cbn [serialize].
    destruct (is_infinite text) eqn:Ei.
    + now apply toWellFormed_block; repeat constructor.
    + apply toWellFormed_block.
      destruct Hwf as [[Hinf|Hlex] _]; [congruence|].
      apply lex_number_chars in Hlex. revert Hlex. apply Forall_impl.
      exact number_char_plain.
  - intros s _ indent rest _. apply toWellFormed_quote.
  - intros items IH Hwf indent rest Hindent.
    cbn [well_formed] in Hwf. apply all_of_Forall in Hwf.
    cbn [serialize].
    destruct items as [|x items'] eqn:El;
      [now apply toWellFormed_block; repeat constructor|].
    rewrite <- El in *. clear El x items'.
    assert (Hinner : Forall (fun c => is_surrogate c = false) (indent ++ gap))
      by (apply Forall_app; auto).
    cbn [app]. rewrite toWellFormed_unit by reflexivity. f_equal.
    rewrite <- !app_assoc.
    rewrite toWellFormed_block
      by (destruct (is_nil gap); repeat constructor; exact Hinner).
    f_equal.
    rewrite (toWellFormed_join JSON (serialize gap (indent ++ gap))).
    + f_equal. rewrite toWellFormed_block
        by (destruct (is_nil gap); repeat constructor; exact Hindent).
      f_equal; try (now rewrite toWellFormed_unit by reflexivity).
    + destruct (is_nil gap); repeat constructor; exact Hinner.
    + induction IH as [|y l Hy _ IHl]; constructor.
      * intro rest'. inversion Hwf; subst. now apply Hy.
      * apply IHl. now inversion Hwf.
  - intros members IH Hwf indent rest Hindent.
    cbn [well_formed] in Hwf. destruct Hwf as (_ & _ & Hwf).
    apply all_of_Forall in Hwf.
    cbn [serialize].
    destruct members as [|m members'] eqn:El;
      [now apply toWellFormed_block; repeat constructor|].
    rewrite <- El in *. clear El m members'.
    assert (Hinner : Forall (fun c => is_surrogate c = false) (indent ++ gap))
      by (apply Forall_app; auto).
    cbn [app]. rewrite toWellFormed_unit by reflexivity. f_equal.
    rewrite <- !app_assoc.
    rewrite toWellFormed_block
      by (destruct (is_nil gap); repeat constructor; exact Hinner).
    f_equal.
    rewrite (toWellFormed_join (jsstring * JSON)
               (fun m0 => quote (fst m0)
                            ++ (if is_nil gap then [58%N] else [58%N; 32%N])
                            ++ serialize gap (indent ++ gap) (snd m0))).
    + f_equal. rewrite toWellFormed_block
        by (destruct (is_nil gap); repeat constructor; exact Hindent).
      f_equal; try (now rewrite toWellFormed_unit by reflexivity).
    + destruct (is_nil gap); repeat constructor; exact Hinner.
    + induction IH as [|y l Hy _ IHl]; constructor.
      * intro rest'. inversion Hwf; subst.
        rewrite <- !app_assoc. rewrite toWellFormed_quote. f_equal.
        rewrite toWellFormed_block by (destruct (is_nil gap); repeat constructor).
        f_equal. now apply Hy.
      * apply IHl. now inversion Hwf.
Qed.

(** A file keeps the text [JSON.stringify(v, null, 2)] as it is. *)
Lemma toWellFormed_pretty v :
  well_formed v -> toWellFormed (JSON_stringify_pretty v) = JSON_stringify_pretty v.
Proof.
  intro Hwf. unfold JSON_stringify_pretty.
  pose proof (toWellFormed_serialize [32%N; 32%N]) as H.
  specialize (H ltac:(repeat constructor) v Hwf [] [] (Forall_nil _)).
  now rewrite !app_nil_r in H.
Qed.

(** *** The sentinels in what a file keeps *)

Lemma plain_unit_spec c :
  plain_unit c = true -> is_surrogate c = false /\ c <> 65533%N.
Proof.
  unfold plain_unit. intro H. apply andb_true_iff in H as [H1 H2].
  apply negb_true_iff in H1, H2. apply N.eqb_neq in H2. auto.
Qed.

Lemma is_prefix_toWellFormed pat :
  Forall (fun c => plain_unit c = true) pat ->
  forall s, is_prefix pat (toWellFormed s) = is_prefix pat s.
Proof.
  induction 1 as [|x pat Hx _ IH]; intro s; [reflexivity|].
  destruct (plain_unit_spec x Hx) as [Hsx Hfx].
  unfold is_surrogate in Hsx. apply orb_false_iff in Hsx as [Hxh Hxl].
  assert (Hne : forall c, is_high_surrogate c = true \/ is_low_surrogate c = true ->
                          (x =? c)%N = false).
  { intros c Hc. apply N.eqb_neq. intros <-. destruct Hc; congruence. }
  assert (Hfffd : (x =? 65533)%N = false) by now apply N.eqb_neq.
  destruct s as [|c s]; [reflexivity|].
  cbn [toWellFormed].
  destruct (is_high_surrogate c) eqn:Hh.
  - destruct s as [|d s]; [|destruct (is_low_surrogate d)];
      cbn [is_prefix]; rewrite ?Hfffd, (Hne c) by auto; reflexivity.
  - destruct (is_low_surrogate c) eqn:Hl.
    + cbn [is_prefix]. rewrite Hfffd, (Hne c) by auto. reflexivity.
    + cbn [is_prefix]. now rewrite IH.
Qed.

Lemma toWellFormed_pair c d s :
  is_high_surrogate c = true -> is_low_surrogate d = true ->
  toWellFormed (c :: d :: s) = c :: d :: toWellFormed s.
Proof. intros Hh Hl. cbn [toWellFormed]. now rewrite Hh, Hl. Qed.

Lemma toWellFormed_lone c s :
  is_surrogate c = true ->
  (is_high_surrogate c = true ->
   match s with d :: _ => is_low_surrogate d = false | [] => True end) ->
  toWellFormed (c :: s) = 65533%N :: toWellFormed s.
Proof.
  unfold is_surrogate. intros Hc Hs.
  change (toWellFormed (c :: s))
    with (if is_high_surrogate c then
            match s with
            | d :: s'' =>
                if is_low_surrogate d then c :: d :: toWellFormed s''
                else 65533%N :: toWellFormed s
            | [] => [65533%N]
            end
          else if is_low_surrogate c then 65533%N :: toWellFormed s
               else c :: toWellFormed s).
  destruct (is_high_surrogate c).
  - specialize (Hs eq_refl). destruct s as [|d s]; [reflexivity|].
    now rewrite Hs.
  - simpl in Hc. now rewrite Hc.
Qed.

(** A text without surrogates, and without the code unit that stands
    for a lone one, occurs as often in what the file keeps as in what
    was written. *)
Lemma occurrences_toWellFormed pat :
  pat <> [] ->
  Forall (fun c => plain_unit c = true) pat ->
  forall s, occurrences pat (toWellFormed s) = occurrences pat s.
Proof.
  intros Hne Hpat s.
  remember (length s) as n eqn:En. revert s En.
  induction n as [n IH] using lt_wf_ind. intros s En.
  destruct s as [|c s]; [reflexivity|].
  assert (Hmiss : forall u t,
             is_surrogate u = true \/ u = 65533%N -> is_prefix pat (u :: t) = false).
  { intros u t Hu. destruct pat as [|x pat']; [congruence|].
    inversion Hpat as [|? ? Hx _]; subst.
    destruct (plain_unit_spec x Hx) as [Hsx Hfx].
    cbn [is_prefix]. destruct (N.eqb_spec x u) as [->|]; [|reflexivity].
    destruct Hu; congruence. }
  pose proof (is_prefix_toWellFormed pat Hpat (c :: s)) as Hhead.
  rewrite (occurrences_cons pat c s).
  destruct (is_surrogate c) eqn:Hc.
  - rewrite (Hmiss c s) by auto.
    destruct (is_high_surrogate c) eqn:Hh.
    + destruct s as [|d s].
      * rewrite toWellFormed_lone by auto.
        rewrite occurrences_cons, Hmiss by auto. reflexivity.
      * destruct (is_low_surrogate d) eqn:Hl.
        -- rewrite toWellFormed_pair by assumption.
           rewrite !occurrences_cons.
           rewrite !Hmiss
             by (left; unfold is_surrogate; rewrite ?Hh, ?Hl, ?orb_true_r; auto).
           cbn [Nat.add].
           apply (IH (length s)); [subst n; simpl; lia|reflexivity].
        -- rewrite toWellFormed_lone by auto.
           rewrite occurrences_cons, Hmiss by auto. cbn [Nat.add].
           apply (IH (length (d :: s))); [subst n; simpl; lia|reflexivity].
    + rewrite toWellFormed_lone by (try exact Hc; intro; congruence).
      rewrite occurrences_cons, Hmiss by auto. cbn [Nat.add].
      apply (IH (length s)); [subst n; simpl; lia|reflexivity].
  - rewrite <- Hhead. rewrite toWellFormed_unit by exact Hc.
    rewrite occurrences_cons. f_equal.
    apply (IH (length s)); [subst n; simpl; lia|reflexivity].
Qed.

Lemma occurrences_REDACTED_toWellFormed s :
  occurrences REDACTED (toWellFormed s) = occurrences REDACTED s.
Proof.
  apply occurrences_toWellFormed; [discriminate|repeat constructor].
Qed.

Lemma occurrences_NEEDS_UPDATING_toWellFormed s :
  occurrences NEEDS_UPDATING (toWellFormed s) = occurrences NEEDS_UPDATING s.
Proof.
  apply occurrences_toWellFormed; [discriminate|repeat constructor].
Qed.

(** The import summary is written as it is: JSON.stringify leaves no
    surrogate alone. *)
Lemma import_summary_utf8 env baseUrl :
  toWellFormed (import_summary env baseUrl) = import_summary env baseUrl.
Proof.
  unfold import_summary. apply toWellFormed_pretty.
  cbn [well_formed map fst snd all_of]. split; [|split].
  - repeat constructor; cbn [In]; intuition discriminate.
  - reflexivity.
  - repeat split.
Qed.

(** ** JSON.parse reads back what JSON.stringify writes *)

(** *** Strings *)

Lemma unhex_hex_digit d : (d < 16)%N -> unhex_digit (hex_digit d) = Some d.
Proof.
  intro H. unfold hex_digit, unhex_digit, is_digit.
  destruct (d <? 10)%N eqn:E.
  - apply N.ltb_lt in E.
    replace ((48 <=? 48 + d) && (48 + d <=? 57))%N with true
      by (symmetry; apply andb_true_iff; split; apply N.leb_le; lia).
    f_equal. lia.
  - apply N.ltb_ge in E.
    replace ((48 <=? 87 + d) && (87 + d <=? 57))%N with false
      by (symmetry; apply andb_false_iff; right; apply N.leb_gt; lia).
    replace ((97 <=? 87 + d) && (87 + d <=? 102))%N with true
      by (symmetry; apply andb_true_iff; split; apply N.leb_le; lia).
    f_equal. lia.
Qed.

Lemma unhex4_hex4 c :
  (c < 65536)%N ->
  match hex4 c with
  | [h1; h2; h3; h4] => unhex4 h1 h2 h3 h4 = Some c
  | _ => False
  end.
Proof.
  intro H. unfold hex4, unhex4.
  rewrite !unhex_hex_digit by (apply N.mod_upper_bound; discriminate).
  f_equal.
  assert (H1 : (c / 16 = 16 * (c / 256) + (c / 16) mod 16)%N).
  { replace (c / 256)%N with (c / 16 / 16)%N
      by (rewrite N.Div0.div_div; reflexivity).
    apply N.div_mod. discriminate. }
  assert (H2 : (c / 256 = 16 * (c / 4096) + (c / 256) mod 16)%N).
  { replace (c / 4096)%N with (c / 256 / 16)%N
      by (rewrite N.Div0.div_div; reflexivity).
    apply N.div_mod. discriminate. }
  assert (H3 : (c = 16 * (c / 16) + c mod 16)%N) by (apply N.div_mod; discriminate).
  assert (H4 : ((c / 4096) mod 16 = c / 4096)%N).
  { apply N.mod_small. apply N.Div0.div_lt_upper_bound. exact H. }
  rewrite H4.
  set (a := (c / 4096)%N) in *. set (b := ((c / 256) mod 16)%N) in *.
  set (d := ((c / 16) mod 16)%N) in *. set (e := (c mod 16)%N) in *.
  set (q1 := (c / 16)%N) in *. set (q2 := (c / 256)%N) in *.
  clearbody a b d e q1 q2. lia.
Qed.

Lemma parse_unicode_escape c t :
  (c < 65536)%N ->
  parse_string_body (unicode_escape c ++ t) = prepend c (parse_string_body t).
Proof.
  intro H. pose proof (unhex4_hex4 c H) as Hu.
  unfold unicode_escape. destruct (hex4 c) as [|h1 [|h2 [|h3 [|h4 [|]]]]];
    try contradiction.
  cbn [app parse_string_body]. cbn. now rewrite Hu.
Qed.

Lemma parse_escape_unit c t :
  is_high_surrogate c = false -> is_low_surrogate c = false ->
  parse_string_body (escape_unit c ++ t) = prepend c (parse_string_body t).
Proof.
  intros _ _. unfold escape_unit.
  destruct (N.eqb_spec c 8) as [->|]; [reflexivity|].
  destruct (N.eqb_spec c 9) as [->|]; [reflexivity|].
  destruct (N.eqb_spec c 10) as [->|]; [reflexivity|].
  destruct (N.eqb_spec c 12) as [->|]; [reflexivity|].
  destruct (N.eqb_spec c 13) as [->|]; [reflexivity|].
  destruct (N.eqb_spec c 34) as [->|]; [reflexivity|].
  destruct (N.eqb_spec c 92) as [->|]; [reflexivity|].
  destruct (c <? 32)%N eqn:E.
  - apply N.ltb_lt in E. apply parse_unicode_escape. lia.
  - cbn [app parse_string_body].
    destruct (N.eqb_spec c 34); [contradiction|].
    destruct (N.eqb_spec c 92); [contradiction|].
    now rewrite E.
Qed.

Lemma parse_surrogate c t :
  is_high_surrogate c = true \/ is_low_surrogate c = true ->
  parse_string_body (c :: t) = prepend c (parse_string_body t).
Proof.
  unfold is_high_surrogate, is_low_surrogate. intro H.
  assert (Hc : (55296 <= c)%N)
    by (destruct H as [H|H]; apply andb_true_iff in H as [H _];
        apply N.leb_le in H; lia).
  cbn [parse_string_body].
  destruct (N.eqb_spec c 34); [lia|]. destruct (N.eqb_spec c 92); [lia|].
  destruct (c <? 32)%N eqn:E; [apply N.ltb_lt in E; lia|reflexivity].
Qed.

(** The text between the quotes is read back, up to the closing quote. *)
Lemma parse_quote_body s :
  forall rest,
    parse_string_body (quote_body s ++ 34%N :: rest) = Some (s, rest).
Proof.
  remember (length s) as n eqn:En. revert s En.
  induction n as [n IH] using lt_wf_ind. intros s En rest.
  destruct s as [|c s]; [reflexivity|].
  cbn [quote_body].
  destruct (is_high_surrogate c) eqn:Hh.
  - assert (Hc : (c < 65536)%N).
    { unfold is_high_surrogate in Hh. apply andb_true_iff in Hh as [_ Hh].
      apply N.leb_le in Hh. lia. }
    destruct s as [|d s].
    + rewrite parse_unicode_escape by exact Hc. reflexivity.
    + destruct (is_low_surrogate d) eqn:Hl.
      * cbn [app]. rewrite parse_surrogate by (now left).
        rewrite parse_surrogate by (now right).
        rewrite (IH (length s)); [reflexivity|subst n; simpl; lia|reflexivity].
      * rewrite <- app_assoc, parse_unicode_escape by exact Hc.
        rewrite (IH (length (d :: s))); [reflexivity|subst n; simpl; lia|reflexivity].
  - destruct (is_low_surrogate c) eqn:Hl.
    + assert (Hc : (c < 65536)%N).
      { unfold is_low_surrogate in Hl. apply andb_true_iff in Hl as [_ Hl].
        apply N.leb_le in Hl. lia. }
      rewrite <- app_assoc, parse_unicode_escape by exact Hc.
      rewrite (IH (length s)); [reflexivity|subst n; simpl; lia|reflexivity].
    + rewrite <- app_assoc, parse_escape_unit by assumption.
      rewrite (IH (length s)); [reflexivity|subst n; simpl; lia|reflexivity].
Qed.

(** *** Numbers *)

Lemma number_ends_cases c rest :
  number_ends (c :: rest) ->
  is_digit c = false /\ (c =? 46)%N = false
  /\ ((c =? 101) || (c =? 69))%N = false.
Proof.
  unfold number_ends. intro H.
  apply orb_false_iff in H as [H H3]. apply orb_false_iff in H as [H H2].
  apply orb_false_iff in H as [H0 H1]. rewrite H0, H1, H2, H3. auto.
Qed.

Lemma span_digits_app a rest ds r :
  span_digits a = (ds, r) ->
  (r = [] -> number_ends rest) ->
  span_digits (a ++ rest) = (ds, r ++ rest).
Proof.
  revert ds r. induction a as [|c a IH]; intros ds r H Hend.
  - inversion H; subst. destruct rest as [|c rest]; [reflexivity|].
    simpl. destruct (number_ends_cases c rest (Hend eq_refl)) as (-> & _).
    reflexivity.
  - simpl in *. destruct (is_digit c).
    + destruct (span_digits a) as [ds' r'] eqn:E. inversion H; subst.
      now rewrite (IH ds' r eq_refl Hend).
    + inversion H; subst. reflexivity.
Qed.

Lemma lex_int_app a rest i r :
  lex_int a = Some (i, r) ->
  (r = [] -> number_ends rest) ->
  lex_int (a ++ rest) = Some (i, r ++ rest).
Proof.
  unfold lex_int. destruct a as [|c a]; [discriminate|]. cbn [app].
  destruct (c =? 48)%N; [intros H _; now inversion H|].
  destruct (is_digit c); [|discriminate].
  destruct (span_digits a) as [ds r'] eqn:E. intros H Hend. inversion H; subst.
  now rewrite (span_digits_app a rest ds r E Hend).
Qed.

Lemma lex_frac_app a rest f r :
  lex_frac a = Some (f, r) ->
  number_ends rest ->
  lex_frac (a ++ rest) = Some (f, r ++ rest).
Proof.
  unfold lex_frac. destruct a as [|c a].
  - intros H Hend. inversion H; subst. destruct rest as [|c rest]; [reflexivity|].
    cbn [app]. destruct (number_ends_cases c rest Hend) as (_ & -> & _).
    reflexivity.
  - cbn [app]. destruct (c =? 46)%N; [|intros H _; now inversion H].
    destruct (span_digits a) as [[|d ds] r'] eqn:E; [discriminate|].
    intros H Hend. inversion H; subst.
    now rewrite (span_digits_app a rest (d :: ds) r E (fun _ => Hend)).
Qed.

Lemma lex_exp_app a rest e r :
  lex_exp a = Some (e, r) ->
  number_ends rest ->
  lex_exp (a ++ rest) = Some (e, r ++ rest).
Proof.
  unfold lex_exp. destruct a as [|c a].
  - intros H Hend. inversion H; subst. destruct rest as [|c rest]; [reflexivity|].
    cbn [app]. destruct (number_ends_cases c rest Hend) as (_ & _ & ->).
    reflexivity.
  - cbn [app]. destruct ((c =? 101) || (c =? 69))%N; [|intros H _; now inversion H].
    destruct a as [|d t]; [discriminate|]. cbn [app].
    destruct ((d =? 43) || (d =? 45))%N.
    + destruct (span_digits t) as [[|x ds] r'] eqn:E; [discriminate|].
      intros H Hend. inversion H; subst.
      now rewrite (span_digits_app t rest (x :: ds) r E (fun _ => Hend)).
    + destruct (span_digits (d :: t)) as [[|x ds] r'] eqn:E; [discriminate|].
      intros H Hend. inversion H; subst.
      change (d :: t ++ rest) with ((d :: t) ++ rest).
      now rewrite (span_digits_app (d :: t) rest (x :: ds) r E (fun _ => Hend)).
Qed.

(** A literal is read back, whatever follows it that does not go on with
    a number. *)
Lemma lex_number_app a rest literal r :
  lex_number a = Some (literal, r) ->
  number_ends rest ->
  lex_number (a ++ rest) = Some (literal, r ++ rest).
Proof.
  unfold lex_number. intros H Hend.
  destruct a as [|c a]; [discriminate|]. cbn [app].
  destruct (c =? 45)%N.
  - destruct (lex_int a) as [[i s2]|] eqn:Ei; [|discriminate].
    destruct (lex_frac s2) as [[f s3]|] eqn:Ef; [|discriminate].
    destruct (lex_exp s3) as [[e s4]|] eqn:Ee; [|discriminate].
    inversion H; subst.
    rewrite (lex_int_app a rest i s2 Ei (fun _ => Hend)).
    rewrite (lex_frac_app s2 rest f s3 Ef Hend).
    now rewrite (lex_exp_app s3 rest e r Ee Hend).
  - destruct (lex_int (c :: a)) as [[i s2]|] eqn:Ei; [|discriminate].
    destruct (lex_frac s2) as [[f s3]|] eqn:Ef; [|discriminate].
    destruct (lex_exp s3) as [[e s4]|] eqn:Ee; [|discriminate].
    inversion H; subst.
    change (c :: a ++ rest) with ((c :: a) ++ rest).
    rewrite (lex_int_app (c :: a) rest i s2 Ei (fun _ => Hend)).
    rewrite (lex_frac_app s2 rest f s3 Ef Hend).
    now rewrite (lex_exp_app s3 rest e r Ee Hend).
Qed.

(** A literal starts with a minus sign or a digit. *)
Lemma lex_number_head s literal r :
  lex_number s = Some (literal, r) ->
  exists c t, literal = c :: t /\ s = c :: skipn 1 s
              /\ ((c =? 45)%N = true \/ is_digit c = true).
Proof.
  unfold lex_number. destruct s as [|c s]; [discriminate|].
  destruct (c =? 45)%N eqn:E.
  - destruct (lex_int s) as [[i s2]|]; [|discriminate].
    destruct (lex_frac s2) as [[f s3]|]; [|discriminate].
    destruct (lex_exp s3) as [[e s4]|]; [|discriminate].
    intro H. inversion H; subst. apply N.eqb_eq in E. subst c.
    exists 45%N, (i ++ f ++ e). auto.
  - destruct (lex_int (c :: s)) as [[i s2]|] eqn:Ei; [|discriminate].
    destruct (lex_frac s2) as [[f s3]|]; [|discriminate].
    destruct (lex_exp s3) as [[e s4]|]; [|discriminate].
    intro H. inversion H; subst. unfold lex_int in Ei.
    destruct (N.eqb_spec c 48) as [->|].
    + inversion Ei; subst. exists 48%N, (f ++ e). auto.
    + destruct (is_digit c) eqn:Ed; [|discriminate].
      destruct (span_digits s) as [ds r']. inversion Ei; subst.
      exists c, (ds ++ f ++ e). auto.
Qed.

(** *** Values *)

Lemma serialize_array x items :
  serialize [] [] (JArray (x :: items))
  = 91%N :: join [44%N] (map (serialize [] []) (x :: items)) ++ [93%N].
Proof. reflexivity. Qed.

Lemma serialize_object m members :
  serialize [] [] (JObject (m :: members))
  = 123%N :: join [44%N]
               (map (fun m => quote (fst m) ++ 58%N :: serialize [] [] (snd m))
                  (m :: members))
      ++ [125%N].
Proof. reflexivity. Qed.

Lemma serialize_head v :
  well_formed v ->
  exists c t, serialize [] [] v = c :: t /\ opens_value c.
Proof.
  destruct v as [ |[|]|text|s|[|x items]|[|m members]]; intro Hwf;
    try (do 2 eexists; split; [reflexivity|repeat split]; fail).
  cbn [well_formed] in Hwf. cbn [serialize].
  destruct (is_infinite text) eqn:Ei.
  { do 2 eexists; split; [reflexivity|repeat split]. }
  destruct Hwf as [[Hinf|Hlex] _]; [congruence|].
  destruct (lex_number_head _ _ _ Hlex) as (c & t & -> & _ & Hc).
  exists c, t. split; [reflexivity|].
  unfold opens_value, is_ws, is_digit in *.
  destruct Hc as [Hc|Hc].
  - apply N.eqb_eq in Hc. subst c. repeat split.
  - apply andb_true_iff in Hc as [H1 H2]. apply N.leb_le in H1, H2.
    repeat split; repeat (apply orb_false_iff; split); apply N.eqb_neq; lia.
Qed.

Lemma skip_ws_opens (c : unit16) (t : jsstring) :
  is_ws c = false -> skip_ws (c :: t) = c :: t.
Proof. intro H. simpl. now rewrite H. Qed.

(** A text that starts as a number is read by the lexer. *)
Lemma parse_value_number fuel (c : unit16) (t : jsstring) :
  (c =? 45)%N = true \/ is_digit c = true ->
  parse_value (S fuel) (c :: t)
  = match lex_number (c :: t) with
    | Some (literal, r) => Parsed (JNumber (canonical_literal literal)) r
    | None => Malformed
    end.
Proof.
  intro Hc.
  assert (H : is_ws c = false /\ (c =? 34)%N = false /\ (c =? 91)%N = false
              /\ (c =? 123)%N = false /\ (110 =? c)%N = false
              /\ (116 =? c)%N = false /\ (102 =? c)%N = false).
  { unfold is_ws, is_digit in *. destruct Hc as [Hc|Hc].
    - apply N.eqb_eq in Hc. subst c. repeat split.
    - apply andb_true_iff in Hc as [H1 H2]. apply N.leb_le in H1, H2.
      repeat split; repeat (apply orb_false_iff; split); apply N.eqb_neq; lia. }
  destruct H as (Hws & H34 & H91 & H123 & Hn & Ht & Hf).
  cbn [parse_value]. rewrite (skip_ws_opens c t Hws). cbv iota.
  rewrite H34, H91, H123.
  unfold txt_null, txt_true, txt_false. cbn [is_prefix].
  now rewrite Hn, Ht, Hf.
Qed.

Lemma obj_set_fresh acc k v :
  ~ In k (map fst acc) -> obj_set acc k v = acc ++ [(k, v)].
Proof.
  induction acc as [|[k' v'] acc IH]; intro H; [reflexivity|].
  cbn [obj_set]. destruct (jsstring_eqb k' k) eqn:E.
  - apply jsstring_eqb_eq in E. subst. exfalso. apply H. now left.
  - rewrite IH; [reflexivity|]. intro Hin. apply H. now right.
Qed.

Lemma parse_elements_serialize items :
  Forall reads_back items -> Forall well_formed items -> Forall finite items ->
  forall x acc fuel rest,
    reads_back x -> well_formed x -> finite x ->
    fold_right (fun y n => S (Nat.max (parse_need y) n)) 0 (x :: items) <= fuel ->
    parse_elements fuel
      (join [44%N] (map (serialize [] []) (x :: items)) ++ 93%N :: rest) acc
    = Parsed (JArray (acc ++ x :: items)) rest.
Proof.
  intros Hitems Hwf Hfin.
  induction Hitems as [|y items Hy _ IH]; intros x acc fuel rest Hx Hwx Hfx Hfuel.
  - cbn [fold_right] in Hfuel. destruct fuel as [|fuel]; [lia|].
    cbn [map join parse_elements].
    rewrite (Hx Hwx Hfx fuel (93%N :: rest)) by (try reflexivity; lia).
    reflexivity.
  - inversion Hwf as [|? ? Hwy Hwitems]; subst.
    inversion Hfin as [|? ? Hfy Hfitems]; subst.
    cbn [fold_right] in Hfuel. destruct fuel as [|fuel]; [lia|].
    change (join [44%N] (map (serialize [] []) (x :: y :: items)))
      with (serialize [] [] x ++ [44%N]
              ++ join [44%N] (map (serialize [] []) (y :: items))).
    rewrite <- !app_assoc. cbn [parse_elements].
    rewrite (Hx Hwx Hfx fuel) by (try reflexivity; lia).
    cbn [app skip_ws is_ws N.eqb Pos.eqb orb].
    etransitivity;
      [apply (IH Hwitems Hfitems y (acc ++ [x]) fuel rest Hy Hwy Hfy);
       cbn [fold_right]; lia|].
    now rewrite <- app_assoc.
Qed.

Lemma parse_members_serialize members :
  Forall (fun m => reads_back (snd m)) members ->
  Forall (fun m => well_formed (snd m)) members ->
  Forall (fun m => finite (snd m)) members ->
  forall m acc fuel rest,
    reads_back (snd m) -> well_formed (snd m) -> finite (snd m) ->
    NoDup (map fst (acc ++ m :: members)) ->
    fold_right (fun y n => S (Nat.max (parse_need (snd y)) n)) 0 (m :: members)
    <= fuel ->
    parse_members fuel
      (join [44%N]
         (map (fun m => quote (fst m) ++ 58%N :: serialize [] [] (snd m))
            (m :: members))
       ++ 125%N :: rest) acc
    = Parsed (JObject (own_property_order (acc ++ m :: members))) rest.
Proof.
  intros Hmembers Hwf Hfin.
  induction Hmembers as [|y members Hy _ IH];
    intros [k v] acc fuel rest Hx Hwx Hfx Hnd Hfuel; cbn [fst snd] in *.
  - cbn [fold_right snd] in Hfuel. destruct fuel as [|fuel]; [lia|].
    cbn [map join fst snd]. unfold quote. cbn [app].
    cbn [parse_members skip_ws is_ws N.eqb Pos.eqb orb].
    rewrite <- !app_assoc. cbn [app].
    rewrite parse_quote_body.
    cbn [skip_ws is_ws N.eqb Pos.eqb orb].
    rewrite (Hx Hwx Hfx fuel (125%N :: rest)) by (try reflexivity; lia).
    cbn [skip_ws is_ws N.eqb Pos.eqb orb].
    rewrite obj_set_fresh; [reflexivity|].
    rewrite map_app in Hnd. apply NoDup_remove_2 in Hnd.
    rewrite app_nil_r in Hnd. exact Hnd.
  - inversion Hwf as [|? ? Hwy Hwmembers]; subst.
    inversion Hfin as [|? ? Hfy Hfmembers]; subst.
    cbn [fold_right snd] in Hfuel. destruct fuel as [|fuel]; [lia|].
    change (join [44%N]
              (map (fun m => quote (fst m) ++ 58%N :: serialize [] [] (snd m))
                 ((k, v) :: y :: members)))
      with ((quote k ++ 58%N :: serialize [] [] v) ++ [44%N]
              ++ join [44%N]
                   (map (fun m => quote (fst m) ++ 58%N :: serialize [] [] (snd m))
                      (y :: members))).
    unfold quote at 1. cbn [app].
    cbn [parse_members skip_ws is_ws N.eqb Pos.eqb orb].
    rewrite <- !app_assoc. cbn [app]. rewrite <- ?app_assoc.
    rewrite parse_quote_body.
    cbn [skip_ws is_ws N.eqb Pos.eqb orb].
    rewrite (Hx Hwx Hfx fuel) by (try reflexivity; lia).
    cbn [app skip_ws is_ws N.eqb Pos.eqb orb].
    assert (Hfresh : ~ In k (map fst acc)).
    { rewrite map_app in Hnd. apply NoDup_remove_2 in Hnd.
      intro Hin. apply Hnd. apply in_or_app. now left. }
    rewrite (obj_set_fresh acc k v Hfresh).
    destruct y as [k' v'].
    etransitivity;
      [apply (IH Hwmembers Hfmembers (k', v') (acc ++ [(k, v)]) fuel rest Hy Hwy Hfy)|].
    + now rewrite <- app_assoc.
    + cbn [fold_right snd] in *. lia.
    + now rewrite <- app_assoc.
Qed.

Lemma parse_value_array fuel (s1 : jsstring) (c : unit16) (t' : jsstring) :
  skip_ws s1 = c :: t' -> (c =? 93)%N = false ->
  parse_value (S fuel) (91%N :: s1) = parse_elements fuel s1 [].
Proof.
  intros H1 H2. cbn [parse_value skip_ws is_ws N.eqb Pos.eqb orb].
  now rewrite H1, H2.
Qed.

Lemma parse_value_object fuel (s1 : jsstring) (c : unit16) (t' : jsstring) :
  skip_ws s1 = c :: t' -> (c =? 125)%N = false ->
  parse_value (S fuel) (123%N :: s1) = parse_members fuel s1 [].
Proof.
  intros H1 H2. cbn [parse_value skip_ws is_ws N.eqb Pos.eqb orb].
  now rewrite H1, H2.
Qed.

(** The text of a well-formed value is read back as the value. *)
Lemma parse_value_serialize v : reads_back v.
Proof.
  pattern v. apply JSON_induction; clear v; unfold reads_back.
  - intros _ _ [|fuel] rest Hfuel _; [simpl in Hfuel; lia|reflexivity].
  - intros [|] _ _ [|fuel] rest Hfuel _; try (simpl in Hfuel; lia); reflexivity.
  - intros text Hwf Hfin [|fuel] rest Hfuel Hend; [simpl in Hfuel; lia|].
    cbn [well_formed finite serialize] in *. rewrite Hfin.
    destruct Hwf as [[Hinf|Hlex] Hcan]; [congruence|].
    destruct (lex_number_head _ _ _ Hlex) as (c & t & E & _ & Hc).
    subst text. cbn [app].
    rewrite (parse_value_number fuel c (t ++ rest) Hc).
    change (c :: t ++ rest) with ((c :: t) ++ rest).
    rewrite (lex_number_app (c :: t) rest (c :: t) [] Hlex Hend).
    now rewrite Hcan.
  - intros s _ _ [|fuel] rest Hfuel _; [simpl in Hfuel; lia|].
    cbn [serialize]. unfold quote. cbn [app parse_value skip_ws is_ws N.eqb Pos.eqb orb].
    rewrite <- app_assoc. cbn [app]. now rewrite parse_quote_body.
  - intros items IH Hwf Hfin [|fuel] rest Hfuel Hend; [simpl in Hfuel; lia|].
    cbn [well_formed] in Hwf. apply all_of_Forall in Hwf.
    cbn [finite] in Hfin. apply all_of_Forall in Hfin.
    destruct items as [|x items]; [reflexivity|].
    rewrite serialize_array.
    inversion IH as [|? ? Hx Hitems]; subst.
    inversion Hwf as [|? ? Hwx Hwitems]; subst.
    inversion Hfin as [|? ? Hfx Hfitems]; subst.
    destruct (serialize_head x Hwx) as (c & t & Ec & Hws & H93 & _).
    cbn [app]. rewrite <- app_assoc. cbn [app].
    assert (Hskip : exists t',
               skip_ws (join [44%N] (map (serialize [] []) (x :: items))
                          ++ 93%N :: rest) = c :: t').
    { destruct items as [|y items]; cbn [map join]; rewrite Ec; cbn [app];
        rewrite skip_ws_opens by exact Hws; eauto. }
    destruct Hskip as [t' Hskip].
    etransitivity; [apply (parse_value_array fuel _ c t' Hskip H93)|].
    apply (parse_elements_serialize items Hitems Hwitems Hfitems x [] fuel rest
             Hx Hwx Hfx).
    cbn [parse_need] in Hfuel. lia.
  - intros members IH Hwf Hfin [|fuel] rest Hfuel Hend; [simpl in Hfuel; lia|].
    cbn [well_formed] in Hwf. destruct Hwf as (Hnd & Hord & Hwf).
    apply all_of_Forall in Hwf.
    cbn [finite] in Hfin. apply all_of_Forall in Hfin.
    destruct members as [|m members]; [reflexivity|].
    rewrite serialize_object.
    inversion IH as [|? ? Hx Hmembers]; subst.
    inversion Hwf as [|? ? Hwx Hwmembers]; subst.
    inversion Hfin as [|? ? Hfx Hfmembers]; subst.
    cbn [app]. rewrite <- app_assoc. cbn [app].
    assert (Hskip : exists t',
               skip_ws (join [44%N]
                          (map (fun m => quote (fst m)
                                           ++ 58%N :: serialize [] [] (snd m))
                             (m :: members))
                        ++ 125%N :: rest) = 34%N :: t').
    { destruct members as [|y members]; cbn [map join];
        unfold quote; cbn [app skip_ws is_ws N.eqb Pos.eqb orb]; eauto. }
    destruct Hskip as [t' Hskip].
    etransitivity; [apply (parse_value_object fuel _ 34%N t' Hskip eq_refl)|].
    etransitivity;
      [apply (parse_members_serialize members Hmembers Hwmembers Hfmembers m []
                fuel rest Hx Hwx Hfx)|].
    + exact Hnd.
    + cbn [parse_need] in Hfuel. lia.
    + cbn [app]. now rewrite Hord.
Qed.

(** The fuel the parser takes is enough for the text of a value. *)
Lemma parse_need_length v :
  well_formed v -> parse_need v <= length (serialize [] [] v).
Proof.
  pattern v. apply JSON_induction; clear v.
  - intros _. simpl. lia.
  - intros [|] _; simpl; lia.
  - intros text Hwf.
    destruct (serialize_head (JNumber text) Hwf) as (c & t & -> & _).
    simpl. lia.
  - intros s _. cbn [serialize parse_need]. unfold quote. simpl. lia.
  - intros items IH Hwf. cbn [well_formed] in Hwf. apply all_of_Forall in Hwf.
    destruct items as [|x items]; [simpl; lia|].
    rewrite serialize_array. cbn [parse_need length]. rewrite length_app.
    cbn [length].
    assert (H : fold_right (fun y n => S (Nat.max (parse_need y) n)) 0 (x :: items)
                <= S (length (join [44%N] (map (serialize [] []) (x :: items))))).
    { clear - IH Hwf. revert x IH Hwf.
      induction items as [|y items IHl]; intros x IH Hwf.
      - inversion IH; inversion Hwf; subst. cbn [fold_right map join].
        specialize (H1 H5). lia.
      - inversion IH as [|? ? Hx IH']; inversion Hwf as [|? ? Hwx Hwf']; subst.
        specialize (IHl y IH' Hwf'). specialize (Hx Hwx).
        change (join [44%N] (map (serialize [] []) (x :: y :: items)))
          with (serialize [] [] x ++ [44%N]
                  ++ join [44%N] (map (serialize [] []) (y :: items))).
        rewrite !length_app. cbn [length].
        cbn [fold_right] in *. unfold jsstring, unit16 in *. lia. }
    lia.
  - intros members IH Hwf. cbn [well_formed] in Hwf.
    destruct Hwf as (_ & _ & Hwf).
    apply all_of_Forall in Hwf.
    destruct members as [|m members]; [simpl; lia|].
    rewrite serialize_object. cbn [parse_need length]. rewrite length_app.
    cbn [length].
    assert (H : fold_right (fun y n => S (Nat.max (parse_need (snd y)) n)) 0
                  (m :: members)
                <= S (length (join [44%N]
                                (map (fun m => quote (fst m)
                                                 ++ 58%N :: serialize [] [] (snd m))
                                   (m :: members))))).
    { clear - IH Hwf. revert m IH Hwf.
      induction members as [|y members IHl]; intros m IH Hwf.
      - inversion IH; inversion Hwf; subst. cbn [fold_right map join].
        specialize (H1 H5). rewrite length_app. cbn [length]. lia.
      - inversion IH as [|? ? Hx IH']; inversion Hwf as [|? ? Hwx Hwf']; subst.
        specialize (IHl y IH' Hwf'). specialize (Hx Hwx).
        change (join [44%N]
                  (map (fun m => quote (fst m) ++ 58%N :: serialize [] [] (snd m))
                     (m :: y :: members)))
          with ((quote (fst m) ++ 58%N :: serialize [] [] (snd m)) ++ [44%N]
                  ++ join [44%N]
                       (map (fun m => quote (fst m)
                                        ++ 58%N :: serialize [] [] (snd m))
                          (y :: members))).
        rewrite !length_app. cbn [length].
        cbn [fold_right] in *. unfold jsstring, unit16 in *. lia. }
    lia.
Qed.

(** [JSON.parse(JSON.stringify(v))] is [v]. *)
Lemma JSON_parse_stringify v :
  well_formed v -> finite v -> JSON_parse (JSON_stringify v) = Some v.
Proof.
  intros Hwf Hfin. unfold JSON_parse, JSON_stringify.
  pose proof (parse_value_serialize v Hwf Hfin (parse_fuel (serialize [] [] v)) [])
    as H.
  rewrite app_nil_r in H. rewrite H; [reflexivity| |exact I].
  pose proof (parse_need_length v Hwf). unfold parse_fuel. lia.
Qed.

(** ** JSON.parse on any text

    The parser uses less text at each step, so that the fuel it starts
    with is never used up; and what it returns is well formed. *)

Lemma skip_ws_length s : length (skip_ws s) <= length s.
Proof.
  induction s as [|c s IH]; simpl; auto. destruct (is_ws c); simpl; lia.
Qed.

Lemma parse_string_body_length s t r :
  parse_string_body s = Some (t, r) -> length r < length s.
Proof.
  remember (length s) as n eqn:En. revert s En t r.
  induction n as [n IH] using lt_wf_ind. intros s En t r.
  destruct s as [|c s1]; [discriminate|]. cbn [parse_string_body].
  destruct (c =? 34)%N.
  { intro H. inversion H; subst. simpl. lia. }
  destruct (c =? 92)%N.
  - destruct s1 as [|e s2]; [discriminate|].
    destruct (e =? 117)%N.
    + destruct s2 as [|h1 [|h2 [|h3 [|h4 s3]]]]; try discriminate.
      destruct (unhex4 h1 h2 h3 h4); [|discriminate].
      destruct (parse_string_body s3) as [[t' r']|] eqn:E; [|discriminate].
      intro H. inversion H; subst.
      apply (IH (length s3)) in E; [simpl; lia|simpl; lia|reflexivity].
    + destruct (unescape e); [|discriminate].
      destruct (parse_string_body s2) as [[t' r']|] eqn:E; [|discriminate].
      intro H. inversion H; subst.
      apply (IH (length s2)) in E; [simpl; lia|simpl; lia|reflexivity].
  - destruct (c <? 32)%N; [discriminate|].
    destruct (parse_string_body s1) as [[t' r']|] eqn:E; [|discriminate].
    intro H. inversion H; subst.
    apply (IH (length s1)) in E; [simpl; lia|simpl; lia|reflexivity].
Qed.

Lemma span_digits_length s ds r : span_digits s = (ds, r) -> length r <= length s.
Proof.
  intro H. apply span_digits_spec in H as [_ ->]. rewrite length_app. lia.
Qed.

Lemma lex_int_length s i r : lex_int s = Some (i, r) -> length r < length s.
Proof.
  unfold lex_int. destruct s as [|c s]; [discriminate|].
  destruct (c =? 48)%N; [intro H; inversion H; simpl; lia|].
  destruct (is_digit c); [|discriminate].
  destruct (span_digits s) as [ds r'] eqn:E. intro H. inversion H; subst.
  apply span_digits_length in E. simpl. lia.
Qed.

Lemma lex_frac_length s f r : lex_frac s = Some (f, r) -> length r <= length s.
Proof.
  unfold lex_frac. destruct s as [|c s]; [intro H; inversion H; simpl; lia|].
  destruct (c =? 46)%N; [|intro H; inversion H; simpl; lia].
  destruct (span_digits s) as [[|d ds] r'] eqn:E; [discriminate|].
  intro H. inversion H; subst. apply span_digits_length in E. simpl. lia.
Qed.

Lemma lex_exp_length s e r : lex_exp s = Some (e, r) -> length r <= length s.
Proof.
  unfold lex_exp. destruct s as [|c s]; [intro H; inversion H; simpl; lia|].
  destruct ((c =? 101) || (c =? 69))%N; [|intro H; inversion H; simpl; lia].
  destruct s as [|d t]; [discriminate|].
  destruct ((d =? 43) || (d =? 45))%N.
  - destruct (span_digits t) as [[|x ds] r'] eqn:E; [discriminate|].
    intro H. inversion H; subst. apply span_digits_length in E. simpl. lia.
  - destruct (span_digits (d :: t)) as [[|x ds] r'] eqn:E; [discriminate|].
    intro H. inversion H; subst. apply span_digits_length in E. simpl in *. lia.
Qed.

Lemma lex_number_length s literal r :
  lex_number s = Some (literal, r) -> length r < length s.
Proof.
  unfold lex_number. destruct s as [|c s]; [discriminate|].
  destruct (c =? 45)%N.
  - destruct (lex_int s) as [[i s2]|] eqn:Ei; [|discriminate].
    destruct (lex_frac s2) as [[f s3]|] eqn:Ef; [|discriminate].
    destruct (lex_exp s3) as [[e s4]|] eqn:Ee; [|discriminate].
    intro H. inversion H; subst.
    apply lex_int_length in Ei. apply lex_frac_length in Ef.
    apply lex_exp_length in Ee. simpl. lia.
  - destruct (lex_int (c :: s)) as [[i s2]|] eqn:Ei; [|discriminate].
    destruct (lex_frac s2) as [[f s3]|] eqn:Ef; [|discriminate].
    destruct (lex_exp s3) as [[e s4]|] eqn:Ee; [|discriminate].
    intro H. inversion H; subst.
    apply lex_int_length in Ei. apply lex_frac_length in Ef.
    apply lex_exp_length in Ee. lia.
Qed.

Lemma skip_ws_cons s (c : unit16) (t : jsstring) :
  skip_ws s = c :: t -> length t < length s.
Proof.
  intro H. pose proof (skip_ws_length s) as L. rewrite H in L. simpl in L. lia.
Qed.

(** A value, a list of elements and a list of members each use one
    character at least. *)
Lemma parse_length fuel :
  (forall s v r, parse_value fuel s = Parsed v r -> length r < length s)
  /\ (forall s acc v r,
        parse_elements fuel s acc = Parsed v r -> length r < length s)
  /\ (forall s acc v r,
        parse_members fuel s acc = Parsed v r -> length r < length s).
Proof.
  induction fuel as [|fuel (IHv & IHe & IHm)].
  { repeat split; intros; discriminate. }
  repeat split.
  - intros s v r. cbn [parse_value].
    destruct (skip_ws s) as [|c s1] eqn:Es; [discriminate|].
    apply skip_ws_cons in Es.
    destruct (c =? 34)%N.
    { destruct (parse_string_body s1) as [[t r']|] eqn:E; [|discriminate].
      intro H. inversion H; subst. apply parse_string_body_length in E. lia. }
    destruct (c =? 91)%N.
    { destruct (skip_ws s1) as [|d s2] eqn:E1; [discriminate|].
      apply skip_ws_cons in E1.
      destruct (d =? 93)%N.
      - intro H. inversion H; subst. lia.
      - intro H. apply IHe in H. lia. }
    destruct (c =? 123)%N.
    { destruct (skip_ws s1) as [|d s2] eqn:E1; [discriminate|].
      apply skip_ws_cons in E1.
      destruct (d =? 125)%N.
      - intro H. inversion H; subst. lia.
      - intro H. apply IHm in H. lia. }
    destruct (is_prefix txt_null (c :: s1)).
    { intro H. assert (Hr : r = skipn 4 (c :: s1)) by (inversion H; reflexivity).
      rewrite Hr, length_skipn. simpl length. lia. }
    destruct (is_prefix txt_true (c :: s1)).
    { intro H. assert (Hr : r = skipn 4 (c :: s1)) by (inversion H; reflexivity).
      rewrite Hr, length_skipn. simpl length. lia. }
    destruct (is_prefix txt_false (c :: s1)).
    { intro H. assert (Hr : r = skipn 5 (c :: s1)) by (inversion H; reflexivity).
      rewrite Hr, length_skipn. simpl length. lia. }
    destruct (lex_number (c :: s1)) as [[literal r']|] eqn:E; [|discriminate].
    intro H. inversion H; subst. apply lex_number_length in E. simpl in E. lia.
  - intros s acc v r. cbn [parse_elements].
    destruct (parse_value fuel s) as [x r1| |] eqn:E; try discriminate.
    apply IHv in E.
    destruct (skip_ws r1) as [|d r2] eqn:E1; [discriminate|].
    apply skip_ws_cons in E1.
    destruct (d =? 44)%N.
    { intro H. apply IHe in H. lia. }
    destruct (d =? 93)%N; [|discriminate].
    intro H. inversion H; subst. lia.
  - intros s acc v r. cbn [parse_members].
    destruct (skip_ws s) as [|q s1] eqn:Es; [discriminate|].
    apply skip_ws_cons in Es.
    destruct (q =? 34)%N; [|discriminate].
    destruct (parse_string_body s1) as [[k r0]|] eqn:Ek; [|discriminate].
    apply parse_string_body_length in Ek.
    destruct (skip_ws r0) as [|col r1] eqn:E0; [discriminate|].
    apply skip_ws_cons in E0.
    destruct (col =? 58)%N; [|discriminate].
    destruct (parse_value fuel r1) as [x r2| |] eqn:E; try discriminate.
    apply IHv in E.
    destruct (skip_ws r2) as [|d r3] eqn:E2; [discriminate|].
    apply skip_ws_cons in E2.
    destruct (d =? 44)%N.
    { intro H. apply IHm in H. lia. }
    destruct (d =? 125)%N; [|discriminate].
    intro H. inversion H; subst. lia.
Qed.

(** With more fuel than twice the text that is left, no step of the
    parser runs out of it. *)
Lemma parse_fuel_enough fuel :
  (forall s, 2 * length s < fuel -> parse_value fuel s <> Exhausted)
  /\ (forall s acc, 2 * length s + 1 < fuel ->
        parse_elements fuel s acc <> Exhausted)
  /\ (forall s acc, 2 * length s + 1 < fuel ->
        parse_members fuel s acc <> Exhausted).
Proof.
  induction fuel as [|fuel (IHv & IHe & IHm)].
  { repeat split; intros; lia. }
  repeat split.
  - intros s L. cbn [parse_value].
    destruct (skip_ws s) as [|c s1] eqn:Es; [discriminate|].
    apply skip_ws_cons in Es.
    destruct (c =? 34)%N.
    { destruct (parse_string_body s1) as [[t r']|]; discriminate. }
    destruct (c =? 91)%N.
    { destruct (skip_ws s1) as [|d s2] eqn:E1; [discriminate|].
      destruct (d =? 93)%N; [discriminate|]. apply IHe. lia. }
    destruct (c =? 123)%N.
    { destruct (skip_ws s1) as [|d s2] eqn:E1; [discriminate|].
      destruct (d =? 125)%N; [discriminate|]. apply IHm. lia. }
    destruct (is_prefix txt_null (c :: s1)); [discriminate|].
    destruct (is_prefix txt_true (c :: s1)); [discriminate|].
    destruct (is_prefix txt_false (c :: s1)); [discriminate|].
    destruct (lex_number (c :: s1)) as [[literal r']|]; discriminate.
  - intros s acc L. cbn [parse_elements].
    destruct (parse_value fuel s) as [x r1| |] eqn:E; [|discriminate|].
    + apply (proj1 (parse_length fuel)) in E.
      destruct (skip_ws r1) as [|d r2] eqn:E1; [discriminate|].
      apply skip_ws_cons in E1.
      destruct (d =? 44)%N; [apply IHe; lia|].
      destruct (d =? 93)%N; discriminate.
    + exfalso. revert E. apply IHv. lia.
  - intros s acc L. cbn [parse_members].
    destruct (skip_ws s) as [|q s1] eqn:Es; [discriminate|].
    apply skip_ws_cons in Es.
    destruct (q =? 34)%N; [|discriminate].
    destruct (parse_string_body s1) as [[k r0]|] eqn:Ek; [|discriminate].
    apply parse_string_body_length in Ek.
    destruct (skip_ws r0) as [|col r1] eqn:E0; [discriminate|].
    apply skip_ws_cons in E0.
    destruct (col =? 58)%N; [|discriminate].
    destruct (parse_value fuel r1) as [x r2| |] eqn:E; [|discriminate|].
    + apply (proj1 (parse_length fuel)) in E.
      destruct (skip_ws r2) as [|d r3] eqn:E2; [discriminate|].
      apply skip_ws_cons in E2.
      destruct (d =? 44)%N; [apply IHm; lia|].
      destruct (d =? 125)%N; discriminate.
    + exfalso. revert E. apply IHv. lia.
Qed.

(** JSON.parse returns a value or throws: its fuel is never used up. *)
Lemma JSON_parse_total s : parse_value (parse_fuel s) s <> Exhausted.
Proof. apply (proj1 (parse_fuel_enough (parse_fuel s))). unfold parse_fuel. lia. Qed.

(** *** The literal of a number is in the form of the lexer *)

Lemma span_digits_end ds rest :
  Forall (fun c => is_digit c = true) ds ->
  is_digit (hd 0%N rest) = false ->
  span_digits (ds ++ rest) = (ds, rest).
Proof.
  intros Hds Hrest. induction Hds as [|c ds Hc _ IH]; cbn [app].
  - destruct rest as [|c rest]; [reflexivity|]. simpl in *. now rewrite Hrest.
  - cbn [span_digits]. now rewrite Hc, IH.
Qed.

Lemma lex_int_again s i r rest :
  lex_int s = Some (i, r) ->
  is_digit (hd 0%N rest) = false ->
  lex_int (i ++ rest) = Some (i, rest)
  /\ exists c t, i = c :: t /\ is_digit c = true.
Proof.
  unfold lex_int. destruct s as [|c s]; [discriminate|].
  destruct (c =? 48)%N eqn:E0.
  - intros H _. inversion H; subst. split; [reflexivity|].
    exists 48%N, []. auto.
  - destruct (is_digit c) eqn:Ec; [|discriminate].
    destruct (span_digits s) as [ds r'] eqn:E. intros H Hrest.
    inversion H; subst. apply span_digits_spec in E as [Hds _].
    split; [|exists c, ds; auto].
    cbn [app]. now rewrite E0, Ec, (span_digits_end ds rest Hds Hrest).
Qed.

Lemma lex_frac_again s f r rest :
  lex_frac s = Some (f, r) ->
  is_digit (hd 0%N rest) = false -> (hd 0%N rest =? 46)%N = false ->
  lex_frac (f ++ rest) = Some (f, rest)
  /\ is_digit (hd 0%N (f ++ rest)) = false.
Proof.
  assert (Hnil : (hd 0%N rest =? 46)%N = false ->
                 lex_frac rest = Some ([], rest)).
  { intro H. destruct rest as [|c rest]; [reflexivity|].
    simpl in *. now rewrite H. }
  unfold lex_frac at 1. destruct s as [|c s].
  { intros H Hd H46. inversion H; subst. cbn [app]. auto. }
  destruct (c =? 46)%N.
  - destruct (span_digits s) as [[|d ds] r'] eqn:E; [discriminate|].
    intros H Hd _. inversion H; subst. apply span_digits_spec in E as [Hds _].
    split; [|reflexivity].
    cbn [app lex_frac]. change (46 =? 46)%N with true. cbv iota.
    change (d :: ds ++ rest) with ((d :: ds) ++ rest).
    now rewrite (span_digits_end (d :: ds) rest Hds Hd).
  - intros H Hd H46. inversion H; subst. cbn [app]. auto.
Qed.

Lemma lex_exp_again s e r :
  lex_exp s = Some (e, r) ->
  lex_exp e = Some (e, [])
  /\ is_digit (hd 0%N e) = false /\ (hd 0%N e =? 46)%N = false.
Proof.
  unfold lex_exp at 1. destruct s as [|c s].
  { intro H. inversion H; subst. repeat split. }
  destruct ((c =? 101) || (c =? 69))%N.
  2:{ intro H. inversion H; subst. repeat split. }
  destruct s as [|d t]; [discriminate|].
  destruct ((d =? 43) || (d =? 45))%N eqn:Esign.
  - destruct (span_digits t) as [[|x ds] r'] eqn:E; [discriminate|].
    intro H. inversion H; subst. apply span_digits_spec in E as [Hds _].
    split; [|split; reflexivity].
    cbn [app lex_exp]. change ((101 =? 101) || (101 =? 69))%N with true.
    cbv iota. rewrite Esign.
    pose proof (span_digits_end (x :: ds) [] Hds eq_refl) as Hs.
    rewrite app_nil_r in Hs. now rewrite Hs.
  - destruct (span_digits (d :: t)) as [[|x ds] r'] eqn:E; [discriminate|].
    intro H. inversion H; subst.
    assert (Hx : x = d).
    { simpl in E. destruct (is_digit d); [|discriminate].
      destruct (span_digits t). now inversion E. }
    subst x. apply span_digits_spec in E as [Hds _].
    split; [|split; reflexivity].
    cbn [app lex_exp]. change ((101 =? 101) || (101 =? 69))%N with true.
    cbv iota. rewrite Esign.
    pose proof (span_digits_end (d :: ds) [] Hds eq_refl) as Hs.
    rewrite app_nil_r in Hs. now rewrite Hs.
Qed.

(** The lexer reads the literal it returns, and all of it. *)
Lemma lex_number_again s literal r :
  lex_number s = Some (literal, r) -> lex_number literal = Some (literal, []).
Proof.
  unfold lex_number at 1.
  destruct (match s with
            | c :: t => if (c =? 45)%N then ([45%N], t) else ([], s)
            | [] => ([], s)
            end) as [minus s1] eqn:Em.
  assert (Hminus : minus = [45%N] \/ minus = []).
  { destruct s as [|c t]; [inversion Em; auto|].
    destruct (c =? 45)%N; inversion Em; auto. }
  destruct (lex_int s1) as [[i s2]|] eqn:Ei; [|discriminate].
  destruct (lex_frac s2) as [[f s3]|] eqn:Ef; [|discriminate].
  destruct (lex_exp s3) as [[e s4]|] eqn:Ee; [|discriminate].
  intro H. inversion H; subst literal r. clear H.
  destruct (lex_exp_again s3 e s4 Ee) as (He & Hd & H46).
  pose proof (lex_frac_again s2 f s3 e Ef Hd H46) as [Hf Hdf].
  pose proof (lex_int_again s1 i s2 (f ++ e) Ei Hdf) as (Hi & c & t & Hc & Hdc).
  assert (Hlex : forall l,
             lex_int l = Some (i, f ++ e) ->
             match lex_int l with
             | None => None
             | Some (i0, s5) =>
                 match lex_frac s5 with
                 | None => None
                 | Some (f0, s6) =>
                     match lex_exp s6 with
                     | None => None
                     | Some (e0, s7) => Some (i0 ++ f0 ++ e0, s7)
                     end
                 end
             end = Some (i ++ f ++ e, [])).
  { intros l Hl. now rewrite Hl, Hf, He. }
  destruct Hminus as [-> | ->].
  - unfold lex_number. cbn [app]. change (45 =? 45)%N with true. cbv iota.
    now rewrite Hi, Hf, He.
  - unfold lex_number. cbn [app]. subst i. cbn [app].
    assert (H45 : (c =? 45)%N = false).
    { unfold is_digit in Hdc. apply andb_true_iff in Hdc as [H1 H2].
      apply N.leb_le in H1, H2. apply N.eqb_neq. lia. }
    rewrite H45. exact (Hlex _ Hi).
Qed.

(** *** What JSON.parse returns is well formed *)

Lemma obj_set_names m k v x :
  In x (map fst (obj_set m k v)) -> x = k \/ In x (map fst m).
Proof.
  induction m as [|[k' v'] m IH]; cbn [obj_set map fst In].
  - intros [H|[]]. auto.
  - destruct (jsstring_eqb k' k); cbn [map fst In]; [tauto|].
    intros [H|H]; [tauto|]. apply IH in H. tauto.
Qed.

Lemma obj_set_NoDup m k v :
  NoDup (map fst m) -> NoDup (map fst (obj_set m k v)).
Proof.
  induction m as [|[k' v'] m IH]; cbn [obj_set map fst]; intro H.
  - repeat constructor. intros [].
  - destruct (jsstring_eqb k' k) eqn:E; [exact H|].
    cbn [map fst]. inversion H as [|x l Hnotin Hnodup]; subst.
    constructor; [|now apply IH].
    intro Hin. apply obj_set_names in Hin as [Hin|Hin]; [|contradiction].
    subst k'. rewrite (proj2 (jsstring_eqb_eq k k) eq_refl) in E. discriminate.
Qed.

Lemma obj_set_all (P : jsstring * JSON -> Prop) m k v :
  (forall k', P (k', v)) -> all_of P m -> all_of P (obj_set m k v).
Proof.
  intro Hv. induction m as [|[k' v'] m IH]; cbn [obj_set all_of].
  - auto.
  - intros [H1 H2]. destruct (jsstring_eqb k' k); cbn [all_of]; auto.
Qed.

Lemma obj_set_so_far m k v :
  members_so_far m -> well_formed v -> members_so_far (obj_set m k v).
Proof.
  intros [H1 H2] Hv. split.
  - now apply obj_set_NoDup.
  - apply obj_set_all; auto.
Qed.

Lemma own_property_order_well_formed m :
  members_so_far m -> well_formed (JObject (own_property_order m)).
Proof.
  intros [H1 H2]. cbn [well_formed]. split; [|split].
  - now apply own_property_order_names.
  - apply own_property_order_again.
  - now apply own_property_order_all.
Qed.

Lemma all_of_snoc {A} (P : A -> Prop) l x :
  all_of P l -> P x -> all_of P (l ++ [x]).
Proof. induction l as [|y l IH]; cbn [app all_of]; tauto. Qed.

Lemma binary64_eqb_eq a b : binary64_eqb a b = true -> a = b.
Proof.
  destruct a, b; cbn [binary64_eqb]; try discriminate; try reflexivity.
  intro H. apply andb_true_iff in H as [H1 H2].
  apply N.eqb_eq in H1. apply Z.eqb_eq in H2. now subst.
Qed.

(** Two numbers that are the same have the same text. *)
Lemma Number_toString_same a b :
  same_number a b = true ->
  Number_toString (fst a) (snd a) = Number_toString (fst b) (snd b).
Proof.
  destruct a as [na xa], b as [nb xb]. unfold same_number. cbn [fst snd].
  intro H. apply andb_true_iff in H as [Hx Hs].
  apply binary64_eqb_eq in Hx. subst xb.
  apply orb_true_iff in Hs as [Hz|Hs].
  - apply binary64_eqb_eq in Hz. subst xa. reflexivity.
  - apply Bool.eqb_prop in Hs. now subst.
Qed.

(** The text of the number a literal denotes has the form of the text
    of a number. *)
Lemma canonical_literal_form s literal r :
  lex_number s = Some (literal, r) -> number_form (canonical_literal literal).
Proof.
  intro Hlex. apply lex_number_again in Hlex.
  unfold canonical_literal at 1.
  destruct (Number_toString (fst (number_of_literal literal))
              (snd (number_of_literal literal))) as [text|] eqn:Et.
  2:{ split; [now right|]. unfold canonical_literal. now rewrite Et. }
  destruct (reads_as text (number_of_literal literal)) eqn:Er.
  2:{ split; [now right|]. unfold canonical_literal. now rewrite Et, Er. }
  unfold reads_as in Er. apply andb_true_iff in Er as [Hform Hsame].
  split.
  - apply orb_true_iff in Hform as [Hinf|Hl]; [now left|right].
    destruct (lex_number text) as [[l [|c rest]]|]; try discriminate.
    apply jsstring_eqb_eq in Hl. now subst.
  - unfold canonical_literal.
    rewrite (Number_toString_same _ _ Hsame), Et.
    now destruct (reads_as text (number_of_literal text)).
Qed.

Lemma parse_well_formed fuel :
  (forall s v r, parse_value fuel s = Parsed v r -> well_formed v)
  /\ (forall s acc v r,
        parse_elements fuel s acc = Parsed v r ->
        all_of well_formed acc -> well_formed v)
  /\ (forall s acc v r,
        parse_members fuel s acc = Parsed v r ->
        members_so_far acc -> well_formed v).
Proof.
  induction fuel as [|fuel (IHv & IHe & IHm)].
  { repeat split; intros; discriminate. }
  repeat split.
  - intros s v r. cbn [parse_value].
    destruct (skip_ws s) as [|c s1]; [discriminate|].
    destruct (c =? 34)%N.
    { destruct (parse_string_body s1) as [[t r']|]; [|discriminate].
      intro H. inversion H. exact I. }
    destruct (c =? 91)%N.
    { destruct (skip_ws s1) as [|d s2]; [discriminate|].
      destruct (d =? 93)%N.
      - intro H. inversion H. exact I.
      - intro H. apply IHe in H; [exact H|exact I]. }
    destruct (c =? 123)%N.
    { destruct (skip_ws s1) as [|d s2]; [discriminate|].
      destruct (d =? 125)%N.
      - intro H. inversion H. repeat split. constructor.
      - intro H. apply IHm in H; [exact H|]. split; [constructor|exact I]. }
    destruct (is_prefix txt_null (c :: s1)); [intro H; inversion H; exact I|].
    destruct (is_prefix txt_true (c :: s1)); [intro H; inversion H; exact I|].
    destruct (is_prefix txt_false (c :: s1)); [intro H; inversion H; exact I|].
    destruct (lex_number (c :: s1)) as [[literal r']|] eqn:E; [|discriminate].
    intro H. inversion H; subst. cbn [well_formed].
    exact (canonical_literal_form _ _ _ E).
  - intros s acc v r. cbn [parse_elements].
    destruct (parse_value fuel s) as [x r1| |] eqn:E; try discriminate.
    apply IHv in E.
    destruct (skip_ws r1) as [|d r2]; [discriminate|].
    destruct (d =? 44)%N.
    { intros H Hacc. apply IHe in H; [exact H|]. now apply all_of_snoc. }
    destruct (d =? 93)%N; [|discriminate].
    intros H Hacc. inversion H; subst. cbn [well_formed]. now apply all_of_snoc.
  - intros s acc v r. cbn [parse_members].
    destruct (skip_ws s) as [|q s1]; [discriminate|].
    destruct (q =? 34)%N; [|discriminate].
    destruct (parse_string_body s1) as [[k r0]|]; [|discriminate].
    destruct (skip_ws r0) as [|col r1]; [discriminate|].
    destruct (col =? 58)%N; [|discriminate].
    destruct (parse_value fuel r1) as [x r2| |] eqn:E; try discriminate.
    apply IHv in E.
    destruct (skip_ws r2) as [|d r3]; [discriminate|].
    destruct (d =? 44)%N.
    { intros H Hacc. apply IHm in H; [exact H|]. now apply obj_set_so_far. }
    destruct (d =? 125)%N; [|discriminate].
    intros H Hacc. inversion H; subst.
    apply own_property_order_well_formed. now apply obj_set_so_far.
Qed.

(** The value of [JSON.parse(s)] is well formed. *)
Lemma JSON_parse_well_formed s v : JSON_parse s = Some v -> well_formed v.
Proof.
  unfold JSON_parse.
  destruct (parse_value (parse_fuel s) s) as [x r| |] eqn:E; try discriminate.
  destruct (is_nil (skip_ws r)); [|discriminate].
  intro H. inversion H; subst.
  exact (proj1 (parse_well_formed (parse_fuel s)) s v r E).
Qed.

(** [JSON.parse(s)] throws only on a text that is no JSON text, or goes
    on after one. *)
Lemma JSON_parse_throws s :
  JSON_parse s = None ->
  parse_value (parse_fuel s) s = Malformed
  \/ exists v rest,
       parse_value (parse_fuel s) s = Parsed v rest /\ skip_ws rest <> [].
Proof.
  unfold JSON_parse. pose proof (JSON_parse_total s) as Htotal.
  destruct (parse_value (parse_fuel s) s) as [x r| |]; [|auto|contradiction].
  destruct (skip_ws r) eqn:E; [discriminate|].
  intros _. right. exists x, r. split; [reflexivity|]. now rewrite E.
Qed.

(** *** The model at work *)

(** Numbers are written as Number::toString writes them. *)
Example canonical_literal_samples :
  map canonical_literal
    [js "17"; js "1.0"; js "-0"; js "1E2"; js "0.000001"; js "1e-7";
     js "1e21"; js "123456789012345678901234567890"; js "0.1"; js "4.35";
     js "5e-324"; js "1e999"; js "-2e308"]
  = [js "17"; js "1"; js "0"; js "100"; js "0.000001"; js "1e-7";
     js "1e+21"; js "1.2345678901234568e+29"; js "0.1"; js "4.35";
     js "5e-324"; js "Infinity"; js "-Infinity"].
Proof. vm_compute. reflexivity. Qed.

(** Array indices come first, in their order; a name that only looks
    like a number stays where it was created. *)
Example own_property_order_sample :
  map fst
    (own_property_order
       [(js "b", JNull); (js "10", JNull); (js "a", JNull); (js "9", JNull);
        (js "01", JNull); (js "4294967295", JNull); (js "4294967294", JNull)])
  = [js "9"; js "10"; js "4294967294"; js "b"; js "a"; js "01";
     js "4294967295"].
Proof. vm_compute. reflexivity. Qed.

(** ** JSON.parse reads back what JSON.stringify writes with a gap *)

Lemma skip_ws_blank W s : blank W -> skip_ws (W ++ s) = skip_ws s.
Proof.
  induction 1 as [|c W Hc _ IH]; [reflexivity|]. cbn [app skip_ws]. now rewrite Hc.
Qed.

Lemma parse_value_blank fuel W s :
  blank W -> parse_value fuel (W ++ s) = parse_value fuel s.
Proof.
  intro HW. destruct fuel as [|fuel]; [reflexivity|].
  cbn [parse_value]. now rewrite skip_ws_blank.
Qed.

Lemma parse_elements_blank fuel W s acc :
  blank W -> parse_elements fuel (W ++ s) acc = parse_elements fuel s acc.
Proof.
  intro HW. destruct fuel as [|fuel]; [reflexivity|].
  cbn [parse_elements]. now rewrite parse_value_blank.
Qed.

Lemma parse_members_blank fuel W s acc :
  blank W -> parse_members fuel (W ++ s) acc = parse_members fuel s acc.
Proof.
  intro HW. destruct fuel as [|fuel]; [reflexivity|].
  cbn [parse_members]. now rewrite skip_ws_blank.
Qed.

Lemma blank_number_ends c : is_ws c = true ->
  (is_digit c || (c =? 46) || (c =? 101) || (c =? 69))%N = false.
Proof.
  unfold is_ws. intro H.
  repeat (apply orb_true_iff in H as [H|H]); apply N.eqb_eq in H; subst;
    reflexivity.
Qed.

(** After white space and a token that is no part of a number, a number
    has ended. *)
Lemma number_ends_blank W (c : unit16) (r : jsstring) :
  blank W ->
  (is_digit c || (c =? 46) || (c =? 101) || (c =? 69))%N = false ->
  number_ends (W ++ c :: r).
Proof.
  intros HW Hc. destruct HW as [|w W Hw _]; cbn [app number_ends]; [exact Hc|].
  now apply blank_number_ends.
Qed.

Lemma skip_ws_token W (c : unit16) (r : jsstring) :
  blank W -> is_ws c = false -> skip_ws (W ++ c :: r) = c :: r.
Proof.
  intros HW Hc. rewrite skip_ws_blank by exact HW. cbn [skip_ws]. now rewrite Hc.
Qed.

(** The fuel a list of values needs, and the length of their texts
    with separators. *)
Lemma need_join {A} (need : A -> nat) (text : A -> jsstring) sep l :
  Forall (fun x => need x <= length (text x)) l ->
  1 <= length sep ->
  fold_right (fun y n => S (Nat.max (need y) n)) 0 l
  <= S (length (join sep (map text l))).
Proof.
  intros Hl Hsep. induction Hl as [|x l Hx Hl IH]; [simpl; lia|].
  destruct l as [|y l].
  - cbn [fold_right map join]. lia.
  - change (join sep (map text (x :: y :: l)))
      with (text x ++ sep ++ join sep (map text (y :: l))).
    rewrite !length_app.
    change (fold_right (fun y n => S (Nat.max (need y) n)) 0 (x :: y :: l))
      with (S (Nat.max (need x)
                 (fold_right (fun y n => S (Nat.max (need y) n)) 0 (y :: l)))).
    unfold jsstring, unit16 in *. lia.
Qed.

(** Rewriting with an equation between texts, whatever name the type of
    their code units goes by. *)
Ltac rewrite_text E :=
  let H := fresh "Htext" in
  pose proof E as H; unfold jsstring, unit16 in H |- *; rewrite H; clear H.

Section Gap.
Variable gap : jsstring.
Hypothesis gap_blank : blank gap.

Let opening (indent : jsstring) : jsstring :=
  if is_nil gap then [] else 10%N :: indent ++ gap.
Let closing (indent : jsstring) : jsstring :=
  if is_nil gap then [] else 10%N :: indent.
Let colon : jsstring := if is_nil gap then [] else [32%N].

Lemma blank_opening indent : blank indent -> blank (opening indent).
Proof.
  intro H. unfold opening. destruct (is_nil gap); [constructor|].
  constructor; [reflexivity|]. apply Forall_app. now split.
Qed.

Lemma blank_closing indent : blank indent -> blank (closing indent).
Proof.
  intro H. unfold closing. destruct (is_nil gap); [constructor|].
  constructor; [reflexivity|exact H].
Qed.

Lemma blank_colon : blank colon.
Proof. unfold colon. destruct (is_nil gap); repeat constructor. Qed.

Lemma blank_inner indent : blank indent -> blank (indent ++ gap).
Proof. intro H. apply Forall_app. now split. Qed.

Lemma serialize_array_with indent x items :
  serialize gap indent (JArray (x :: items))
  = 91%N :: opening indent
      ++ join (44%N :: opening indent)
           (map (serialize gap (indent ++ gap)) (x :: items))
      ++ closing indent ++ [93%N].
Proof. unfold opening, closing. cbn [serialize]. now destruct (is_nil gap). Qed.

Lemma serialize_object_with indent m members :
  serialize gap indent (JObject (m :: members))
  = 123%N :: opening indent
      ++ join (44%N :: opening indent)
           (map (fun m => quote (fst m) ++ (58%N :: colon)
                            ++ serialize gap (indent ++ gap) (snd m))
              (m :: members))
      ++ closing indent ++ [125%N].
Proof.
  unfold opening, closing, colon. cbn [serialize]. now destruct (is_nil gap).
Qed.

(** The first code unit of the text of a value, whatever the gap. *)
Lemma serialize_head_with indent v :
  well_formed v ->
  exists c t, serialize gap indent v = c :: t /\ opens_value c.
Proof.
  intro Hwf.
  destruct v as [ |[|]|text|s|[|x items]|[|m members]];
    try (exact (serialize_head _ Hwf));
    do 2 eexists; (split; [reflexivity|repeat split]).
Qed.

Lemma parse_elements_with items inner :
  blank inner ->
  Forall (reads_back_with gap) items -> Forall well_formed items ->
  Forall finite items ->
  forall x acc fuel (rest : jsstring) W sepW closeW,
    blank W -> blank sepW -> blank closeW ->
    reads_back_with gap x -> well_formed x -> finite x ->
    fold_right (fun y n => S (Nat.max (parse_need y) n)) 0 (x :: items) <= fuel ->
    parse_elements fuel
      (W ++ join (44%N :: sepW) (map (serialize gap inner) (x :: items))
         ++ closeW ++ 93%N :: rest) acc
    = Parsed (JArray (acc ++ x :: items)) rest.
Proof.
  intros Hinner Hitems Hwf Hfin.
  induction Hitems as [|y items Hy _ IH];
    intros x acc fuel rest W sepW closeW HW Hsep Hclose Hx Hwx Hfx Hfuel.
  - cbn [fold_right] in Hfuel. destruct fuel as [|fuel]; [lia|].
    cbn [map join]. rewrite parse_elements_blank by exact HW.
    cbn [parse_elements].
    rewrite (Hx Hwx Hfx inner fuel (closeW ++ 93%N :: rest) Hinner)
      by (try (apply number_ends_blank; [exact Hclose|reflexivity]); lia).
    rewrite skip_ws_blank by exact Hclose.
    cbn [skip_ws is_ws N.eqb Pos.eqb orb].
    reflexivity.
  - inversion Hwf as [|? ? Hwy Hwitems]; subst.
    inversion Hfin as [|? ? Hfy Hfitems]; subst.
    cbn [fold_right] in Hfuel. destruct fuel as [|fuel]; [lia|].
    change (join (44%N :: sepW) (map (serialize gap inner) (x :: y :: items)))
      with (serialize gap inner x ++ (44%N :: sepW)
              ++ join (44%N :: sepW) (map (serialize gap inner) (y :: items))).
    rewrite parse_elements_blank by exact HW.
    rewrite <- !app_assoc. cbn [parse_elements].
    rewrite (Hx Hwx Hfx inner fuel) by (try exact Hinner; try reflexivity; lia).
    cbn [app skip_ws is_ws N.eqb Pos.eqb orb].
    etransitivity;
      [apply (IH Hwitems Hfitems y (acc ++ [x]) fuel rest sepW sepW closeW
                Hsep Hsep Hclose Hy Hwy Hfy); cbn [fold_right]; lia|].
    now rewrite <- app_assoc.
Qed.

Lemma parse_members_with members inner :
  blank inner ->
  Forall (fun m => reads_back_with gap (snd m)) members ->
  Forall (fun m => well_formed (snd m)) members ->
  Forall (fun m => finite (snd m)) members ->
  forall m acc fuel (rest : jsstring) W sepW closeW,
    blank W -> blank sepW -> blank closeW ->
    reads_back_with gap (snd m) -> well_formed (snd m) -> finite (snd m) ->
    NoDup (map fst (acc ++ m :: members)) ->
    fold_right (fun y n => S (Nat.max (parse_need (snd y)) n)) 0 (m :: members)
    <= fuel ->
    parse_members fuel
      (W ++ join (44%N :: sepW)
              (map (fun m => quote (fst m) ++ (58%N :: colon)
                               ++ serialize gap inner (snd m))
                 (m :: members))
         ++ closeW ++ 125%N :: rest) acc
    = Parsed (JObject (own_property_order (acc ++ m :: members))) rest.
Proof.
  intros Hinner Hmembers Hwf Hfin.
  induction Hmembers as [|y members Hy _ IH];
    intros [k v] acc fuel rest W sepW closeW HW Hsep Hclose Hx Hwx Hfx Hnd Hfuel;
    cbn [fst snd] in *.
  - cbn [fold_right snd] in Hfuel. destruct fuel as [|fuel]; [lia|].
    cbn [map join fst snd]. rewrite parse_members_blank by exact HW.
    unfold quote. cbn [app].
    cbn [parse_members skip_ws is_ws N.eqb Pos.eqb orb].
    rewrite <- !app_assoc. cbn [app].
    rewrite parse_quote_body.
    cbn [skip_ws is_ws N.eqb Pos.eqb orb].
    rewrite <- ?app_assoc.
    rewrite (parse_value_blank fuel colon) by exact blank_colon.
    assert (Hend : number_ends (closeW ++ 125%N :: rest))
      by (apply number_ends_blank; [exact Hclose|reflexivity]).
    assert (Hfuel' : parse_need v <= fuel) by lia.
    rewrite_text (Hx Hwx Hfx inner fuel (closeW ++ 125%N :: rest) Hinner Hfuel' Hend).
    rewrite skip_ws_blank by exact Hclose.
    cbn [skip_ws is_ws N.eqb Pos.eqb orb].
    cbn [N.eqb Pos.eqb].
    rewrite obj_set_fresh; [reflexivity|].
    rewrite map_app in Hnd. apply NoDup_remove_2 in Hnd.
    rewrite app_nil_r in Hnd. exact Hnd.
  - inversion Hwf as [|? ? Hwy Hwmembers]; subst.
    inversion Hfin as [|? ? Hfy Hfmembers]; subst.
    cbn [fold_right snd] in Hfuel. destruct fuel as [|fuel]; [lia|].
    change (join (44%N :: sepW)
              (map (fun m => quote (fst m) ++ (58%N :: colon)
                               ++ serialize gap inner (snd m))
                 ((k, v) :: y :: members)))
      with ((quote k ++ (58%N :: colon) ++ serialize gap inner v)
              ++ (44%N :: sepW)
              ++ join (44%N :: sepW)
                   (map (fun m => quote (fst m) ++ (58%N :: colon)
                                    ++ serialize gap inner (snd m))
                      (y :: members))).
    rewrite parse_members_blank by exact HW.
    unfold quote at 1. cbn [app].
    cbn [parse_members skip_ws is_ws N.eqb Pos.eqb orb].
    rewrite <- !app_assoc. cbn [app]. rewrite <- ?app_assoc.
    rewrite parse_quote_body.
    cbn [skip_ws is_ws N.eqb Pos.eqb orb].
    rewrite <- ?app_assoc.
    rewrite (parse_value_blank fuel colon) by exact blank_colon.
    assert (Hfuel' : parse_need v <= fuel) by lia.
    match goal with
    | |- context [parse_value fuel (serialize gap inner v ++ ?r)] =>
        rewrite_text (Hx Hwx Hfx inner fuel r Hinner Hfuel' eq_refl)
    end.
    cbn [app skip_ws is_ws N.eqb Pos.eqb orb].
    assert (Hfresh : ~ In k (map fst acc)).
    { rewrite map_app in Hnd. apply NoDup_remove_2 in Hnd.
      intro Hin. apply Hnd. apply in_or_app. now left. }
    rewrite (obj_set_fresh acc k v Hfresh).
    destruct y as [k' v'].
    etransitivity;
      [apply (IH Hwmembers Hfmembers (k', v') (acc ++ [(k, v)]) fuel rest
                sepW sepW closeW Hsep Hsep Hclose Hy Hwy Hfy)|].
    + now rewrite <- app_assoc.
    + cbn [fold_right snd] in *. lia.
    + now rewrite <- app_assoc.
Qed.

(** The text of a well-formed value, written with the gap, is read back
    as the value. *)
Lemma parse_value_serialize_with v : reads_back_with gap v.
Proof.
  pattern v. apply JSON_induction; clear v; unfold reads_back_with.
  - intros _ _ indent [|fuel] rest _ Hfuel _; [simpl in Hfuel; lia|reflexivity].
  - intros [|] _ _ indent [|fuel] rest _ Hfuel _;
      try (simpl in Hfuel; lia); reflexivity.
  - intros text Hwf Hfin indent fuel rest _ Hfuel Hend.
    exact (parse_value_serialize (JNumber text) Hwf Hfin fuel rest Hfuel Hend).
  - intros s Hwf Hfin indent fuel rest _ Hfuel Hend.
    exact (parse_value_serialize (JString s) Hwf Hfin fuel rest Hfuel Hend).
  - intros items IH Hwf Hfin indent [|fuel] rest Hindent Hfuel Hend;
      [simpl in Hfuel; lia|].
    cbn [well_formed] in Hwf. apply all_of_Forall in Hwf.
    cbn [finite] in Hfin. apply all_of_Forall in Hfin.
    destruct items as [|x items]; [reflexivity|].
    rewrite serialize_array_with.
    inversion IH as [|? ? Hx Hitems]; subst.
    inversion Hwf as [|? ? Hwx Hwitems]; subst.
    inversion Hfin as [|? ? Hfx Hfitems]; subst.
    destruct (serialize_head_with (indent ++ gap) x Hwx)
      as (c & t & Ec & Hws & H93 & _).
    cbn [app]. rewrite <- !app_assoc. cbn [app].
    assert (Hskip : exists t',
               skip_ws (opening indent
                          ++ join (44%N :: opening indent)
                               (map (serialize gap (indent ++ gap)) (x :: items))
                          ++ closing indent ++ 93%N :: rest) = c :: t').
    { rewrite skip_ws_blank by (apply blank_opening; exact Hindent).
      destruct items as [|y items]; cbn [map join]; rewrite Ec; cbn [app];
        rewrite skip_ws_opens by exact Hws; eauto. }
    destruct Hskip as [t' Hskip].
    etransitivity; [apply (parse_value_array fuel _ c t' Hskip H93)|].
    apply (parse_elements_with items (indent ++ gap) (blank_inner indent Hindent)
             Hitems Hwitems Hfitems x [] fuel rest
             (opening indent) (opening indent) (closing indent)
             (blank_opening indent Hindent) (blank_opening indent Hindent)
             (blank_closing indent Hindent) Hx Hwx Hfx).
    cbn [parse_need] in Hfuel. lia.
  - intros members IH Hwf Hfin indent [|fuel] rest Hindent Hfuel Hend;
      [simpl in Hfuel; lia|].
    cbn [well_formed] in Hwf. destruct Hwf as (Hnd & Hord & Hwf).
    apply all_of_Forall in Hwf.
    cbn [finite] in Hfin. apply all_of_Forall in Hfin.
    destruct members as [|m members]; [reflexivity|].
    rewrite serialize_object_with.
    inversion IH as [|? ? Hx Hmembers]; subst.
    inversion Hwf as [|? ? Hwx Hwmembers]; subst.
    inversion Hfin as [|? ? Hfx Hfmembers]; subst.
    cbn [app]. rewrite <- !app_assoc. cbn [app].
    assert (Hskip : exists t',
               skip_ws (opening indent
                          ++ join (44%N :: opening indent)
                               (map (fun m => quote (fst m) ++ (58%N :: colon)
                                                ++ serialize gap (indent ++ gap) (snd m))
                                  (m :: members))
                          ++ closing indent ++ 125%N :: rest) = 34%N :: t').
    { rewrite skip_ws_blank by (apply blank_opening; exact Hindent).
      destruct members as [|y members]; cbn [map join];
        unfold quote; cbn [app skip_ws is_ws N.eqb Pos.eqb orb]; eauto. }
    destruct Hskip as [t' Hskip].
    etransitivity; [apply (parse_value_object fuel _ 34%N t' Hskip eq_refl)|].
    etransitivity;
      [apply (parse_members_with members (indent ++ gap)
                (blank_inner indent Hindent) Hmembers Hwmembers Hfmembers m []
                fuel rest (opening indent) (opening indent) (closing indent)
                (blank_opening indent Hindent) (blank_opening indent Hindent)
                (blank_closing indent Hindent) Hx Hwx Hfx)|].
    + exact Hnd.
    + cbn [parse_need] in Hfuel. lia.
    + cbn [app]. now rewrite Hord.
Qed.

(** The fuel the parser takes is enough for the text of a value. *)
Lemma parse_need_length_with v :
  well_formed v -> forall indent, parse_need v <= length (serialize gap indent v).
Proof.
  pattern v. apply JSON_induction; clear v.
  - intros _ indent. simpl. lia.
  - intros [|] _ indent; simpl; lia.
  - intros text Hwf indent. exact (parse_need_length (JNumber text) Hwf).
  - intros s Hwf indent. exact (parse_need_length (JString s) Hwf).
  - intros items IH Hwf indent. cbn [well_formed] in Hwf.
    apply all_of_Forall in Hwf.
    destruct items as [|x items]; [simpl; lia|].
    rewrite serialize_array_with. cbn [parse_need length].
    rewrite !length_app. cbn [length].
    pose proof (need_join parse_need (serialize gap (indent ++ gap))
                  (44%N :: opening indent) (x :: items)) as H.
    cbn [length] in H.
    assert (Hall : Forall (fun y => parse_need y
                                    <= length (serialize gap (indent ++ gap) y))
                     (x :: items)).
    { clear - IH Hwf. induction IH as [|y l Hy _ IHl]; [constructor|].
      inversion Hwf; subst. constructor; auto. }
    specialize (H Hall). unfold jsstring, unit16 in *. lia.
  - intros members IH Hwf indent. cbn [well_formed] in Hwf.
    destruct Hwf as (_ & _ & Hwf). apply all_of_Forall in Hwf.
    destruct members as [|m members]; [simpl; lia|].
    rewrite serialize_object_with. cbn [parse_need length].
    rewrite !length_app. cbn [length].
    pose proof (need_join (fun m => parse_need (snd m))
                  (fun m => quote (fst m) ++ (58%N :: colon)
                              ++ serialize gap (indent ++ gap) (snd m))
                  (44%N :: opening indent) (m :: members)) as H.
    cbn [length] in H.
    assert (Hall : Forall (fun y => parse_need (snd y)
                                    <= length (quote (fst y) ++ (58%N :: colon)
                                                 ++ serialize gap (indent ++ gap)
                                                      (snd y)))
                     (m :: members)).
    { clear - IH Hwf. induction IH as [|y l Hy _ IHl]; [constructor|].
      inversion Hwf; subst. constructor; auto.
      rewrite !length_app. specialize (Hy H1 (indent ++ gap)).
      unfold jsstring, unit16 in *. lia. }
    specialize (H Hall). unfold jsstring, unit16 in *. lia.
Qed.

End Gap.

(** [JSON.parse(JSON.stringify(v, null, 2))] is [v]. *)
Lemma JSON_parse_stringify_pretty v :
  well_formed v -> finite v -> JSON_parse (JSON_stringify_pretty v) = Some v.
Proof.
  intros Hwf Hfin. unfold JSON_parse, JSON_stringify_pretty.
  assert (Hgap : blank [32%N; 32%N]) by (repeat constructor).
  pose proof (parse_value_serialize_with [32%N; 32%N] Hgap v Hwf Hfin []
                (parse_fuel (serialize [32%N; 32%N] [] v)) []) as H.
  rewrite app_nil_r in H. rewrite H; [reflexivity|constructor| |exact I].
  pose proof (parse_need_length_with [32%N; 32%N] v Hwf []). unfold parse_fuel. lia.
Qed.

(** ** JSON.parse on the text of a value with members of one name *)

Lemma serialize_head_numbered v :
  numbered v ->
  exists c t, serialize [] [] v = c :: t /\ opens_value c.
Proof.
  destruct v as [ |[|]|text|s|[|x items]|[|m members]]; intro Hn;
    try (do 2 eexists; split; [reflexivity|repeat split]; fail).
  exact (serialize_head (JNumber text) Hn).
Qed.

Lemma well_formed_numbered v : well_formed v -> numbered v.
Proof.
  pattern v. apply JSON_induction; clear v; try (intros; exact I).
  - intros text H. exact H.
  - intros items IH Hwf. cbn [well_formed numbered] in *.
    apply all_of_Forall in Hwf. apply all_of_Forall.
    induction IH as [|x l Hx _ IHl]; constructor; inversion Hwf; subst; auto.
  - intros members IH (_ & _ & Hwf). cbn [numbered].
    apply all_of_Forall in Hwf. apply all_of_Forall.
    induction IH as [|x l Hx _ IHl]; constructor; inversion Hwf; subst; auto.
Qed.

Lemma parse_elements_again items :
  Forall reads_again items -> Forall numbered items -> Forall finite items ->
  forall x acc fuel rest,
    reads_again x -> numbered x -> finite x ->
    fold_right (fun y n => S (Nat.max (parse_need y) n)) 0 (x :: items) <= fuel ->
    parse_elements fuel
      (join [44%N] (map (serialize [] []) (x :: items)) ++ 93%N :: rest) acc
    = Parsed (JArray (acc ++ map reparse (x :: items))) rest.
Proof.
  intros Hitems Hwf Hfin.
  induction Hitems as [|y items Hy _ IH]; intros x acc fuel rest Hx Hwx Hfx Hfuel.
  - cbn [fold_right] in Hfuel. destruct fuel as [|fuel]; [lia|].
    cbn [map join parse_elements].
    rewrite (Hx Hwx Hfx fuel (93%N :: rest)) by (try reflexivity; lia).
    reflexivity.
  - inversion Hwf as [|? ? Hwy Hwitems]; subst.
    inversion Hfin as [|? ? Hfy Hfitems]; subst.
    cbn [fold_right] in Hfuel. destruct fuel as [|fuel]; [lia|].
    change (join [44%N] (map (serialize [] []) (x :: y :: items)))
      with (serialize [] [] x ++ [44%N]
              ++ join [44%N] (map (serialize [] []) (y :: items))).
    rewrite <- !app_assoc. cbn [parse_elements].
    rewrite (Hx Hwx Hfx fuel) by (try reflexivity; lia).
    cbn [app skip_ws is_ws N.eqb Pos.eqb orb].
    etransitivity;
      [apply (IH Hwitems Hfitems y (acc ++ [reparse x]) fuel rest Hy Hwy Hfy);
       cbn [fold_right]; lia|].
    now rewrite <- app_assoc.
Qed.

Lemma parse_members_again members :
  Forall (fun m => reads_again (snd m)) members ->
  Forall (fun m => numbered (snd m)) members ->
  Forall (fun m => finite (snd m)) members ->
  forall m acc fuel rest,
    reads_again (snd m) -> numbered (snd m) -> finite (snd m) ->
    fold_right (fun y n => S (Nat.max (parse_need (snd y)) n)) 0 (m :: members)
    <= fuel ->
    parse_members fuel
      (join [44%N]
         (map (fun m => quote (fst m) ++ 58%N :: serialize [] [] (snd m))
            (m :: members))
       ++ 125%N :: rest) acc
    = Parsed (JObject (own_property_order
                         (fold_left (fun acc m => obj_set acc (fst m) (snd m))
                            (map (fun m => (fst m, reparse (snd m)))
                               (m :: members))
                            acc))) rest.
Proof.
  intros Hmembers Hwf Hfin.
  induction Hmembers as [|y members Hy _ IH];
    intros [k v] acc fuel rest Hx Hwx Hfx Hfuel; cbn [fst snd] in *.
  - cbn [fold_right snd] in Hfuel. destruct fuel as [|fuel]; [lia|].
    cbn [map join fst snd]. unfold quote. cbn [app].
    cbn [parse_members skip_ws is_ws N.eqb Pos.eqb orb].
    rewrite <- !app_assoc. cbn [app].
    rewrite parse_quote_body.
    cbn [skip_ws is_ws N.eqb Pos.eqb orb].
    rewrite (Hx Hwx Hfx fuel (125%N :: rest)) by (try reflexivity; lia).
    cbn [skip_ws is_ws N.eqb Pos.eqb orb].
    reflexivity.
  - inversion Hwf as [|? ? Hwy Hwmembers]; subst.
    inversion Hfin as [|? ? Hfy Hfmembers]; subst.
    cbn [fold_right snd] in Hfuel. destruct fuel as [|fuel]; [lia|].
    change (join [44%N]
              (map (fun m => quote (fst m) ++ 58%N :: serialize [] [] (snd m))
                 ((k, v) :: y :: members)))
      with ((quote k ++ 58%N :: serialize [] [] v) ++ [44%N]
              ++ join [44%N]
                   (map (fun m => quote (fst m) ++ 58%N :: serialize [] [] (snd m))
                      (y :: members))).
    unfold quote at 1. cbn [app].
    cbn [parse_members skip_ws is_ws N.eqb Pos.eqb orb].
    rewrite <- !app_assoc. cbn [app]. rewrite <- ?app_assoc.
    rewrite parse_quote_body.
    cbn [skip_ws is_ws N.eqb Pos.eqb orb].
    rewrite (Hx Hwx Hfx fuel) by (try reflexivity; lia).
    cbn [app skip_ws is_ws N.eqb Pos.eqb orb].
    destruct y as [k' v'].
    etransitivity;
      [apply (IH Hwmembers Hfmembers (k', v') (obj_set acc k (reparse v)) fuel rest
                Hy Hwy Hfy)|].
    + cbn [fold_right snd] in *. lia.
    + reflexivity.
Qed.

(** The text of a value is read as the value, but for the members of
    one name. *)
Lemma parse_value_again v : reads_again v.
Proof.
  pattern v. apply JSON_induction; clear v; unfold reads_again.
  - intros _ _ [|fuel] rest Hfuel _; [simpl in Hfuel; lia|reflexivity].
  - intros [|] _ _ [|fuel] rest Hfuel _; try (simpl in Hfuel; lia); reflexivity.
  - intros text Hn Hfin fuel rest Hfuel Hend.
    exact (parse_value_serialize (JNumber text) Hn Hfin fuel rest Hfuel Hend).
  - intros s _ _ fuel rest Hfuel Hend.
    exact (parse_value_serialize (JString s) I I fuel rest Hfuel Hend).
  - intros items IH Hwf Hfin [|fuel] rest Hfuel Hend; [simpl in Hfuel; lia|].
    cbn [numbered] in Hwf. apply all_of_Forall in Hwf.
    cbn [finite] in Hfin. apply all_of_Forall in Hfin.
    destruct items as [|x items]; [reflexivity|].
    rewrite serialize_array.
    inversion IH as [|? ? Hx Hitems]; subst.
    inversion Hwf as [|? ? Hwx Hwitems]; subst.
    inversion Hfin as [|? ? Hfx Hfitems]; subst.
    destruct (serialize_head_numbered x Hwx) as (c & t & Ec & Hws & H93 & _).
    cbn [app]. rewrite <- app_assoc. cbn [app].
    assert (Hskip : exists t',
               skip_ws (join [44%N] (map (serialize [] []) (x :: items))
                          ++ 93%N :: rest) = c :: t').
    { destruct items as [|y items]; cbn [map join]; rewrite Ec; cbn [app];
        rewrite skip_ws_opens by exact Hws; eauto. }
    destruct Hskip as [t' Hskip].
    etransitivity; [apply (parse_value_array fuel _ c t' Hskip H93)|].
    apply (parse_elements_again items Hitems Hwitems Hfitems x [] fuel rest
             Hx Hwx Hfx).
    cbn [parse_need] in Hfuel. lia.
  - intros members IH Hwf Hfin [|fuel] rest Hfuel Hend; [simpl in Hfuel; lia|].
    cbn [numbered] in Hwf. apply all_of_Forall in Hwf.
    cbn [finite] in Hfin. apply all_of_Forall in Hfin.
    destruct members as [|m members]; [reflexivity|].
    rewrite serialize_object.
    inversion IH as [|? ? Hx Hmembers]; subst.
    inversion Hwf as [|? ? Hwx Hwmembers]; subst.
    inversion Hfin as [|? ? Hfx Hfmembers]; subst.
    cbn [app]. rewrite <- app_assoc. cbn [app].
    assert (Hskip : exists t',
               skip_ws (join [44%N]
                          (map (fun m => quote (fst m)
                                           ++ 58%N :: serialize [] [] (snd m))
                             (m :: members))
                        ++ 125%N :: rest) = 34%N :: t').
    { destruct members as [|y members]; cbn [map join];
        unfold quote; cbn [app skip_ws is_ws N.eqb Pos.eqb orb]; eauto. }
    destruct Hskip as [t' Hskip].
    etransitivity; [apply (parse_value_object fuel _ 34%N t' Hskip eq_refl)|].
    apply (parse_members_again members Hmembers Hwmembers Hfmembers m []
             fuel rest Hx Hwx Hfx).
    cbn [parse_need] in Hfuel. lia.
Qed.

(** The fuel the parser takes is enough for the text of a value. *)
Lemma parse_need_length_numbered v :
  numbered v -> parse_need v <= length (serialize [] [] v).
Proof.
  pattern v. apply JSON_induction; clear v.
  - intros _. simpl. lia.
  - intros [|] _; simpl; lia.
  - intros text Hwf. exact (parse_need_length (JNumber text) Hwf).
  - intros s _. exact (parse_need_length (JString s) I).
  - intros items IH Hwf. cbn [numbered] in Hwf. apply all_of_Forall in Hwf.
    destruct items as [|x items]; [simpl; lia|].
    rewrite serialize_array. cbn [parse_need length]. rewrite length_app.
    cbn [length].
    pose proof (need_join parse_need (serialize [] []) [44%N] (x :: items)) as H.
    assert (Hall : Forall (fun y => parse_need y <= length (serialize [] [] y))
                     (x :: items)).
    { clear - IH Hwf. induction IH as [|y l Hy _ IHl]; [constructor|].
      inversion Hwf; subst. constructor; auto. }
    specialize (H Hall). cbn [length] in H. unfold jsstring, unit16 in *. lia.
  - intros members IH Hwf. cbn [numbered] in Hwf. apply all_of_Forall in Hwf.
    destruct members as [|m members]; [simpl; lia|].
    rewrite serialize_object. cbn [parse_need length]. rewrite length_app.
    cbn [length].
    pose proof (need_join (fun m => parse_need (snd m))
                  (fun m => quote (fst m) ++ 58%N :: serialize [] [] (snd m))
                  [44%N] (m :: members)) as H.
    assert (Hall : Forall (fun y => parse_need (snd y)
                                    <= length (quote (fst y)
                                                 ++ 58%N :: serialize [] [] (snd y)))
                     (m :: members)).
    { clear - IH Hwf. induction IH as [|y l Hy _ IHl]; [constructor|].
      inversion Hwf; subst. constructor; auto.
      rewrite length_app. cbn [length]. specialize (Hy H1).
      unfold jsstring, unit16 in *. lia. }
    specialize (H Hall). cbn [length] in H. unfold jsstring, unit16 in *. lia.
Qed.

(** [JSON.parse(JSON.stringify(v))], whatever the member names of
    [v]. *)
Lemma JSON_parse_stringify_any v :
  numbered v -> finite v -> JSON_parse (JSON_stringify v) = Some (reparse v).
Proof.
  intros Hn Hfin. unfold JSON_parse, JSON_stringify.
  pose proof (parse_value_again v Hn Hfin (parse_fuel (serialize [] [] v)) [])
    as H.
  rewrite app_nil_r in H. rewrite H; [reflexivity| |exact I].
  pose proof (parse_need_length_numbered v Hn). unfold parse_fuel. lia.
Qed.

(** *** What is read again of a value that JSON.parse has made *)

Lemma collect_fresh members :
  forall acc,
    NoDup (map fst (acc ++ members)) ->
    fold_left (fun acc m => obj_set acc (fst m) (snd m)) members acc
    = acc ++ members.
Proof.
  induction members as [|[k v] members IH]; intros acc Hnd.
  - now rewrite app_nil_r.
  - cbn [fold_left fst snd].
    rewrite obj_set_fresh.
    + rewrite IH; rewrite <- app_assoc; [reflexivity|exact Hnd].
    + rewrite map_app in Hnd. apply NoDup_remove_2 in Hnd.
      intro Hin. apply Hnd. apply in_or_app. now left.
Qed.

Lemma reparse_well_formed v : well_formed v -> reparse v = v.
Proof.
  pattern v. apply JSON_induction; clear v; try reflexivity.
  - intros items IH Hwf. cbn [well_formed reparse] in *.
    apply all_of_Forall in Hwf. f_equal.
    induction IH as [|x l Hx _ IHl]; [reflexivity|].
    inversion Hwf; subst. cbn [map]. f_equal; auto.
  - intros members IH (Hnd & Hord & Hwf). cbn [reparse].
    apply all_of_Forall in Hwf.
    assert (Hmap : map (fun m => (fst m, reparse (snd m))) members = members).
    { clear Hnd Hord. induction IH as [|[k x] l Hx _ IHl]; [reflexivity|].
      inversion Hwf; subst. cbn [map fst snd] in *. f_equal; auto.
      now rewrite Hx. }
    rewrite Hmap. unfold collect. rewrite collect_fresh by exact Hnd.
    cbn [app]. now rewrite Hord.
Qed.
(** ** The claims on the exporter *)

Lemma sanitize_text_clean s :
  occurrences REDACTED s = 0 -> sanitize_text s = s.
Proof.
  pattern s. apply sanitize_text_ind; clear s.
  - reflexivity.
  - intros s _ H. exfalso.
    destruct s as [|c s]; cbn in H; discriminate.
  - intros c s E IH H. rewrite sanitize_text_step by exact E.
    rewrite occurrences_cons, E in H. f_equal. apply IH. exact H.
Qed.

(** *** The rewrite and the names of members *)

(** A name that the rewrite changes was no name made of digits, and is
    none afterwards. *)
Lemma sanitize_text_digits k :
  forallb is_digit (sanitize_text k) = forallb is_digit k
  /\ (forallb is_digit k = true -> sanitize_text k = k).
Proof.
  pattern k. apply sanitize_text_ind; clear k.
  - split; reflexivity.
  - intros s _. rewrite sanitize_text_match. split; [reflexivity|].
    intro H. discriminate H.
  - intros c s E [IH1 IH2]. rewrite sanitize_text_step by exact E.
    cbn [forallb]. rewrite IH1. split; [reflexivity|].
    intro H. apply andb_true_iff in H as [_ H]. now rewrite IH2.
Qed.

Lemma index_key_digits k : forallb is_digit k = false -> index_key k = None.
Proof.
  intro H. unfold index_key. destruct k as [|c t]; [reflexivity|].
  now rewrite H.
Qed.

Lemma index_key_sanitize k : index_key (sanitize_text k) = index_key k.
Proof.
  destruct (sanitize_text_digits k) as [H1 H2].
  destruct (forallb is_digit k) eqn:E.
  - now rewrite H2.
  - rewrite (index_key_digits k E). apply index_key_digits. now rewrite H1.
Qed.

(** The rewrite makes a name that holds no replacement sentinel out of
    that name only. *)
Lemma sanitize_text_hits k k' :
  occurrences NEEDS_UPDATING k = 0 -> sanitize_text k' = k -> k' = k.
Proof.
  intros Hk H. pose proof (sanitize_text_count k') as Hc.
  rewrite H, Hk in Hc.
  rewrite <- H. symmetry. apply sanitize_text_clean. lia.
Qed.

(** A value that JSON.parse has made and in which the rewrite brings no
    two names of an object together is rewritten into such a value. *)
Lemma well_formed_sanitize v :
  well_formed v -> apart v -> well_formed (sanitize_value v).
Proof.
  pattern v. apply JSON_induction; clear v; try (intros; exact I).
  - intros text Hwf _. cbn [sanitize_value].
    destruct (is_infinite text); [exact I|exact Hwf].
  - intros items IH Hwf Hc. cbn [well_formed apart sanitize_value] in *.
    apply all_of_Forall in Hwf, Hc. apply all_of_Forall.
    apply Forall_map. induction IH as [|x l Hx _ IHl]; constructor.
    + inversion Hwf; inversion Hc; subst. auto.
    + inversion Hwf; inversion Hc; subst. auto.
  - intros members IH (Hnd & Hord & Hwf) (Hap & Hc).
    cbn [well_formed sanitize_value] in *.
    apply all_of_Forall in Hwf, Hc. split; [|split].
    + rewrite map_map. exact Hap.
    + rewrite (own_property_order_same
                 (fun m => (sanitize_text (fst m), sanitize_value (snd m)))
                 (fun m => index_key_sanitize (fst m)) members).
      now rewrite Hord.
    + apply all_of_Forall. apply Forall_map. cbn [snd].
      clear Hnd Hord Hap. induction IH as [|x l Hx _ IHl]; constructor.
      * inversion Hwf; inversion Hc; subst. auto.
      * inversion Hwf; inversion Hc; subst. auto.
Qed.

Lemma numbered_sanitize v : well_formed v -> numbered (sanitize_value v).
Proof.
  pattern v. apply JSON_induction; clear v; try (intros; exact I).
  - intros text Hwf. cbn [sanitize_value].
    destruct (is_infinite text); [exact I|exact Hwf].
  - intros items IH Hwf. cbn [well_formed numbered sanitize_value] in *.
    apply all_of_Forall in Hwf. apply all_of_Forall.
    apply Forall_map. induction IH as [|x l Hx _ IHl]; constructor;
      inversion Hwf; subst; auto.
  - intros members IH (_ & _ & Hwf). cbn [numbered sanitize_value].
    apply all_of_Forall in Hwf. apply all_of_Forall. apply Forall_map. cbn [snd].
    induction IH as [|x l Hx _ IHl]; constructor; inversion Hwf; subst; auto.
Qed.

(** No number of a rewritten value is other than finite. *)
Lemma finite_sanitize v : finite (sanitize_value v).
Proof.
  pattern v. apply JSON_induction; clear v; try (intros; exact I).
  - intro text. cbn [sanitize_value].
    destruct (is_infinite text) eqn:E; [exact I|exact E].
  - intros items IH. cbn [finite sanitize_value].
    apply all_of_Forall. apply Forall_map. exact IH.
  - intros members IH. cbn [finite sanitize_value].
    apply all_of_Forall. apply Forall_map. cbn [snd]. exact IH.
Qed.

(** What [sanitize] of the exporter makes of a payload. *)
Lemma sanitize_payload v :
  well_formed v ->
  Export_config.sanitize (Some v) = Normal (Some (reparse (sanitize_value v))).
Proof.
  intro Hwf. unfold Export_config.sanitize, JSON_stringify.
  pose proof (sanitize_text_serialize [] (Forall_nil _) v Hwf [] [] (Forall_nil _))
    as H.
  rewrite !app_nil_r in H. rewrite H.
  fold (JSON_stringify (sanitize_value v)).
  rewrite JSON_parse_stringify_any; [reflexivity| |apply finite_sanitize].
  now apply numbered_sanitize.
Qed.

(** What is read again of a value is a value JSON.parse has made. *)
Lemma well_formed_reparse v :
  numbered v -> finite v -> well_formed (reparse v).
Proof.
  intros Hn Hf. apply (JSON_parse_well_formed (JSON_stringify v)).
  now apply JSON_parse_stringify_any.
Qed.

(** The pretty text of the rewritten value is the rewritten pretty
    text. *)
Lemma stringify_pretty_sanitize v :
  well_formed v ->
  JSON_stringify_pretty (sanitize_value v) = sanitize_text (JSON_stringify_pretty v).
Proof.
  intro Hwf. unfold JSON_stringify_pretty.
  assert (Hgap : Forall (fun c => in_redacted c = false) [32%N; 32%N])
    by (repeat constructor).
  pose proof (sanitize_text_serialize [32%N; 32%N] Hgap v Hwf [] [] (Forall_nil _))
    as H.
  rewrite !app_nil_r in H. now rewrite H.
Qed.

(** *** The sentinel in what is written *)

Lemma clean_sanitize v : clean (sanitize_value v).
Proof.
  pattern v. apply JSON_induction; clear v; try (intros; exact I).
  - intro text. cbn [sanitize_value]. destruct (is_infinite text); exact I.
  - intro s. apply sanitize_text_no_redacted.
  - intros items IH. cbn [clean sanitize_value].
    apply all_of_Forall. apply Forall_map. exact IH.
  - intros members IH. cbn [clean sanitize_value].
    apply all_of_Forall. apply Forall_map. cbn [fst snd].
    revert IH. apply Forall_impl. intros m Hm. split; [|exact Hm].
    apply sanitize_text_no_redacted.
Qed.

Lemma obj_set_holds (P : jsstring * JSON -> Prop) m k v :
  P (k, v) -> Forall P m -> Forall P (obj_set m k v).
Proof.
  intros Hv Hm. induction Hm as [|[k' v'] m Hx Hm IH]; cbn [obj_set].
  - now constructor.
  - destruct (jsstring_eqb k' k) eqn:E; constructor; auto.
    apply jsstring_eqb_eq in E. now subst k'.
Qed.

(** What holds of each member that is read holds of each member of the
    object. *)
Lemma collect_holds (P : jsstring * JSON -> Prop) members :
  forall acc,
    Forall P acc -> Forall P members ->
    Forall P (fold_left (fun acc m => obj_set acc (fst m) (snd m)) members acc).
Proof.
  induction members as [|[k v] members IH]; intros acc Hacc Hm; [exact Hacc|].
  inversion Hm as [|? ? Hkv Hrest]; subst. cbn [fold_left fst snd].
  apply IH; [|exact Hrest]. now apply obj_set_holds.
Qed.

Lemma clean_reparse v : clean v -> clean (reparse v).
Proof.
  pattern v. apply JSON_induction; clear v; try (intros; assumption).
  - intros items IH Hc. cbn [clean reparse] in *.
    apply all_of_Forall in Hc. apply all_of_Forall. apply Forall_map.
    induction IH as [|x l Hx _ IHl]; constructor; inversion Hc; subst; auto.
  - intros members IH Hc. cbn [clean reparse] in *.
    apply own_property_order_all. apply all_of_Forall in Hc. apply all_of_Forall.
    apply collect_holds; [constructor|].
    apply Forall_map. cbn [fst snd].
    induction IH as [|x l Hx _ IHl]; constructor;
      inversion Hc as [|? ? [Hk Hv] ?]; subst; auto.
Qed.

Lemma finite_reparse v : finite v -> finite (reparse v).
Proof.
  pattern v. apply JSON_induction; clear v; try (intros; assumption).
  - intros items IH Hc. cbn [finite reparse] in *.
    apply all_of_Forall in Hc. apply all_of_Forall. apply Forall_map.
    induction IH as [|x l Hx _ IHl]; constructor; inversion Hc; subst; auto.
  - intros members IH Hc. cbn [finite reparse] in *.
    apply own_property_order_all. apply all_of_Forall in Hc. apply all_of_Forall.
    apply (collect_holds (fun m => finite (snd m))); [constructor|].
    apply Forall_map. cbn [fst snd].
    induction IH as [|x l Hx _ IHl]; constructor;
      inversion Hc; subst; auto.
Qed.

(** The text of a value without the sentinel holds no sentinel. *)
Lemma serialize_sanitize_clean gap v :
  clean v ->
  forall indent, serialize gap indent (sanitize_value v) = serialize gap indent v.
Proof.
  pattern v. apply JSON_induction; clear v; try reflexivity.
  - intros text _ indent. cbn [sanitize_value serialize].
    destruct (is_infinite text) eqn:E; cbn [serialize]; now rewrite ?E.
  - intros s Hc indent. cbn [sanitize_value clean] in *.
    now rewrite sanitize_text_clean.
  - intros items IH Hc indent. cbn [clean sanitize_value] in *.
    apply all_of_Forall in Hc.
    assert (Hmap : forall ind,
               map (serialize gap ind) (map sanitize_value items)
               = map (serialize gap ind) items).
    { intro ind. rewrite map_map. apply map_ext_in. intros x Hx.
      rewrite Forall_forall in IH, Hc. now apply IH; [|apply Hc]. }
    cbn [serialize]. rewrite match_map, Hmap. reflexivity.
  - intros members IH Hc indent. cbn [clean sanitize_value] in *.
    apply all_of_Forall in Hc.
    assert (Hmap : forall ind colon,
               map (fun m => quote (fst m) ++ colon ++ serialize gap ind (snd m))
                 (map (fun m => (sanitize_text (fst m), sanitize_value (snd m)))
                    members)
               = map (fun m => quote (fst m) ++ colon ++ serialize gap ind (snd m))
                   members).
    { intros ind colon. rewrite map_map. apply map_ext_in. intros x Hx.
      rewrite Forall_forall in IH, Hc. destruct (Hc x Hx) as [Hk Hv].
      cbn [fst snd]. rewrite sanitize_text_clean by exact Hk.
      now rewrite (IH x Hx Hv). }
    cbn [serialize]. rewrite match_map, Hmap. reflexivity.
Qed.

Lemma clean_pretty v :
  clean v -> well_formed v -> occurrences REDACTED (JSON_stringify_pretty v) = 0.
Proof.
  intros Hc Hwf.
  replace (JSON_stringify_pretty v) with (JSON_stringify_pretty (sanitize_value v)).
  - rewrite stringify_pretty_sanitize by exact Hwf.
    apply sanitize_text_no_redacted.
  - unfold JSON_stringify_pretty. now rewrite serialize_sanitize_clean.
Qed.

(** *** Members of a payload *)

Lemma lookup_well_formed members k x :
  lookup members k = Some x ->
  well_formed (JObject members) -> well_formed x.
Proof.
  intros Hl (_ & _ & Hwf). apply all_of_Forall in Hwf.
  induction Hwf as [|[k' v] members Hv _ IH]; [discriminate|].
  cbn [lookup] in Hl. destruct (jsstring_eqb k' k).
  - inversion Hl; subst. exact Hv.
  - now apply IH.
Qed.

Lemma lookup_clean members k x :
  lookup members k = Some x -> clean (JObject members) -> clean x.
Proof.
  intros Hl Hc. cbn [clean] in Hc. apply all_of_Forall in Hc.
  induction Hc as [|[k' v] members [_ Hv] _ IH]; [discriminate|].
  cbn [lookup] in Hl. destruct (jsstring_eqb k' k).
  - inversion Hl; subst. exact Hv.
  - now apply IH.
Qed.

Lemma lookup_obj_set acc k' v k :
  lookup (obj_set acc k' v) k
  = if jsstring_eqb k' k then Some v else lookup acc k.
Proof.
  induction acc as [|[k0 v0] acc IH]; cbn [obj_set lookup].
  - reflexivity.
  - destruct (jsstring_eqb k0 k') eqn:E0; cbn [lookup].
    + apply jsstring_eqb_eq in E0. subst k0.
      destruct (jsstring_eqb k' k); reflexivity.
    + destruct (jsstring_eqb k0 k) eqn:E1; [|exact IH].
      apply jsstring_eqb_eq in E1. subst k0.
      destruct (jsstring_eqb k' k) eqn:E2; [|reflexivity].
      apply jsstring_eqb_eq in E2. subst k'.
      rewrite jsstring_eqb_refl in E0. discriminate.
Qed.

Lemma lookup_none members k :
  ~ In k (map fst members) -> lookup members k = None.
Proof.
  induction members as [|[k' v] members IH]; intro H; [reflexivity|].
  cbn [lookup]. destruct (jsstring_eqb k' k) eqn:E.
  - apply jsstring_eqb_eq in E. subst. exfalso. apply H. now left.
  - apply IH. intro Hin. apply H. now right.
Qed.

(** A member whose name the rewrite leaves alone and makes out of no
    other name is found where it was, rewritten and read again. *)
Lemma lookup_collect_renamed (f : JSON -> JSON) k members :
  sanitize_text k = k ->
  (forall k', sanitize_text k' = k -> k' = k) ->
  NoDup (map fst members) ->
  forall acc,
    lookup (fold_left (fun acc m => obj_set acc (fst m) (snd m))
              (map (fun m => (sanitize_text (fst m), f (snd m))) members) acc) k
    = match lookup members k with
      | Some x => Some (f x)
      | None => lookup acc k
      end.
Proof.
  intros Hk Hinj. induction members as [|[k' v] members IH]; intros Hnd acc.
  - reflexivity.
  - inversion Hnd as [|? ? Hnotin Hnd']; subst.
    cbn [map fold_left fst snd lookup]. rewrite (IH Hnd').
    destruct (jsstring_eqb k' k) eqn:E.
    + apply jsstring_eqb_eq in E. subst k'.
      rewrite (lookup_none members k Hnotin).
      rewrite lookup_obj_set, Hk, jsstring_eqb_refl. reflexivity.
    + destruct (lookup members k); [reflexivity|].
      rewrite lookup_obj_set.
      destruct (jsstring_eqb (sanitize_text k') k) eqn:E'; [|reflexivity].
      apply jsstring_eqb_eq in E'. apply Hinj in E'. subst k'.
      rewrite jsstring_eqb_refl in E. discriminate.
Qed.

Lemma lookup_permutation l l' k :
  Permutation l l' -> NoDup (map fst l) -> lookup l k = lookup l' k.
Proof.
  induction 1 as [|[k0 v0] l l' Hp IH|[k0 v0] [k1 v1] l|l l' l'' Hp1 IH1 Hp2 IH2];
    intro Hnd.
  - reflexivity.
  - cbn [lookup]. inversion Hnd; subst. now rewrite IH.
  - cbn [lookup].
    destruct (jsstring_eqb k1 k) eqn:E1, (jsstring_eqb k0 k) eqn:E0; try reflexivity.
    apply jsstring_eqb_eq in E1, E0. subst.
    inversion Hnd as [|? ? Hnotin _]; subst. exfalso. apply Hnotin. now left.
  - rewrite IH1 by exact Hnd. apply IH2.
    revert Hnd. apply Permutation_NoDup. now apply Permutation_map.
Qed.

Lemma collect_NoDup members :
  forall acc,
    NoDup (map fst acc) ->
    NoDup (map fst (fold_left (fun acc m => obj_set acc (fst m) (snd m))
                      members acc)).
Proof.
  induction members as [|m members IH]; intros acc H; [exact H|].
  cbn [fold_left]. apply IH. now apply obj_set_NoDup.
Qed.

Lemma lookup_reparse_sanitize members k :
  occurrences REDACTED k = 0 -> occurrences NEEDS_UPDATING k = 0 ->
  NoDup (map fst members) ->
  match reparse (sanitize_value (JObject members)) with
  | JObject members' =>
      lookup members' k
      = option_map (fun x => reparse (sanitize_value x)) (lookup members k)
  | _ => False
  end.
Proof.
  intros Hr Hn Hnd. cbn [sanitize_value reparse].
  rewrite map_map. cbn [fst snd].
  rewrite (lookup_permutation _ _ k (own_property_order_perm _)).
  - unfold collect.
    rewrite (lookup_collect_renamed (fun x => reparse (sanitize_value x)) k members
               (sanitize_text_clean k Hr) (fun k' => sanitize_text_hits k k' Hn)
               Hnd []).
    destruct (lookup members k); reflexivity.
  - apply own_property_order_names. apply collect_NoDup. constructor.
Qed.

(** A member that is neither the length nor an element belongs to an
    object. *)
Lemma get_opt_member v k x :
  jsstring_eqb k txt_length = false -> array_index k = None ->
  get_opt (Some v) k = Some x ->
  exists members, v = JObject members /\ lookup members k = Some x.
Proof.
  intros Hl Hi H. unfold get_opt, get_prop in H.
  destruct v; try discriminate; rewrite ?Hl, ?Hi in H; try discriminate.
  eauto.
Qed.

Lemma get_opt_sanitize v k x :
  jsstring_eqb k txt_length = false -> array_index k = None ->
  occurrences REDACTED k = 0 -> occurrences NEEDS_UPDATING k = 0 ->
  well_formed v ->
  get_opt (Some v) k = Some x ->
  get_prop (Some (reparse (sanitize_value v))) k
  = Normal (Some (reparse (sanitize_value x)))
  /\ well_formed x.
Proof.
  intros Hl Hi Hr Hn Hwf H.
  destruct (get_opt_member v k x Hl Hi H) as (members & -> & Hlook).
  pose proof (lookup_reparse_sanitize members k Hr Hn (proj1 Hwf)) as Hm.
  destruct (reparse (sanitize_value (JObject members))) as [ | | | | |members'];
    try contradiction.
  unfold get_prop. rewrite Hm, Hlook. split; [reflexivity|].
  now apply (lookup_well_formed members k).
Qed.

(** The data a reply resolves to is a member of the parsed body. *)
Lemma settle_well_formed reply data :
  settle reply = Resolve (Some data) -> well_formed data.
Proof.
  destruct reply as [statusCode responseData| |]; try discriminate.
  unfold settle, on_end.
  destruct (400 <=? statusCode)%Z; [discriminate|].
  unfold read_response.
  destruct (JSON_parse responseData) as [v|] eqn:Ep; [|discriminate].
  apply JSON_parse_well_formed in Ep.
  assert (Hdata : forall d,
             get_prop (Some v) txt_data = Normal d -> d = Some data ->
             well_formed data).
  { intros d Hd ->.
    assert (Hg : get_opt (Some v) txt_data = Some data)
      by (unfold get_opt; now rewrite Hd).
    destruct (get_opt_member v txt_data data eq_refl eq_refl Hg)
      as (members & -> & Hl).
    now apply (lookup_well_formed members txt_data). }
  unfold cbind.
  destruct (get_prop (Some v) txt_errors) as [errors|]; [|discriminate].
  destruct (truthy errors).
  - destruct (get_prop errors txt_length) as [len|]; [|discriminate].
    destruct (greater_than_zero len) as [[|]|]; [| |discriminate].
    + destruct (get_prop errors txt_0) as [first|]; [|discriminate].
      destruct (get_prop first txt_message) as [message|]; [|discriminate].
      destruct (ToString message); discriminate.
    + destruct (get_prop (Some v) txt_data) as [d|] eqn:Ed; [|discriminate].
      intro H. inversion H. now apply (Hdata d).
  - destruct (get_prop (Some v) txt_data) as [d|] eqn:Ed; [|discriminate].
    intro H. inversion H. now apply (Hdata d).
Qed.

Lemma print_returned c w u w' :
  print c w = (Returned u, w') -> w' = emit (Print c) w.
Proof. intro H. now inversion H. Qed.

Lemma executeQuery_returned env baseUrl accessToken query variables w v w' :
  executeQuery env baseUrl accessToken query variables w = (Returned v, w') ->
  let r := mkRequest (graphqlEndpoint baseUrl) accessToken query variables in
  settle (remote env (posted (events w)) r) = Resolve v
  /\ w' = emit (Post r (remote env (posted (events w)) r)) w.
Proof.
  unfold executeQuery. cbv zeta.
  destruct (settle _) eqn:E; intro H; inversion H; subst. auto.
Qed.

Lemma posted_emit_print c w : posted (events (emit (Print c) w)) = posted (events w).
Proof. simpl. rewrite posted_app. apply app_nil_r. Qed.

Lemma files_written p text w :
  files (emit (Write p text) (set_file p (File (toWellFormed text)) w)) p
  = Some (File (toWellFormed text)).
Proof. cbn [files emit set_file]. now rewrite jsstring_eqb_refl. Qed.

(** The external-services file of a successful export.  [nodes] is the
    list the source answered. *)
Lemma exportExternalServices_file
  env baseUrl accessToken outputDir w data nodes v w' :
  settle (remote env (posted (events w))
            (mkRequest (graphqlEndpoint baseUrl) accessToken
               Export_config.external_services_query (JObject [])))
  = Resolve (Some data) ->
  well_formed data ->
  get_opt (get_opt (Some data) txt_externalServices) txt_nodes = Some nodes ->
  Export_config.exportExternalServices env baseUrl accessToken outputDir w
  = (Returned v, w') ->
  let p := path_join outputDir external_services_json in
  let text := JSON_stringify_pretty (reparse (sanitize_value nodes)) in
  well_formed nodes
  /\ v = Some (reparse (sanitize_value nodes))
  /\ written (events w') = written (events w) ++ [(p, text)]
  /\ files w' p = Some (File (toWellFormed text))
  /\ (forall q, q <> p -> files w' q = files w q).
Proof.
  intros Hreply Hwf Hnodes H p text.
  unfold Export_config.exportExternalServices in H.
  apply bind_returned in H as (u0 & w1 & Hp & H).
  apply print_returned in Hp. subst w1.
  apply bind_returned in H as (data' & w2 & Hq & H).
  apply executeQuery_returned in Hq as [Hq ->]. cbv zeta in Hq.
  rewrite posted_emit_print, Hreply in Hq. inversion Hq; subst data'. clear Hq.
  destruct (negb _); [discriminate|].
  rewrite (sanitize_payload data Hwf) in H.
  apply bind_returned in H as (sanitizedData & w3 & Hs & H).
  apply lift_returned in Hs as [Hs ->]. inversion Hs; subst sanitizedData. clear Hs.
  destruct (get_opt (Some data) txt_externalServices) as [es|] eqn:Ees;
    [|discriminate Hnodes].
  destruct (get_opt_sanitize data txt_externalServices es eq_refl eq_refl
              eq_refl eq_refl Hwf Ees) as (Hg1 & Hwes).
  destruct (get_opt_sanitize es txt_nodes nodes eq_refl eq_refl
              eq_refl eq_refl Hwes Hnodes) as (Hg2 & Hwn).
  rewrite Hg1 in H.
  apply bind_returned in H as (x1 & w4 & Hx1 & H).
  apply lift_returned in Hx1 as [Hx1 ->]. inversion Hx1; subst x1. clear Hx1.
  rewrite Hg2 in H.
  apply bind_returned in H as (x2 & w5 & Hx2 & H).
  apply lift_returned in Hx2 as [Hx2 ->]. inversion Hx2; subst x2. clear Hx2.
  apply bind_returned in H as (u1 & w6 & Hw & H).
  apply writeFileSync_returned in Hw as (text' & Htext & ->).
  cbn [Export_config.stringify_pretty option_map] in Htext.
  inversion Htext; subst text'. clear Htext.
  apply bind_returned in H as (count & w7 & Hcount & H).
  apply lift_returned in Hcount as [_ ->].
  apply bind_returned in H as (countText & w8 & Hct & H).
  apply lift_returned in Hct as [_ ->].
  apply bind_returned in H as (u2 & w9 & Hp & H).
  apply print_returned in Hp. subst w9.
  inversion H; subst. split; [exact Hwn|]. split; [reflexivity|].
  split; [|split].
  - cbn [events emit set_file]. rewrite !written_app. cbn [written].
    now rewrite !app_nil_r.
  - cbn [files emit set_file]. fold p. now rewrite jsstring_eqb_refl.
  - intros q Hq. cbn [files emit set_file]. fold p.
    destruct (jsstring_eqb q p) eqn:E; [|reflexivity].
    apply jsstring_eqb_eq in E. contradiction.
Qed.

(** The site-config file of a successful export.  [contents] is the
    configuration the source answered. *)
Lemma exportSiteConfig_file
  env baseUrl accessToken outputDir w data contents v w' :
  settle (remote env (posted (events w))
            (mkRequest (graphqlEndpoint baseUrl) accessToken
               Export_config.site_config_query (JObject [])))
  = Resolve (Some data) ->
  well_formed data ->
  get_opt (get_opt (get_opt (Some data) txt_site) txt_configuration)
    txt_effectiveContents
  = Some (JString contents) ->
  Export_config.exportSiteConfig env baseUrl accessToken outputDir w
  = (Returned v, w') ->
  let p := path_join outputDir site_config_json in
  written (events w') = written (events w) ++ [(p, sanitize_text contents)]
  /\ files w' p = Some (File (toWellFormed (sanitize_text contents)))
  /\ (forall q, q <> p -> files w' q = files w q).
Proof.
  intros Hreply Hwf Hcontents H p.
  unfold Export_config.exportSiteConfig in H.
  apply bind_returned in H as (u0 & w1 & Hp & H).
  apply print_returned in Hp. subst w1.
  apply bind_returned in H as (data' & w2 & Hq & H).
  apply executeQuery_returned in Hq as [Hq ->]. cbv zeta in Hq.
  rewrite posted_emit_print, Hreply in Hq. inversion Hq; subst data'. clear Hq.
  destruct (negb _); [discriminate|].
  rewrite (sanitize_payload data Hwf) in H.
  apply bind_returned in H as (sanitizedData & w3 & Hs & H).
  apply lift_returned in Hs as [Hs ->]. inversion Hs; subst sanitizedData. clear Hs.
  destruct (get_opt (Some data) txt_site) as [site|] eqn:Es;
    [|discriminate Hcontents].
  destruct (get_opt (Some site) txt_configuration) as [conf|] eqn:Ecf;
    [|discriminate Hcontents].
  destruct (get_opt_sanitize data txt_site site eq_refl eq_refl
              eq_refl eq_refl Hwf Es) as (Hg1 & Hws).
  destruct (get_opt_sanitize site txt_configuration conf eq_refl eq_refl
              eq_refl eq_refl Hws Ecf) as (Hg2 & Hwc).
  destruct (get_opt_sanitize conf txt_effectiveContents (JString contents)
              eq_refl eq_refl eq_refl eq_refl Hwc Hcontents) as (Hg3 & _).
  rewrite Hg1 in H.
  apply bind_returned in H as (x1 & w4 & Hx1 & H).
  apply lift_returned in Hx1 as [Hx1 ->]. inversion Hx1; subst x1. clear Hx1.
  rewrite Hg2 in H.
  apply bind_returned in H as (x2 & w5 & Hx2 & H).
  apply lift_returned in Hx2 as [Hx2 ->]. inversion Hx2; subst x2. clear Hx2.
  rewrite Hg3 in H.
  apply bind_returned in H as (x3 & w6 & Hx3 & H).
  apply lift_returned in Hx3 as [Hx3 ->]. inversion Hx3; subst x3. clear Hx3.
  apply bind_returned in H as (u1 & w7 & Hw & H).
  apply writeFileSync_returned in Hw as (text & Htext & ->).
  cbn [sanitize_value reparse] in Htext. inversion Htext; subst text. clear Htext.
  apply bind_returned in H as (u2 & w8 & Hp & H).
  apply print_returned in Hp. subst w8.
  apply bind_returned in H as (id & w9 & Hid & H).
  apply lift_returned in Hid as [_ ->].
  inversion H; subst. split; [|split].
  - cbn [events emit set_file]. rewrite !written_app. cbn [written].
    now rewrite !app_nil_r.
  - cbn [files emit set_file]. fold p. now rewrite jsstring_eqb_refl.
  - intros q Hq. cbn [files emit set_file]. fold p.
    destruct (jsstring_eqb q p) eqn:E; [|reflexivity].
    apply jsstring_eqb_eq in E. contradiction.
Qed.

(** What the external-services file holds. *)
Lemma services_text nodes :
  well_formed nodes ->
  let original := JSON_stringify_pretty nodes in
  let text := JSON_stringify_pretty (reparse (sanitize_value nodes)) in
  toWellFormed text = text
  /\ occurrences REDACTED text = 0
  /\ (apart nodes ->
      text = sanitize_text original
      /\ occurrences NEEDS_UPDATING text
         = occurrences REDACTED original + occurrences NEEDS_UPDATING original).
Proof.
  intros Hwf original text.
  assert (Hwr : well_formed (reparse (sanitize_value nodes))).
  { apply well_formed_reparse; [now apply numbered_sanitize|apply finite_sanitize]. }
  split; [now apply toWellFormed_pretty|]. split.
  - apply clean_pretty; [|exact Hwr]. apply clean_reparse, clean_sanitize.
  - intro Hap.
    assert (Htext : text = sanitize_text original).
    { unfold text, original.
      rewrite (reparse_well_formed _ (well_formed_sanitize nodes Hwf Hap)).
      now apply stringify_pretty_sanitize. }
    split; [exact Htext|]. rewrite Htext. apply sanitize_text_count.
Qed.

(** C2, as stated, fails: a payload that holds the replacement sentinel
    already comes out with more of them than it held redaction
    sentinels. *)
Lemma export_counts_stale_sentinels :
  let payload := services_data [stale] in
  let env := sample_env (source sample_site [stale]) in
  let w := snd (run (Export_config.script env) (initial no_files)) in
  exists text,
    files w (path_join backup external_services_json) = Some (File text)
    /\ occurrences REDACTED (JSON_stringify payload) = 1
    /\ occurrences REDACTED text = 0
    /\ occurrences NEEDS_UPDATING text = 2
    /\ occurrences NEEDS_UPDATING text <> occurrences REDACTED (JSON_stringify payload).
Proof.
  eexists. vm_compute. repeat split. discriminate.
Qed.

(** Where the rewrite gives two members of an object one name, JSON.parse
    keeps one member of the two, and the file holds fewer replacement
    sentinels than the rewritten text of the payload. *)
Example export_merges_colliding_names :
  let nodes := JArray [colliding] in
  let env := sample_env (source sample_site [colliding]) in
  let w := snd (run (Export_config.script env) (initial no_files)) in
  let original := JSON_stringify_pretty nodes in
  exists text,
    files w (path_join backup external_services_json) = Some (File text)
    /\ text = JSON_stringify_pretty
                (JArray [JObject [(txt_displayName, JString (js "github"));
                                  (js "NEEDS_UPDATING", JString (js "second"))]])
    /\ occurrences REDACTED original = 1
    /\ occurrences NEEDS_UPDATING original = 1
    /\ occurrences REDACTED text = 0
    /\ occurrences NEEDS_UPDATING text = 1
    /\ text <> sanitize_text original.
Proof.
  eexists. vm_compute. repeat split. discriminate.
Qed.

(** C2, amended.  In a successful export the site-config file holds the
    effective contents with every [REDACTED] replaced by
    [NEEDS_UPDATING], as UTF-8 text: it holds no [REDACTED], and as many
    [NEEDS_UPDATING] as the contents held of the two sentinels together.
    The external-services file holds the pretty text of the nodes as
    JSON.parse reads them from the rewritten text of the payload: it
    holds no [REDACTED]; and where the rewrite gives no two members of
    an object of the nodes one name, it is the pretty text of the nodes
    with every [REDACTED] replaced, and holds as many [NEEDS_UPDATING] as
    that text held of the two sentinels together. *)
Theorem export_rewrites_sentinel
  env baseUrl accessToken outputDir w data v w' :
  (forall contents,
      settle (remote env (posted (events w))
                (mkRequest (graphqlEndpoint baseUrl) accessToken
                   Export_config.site_config_query (JObject [])))
      = Resolve (Some data) ->
      get_opt (get_opt (get_opt (Some data) txt_site) txt_configuration)
        txt_effectiveContents
      = Some (JString contents) ->
      Export_config.exportSiteConfig env baseUrl accessToken outputDir w
      = (Returned v, w') ->
      let p := path_join outputDir site_config_json in
      let text := toWellFormed (sanitize_text contents) in
      written (events w') = written (events w) ++ [(p, sanitize_text contents)]
      /\ files w' p = Some (File text)
      /\ occurrences REDACTED text = 0
      /\ occurrences NEEDS_UPDATING text
         = occurrences REDACTED contents + occurrences NEEDS_UPDATING contents)
  /\ (forall nodes,
         settle (remote env (posted (events w))
                   (mkRequest (graphqlEndpoint baseUrl) accessToken
                      Export_config.external_services_query (JObject [])))
         = Resolve (Some data) ->
         get_opt (get_opt (Some data) txt_externalServices) txt_nodes = Some nodes ->
         Export_config.exportExternalServices env baseUrl accessToken outputDir w
         = (Returned v, w') ->
         let p := path_join outputDir external_services_json in
         let original := JSON_stringify_pretty nodes in
         let text := JSON_stringify_pretty (reparse (sanitize_value nodes)) in
         written (events w') = written (events w) ++ [(p, text)]
         /\ files w' p = Some (File text)
         /\ occurrences REDACTED text = 0
         /\ (apart nodes ->
             text = sanitize_text original
             /\ occurrences NEEDS_UPDATING text
                = occurrences REDACTED original
                  + occurrences NEEDS_UPDATING original)).
Proof.
  split.
  - intros contents Hreply Hcontents Hrun. cbv zeta.
    pose proof (settle_well_formed _ _ Hreply) as Hwf.
    destruct (exportSiteConfig_file env baseUrl accessToken outputDir w data
                contents v w' Hreply Hwf Hcontents Hrun) as (Hw & Hf & _).
    split; [exact Hw|]. split; [exact Hf|]. split.
    + rewrite occurrences_REDACTED_toWellFormed. apply sanitize_text_no_redacted.
    + rewrite occurrences_NEEDS_UPDATING_toWellFormed. apply sanitize_text_count.
  - intros nodes Hreply Hnodes Hrun. cbv zeta.
    pose proof (settle_well_formed _ _ Hreply) as Hwf.
    destruct (exportExternalServices_file env baseUrl accessToken outputDir
                w data nodes v w' Hreply Hwf Hnodes Hrun)
      as (Hwn & _ & Hw & Hf & _).
    destruct (services_text nodes Hwn) as (Hutf & Hred & Hap).
    split; [exact Hw|]. split; [now rewrite <- Hutf|]. split; [exact Hred|].
    exact Hap.
Qed.

Lemma export_rewrites_sentinel_witness :
  let env := sample_env (source sample_site [github; stale]) in
  let w := initial no_files in
  let site_run := Export_config.exportSiteConfig env sample_url sample_token backup w in
  let services_run :=
    Export_config.exportExternalServices env sample_url sample_token backup w in
  let contents := js "{ auth.providers: [ { clientSecret: REDACTED } ] }" in
  let nodes := JArray [github; stale] in
  let original := JSON_stringify_pretty nodes in
  let text := JSON_stringify_pretty (reparse (sanitize_value nodes)) in
  (written (events (snd site_run))
   = [(path_join backup site_config_json, sanitize_text contents)]
   /\ files (snd site_run) (path_join backup site_config_json)
      = Some (File (toWellFormed (sanitize_text contents)))
   /\ occurrences REDACTED (toWellFormed (sanitize_text contents)) = 0
   /\ occurrences NEEDS_UPDATING (toWellFormed (sanitize_text contents)) = 1 + 0)
  /\ (written (events (snd services_run))
      = [(path_join backup external_services_json, text)]
      /\ files (snd services_run) (path_join backup external_services_json)
         = Some (File text)
      /\ occurrences REDACTED text = 0
      /\ text = sanitize_text original
      /\ occurrences NEEDS_UPDATING text = 2 + 1).
Proof.
  intros env w site_run services_run contents nodes original text. split.
  - refine (proj1 (export_rewrites_sentinel env sample_url sample_token backup w
                     sample_site undefined (snd site_run))
              contents _ _ _); vm_compute; reflexivity.
  - assert (Hap : apart nodes).
    { vm_compute. repeat split; repeat constructor; cbn [In];
        intuition discriminate. }
    destruct (proj2 (export_rewrites_sentinel env sample_url sample_token backup w
                       (services_data [github; stale])
                       (Some (reparse (sanitize_value nodes)))
                       (snd services_run))
                nodes) as (Hw & Hf & Hred & Hcount);
      [vm_compute; reflexivity ..|].
    destruct (Hcount Hap) as [Htext Hn].
    repeat split; assumption.
Defined.

(** ** The claims on the importer *)

(** C6. When the input directory is missing, when one of the two input
    files is missing, or when the external-services file is no JSON text,
    import-config.js exits with status 1 and has posted no request (nor
    written a file). *)
Theorem import_fails_before_any_request
  env fs targetUrl accessToken inputDir more :
  argv env = targetUrl :: accessToken :: inputDir :: more ->
  (fs inputDir = None
   \/ fs (path_join inputDir site_config_json) = None
   \/ fs (path_join inputDir external_services_json) = None
   \/ exists text,
       fs (path_join inputDir external_services_json) = Some (File text)
       /\ JSON_parse text = None) ->
  exists w,
    run (Import_config.script env) (initial fs) = (1%Z, w)
    /\ posted (events w) = []
    /\ written (events w) = [].
Proof.
  intros Hargv Hbad.
  unfold run, Import_config.script. rewrite Hargv.
  unfold bind at 1, existsSync at 1. cbn [initial files events emit].
  destruct (fs inputDir) as [n1|] eqn:E1; cbn [is_some negb].
  2:{ eexists. split; [reflexivity|]. split; reflexivity. }
  unfold bind at 1, existsSync at 1. cbn [initial files events emit].
  destruct (fs (path_join inputDir site_config_json)) as [n2|] eqn:E2;
    cbn [is_some negb].
  2:{ eexists. split; [reflexivity|]. split; reflexivity. }
  unfold bind at 1, existsSync at 1. cbn [initial files events emit].
  destruct (fs (path_join inputDir external_services_json)) as [n3|] eqn:E3;
    cbn [is_some negb].
  2:{ eexists. split; [reflexivity|]. split; reflexivity. }
  destruct Hbad as [Hbad|[Hbad|[Hbad|(text & Hfile & Hparse)]]]; try discriminate.
  inversion Hfile; subst n3.
  unfold Import_config.main, try_catch, Import_config.importExternalServices.
  unfold bind at 1 2, print at 1. unfold bind at 1, readFileSync at 1.
  cbn [initial files events emit]. rewrite E3.
  destruct (refused env (path_join inputDir external_services_json)).
  - eexists. split; [reflexivity|]. split; reflexivity.
  - rewrite Hparse. unfold bind at 1, lift at 1, throw at 1.
    eexists. split; [reflexivity|]. split; reflexivity.
Qed.

Lemma import_fails_before_any_request_witness :
  JSON_parse (js "[{") = None
  /\ exists w,
      run (Import_config.script (sample_env (target [])))
        (initial (backup_files (js "[{"))) = (1%Z, w)
      /\ posted (events w) = []
      /\ written (events w) = [].
Proof.
  split; [reflexivity|].
  apply (import_fails_before_any_request (sample_env (target []))
           (backup_files (js "[{"))
           (js "https://sourcegraph.example.com/") sample_token backup []).
  - reflexivity.
  - right. right. right. exists (js "[{"). split; reflexivity.
Defined.



Lemma names_not_null v name kind : names v name kind -> v <> JNull.
Proof. intros (m & -> & _). discriminate. Qed.



(** The creation of a service carries it. *)
Lemma add_request_carries baseUrl accessToken service :
  let r := add_request baseUrl accessToken service in
  req_endpoint r = graphqlEndpoint baseUrl
  /\ req_token r = accessToken
  /\ req_query r = Import_config.add_external_service_mutation
  /\ carries (req_variables r) service.
Proof.
  cbv zeta. repeat split.
  unfold carries, add_request, Import_config.add_variables.
  cbn [req_variables filter].
  destruct (get_opt (Some service) txt_displayName) as [d|] eqn:E1,
           (get_opt (Some service) txt_kind) as [k|] eqn:E2,
           (get_opt (Some service) txt_config) as [c|] eqn:E3;
    cbn [object_literal is_some];
    (eexists; split; [reflexivity|]; split; [reflexivity|]);
    intros key [<-|[<-|[<-|[]]]]; rewrite ?E1, ?E2, ?E3; reflexivity.
Qed.
















(** C9. A run of import-config.js with the input directory [inputDir]
    never reads the site-config file; every request it posts is the query
    for the external services of the target or the creation of a service
    of the external-services file; and with other contents in the
    site-config file the run exits with the same status after the same
    events, requests included. *)
Theorem import_never_sends_site_config
  env fs targetUrl accessToken inputDir more :
  argv env = targetUrl :: accessToken :: inputDir :: more ->
  let site := path_join inputDir site_config_json in
  let result := run (Import_config.script env) (initial fs) in
  ~ In site (reads (events (snd result)))
  /\ Forall (import_request (strip_trailing_slash targetUrl) accessToken inputDir fs)
       (posted (events (snd result)))
  /\ forall fs',
      (forall p, p <> site -> fs' p = fs p) ->
      is_some (fs' site) = is_some (fs site) ->
      let result' := run (Import_config.script env) (initial fs') in
      fst result' = fst result
      /\ events (snd result') = events (snd result).
Proof.
  intros Hargv site result.
  destruct result as [code w] eqn:Hrun. cbn [fst snd].
  pose proof (import_run env fs code w Hrun) as H.
  rewrite Hargv in H. cbv zeta in H. destruct H as (Hr & _ & Hp & _).
  split; [|split; [exact Hp|]].
  - intro Hin. rewrite Forall_forall in Hr. apply Hr in Hin.
    apply path_join_inj in Hin. discriminate.
  - intros fs' Hfs Hsome. cbv zeta.
    pose proof (blind_import_script env) as Hb. rewrite Hargv in Hb.
    fold site in Hb.
    assert (Hsame : same_but site (initial fs') (initial fs))
      by (repeat split; auto).
    destruct (Hb _ _ Hsame) as [Ho (He & _)].
    unfold run in *.
    destruct (Import_config.script env (initial fs')) as [o' w'].
    destruct (Import_config.script env (initial fs)) as [o w0].
    inversion Hrun; subst. simpl in Ho, He. subst o'. split; auto.
Qed.

(** The site-config file holds a secret; the run is that of C4. *)
Lemma import_never_sends_site_config_witness :
  let fs := backup_files (JSON_stringify_pretty (JArray [github; gitlab])) in
  let result := run (Import_config.script (sample_env (target []))) (initial fs) in
  ~ In (path_join backup site_config_json) (reads (events (snd result)))
  /\ Forall (import_request sample_url sample_token backup fs)
       (posted (events (snd result))).
Proof.
  intros fs result.
  destruct (import_never_sends_site_config
              (sample_env (target [])) fs
              (js "https://sourcegraph.example.com/") sample_token backup []
              eq_refl) as (H1 & H2 & _).
  split; [exact H1|exact H2].
Defined.

(** ** Every run of export-config.js *)

Lemma path_join_longer dir name :
  name <> [] -> path_join dir name <> dir.
Proof.
  intros Hname H. apply (f_equal (@List.length unit16)) in H.
  unfold path_join in H. destruct (rev dir) as [|c r] eqn:E.
  - apply (f_equal (@List.length unit16)) in E. rewrite length_rev in E.
    destruct name; [congruence|]. simpl in *. lia.
  - destruct (c =? 47)%N; rewrite length_app in H; destruct name;
      try congruence; simpl in H; lia.
Qed.

Section ExportRun.
Variable env : Env.
Variables baseUrl accessToken outputDir : jsstring.

Let sitePath := path_join outputDir site_config_json.
Let servicesPath := path_join outputDir external_services_json.
Let summaryPath := path_join outputDir export_summary_json.
Let r1 := site_request baseUrl accessToken.
Let r2 := services_request baseUrl accessToken.

(** [exportSiteConfig] posts its query.  When the query is rejected it
    throws, and when the answer breaks off it waits without end; when
    the query is resolved it throws with nothing written, or writes the
    site-config file and returns undefined. *)
Lemma exportSiteConfig_trace w o w' :
  Export_config.exportSiteConfig env baseUrl accessToken outputDir w = (o, w') ->
  let reply := remote env (posted (events w)) r1 in
  let w1 := emit (Post r1 reply) (emit (Print ExportingSiteConfig) w) in
  (exists e, settle reply = Reject e /\ o = Thrown e /\ w' = w1)
  \/ (settle reply = Pending /\ o = Stalled /\ w' = w1)
  \/ (exists v e, settle reply = Resolve v /\ o = Thrown e /\ w' = w1)
  \/ (exists v text,
        settle reply = Resolve v /\ o = Returned undefined
        /\ w' = emit (Print (SiteConfigExported sitePath))
                  (emit (Write sitePath text)
                     (set_file sitePath (File (toWellFormed text)) w1))).
Proof.
  intro H. cbv zeta.
  unfold Export_config.exportSiteConfig in H.
  rewrite print_bind, query_bind in H. cbv beta zeta in H.
  rewrite posted_emit_print in H.
  fold (site_request baseUrl accessToken) in H. fold r1 in H. fold sitePath in H.
  destruct (settle (remote env (posted (events w)) r1)) as [data|e|] eqn:Es.
  2:{ inversion H; subst. left. exists e. auto. }
  2:{ inversion H; subst. right. left. auto. }
  right. right.
  repeat run_step H; unfold throw, ret, print in H;
    try match goal with
        | Hg : get_prop (Some (JString _)) txt_id = _ |- _ =>
            rewrite string_id in Hg; inversion Hg; subst; clear Hg
        end;
    inversion H; subst;
    first [ left; do 2 eexists; split; [reflexivity|split; reflexivity]
          | right; do 2 eexists; split; [reflexivity|split; reflexivity] ].
Qed.

(** [exportExternalServices] posts its query.  When the query is
    rejected it throws, and when the answer breaks off it waits without
    end; when the query is resolved it throws with nothing written, or
    writes the external-services file and then returns the services,
    unless their length cannot be read or printed. *)
Lemma exportExternalServices_trace w o w' :
  Export_config.exportExternalServices env baseUrl accessToken outputDir w
  = (o, w') ->
  let reply := remote env (posted (events w)) r2 in
  let w1 := emit (Post r2 reply) (emit (Print ExportingExternalServices) w) in
  (exists e, settle reply = Reject e /\ o = Thrown e /\ w' = w1)
  \/ (settle reply = Pending /\ o = Stalled /\ w' = w1)
  \/ (exists v e, settle reply = Resolve v /\ o = Thrown e /\ w' = w1)
  \/ (exists v text,
        let w2 := emit (Write servicesPath text)
                    (set_file servicesPath (File (toWellFormed text)) w1) in
        settle reply = Resolve v
        /\ ((exists e, o = Thrown e /\ w' = w2)
            \/ exists services count countText,
                 o = Returned services
                 /\ get_prop services txt_length = Normal count
                 /\ w' = emit (Print (ExternalServicesExported countText
                                        servicesPath))
                           w2)).
Proof.
  intro H. cbv zeta.
  unfold Export_config.exportExternalServices in H.
  rewrite print_bind, query_bind in H. cbv beta zeta in H.
  rewrite posted_emit_print in H.
  fold (services_request baseUrl accessToken) in H. fold r2 in H.
  fold servicesPath in H.
  destruct (settle (remote env (posted (events w)) r2)) as [data|e|] eqn:Es.
  2:{ inversion H; subst. left. exists e. auto. }
  2:{ inversion H; subst. right. left. auto. }
  right. right.
  repeat run_step H; unfold throw, ret, print in H;
    inversion H; subst;
    first [ left; do 2 eexists; split; [reflexivity|split; reflexivity]
          | right; do 2 eexists; split; [reflexivity|];
            left; eexists; split; reflexivity
          | right; do 2 eexists; split; [reflexivity|]; right; do 3 eexists;
            split; [reflexivity|split; [eassumption|reflexivity]] ].
Qed.

(** The events a world has seen, as a list. *)
Ltac show_events :=
  cbn [events emit set_file files]; rewrite <- ?app_assoc; cbn [app].

(** What a list of events holds, request by request. *)
Ltac read_trace :=
  cbn [reads posted written has_failure has_break stops_at_failure app orb andb
         is_nil map fst];
  unfold rejects, breaks_off, resolves;
  repeat match goal with
         | Hs : settle ?r = _ |- context [settle ?r] => rewrite Hs
         end;
  cbn [reads posted written has_failure has_break stops_at_failure app orb andb
         is_nil map fst].

(** A list of events ends with a request whose answer broke off. *)
Ltac show_break :=
  match goal with
  | |- ends_with_break (?a :: ?b :: nil) =>
      exists [a]; do 2 eexists; split; [reflexivity|]
  | |- ends_with_break (?a :: ?b :: ?c :: ?d :: ?e :: ?f :: nil) =>
      exists [a; b; c; d; e]; do 2 eexists; split; [reflexivity|]
  end;
  unfold breaks_off;
  repeat match goal with
         | Hs : settle ?r = _ |- context [settle ?r] => rewrite Hs
         end;
  reflexivity.

(** [main]: the two exports and the summary, in this order.  The first
    step that throws ends the run with status 1, and what was written
    before it stays; a query whose answer breaks off is the last event
    of the run. *)
Lemma export_main_trace w o w' :
  Export_config.main env baseUrl accessToken outputDir w = (o, w') ->
  exists new,
    events w' = events w ++ new
    /\ reads new = []
    /\ stops_at_failure new = true
    /\ ((o = Returned tt /\ has_failure new = false /\ has_break new = false
         /\ posted new = [r1; r2]
         /\ exists siteText servicesText count pre,
              written new = [(sitePath, siteText); (servicesPath, servicesText);
                             (summaryPath, export_summary env baseUrl count)]
              /\ new = pre ++ [Write summaryPath (export_summary env baseUrl count);
                               Print (ExportCompleted summaryPath)])
        \/ (o = Exited 1%Z /\ has_break new = false
            /\ (exists e pre, new = pre ++ [Print (ExportFailed e)])
            /\ ((posted new = [r1] /\ written new = [] /\ files w' = files w)
                \/ (posted new = [r1; r2]
                    /\ exists siteText, written new = [(sitePath, siteText)])
                \/ (posted new = [r1; r2]
                    /\ exists siteText servicesText,
                         written new = [(sitePath, siteText);
                                        (servicesPath, servicesText)])))
        \/ (o = Stalled /\ has_failure new = false /\ ends_with_break new
            /\ ((posted new = [r1] /\ written new = [] /\ files w' = files w)
                \/ (posted new = [r1; r2]
                    /\ exists siteText, written new = [(sitePath, siteText)])))).
Proof.
  intro H. unfold Export_config.main, try_catch in H.
  unfold bind at 1 in H.
  destruct (Export_config.exportSiteConfig env baseUrl accessToken outputDir w)
    as [o1 w1] eqn:E1.
  apply exportSiteConfig_trace in E1. cbv zeta in E1.
  set (reply1 := remote env (posted (events w)) r1) in *.
  destruct E1 as [(e & Hs1 & -> & ->)|[(Hs1 & -> & ->)
                 |[(v1 & e & Hs1 & -> & ->)|(v1 & siteText & Hs1 & -> & ->)]]].
  { unfold bind, print, process_exit in H. inversion H; subst. clear H.
    eexists. split; [show_events; reflexivity|]. read_trace.
    (split; [reflexivity|split; [reflexivity|]]);
      right; left; (split; [reflexivity|split; [reflexivity|]]);
      (split; [exists e; eexists [_; _]; reflexivity|]);
      left; repeat split. }
  { inversion H; subst. clear H.
    eexists. split; [show_events; reflexivity|]. read_trace.
    (split; [reflexivity|split; [reflexivity|]]);
      right; right; (split; [reflexivity|split; [reflexivity|]]);
      (split; [show_break|]); left; repeat split. }
  { unfold bind, print, process_exit in H. inversion H; subst. clear H.
    eexists. split; [show_events; reflexivity|]. read_trace.
    (split; [reflexivity|split; [reflexivity|]]);
      right; left; (split; [reflexivity|split; [reflexivity|]]);
      (split; [exists e; eexists [_; _]; reflexivity|]);
      left; repeat split. }
  unfold bind at 1 in H.
  match type of H with
  | context [Export_config.exportExternalServices _ _ _ _ ?w0] =>
      set (wa := w0) in *
  end.
  destruct (Export_config.exportExternalServices env baseUrl accessToken outputDir wa)
    as [o2 w2] eqn:E2.
  apply exportExternalServices_trace in E2. cbv zeta in E2.
  set (reply2 := remote env (posted (events wa)) r2) in *.
  destruct E2 as [(e & Hs2 & -> & ->)|[(Hs2 & -> & ->)
                 |[(v2 & e & Hs2 & -> & ->)
                  |(v2 & servicesText & Hs2
                    & [(e & -> & ->)
                      |(services & count & countText & -> & Hcount & ->)])]]].
  { unfold bind, print, process_exit in H. inversion H; subst. clear H.
    eexists. split; [subst wa; show_events; reflexivity|]. read_trace.
    (split; [reflexivity|split; [reflexivity|]]);
      right; left; (split; [reflexivity|split; [reflexivity|]]);
      (split; [exists e; eexists [_; _; _; _; _; _]; reflexivity|]);
      right; left; split; [reflexivity|eexists; reflexivity]. }
  { inversion H; subst. clear H.
    eexists. split; [subst wa; show_events; reflexivity|]. read_trace.
    (split; [reflexivity|split; [reflexivity|]]);
      right; right; (split; [reflexivity|split; [reflexivity|]]);
      (split; [show_break|]); right; split; [reflexivity|eexists; reflexivity]. }
  { unfold bind, print, process_exit in H. inversion H; subst. clear H.
    eexists. split; [subst wa; show_events; reflexivity|]. read_trace.
    (split; [reflexivity|split; [reflexivity|]]);
      right; left; (split; [reflexivity|split; [reflexivity|]]);
      (split; [exists e; eexists [_; _; _; _; _; _]; reflexivity|]);
      right; left; split; [reflexivity|eexists; reflexivity]. }
  { unfold bind, print, process_exit in H. inversion H; subst. clear H.
    eexists. split; [subst wa; show_events; reflexivity|]. read_trace.
    (split; [reflexivity|split; [reflexivity|]]);
      right; left; (split; [reflexivity|split; [reflexivity|]]);
      (split; [exists e; eexists [_; _; _; _; _; _; _]; reflexivity|]);
      right; right; split; [reflexivity|do 2 eexists; reflexivity]. }
  rewrite lift_bind, Hcount in H. cbv beta zeta in H.
  rewrite write_bind in H.
  cbn [Export_config.stringify_pretty option_map] in H.
  fold summaryPath in H.
  change (JSON_stringify_pretty
            (JObject (object_literal
               [(txt_timestamp, Some (JString (clock env)));
                (txt_sourcegraphUrl, Some (JString baseUrl));
                (txt_siteConfigId, undefined);
                (txt_externalServicesCount, count)])))
    with (export_summary env baseUrl count) in H.
  unfold bind, print, process_exit in H.
  destruct (refused env summaryPath).
  { inversion H; subst; clear H.
    eexists. split; [subst wa; show_events; reflexivity|]. read_trace.
    (split; [reflexivity|split; [reflexivity|]]);
      right; left; (split; [reflexivity|split; [reflexivity|]]);
      (split; [exists SystemError; eexists [_; _; _; _; _; _; _; _]; reflexivity|]);
      right; right; split; [reflexivity|do 2 eexists; reflexivity]. }
  match type of H with
  | context [files ?wz summaryPath] => destruct (files wz summaryPath) as [[|c]|]
  end.
  { inversion H; subst; clear H.
    eexists. split; [subst wa; show_events; reflexivity|]. read_trace.
    (split; [reflexivity|split; [reflexivity|]]);
      right; left; (split; [reflexivity|split; [reflexivity|]]);
      (split; [exists SystemError; eexists [_; _; _; _; _; _; _; _]; reflexivity|]);
      right; right; split; [reflexivity|do 2 eexists; reflexivity]. }
  all: inversion H; subst; clear H;
    (eexists; split; [subst wa; show_events; reflexivity|]);
    read_trace;
    (split; [reflexivity|split; [reflexivity|]]);
    left; (split; [reflexivity|split; [reflexivity|split; [reflexivity|
                                                            split; [reflexivity|]]]]);
    exists siteText, servicesText, count; eexists [_; _; _; _; _; _; _; _];
    split; reflexivity.
Qed.

End ExportRun.

(** X1. Every run of export-config.js on three arguments: no file is
    read; the requests are the query for the site configuration, then
    the query for the external services, and none follows one that was
    not resolved; the files are written in the order site-config.json,
    external-services.json, export-summary.json.  The run ends in one of
    three ways: with status 0 after the two queries, both resolved, and
    the three files; with status 1, no answer having broken off, after
    fewer files, which are left as they are; or with status 0 right
    after a query whose answer broke off, which no file but those
    written before it follows.  On fewer arguments the run prints the
    usage and exits with status 1. *)
Theorem export_run_shape env fs code w :
  run (Export_config.script env) (initial fs) = (code, w) ->
  match argv env with
  | sourcegraphUrl :: accessToken :: outputDir :: _ =>
      let baseUrl := strip_trailing_slash sourcegraphUrl in
      let r1 := site_request baseUrl accessToken in
      let r2 := services_request baseUrl accessToken in
      let sitePath := path_join outputDir site_config_json in
      let servicesPath := path_join outputDir external_services_json in
      let summaryPath := path_join outputDir export_summary_json in
      reads (events w) = []
      /\ stops_at_failure (events w) = true
      /\ ((code = 0%Z /\ has_failure (events w) = false
           /\ has_break (events w) = false
           /\ posted (events w) = [r1; r2]
           /\ map fst (written (events w)) = [sitePath; servicesPath; summaryPath])
          \/ (code = 1%Z /\ has_break (events w) = false
              /\ ((posted (events w) = [] /\ written (events w) = [])
                  \/ (posted (events w) = [r1] /\ written (events w) = [])
                  \/ (posted (events w) = [r1; r2]
                      /\ map fst (written (events w)) = [sitePath])
                  \/ (posted (events w) = [r1; r2]
                      /\ map fst (written (events w)) = [sitePath; servicesPath])))
          \/ (code = 0%Z /\ has_failure (events w) = false
              /\ ends_with_break (events w)
              /\ ((posted (events w) = [r1] /\ written (events w) = [])
                  \/ (posted (events w) = [r1; r2]
                      /\ map fst (written (events w)) = [sitePath]))))
  | _ => code = 1%Z /\ events w = [Print Usage] /\ files w = fs
  end.
Proof.
  unfold run, Export_config.script. intro H.
  destruct (argv env) as [|sourcegraphUrl [|accessToken [|outputDir more]]];
    try (inversion H; subst; repeat split; reflexivity).
  cbv zeta.
  unfold bind at 1, existsSync at 1 in H. cbn [initial files events emit] in H.
  set (baseUrl := strip_trailing_slash sourcegraphUrl) in *.
  set (r1 := site_request baseUrl accessToken).
  set (r2 := services_request baseUrl accessToken).
  set (sitePath := path_join outputDir site_config_json).
  set (servicesPath := path_join outputDir external_services_json).
  set (summaryPath := path_join outputDir export_summary_json).
  assert (Hmain : forall w0 pre,
             events w0 = pre -> reads pre = [] -> posted pre = [] ->
             written pre = [] ->
             (let (o, w') :=
                Export_config.main env baseUrl accessToken outputDir w0 in
              (exit_status o, w')) = (code, w) ->
             reads (events w) = []
             /\ stops_at_failure (events w) = true
             /\ ((code = 0%Z /\ has_failure (events w) = false
                  /\ has_break (events w) = false
                  /\ posted (events w) = [r1; r2]
                  /\ map fst (written (events w))
                     = [sitePath; servicesPath; summaryPath])
                 \/ (code = 1%Z /\ has_break (events w) = false
                     /\ ((posted (events w) = [] /\ written (events w) = [])
                         \/ (posted (events w) = [r1] /\ written (events w) = [])
                         \/ (posted (events w) = [r1; r2]
                             /\ map fst (written (events w)) = [sitePath])
                         \/ (posted (events w) = [r1; r2]
                             /\ map fst (written (events w))
                                = [sitePath; servicesPath])))
                 \/ (code = 0%Z /\ has_failure (events w) = false
                     /\ ends_with_break (events w)
                     /\ ((posted (events w) = [r1] /\ written (events w) = [])
                         \/ (posted (events w) = [r1; r2]
                             /\ map fst (written (events w)) = [sitePath]))))).
  { intros w0 pre Hpre Hr Hp Hw Hrun.
    destruct (Export_config.main env baseUrl accessToken outputDir w0)
      as [o w'] eqn:Em.
    apply export_main_trace in Em as (new & He & Hreads & Hstops & Hend).
    inversion Hrun; subst code w. clear Hrun.
    assert (Hquiet : stops_at_failure (events w0 ++ new) = true
                     /\ has_failure (events w0 ++ new) = has_failure new
                     /\ has_break (events w0 ++ new) = has_break new).
    { rewrite Hpre. rewrite has_failure_app, has_break_app.
      rewrite (has_failure_quiet pre Hp), (has_break_quiet pre Hp).
      repeat split. apply stops_at_failure_app; auto.
      - now apply stops_at_failure_quiet.
      - rewrite (has_failure_quiet pre Hp), (has_break_quiet pre Hp).
        intros [F|F]; discriminate. }
    rewrite He, reads_app, posted_app, written_app.
    rewrite Hpre in *. rewrite Hr, Hp, Hw, Hreads. cbn [app].
    destruct Hquiet as (Hq1 & Hq2 & Hq3). rewrite Hq1, Hq2, Hq3.
    split; [reflexivity|split; [reflexivity|]].
    fold r1 r2 sitePath servicesPath summaryPath in Hend.
    destruct Hend as [(-> & Hnf & Hnb & Hposted & st & sv & count & pre' & Hwritten & _)
                     |[(-> & Hnb & _ & [(Hposted & Hwritten & _)
                                       |[(Hposted & st & Hwritten)
                                        |(Hposted & st & sv & Hwritten)]])
                      |(-> & Hnf & (pre' & r & reply & Hn & Hb)
                        & [(Hposted & Hwritten & _)|(Hposted & st & Hwritten)])]].
    - left. rewrite Hnf, Hnb, Hposted, Hwritten. repeat split.
    - right. left. rewrite Hnb, Hposted, Hwritten. repeat split. right. left. auto.
    - right. left. rewrite Hnb, Hposted, Hwritten. repeat split.
      right. right. left. auto.
    - right. left. rewrite Hnb, Hposted, Hwritten. repeat split.
      right. right. right. auto.
    - right. right. rewrite Hnf, Hposted, Hwritten. repeat split; auto.
      exists (pre ++ pre'), r, reply. split; [|exact Hb].
      now rewrite Hn, app_assoc.
    - right. right. rewrite Hnf, Hposted, Hwritten. repeat split; auto.
      exists (pre ++ pre'), r, reply. split; [|exact Hb].
      now rewrite Hn, app_assoc. }
  destruct (fs outputDir) as [n|] eqn:Edir; cbn [is_some] in H.
  - unfold bind at 1, ret at 1 in H.
    eapply Hmain; [| | | |exact H]; reflexivity.
  - unfold bind at 1, mkdirSync at 1 in H.
    cbn [initial files events emit set_file] in H.
    destruct (refused env outputDir).
    + inversion H; subst. cbn. repeat split. right. left.
      repeat split. left. auto.
    + rewrite Edir in H.
      eapply Hmain; [| | | |exact H]; reflexivity.
Qed.

(** *** An export in which nothing fails *)

Lemma jsstring_eqb_neq a b : a <> b -> jsstring_eqb a b = false.
Proof.
  intro H. destruct (jsstring_eqb a b) eqn:E; [|reflexivity].
  apply jsstring_eqb_eq in E. contradiction.
Qed.

Lemma path_join_apart dir a b : a <> b -> path_join dir a <> path_join dir b.
Proof. intros H E. apply H. now apply (path_join_inj dir). Qed.

Lemma truthy_member v k x :
  jsstring_eqb k txt_length = false -> array_index k = None ->
  get_opt (Some v) k = Some x -> truthy (Some v) = true.
Proof.
  intros Hl Hi H. destruct (get_opt_member v k x Hl Hi H) as (members & -> & _).
  reflexivity.
Qed.

Lemma is_prefix_refl p : is_prefix p p = true.
Proof.
  pose proof (is_prefix_app p []) as H. now rewrite app_nil_r in H.
Qed.

Lemma ToString_number_of_nat n :
  ToString (Some (number_of_nat n)) = Normal (decimal (N.of_nat n)).
Proof. reflexivity. Qed.

Section ExportSuccess.
Variable env : Env.
Variables baseUrl accessToken outputDir : jsstring.

Let sitePath := path_join outputDir site_config_json.
Let servicesPath := path_join outputDir external_services_json.
Let r1 := site_request baseUrl accessToken.
Let r2 := services_request baseUrl accessToken.

Lemma exportSiteConfig_success w data contents :
  settle (remote env (posted (events w)) r1) = Resolve (Some data) ->
  get_opt (get_opt (get_opt (Some data) txt_site) txt_configuration)
    txt_effectiveContents = Some (JString contents) ->
  refused env sitePath = false ->
  files w sitePath <> Some Directory ->
  Export_config.exportSiteConfig env baseUrl accessToken outputDir w
  = (Returned undefined,
     emit (Print (SiteConfigExported sitePath))
       (emit (Write sitePath (sanitize_text contents))
          (set_file sitePath (File (toWellFormed (sanitize_text contents)))
             (emit (Post r1 (remote env (posted (events w)) r1))
                (emit (Print ExportingSiteConfig) w))))).
Proof.
  intros Hreply Hcontents Href Hdir.
  pose proof (settle_well_formed _ _ Hreply) as Hwf.
  destruct (get_opt (Some data) txt_site) as [site|] eqn:Es;
    [|discriminate Hcontents].
  destruct (get_opt (Some site) txt_configuration) as [conf|] eqn:Ecf;
    [|discriminate Hcontents].
  destruct (get_opt_sanitize data txt_site site eq_refl eq_refl
              eq_refl eq_refl Hwf Es) as (Hg1 & Hws).
  destruct (get_opt_sanitize site txt_configuration conf eq_refl eq_refl
              eq_refl eq_refl Hws Ecf) as (Hg2 & Hwc).
  destruct (get_opt_sanitize conf txt_effectiveContents (JString contents)
              eq_refl eq_refl eq_refl eq_refl Hwc Hcontents) as (Hg3 & _).
  pose proof (truthy_member conf txt_effectiveContents _ eq_refl eq_refl Hcontents)
    as Htruthy.
  unfold Export_config.exportSiteConfig.
  rewrite print_bind, query_bind. cbv beta zeta.
  rewrite posted_emit_print.
  fold (site_request baseUrl accessToken). fold r1. fold sitePath.
  rewrite Hreply, Es, Ecf, Htruthy. cbn [negb].
  rewrite lift_bind, (sanitize_payload data Hwf).
  rewrite lift_bind, Hg1. rewrite lift_bind, Hg2. rewrite lift_bind, Hg3.
  cbn [sanitize_value reparse]. rewrite write_bind, Href.
  cbn [files emit].
  destruct (files w sitePath) as [[|c]|]; [congruence| |];
    rewrite print_bind, lift_bind, string_id; reflexivity.
Qed.

Lemma exportExternalServices_success w data services :
  settle (remote env (posted (events w)) r2) = Resolve (Some data) ->
  get_opt (get_opt (Some data) txt_externalServices) txt_nodes
  = Some (JArray services) ->
  refused env servicesPath = false ->
  files w servicesPath <> Some Directory ->
  let written_services := reparse (sanitize_value (JArray services)) in
  let text := JSON_stringify_pretty written_services in
  let count := decimal (N.of_nat (length services)) in
  well_formed (JArray services)
  /\ Export_config.exportExternalServices env baseUrl accessToken outputDir w
     = (Returned (Some written_services),
        emit (Print (ExternalServicesExported count servicesPath))
          (emit (Write servicesPath text)
             (set_file servicesPath (File text)
                (emit (Post r2 (remote env (posted (events w)) r2))
                   (emit (Print ExportingExternalServices) w))))).
Proof.
  intros Hreply Hnodes Href Hdir. cbv zeta.
  pose proof (settle_well_formed _ _ Hreply) as Hwf.
  destruct (get_opt (Some data) txt_externalServices) as [es|] eqn:Ees;
    [|discriminate Hnodes].
  destruct (get_opt_sanitize data txt_externalServices es eq_refl eq_refl
              eq_refl eq_refl Hwf Ees) as (Hg1 & Hwes).
  destruct (get_opt_sanitize es txt_nodes (JArray services) eq_refl eq_refl
              eq_refl eq_refl Hwes Hnodes) as (Hg2 & Hwn).
  split; [exact Hwn|].
  destruct (services_text (JArray services) Hwn) as (Hutf & _).
  unfold Export_config.exportExternalServices.
  rewrite print_bind, query_bind. cbv beta zeta.
  rewrite posted_emit_print.
  fold (services_request baseUrl accessToken). fold r2. fold servicesPath.
  rewrite Hreply, Ees, Hnodes.
  change (truthy (Some (JArray services))) with true. cbn [negb].
  rewrite lift_bind, (sanitize_payload data Hwf).
  rewrite lift_bind, Hg1. rewrite lift_bind, Hg2.
  rewrite write_bind.
  cbn [Export_config.stringify_pretty option_map].
  rewrite Hutf.
  rewrite Href. cbn [files emit].
  assert (Hlen : get_prop (Some (reparse (sanitize_value (JArray services))))
                   txt_length
                 = Normal (Some (number_of_nat (length services)))).
  { cbn [sanitize_value reparse]. unfold get_prop.
    change (jsstring_eqb txt_length txt_length) with true. cbv iota.
    now rewrite !length_map. }
  destruct (files w servicesPath) as [[|c]|]; [congruence| |];
    rewrite lift_bind, Hlen, lift_bind, ToString_number_of_nat, print_bind;
    reflexivity.
Qed.

End ExportSuccess.

Lemma export_paths_apart outputDir :
  jsstring_eqb (path_join outputDir external_services_json)
    (path_join outputDir site_config_json) = false
  /\ jsstring_eqb (path_join outputDir export_summary_json)
       (path_join outputDir site_config_json) = false
  /\ jsstring_eqb (path_join outputDir export_summary_json)
       (path_join outputDir external_services_json) = false
  /\ jsstring_eqb (path_join outputDir site_config_json) outputDir = false
  /\ jsstring_eqb (path_join outputDir external_services_json) outputDir = false
  /\ jsstring_eqb (path_join outputDir export_summary_json) outputDir = false.
Proof.
  repeat split; apply jsstring_eqb_neq;
    try (apply path_join_apart; discriminate);
    apply path_join_longer; discriminate.
Qed.

(** [main] when the two queries are answered, with a configuration whose
    effective contents are a string and with a list of services, and the
    three files can be written. *)
Lemma export_main_success
  env baseUrl accessToken outputDir w data1 contents data2 services :
  let r1 := site_request baseUrl accessToken in
  let r2 := services_request baseUrl accessToken in
  let sitePath := path_join outputDir site_config_json in
  let servicesPath := path_join outputDir external_services_json in
  let summaryPath := path_join outputDir export_summary_json in
  let siteText := sanitize_text contents in
  let servicesText :=
    JSON_stringify_pretty (reparse (sanitize_value (JArray services))) in
  let count := Some (number_of_nat (length services)) in
  let summary := export_summary env baseUrl count in
  settle (remote env (posted (events w)) r1) = Resolve (Some data1) ->
  get_opt (get_opt (get_opt (Some data1) txt_site) txt_configuration)
    txt_effectiveContents = Some (JString contents) ->
  settle (remote env (posted (events w) ++ [r1]) r2) = Resolve (Some data2) ->
  get_opt (get_opt (Some data2) txt_externalServices) txt_nodes
  = Some (JArray services) ->
  (forall p, In p [sitePath; servicesPath; summaryPath] ->
             refused env p = false /\ files w p <> Some Directory) ->
  exists w',
    Export_config.main env baseUrl accessToken outputDir w = (Returned tt, w')
    /\ well_formed (JArray services)
    /\ events w'
       = events w
         ++ [Print ExportingSiteConfig;
             Post r1 (remote env (posted (events w)) r1);
             Write sitePath siteText;
             Print (SiteConfigExported sitePath);
             Print ExportingExternalServices;
             Post r2 (remote env (posted (events w) ++ [r1]) r2);
             Write servicesPath servicesText;
             Print (ExternalServicesExported
                      (decimal (N.of_nat (length services))) servicesPath);
             Write summaryPath summary;
             Print (ExportCompleted summaryPath)]
    /\ (forall p,
          files w' p
          = if jsstring_eqb p summaryPath then Some (File (toWellFormed summary))
            else if jsstring_eqb p servicesPath then Some (File servicesText)
                 else if jsstring_eqb p sitePath
                      then Some (File (toWellFormed siteText))
                      else files w p).
Proof.
  intros r1 r2 sitePath servicesPath summaryPath siteText servicesText count
    summary Hreply1 Hcontents Hreply2 Hnodes Hpaths.
  destruct (export_paths_apart outputDir) as (Hes & Hxs & Hxe & _).
  fold sitePath servicesPath summaryPath in Hes, Hxs, Hxe.
  destruct (Hpaths sitePath) as [Hr1 Hd1]; [cbn; auto|].
  destruct (Hpaths servicesPath) as [Hr2 Hd2]; [cbn; auto|].
  destruct (Hpaths summaryPath) as [Hr3 Hd3]; [cbn; auto|].
  unfold Export_config.main, try_catch. unfold bind at 1.
  rewrite (exportSiteConfig_success env baseUrl accessToken outputDir w data1
             contents Hreply1 Hcontents Hr1 Hd1).
  fold r1 sitePath siteText.
  unfold bind at 1.
  match goal with
  | |- context [Export_config.exportExternalServices _ _ _ _ ?w0] =>
      set (wa := w0)
  end.
  assert (Hposted : posted (events wa) = posted (events w) ++ [r1]).
  { subst wa. cbn [events emit set_file]. rewrite !posted_app. cbn [posted].
    now rewrite !app_nil_r. }
  assert (Hfiles : files wa servicesPath = files w servicesPath).
  { subst wa. cbn [files emit set_file]. now rewrite Hes. }
  assert (Hreply2' : settle (remote env (posted (events wa)) r2)
                     = Resolve (Some data2)) by (now rewrite Hposted).
  assert (Hd2' : files wa servicesPath <> Some Directory) by (now rewrite Hfiles).
  destruct (exportExternalServices_success env baseUrl accessToken outputDir wa
              data2 services Hreply2' Hnodes Hr2 Hd2') as [Hwn Hrun2].
  rewrite Hrun2.
  fold r2 servicesPath servicesText.
  rewrite lift_bind.
  assert (Hlen : get_prop (Some (reparse (sanitize_value (JArray services))))
                   txt_length = Normal count).
  { cbn [sanitize_value reparse]. unfold get_prop.
    change (jsstring_eqb txt_length txt_length) with true.
    cbv iota. now rewrite !length_map. }
  rewrite Hlen. cbv beta zeta.
  rewrite write_bind. cbn [Export_config.stringify_pretty option_map].
  fold summaryPath. fold (export_summary env baseUrl count). fold summary.
  assert (Hfiles3 : files wa summaryPath = files w summaryPath).
  { subst wa. cbn [files emit set_file]. now rewrite Hxs. }
  rewrite Hr3. cbn [files emit set_file]. rewrite Hxe, Hfiles3, Hposted.
  destruct (files w summaryPath) as [[|c]|]; [congruence| |];
    (eexists; split; [reflexivity|]); (split; [exact Hwn|]); split;
    try (subst wa; cbn [events emit set_file print snd];
         rewrite <- ?app_assoc; reflexivity);
    intro p; subst wa; reflexivity.
Qed.

(** A run of export-config.js in which nothing fails. *)
Lemma export_script_success
  env fs sourcegraphUrl accessToken outputDir more data1 contents data2 services :
  let baseUrl := strip_trailing_slash sourcegraphUrl in
  let r1 := site_request baseUrl accessToken in
  let r2 := services_request baseUrl accessToken in
  let sitePath := path_join outputDir site_config_json in
  let servicesPath := path_join outputDir external_services_json in
  let summaryPath := path_join outputDir export_summary_json in
  let siteText := sanitize_text contents in
  let servicesText :=
    JSON_stringify_pretty (reparse (sanitize_value (JArray services))) in
  let summary :=
    export_summary env baseUrl (Some (number_of_nat (length services))) in
  argv env = sourcegraphUrl :: accessToken :: outputDir :: more ->
  (fs outputDir = Some Directory
   \/ (fs outputDir = None /\ refused env outputDir = false)) ->
  settle (remote env [] r1) = Resolve (Some data1) ->
  get_opt (get_opt (get_opt (Some data1) txt_site) txt_configuration)
    txt_effectiveContents = Some (JString contents) ->
  settle (remote env [r1] r2) = Resolve (Some data2) ->
  get_opt (get_opt (Some data2) txt_externalServices) txt_nodes
  = Some (JArray services) ->
  (forall p, In p [sitePath; servicesPath; summaryPath] ->
             refused env p = false /\ fs p <> Some Directory) ->
  exists w,
    run (Export_config.script env) (initial fs) = (0%Z, w)
    /\ well_formed (JArray services)
    /\ posted (events w) = [r1; r2]
    /\ written (events w)
       = [(sitePath, siteText); (servicesPath, servicesText); (summaryPath, summary)]
    /\ files w outputDir = Some Directory
    /\ files w sitePath = Some (File (toWellFormed siteText))
    /\ files w servicesPath = Some (File servicesText)
    /\ files w summaryPath = Some (File (toWellFormed summary))
    /\ (forall p, p <> outputDir -> p <> sitePath -> p <> servicesPath ->
                  p <> summaryPath -> files w p = fs p).
Proof.
  intros baseUrl r1 r2 sitePath servicesPath summaryPath siteText servicesText
    summary Hargv Hdir Hreply1 Hcontents Hreply2 Hnodes Hpaths.
  destruct (export_paths_apart outputDir) as (Hes & Hxs & Hxe & Hso & Heo & Hxo).
  fold sitePath servicesPath summaryPath in Hes, Hxs, Hxe, Hso, Heo, Hxo.
  assert (Hrun : forall w0,
             posted (events w0) = [] -> written (events w0) = [] ->
             (forall p, files w0 p = if jsstring_eqb p outputDir
                                     then Some Directory else fs p) ->
             exists w,
               (let (o, w') :=
                  Export_config.main env baseUrl accessToken outputDir w0 in
                (exit_status o, w')) = (0%Z, w)
               /\ well_formed (JArray services)
               /\ posted (events w) = [r1; r2]
               /\ written (events w)
                  = [(sitePath, siteText); (servicesPath, servicesText);
                     (summaryPath, summary)]
               /\ files w outputDir = Some Directory
               /\ files w sitePath = Some (File (toWellFormed siteText))
               /\ files w servicesPath = Some (File servicesText)
               /\ files w summaryPath = Some (File (toWellFormed summary))
               /\ (forall p, p <> outputDir -> p <> sitePath -> p <> servicesPath ->
                             p <> summaryPath -> files w p = fs p)).
  { intros w0 Hp Hw Hf.
    destruct (export_main_success env baseUrl accessToken outputDir w0
                data1 contents data2 services) as (w & Hmain & Hwn & He & Hfiles);
      try assumption; try (rewrite Hp; assumption).
    { intros p Hin. destruct (Hpaths p Hin) as [Hr Hd]. split; [exact Hr|].
      rewrite Hf. cbn [In] in Hin.
      destruct Hin as [<-|[<-|[<-|[]]]];
        fold sitePath servicesPath summaryPath;
        rewrite ?Hso, ?Heo, ?Hxo; exact Hd. }
    fold r1 r2 sitePath servicesPath summaryPath siteText servicesText in He, Hfiles.
    fold summary in He, Hfiles.
    exists w. rewrite Hmain. split; [reflexivity|]. split; [exact Hwn|].
    rewrite He, posted_app, written_app, Hp, Hw.
    split; [reflexivity|split; [reflexivity|]].
    rewrite !Hfiles, Hf, jsstring_eqb_refl.
    rewrite (jsstring_eqb_neq outputDir summaryPath)
      by (intro E; rewrite <- E, jsstring_eqb_refl in Hxo; discriminate).
    rewrite (jsstring_eqb_neq outputDir servicesPath)
      by (intro E; rewrite <- E, jsstring_eqb_refl in Heo; discriminate).
    rewrite (jsstring_eqb_neq outputDir sitePath)
      by (intro E; rewrite <- E, jsstring_eqb_refl in Hso; discriminate).
    assert (Hsym : forall a b, jsstring_eqb a b = false -> jsstring_eqb b a = false).
    { intros a b E. apply jsstring_eqb_neq. intros ->.
      rewrite jsstring_eqb_refl in E. discriminate. }
    rewrite (Hsym _ _ Hes), (Hsym _ _ Hxs), (Hsym _ _ Hxe), !jsstring_eqb_refl.
    repeat split.
    intros p H1 H2 H3 H4. rewrite Hfiles, Hf.
    now rewrite !jsstring_eqb_neq by assumption. }
  unfold run, Export_config.script. rewrite Hargv.
  unfold bind at 1, existsSync at 1. cbn [initial files events emit].
  destruct Hdir as [Hdir|[Hdir Href]]; rewrite Hdir; cbn [is_some].
  - unfold bind at 1, ret at 1. fold baseUrl. apply Hrun; try reflexivity.
    intro p. cbn [files]. destruct (jsstring_eqb p outputDir) eqn:E; [|reflexivity].
    apply jsstring_eqb_eq in E. now subst.
  - unfold bind at 1, mkdirSync at 1. cbn [initial files events emit set_file].
    rewrite Href, ?Hdir. fold baseUrl. apply Hrun; reflexivity.
Qed.

(** A path that changes no file: it is none of [written], and the output
    directory was there or the path is no beginning of its path. *)
Lemma frame_path (fs : path -> option FsNode) (outputDir p : path) :
  fs outputDir = Some Directory \/ is_prefix p outputDir = false ->
  forall node : option FsNode,
    (p <> outputDir -> node = fs p) ->
    (p = outputDir -> node = Some Directory) ->
    node = fs p.
Proof.
  intros Hside node Hother Hdir.
  destruct (jsstring_eqb p outputDir) eqn:E.
  - apply jsstring_eqb_eq in E. subst p.
    destruct Hside as [H|H]; [rewrite H; now apply Hdir|].
    rewrite is_prefix_refl in H. discriminate.
  - apply Hother. intros ->. rewrite jsstring_eqb_refl in E. discriminate.
Qed.

(** X2. An export in which nothing fails: the source answers the first
    query with a configuration whose effective contents are a string and
    the second with a list of services, the output directory is there or
    can be made, and the three files can be written.  The run exits with
    status 0 after the two queries.  It leaves, as UTF-8 text, the
    effective contents with the sentinel replaced; the pretty text of
    the services as JSON.parse reads them from the rewritten text of the
    payload, which holds no sentinel and, where the rewrite gives no two
    members of an object one name, is the pretty text of the services
    with the sentinel replaced; and a summary with the time, the URL
    without its last slash and the number of services, but no
    [siteConfigId].  A file that was there is written over; no other
    path changes when the output directory was there, and none but the
    beginnings of its path when it was made. *)
Theorem export_success
  env fs sourcegraphUrl accessToken outputDir more data1 contents data2 services :
  let baseUrl := strip_trailing_slash sourcegraphUrl in
  let r1 := site_request baseUrl accessToken in
  let r2 := services_request baseUrl accessToken in
  let sitePath := path_join outputDir site_config_json in
  let servicesPath := path_join outputDir external_services_json in
  let summaryPath := path_join outputDir export_summary_json in
  let siteText := sanitize_text contents in
  let servicesText :=
    JSON_stringify_pretty (reparse (sanitize_value (JArray services))) in
  let summary :=
    JSON_stringify_pretty
      (JObject [(txt_timestamp, JString (clock env));
                (txt_sourcegraphUrl, JString baseUrl);
                (txt_externalServicesCount, number_of_nat (length services))]) in
  argv env = sourcegraphUrl :: accessToken :: outputDir :: more ->
  (fs outputDir = Some Directory
   \/ (fs outputDir = None /\ refused env outputDir = false)) ->
  settle (remote env [] r1) = Resolve (Some data1) ->
  get_opt (get_opt (get_opt (Some data1) txt_site) txt_configuration)
    txt_effectiveContents = Some (JString contents) ->
  settle (remote env [r1] r2) = Resolve (Some data2) ->
  get_opt (get_opt (Some data2) txt_externalServices) txt_nodes
  = Some (JArray services) ->
  (forall p, In p [sitePath; servicesPath; summaryPath] ->
             refused env p = false /\ fs p <> Some Directory) ->
  exists w,
    run (Export_config.script env) (initial fs) = (0%Z, w)
    /\ posted (events w) = [r1; r2]
    /\ written (events w)
       = [(sitePath, siteText); (servicesPath, servicesText); (summaryPath, summary)]
    /\ files w outputDir = Some Directory
    /\ files w sitePath = Some (File (toWellFormed siteText))
    /\ files w servicesPath = Some (File servicesText)
    /\ files w summaryPath = Some (File (toWellFormed summary))
    /\ occurrences REDACTED servicesText = 0
    /\ (apart (JArray services) ->
        servicesText = sanitize_text (JSON_stringify_pretty (JArray services)))
    /\ (forall p, p <> sitePath -> p <> servicesPath -> p <> summaryPath ->
                  fs outputDir = Some Directory \/ is_prefix p outputDir = false ->
                  files w p = fs p).
Proof.
  intros baseUrl r1 r2 sitePath servicesPath summaryPath siteText servicesText
    summary Hargv Hdir Hreply1 Hcontents Hreply2 Hnodes Hpaths.
  destruct (export_script_success env fs sourcegraphUrl accessToken outputDir more
              data1 contents data2 services Hargv Hdir Hreply1 Hcontents Hreply2
              Hnodes Hpaths)
    as (w & Hrun & Hwn & Hp & Hw & Hfd & Hf1 & Hf2 & Hf3 & Hframe).
  destruct (services_text (JArray services) Hwn) as (_ & Hred & Hap).
  exists w. repeat split; try assumption.
  - intro H. exact (proj1 (Hap H)).
  - intros p H1 H2 H3 Hside.
    apply (frame_path fs outputDir p Hside).
    + intro Hne. now apply Hframe.
    + intros ->. exact Hfd.
Qed.

Lemma export_run_shape_witness :
  let env := sample_env (source sample_site [github; gitlab]) in
  let result := run (Export_config.script env) (initial no_files) in
  reads (events (snd result)) = []
  /\ stops_at_failure (events (snd result)) = true
  /\ fst result = 0%Z
  /\ posted (events (snd result))
     = [site_request sample_url sample_token;
        services_request sample_url sample_token]
  /\ map fst (written (events (snd result)))
     = [path_join backup site_config_json;
        path_join backup external_services_json;
        path_join backup export_summary_json].
Proof.
  intros env result.
  assert (Hrun : run (Export_config.script env) (initial no_files)
                 = (fst result, snd result)) by (vm_compute; reflexivity).
  pose proof (export_run_shape env no_files (fst result) (snd result) Hrun) as H.
  cbn [argv env sample_env] in H. cbv zeta in H.
  destruct H as (Hreads & Hstops
                 & [(Hcode & _ & _ & Hposted & Hwritten)
                   |[(Hcode & _)|(_ & _ & _ & [[Hposted _]|[_ Hwritten]])]]).
  - repeat split; assumption.
  - vm_compute in Hcode. discriminate Hcode.
  - vm_compute in Hposted. discriminate Hposted.
  - vm_compute in Hwritten. discriminate Hwritten.
Defined.

Lemma export_success_witness :
  let env := sample_env (source sample_site [github; gitlab]) in
  exists w,
    run (Export_config.script env) (initial no_files) = (0%Z, w)
    /\ posted (events w)
       = [site_request sample_url sample_token;
          services_request sample_url sample_token]
    /\ files w (path_join backup site_config_json)
       = Some (File (js "{ auth.providers: [ { clientSecret: NEEDS_UPDATING } ] }"))
    /\ files w (path_join backup external_services_json)
       = Some (File (sanitize_text (JSON_stringify_pretty (JArray [github; gitlab])))).
Proof.
  intro env.
  destruct (export_success env no_files (js "https://sourcegraph.example.com/")
              sample_token backup [] sample_site
              (js "{ auth.providers: [ { clientSecret: REDACTED } ] }")
              (services_data [github; gitlab]) [github; gitlab])
    as (w & Hrun & Hposted & _ & _ & Hsite & Hservices & _ & _ & Hap & _).
  - reflexivity.
  - right. split; reflexivity.
  - vm_compute. reflexivity.
  - vm_compute. reflexivity.
  - vm_compute. reflexivity.
  - vm_compute. reflexivity.
  - intros p Hin. split; reflexivity || discriminate.
  - assert (Hapart : apart (JArray [github; gitlab])).
    { vm_compute. repeat split; repeat constructor; cbn [In];
        intuition discriminate. }
    exists w. split; [exact Hrun|]. split; [exact Hposted|].
    split; [exact Hsite|]. rewrite Hservices, (Hap Hapart). reflexivity.
Defined.

(** *** An export that fails *)

(** The run up to [main]: the output directory is there, or is made. *)
Lemma export_script_main env fs sourcegraphUrl accessToken outputDir more :
  argv env = sourcegraphUrl :: accessToken :: outputDir :: more ->
  (fs outputDir = Some Directory
   \/ (fs outputDir = None /\ refused env outputDir = false)) ->
  exists w0,
    run (Export_config.script env) (initial fs)
    = (let (o, w') :=
         Export_config.main env (strip_trailing_slash sourcegraphUrl) accessToken
           outputDir w0 in
       (exit_status o, w'))
    /\ posted (events w0) = []
    /\ written (events w0) = []
    /\ (forall p, files w0 p = if jsstring_eqb p outputDir
                               then Some Directory else fs p).
Proof.
  intros Hargv Hdir. unfold run, Export_config.script. rewrite Hargv.
  unfold bind at 1, existsSync at 1. cbn [initial files events emit].
  destruct Hdir as [Hdir|[Hdir Href]]; rewrite Hdir; cbn [is_some].
  - unfold bind at 1, ret at 1. eexists. split; [reflexivity|].
    repeat split. intro p. cbn [files].
    destruct (jsstring_eqb p outputDir) eqn:E; [|reflexivity].
    apply jsstring_eqb_eq in E. now subst.
  - unfold bind at 1, mkdirSync at 1. cbn [initial files events emit set_file].
    rewrite Href, ?Hdir. eexists. split; [reflexivity|]. repeat split.
Qed.

(** X3. When the source answers the first query without a
    configuration (no data, no site, or a configuration that is null),
    the export prints that it failed to retrieve the site configuration
    and exits with status 1: the query for the external services is not
    posted and no file is written. *)
Theorem export_without_configuration
  env fs sourcegraphUrl accessToken outputDir more data :
  let baseUrl := strip_trailing_slash sourcegraphUrl in
  let r1 := site_request baseUrl accessToken in
  argv env = sourcegraphUrl :: accessToken :: outputDir :: more ->
  (fs outputDir = Some Directory
   \/ (fs outputDir = None /\ refused env outputDir = false)) ->
  settle (remote env [] r1) = Resolve data ->
  truthy (get_opt (get_opt data txt_site) txt_configuration) = false ->
  exists w pre,
    run (Export_config.script env) (initial fs) = (1%Z, w)
    /\ posted (events w) = [r1]
    /\ written (events w) = []
    /\ events w
       = pre ++ [Print (ExportFailed (RetrievalError "site configuration"))]
    /\ (forall p, p <> outputDir -> files w p = fs p).
Proof.
  intros baseUrl r1 Hargv Hdir Hreply Hfalsy.
  destruct (export_script_main env fs sourcegraphUrl accessToken outputDir more
              Hargv Hdir) as (w0 & Hrun & Hp & Hw & Hf).
  rewrite Hrun. fold baseUrl.
  unfold Export_config.main, try_catch. unfold bind at 1.
  unfold Export_config.exportSiteConfig.
  rewrite print_bind, query_bind. cbv beta zeta.
  rewrite posted_emit_print, Hp.
  fold (site_request baseUrl accessToken). fold r1.
  rewrite Hreply, Hfalsy. cbn [negb]. unfold throw, bind, print, process_exit.
  cbn [exit_status].
  eexists. exists (events w0 ++ [Print ExportingSiteConfig;
                                 Post r1 (remote env [] r1)]).
  split; [reflexivity|]. cbn [events emit files].
  rewrite <- !app_assoc. cbn [app].
  rewrite posted_app, written_app, Hp, Hw. cbn [posted written app].
  repeat split. intros p Hne. rewrite Hf. now rewrite jsstring_eqb_neq.
Qed.

Lemma export_without_configuration_witness :
  let env := sample_env (fun _ _ => Response 200 (envelope JNull)) in
  exists w,
    run (Export_config.script env) (initial no_files) = (1%Z, w)
    /\ posted (events w) = [site_request sample_url sample_token]
    /\ written (events w) = [].
Proof.
  intro env.
  destruct (export_without_configuration env no_files
              (js "https://sourcegraph.example.com/") sample_token backup []
              (Some JNull))
    as (w & pre & Hrun & Hposted & Hwritten & _).
  - reflexivity.
  - right. split; reflexivity.
  - vm_compute. reflexivity.
  - reflexivity.
  - exists w. repeat split; assumption.
Defined.

(** X4. When the first query is answered and the site-config file is
    written, and then the query for the external services is rejected or
    is answered without a list of nodes, the export exits with status 1
    with the site-config file left in place, holding as UTF-8 text the
    effective contents with the sentinel replaced: nothing is undone, and
    neither the external-services file nor the summary is written. *)
Theorem export_keeps_site_config_on_failure
  env fs sourcegraphUrl accessToken outputDir more data1 contents :
  let baseUrl := strip_trailing_slash sourcegraphUrl in
  let r1 := site_request baseUrl accessToken in
  let r2 := services_request baseUrl accessToken in
  let sitePath := path_join outputDir site_config_json in
  let siteText := sanitize_text contents in
  argv env = sourcegraphUrl :: accessToken :: outputDir :: more ->
  (fs outputDir = Some Directory
   \/ (fs outputDir = None /\ refused env outputDir = false)) ->
  settle (remote env [] r1) = Resolve (Some data1) ->
  get_opt (get_opt (get_opt (Some data1) txt_site) txt_configuration)
    txt_effectiveContents = Some (JString contents) ->
  refused env sitePath = false ->
  fs sitePath <> Some Directory ->
  (rejects (remote env [r1] r2) = true
   \/ exists data2,
        settle (remote env [r1] r2) = Resolve data2
        /\ truthy (get_opt (get_opt data2 txt_externalServices) txt_nodes) = false) ->
  exists w,
    run (Export_config.script env) (initial fs) = (1%Z, w)
    /\ posted (events w) = [r1; r2]
    /\ written (events w) = [(sitePath, siteText)]
    /\ files w sitePath = Some (File (toWellFormed siteText))
    /\ (forall p, p <> sitePath ->
                  fs outputDir = Some Directory \/ is_prefix p outputDir = false ->
                  files w p = fs p).
Proof.
  intros baseUrl r1 r2 sitePath siteText Hargv Hdir Hreply1 Hcontents Href
    Hnd Hsecond.
  destruct (export_paths_apart outputDir) as (_ & _ & _ & Hso & _).
  fold sitePath in Hso.
  destruct (export_script_main env fs sourcegraphUrl accessToken outputDir more
              Hargv Hdir) as (w0 & Hrun & Hp & Hw & Hf).
  rewrite Hrun. fold baseUrl.
  unfold Export_config.main, try_catch. unfold bind at 1.
  assert (Hreply1' : settle (remote env (posted (events w0)) r1)
                     = Resolve (Some data1)) by (now rewrite Hp).
  assert (Hnd' : files w0 sitePath <> Some Directory)
    by (now rewrite Hf, Hso).
  rewrite (exportSiteConfig_success env baseUrl accessToken outputDir w0 data1
             contents Hreply1' Hcontents Href Hnd').
  fold r1 sitePath siteText.
  unfold bind at 1. unfold Export_config.exportExternalServices.
  rewrite print_bind, query_bind. cbv beta zeta.
  rewrite posted_emit_print.
  fold (services_request baseUrl accessToken). fold r2.
  cbn [events emit set_file]. rewrite !posted_app, Hp. cbn [posted app].
  assert (Hdone : forall e w1,
             w1 = emit (Post r2 (remote env [r1] r2))
                    (emit (Print ExportingExternalServices)
                       (emit (Print (SiteConfigExported sitePath))
                          (emit (Write sitePath siteText)
                             (set_file sitePath (File (toWellFormed siteText))
                                (emit (Post r1 (remote env [] r1))
                                   (emit (Print ExportingSiteConfig) w0)))))) ->
             exists w,
               (let (o, w') :=
                  (let (o0, w'0) := (@Thrown JSValue e, w1) in
                   match o0 with
                   | Returned a => (Returned tt, w'0)
                   | Thrown e0 =>
                       (print (ExportFailed e0);; process_exit 1)%script w'0
                   | Exited code => (Exited code, w'0)
                   | Stalled => (Stalled, w'0)
                   end) in
                (exit_status o, w')) = (1%Z, w)
               /\ posted (events w) = [r1; r2]
               /\ written (events w) = [(sitePath, siteText)]
               /\ files w sitePath = Some (File (toWellFormed siteText))
               /\ (forall p, p <> sitePath ->
                             fs outputDir = Some Directory
                             \/ is_prefix p outputDir = false ->
                             files w p = fs p)).
  { intros e w1 ->. eexists. split; [reflexivity|].
    cbn [events emit set_file files].
    rewrite !posted_app, !written_app, Hp, Hw. cbn [posted written app].
    rewrite jsstring_eqb_refl. repeat split.
    intros p H1 Hside. rewrite jsstring_eqb_neq by assumption.
    apply (frame_path fs outputDir p Hside).
    - intro Hne. rewrite Hf. now rewrite jsstring_eqb_neq.
    - intros ->. rewrite Hf. now rewrite jsstring_eqb_refl. }
  destruct Hsecond as [Hrej|(data2 & Hreply2 & Hfalsy)].
  - unfold rejects in Hrej.
    destruct (settle (remote env [r1] r2)) as [v|e|]; try discriminate.
    destruct (Hdone e _ eq_refl) as (w & Hw1 & Hrest).
    exists w. split; [|exact Hrest]. rewrite <- Hw1. reflexivity.
  - rewrite Hreply2, Hfalsy. cbn [negb]. unfold throw.
    destruct (Hdone (RetrievalError "external services") _ eq_refl)
      as (w & Hw1 & Hrest).
    exists w. split; [|exact Hrest]. rewrite <- Hw1. reflexivity.
Qed.

Lemma export_keeps_site_config_on_failure_witness :
  let env :=
    sample_env (fun _ r =>
                  if jsstring_eqb (req_query r) Export_config.site_config_query
                  then Response 200 (envelope sample_site)
                  else Response 500 (js "Internal Server Error")) in
  exists w,
    run (Export_config.script env) (initial no_files) = (1%Z, w)
    /\ posted (events w)
       = [site_request sample_url sample_token;
          services_request sample_url sample_token]
    /\ written (events w)
       = [(path_join backup site_config_json,
           js "{ auth.providers: [ { clientSecret: NEEDS_UPDATING } ] }")]
    /\ files w (path_join backup site_config_json)
       = Some (File (js "{ auth.providers: [ { clientSecret: NEEDS_UPDATING } ] }"))
    /\ files w (path_join backup export_summary_json) = None.
Proof.
  intro env.
  destruct (export_keeps_site_config_on_failure env no_files
              (js "https://sourcegraph.example.com/") sample_token backup []
              sample_site (js "{ auth.providers: [ { clientSecret: REDACTED } ] }"))
    as (w & Hrun & Hposted & Hwritten & Hfile & Hothers).
  - reflexivity.
  - right. split; reflexivity.
  - vm_compute. reflexivity.
  - vm_compute. reflexivity.
  - reflexivity.
  - discriminate.
  - left. vm_compute. reflexivity.
  - exists w. repeat split; try assumption.
    apply Hothers; [vm_compute; discriminate|right; vm_compute; reflexivity].
Defined.

(** X5. When the output directory does not exist and cannot be made,
    the exception of [fs.mkdirSync] is caught by nothing: the run ends
    with status 1 after the check for the directory, and the script has
    logged, posted and written nothing. *)
Theorem export_cannot_make_directory
  env fs sourcegraphUrl accessToken outputDir more :
  argv env = sourcegraphUrl :: accessToken :: outputDir :: more ->
  fs outputDir = None ->
  refused env outputDir = true ->
  exists w,
    run (Export_config.script env) (initial fs) = (1%Z, w)
    /\ events w = [Exists outputDir]
    /\ files w = fs.
Proof.
  intros Hargv Hdir Href. unfold run, Export_config.script. rewrite Hargv.
  unfold bind at 1, existsSync at 1. cbn [initial files events emit].
  rewrite Hdir. cbn [is_some].
  unfold bind at 1, mkdirSync at 1. rewrite Href.
  eexists. split; [reflexivity|]. split; reflexivity.
Qed.

Lemma export_cannot_make_directory_witness :
  exists w,
    run (Export_config.script
           (mkEnv [js "https://sourcegraph.example.com/"; sample_token; backup]
              (js "2025-01-01T00:00:00.000Z") (source sample_site [github])
              (fun _ => true)))
      (initial no_files) = (1%Z, w)
    /\ events w = [Exists backup]
    /\ files w = no_files.
Proof.
  apply (export_cannot_make_directory
           (mkEnv [js "https://sourcegraph.example.com/"; sample_token; backup]
              (js "2025-01-01T00:00:00.000Z") (source sample_site [github])
              (fun _ => true))
           no_files
           (js "https://sourcegraph.example.com/") sample_token backup []);
    reflexivity.
Defined.

(** ** From an export to an import *)

(** The external-services file of an export is a JSON text: the list of
    the services, rewritten and read again. *)
Lemma exported_services_parse services :
  well_formed (JArray services) ->
  JSON_parse (JSON_stringify_pretty (reparse (sanitize_value (JArray services))))
  = Some (JArray (map (fun s => reparse (sanitize_value s)) services)).
Proof.
  intro Hwn.
  replace (JArray (map (fun s => reparse (sanitize_value s)) services))
    with (reparse (sanitize_value (JArray services)))
    by (cbn [sanitize_value reparse]; now rewrite map_map).
  apply JSON_parse_stringify_pretty.
  - apply well_formed_reparse; [now apply numbered_sanitize|apply finite_sanitize].
  - apply finite_reparse, finite_sanitize.
Qed.

(** X6. What an export leaves, an import takes.  After an export in
    which nothing fails, an import from the same directory reads the
    external-services file back as the list of the exported services,
    each with the sentinel replaced and read again by JSON.parse; when
    the loop can print each of them, the target answers with its services
    and accepts what is created, the import posts the query and then one
    creation for each exported service that the target does not hold, in
    the order of the export, carrying the rewritten [displayName], [kind]
    and [config]. *)
Theorem export_then_import
  env fs sourcegraphUrl accessToken outputDir more data1 contents data2 services
  env' targetUrl accessToken' more' data items :
  let baseUrl := strip_trailing_slash sourcegraphUrl in
  let r1 := site_request baseUrl accessToken in
  let r2 := services_request baseUrl accessToken in
  let sitePath := path_join outputDir site_config_json in
  let servicesPath := path_join outputDir external_services_json in
  let summaryPath := path_join outputDir export_summary_json in
  let baseUrl' := strip_trailing_slash targetUrl in
  let exported := map (fun s => reparse (sanitize_value s)) services in
  argv env = sourcegraphUrl :: accessToken :: outputDir :: more ->
  (fs outputDir = Some Directory
   \/ (fs outputDir = None /\ refused env outputDir = false)) ->
  settle (remote env [] r1) = Resolve (Some data1) ->
  get_opt (get_opt (get_opt (Some data1) txt_site) txt_configuration)
    txt_effectiveContents = Some (JString contents) ->
  settle (remote env [r1] r2) = Resolve (Some data2) ->
  get_opt (get_opt (Some data2) txt_externalServices) txt_nodes
  = Some (JArray services) ->
  (forall p, In p [sitePath; servicesPath; summaryPath] ->
             refused env p = false /\ fs p <> Some Directory) ->
  Forall (fun s => printable s = true) exported ->
  argv env' = targetUrl :: accessToken' :: outputDir :: more' ->
  refused env' servicesPath = false ->
  settle (remote env' [] (list_request baseUrl' accessToken')) = Resolve data ->
  Import_config.existing_services data = Some (JArray items) ->
  Forall (fun s => s <> JNull) items ->
  (forall hist service,
      In service exported -> already_there items service = false ->
      resolves (remote env' hist (add_request baseUrl' accessToken' service))
      = true) ->
  exists w code w' text,
    run (Export_config.script env) (initial fs) = (0%Z, w)
    /\ files w servicesPath = Some (File text)
    /\ JSON_parse text = Some (JArray exported)
    /\ run (Import_config.script env') (initial (files w)) = (code, w')
    /\ posted (events w')
       = list_request baseUrl' accessToken'
         :: map (add_request baseUrl' accessToken')
              (filter (fun s => negb (already_there items s)) exported)
    /\ Forall (fun s =>
                 carries (req_variables (add_request baseUrl' accessToken' s)) s)
         exported
    /\ In (Imported
             (length (filter (fun s => negb (already_there items s)) exported))
             (length (filter (already_there items) exported)))
         (printed (events w')).
Proof.
  intros baseUrl r1 r2 sitePath servicesPath summaryPath baseUrl' exported
    Hargv Hdir Hreply1 Hcontents Hreply2 Hnodes Hpaths Hprintable
    Hargv' Href' Hreply' Hexisting Hitems Hok.
  destruct (export_script_success env fs sourcegraphUrl accessToken outputDir more
              data1 contents data2 services Hargv Hdir Hreply1 Hcontents
              Hreply2 Hnodes Hpaths)
    as (w & Hrun & Hwn & _ & _ & Hfdir & Hfsite & Hfservices & _).
  pose proof (exported_services_parse services Hwn) as Hparse.
  fold exported in Hparse.
  destruct (import_run_success env' (files w) targetUrl accessToken' outputDir more'
              (JSON_stringify_pretty (reparse (sanitize_value (JArray services))))
              exported data items Hargv')
    as (code & w' & Hrun' & Hposted & Hprinted); try assumption.
  - rewrite Hfdir. discriminate.
  - unfold sitePath in Hfsite. rewrite Hfsite. discriminate.
  - exists w, code, w',
      (JSON_stringify_pretty (reparse (sanitize_value (JArray services)))).
    repeat split; try assumption.
    apply Forall_forall. intros s _. apply add_request_carries.
Qed.

Lemma export_then_import_witness :
  let env := sample_env (source sample_site [github; gitlab]) in
  let env' := sample_env (target [github]) in
  exists w code w',
    run (Export_config.script env) (initial no_files) = (0%Z, w)
    /\ run (Import_config.script env') (initial (files w)) = (code, w')
    /\ posted (events w')
       = [list_request sample_url sample_token;
          sample_creation "gitlab" "GITLAB"
            "{ url: https://gitlab.com, token: NEEDS_UPDATING }"].
Proof.
  intros env env'.
  destruct (export_then_import env no_files (js "https://sourcegraph.example.com/")
              sample_token backup [] sample_site
              (js "{ auth.providers: [ { clientSecret: REDACTED } ] }")
              (services_data [github; gitlab]) [github; gitlab]
              env' (js "https://sourcegraph.example.com/") sample_token []
              (Some (services_data [github])) [github])
    as (w & code & w' & text & Hrun & _ & _ & Hrun' & Hposted & _).
  - reflexivity.
  - right. split; reflexivity.
  - vm_compute. reflexivity.
  - vm_compute. reflexivity.
  - vm_compute. reflexivity.
  - vm_compute. reflexivity.
  - intros p Hin. split; reflexivity || discriminate.
  - repeat constructor.
  - reflexivity.
  - reflexivity.
  - vm_compute. reflexivity.
  - vm_compute. reflexivity.
  - repeat constructor; discriminate.
  - intros hist service _ _. vm_compute. reflexivity.
  - exists w, code, w'. split; [exact Hrun|]. split; [exact Hrun'|].
    rewrite Hposted. vm_compute. reflexivity.
Defined.

(** ** More on import-config.js *)

Lemma filter_lengths {A} (f : A -> bool) l :
  length (filter (fun x => negb (f x)) l) + length (filter f l) = length l.
Proof.
  induction l as [|x l IH]; [reflexivity|]. cbn [filter].
  destruct (f x); cbn [negb length]; lia.
Qed.

(** X7. The loop of the import sorts the entries of the file in two:
    an entry for which the search among the services of the target finds
    one with its [displayName] and its [kind] is skipped, and a creation
    is posted for every other, in the order of the file.  When the loop
    can print each entry and the target accepts what is created, the
    numbers the run prints are those of the two sorts, and their sum is
    the number of entries. *)
Theorem import_creates_what_is_missing
  env fs targetUrl accessToken inputDir more text bundle data items :
  let baseUrl := strip_trailing_slash targetUrl in
  let externalServicesPath := path_join inputDir external_services_json in
  let created := filter (fun s => negb (already_there items s)) bundle in
  let skipped := filter (already_there items) bundle in
  argv env = targetUrl :: accessToken :: inputDir :: more ->
  fs inputDir <> None ->
  fs (path_join inputDir site_config_json) <> None ->
  fs externalServicesPath = Some (File text) ->
  refused env externalServicesPath = false ->
  JSON_parse text = Some (JArray bundle) ->
  settle (remote env [] (list_request baseUrl accessToken)) = Resolve data ->
  Import_config.existing_services data = Some (JArray items) ->
  Forall (fun s => s <> JNull) items ->
  Forall (fun s => printable s = true) bundle ->
  (forall hist service,
      In service bundle -> already_there items service = false ->
      resolves (remote env hist (add_request baseUrl accessToken service)) = true) ->
  exists code w,
    run (Import_config.script env) (initial fs) = (code, w)
    /\ posted (events w)
       = list_request baseUrl accessToken
         :: map (add_request baseUrl accessToken) created
    /\ In (Imported (length created) (length skipped)) (printed (events w))
    /\ length created + length skipped = length bundle.
Proof.
  intros baseUrl externalServicesPath created skipped Hargv Hdir Hsite Hext Href
    Hparse Hreply Hexisting Hitems Hbundle Hok.
  destruct (import_script_ends env fs targetUrl accessToken inputDir more text
              bundle data items Hargv Hdir Hsite Hext Href Hparse Hreply
              Hexisting Hitems Hbundle Hok)
    as (w1 & Hf & Hw & Hp & (pre & Hpre) & Hrun).
  fold baseUrl created skipped in Hp, Hpre.
  assert (Hin : In (Imported (length created) (length skipped))
                  (printed (events w1))).
  { rewrite Hpre, printed_app. apply in_last. }
  assert (Hsum : length created + length skipped = length bundle)
    by apply filter_lengths.
  rewrite Hrun.
  destruct (refused env (path_join inputDir import_summary_json)).
  - do 2 eexists. split; [reflexivity|]. cbn [events emit].
    rewrite posted_app, printed_app, Hp, app_nil_r.
    repeat split; auto. apply in_or_app. now left.
  - destruct (fs (path_join inputDir import_summary_json)) as [[|c]|];
      (do 2 eexists; split; [reflexivity|]); cbn [events emit set_file];
      rewrite ?posted_app, ?printed_app, Hp, ?app_nil_r;
      (repeat split; auto); repeat (apply in_or_app; left); exact Hin.
Qed.

(** The scenario of a target that holds one of two services. *)
Lemma import_creates_what_is_missing_witness :
  exists code w,
    run (Import_config.script (sample_env (target [github])))
      (initial (backup_files (JSON_stringify_pretty (JArray [github; gitlab]))))
    = (code, w)
    /\ posted (events w)
       = [list_request sample_url sample_token;
          add_request sample_url sample_token gitlab]
    /\ In (Imported 1 1) (printed (events w)).
Proof.
  destruct (import_creates_what_is_missing
              (sample_env (target [github]))
              (backup_files (JSON_stringify_pretty (JArray [github; gitlab])))
              (js "https://sourcegraph.example.com/") sample_token backup []
              (JSON_stringify_pretty (JArray [github; gitlab]))
              [github; gitlab]
              (Some (services_data [github]))
              [github])
    as (code & w & Hrun & Hposted & Hprinted & _).
  - reflexivity.
  - discriminate.
  - discriminate.
  - reflexivity.
  - reflexivity.
  - vm_compute. reflexivity.
  - vm_compute. reflexivity.
  - reflexivity.
  - repeat constructor; discriminate.
  - repeat constructor.
  - intros hist service _ _. vm_compute. reflexivity.
  - exists code, w. repeat split; assumption.
Defined.

(** X8. An import in which nothing fails, the summary included: the
    loop can print each entry, the target accepts what is created and
    the summary can be written.  The run exits with status 0; the
    summary, with the time, the URL without its last slash and the status
    [completed], is the one file it writes, over the file that was there
    if there was one; every other file is as it was. *)
Theorem import_success
  env fs targetUrl accessToken inputDir more text bundle data items :
  let baseUrl := strip_trailing_slash targetUrl in
  let externalServicesPath := path_join inputDir external_services_json in
  let summaryPath := path_join inputDir import_summary_json in
  let summary :=
    JSON_stringify_pretty
      (JObject [(txt_timestamp, JString (clock env));
                (txt_targetUrl, JString baseUrl);
                (txt_status, JString (js "completed"))]) in
  argv env = targetUrl :: accessToken :: inputDir :: more ->
  fs inputDir <> None ->
  fs (path_join inputDir site_config_json) <> None ->
  fs externalServicesPath = Some (File text) ->
  refused env externalServicesPath = false ->
  JSON_parse text = Some (JArray bundle) ->
  settle (remote env [] (list_request baseUrl accessToken)) = Resolve data ->
  Import_config.existing_services data = Some (JArray items) ->
  Forall (fun s => s <> JNull) items ->
  Forall (fun s => printable s = true) bundle ->
  (forall hist service,
      In service bundle -> already_there items service = false ->
      resolves (remote env hist (add_request baseUrl accessToken service)) = true) ->
  refused env summaryPath = false ->
  fs summaryPath <> Some Directory ->
  exists w,
    run (Import_config.script env) (initial fs) = (0%Z, w)
    /\ written (events w) = [(summaryPath, summary)]
    /\ files w summaryPath = Some (File summary)
    /\ (forall p, p <> summaryPath -> files w p = fs p).
Proof.
  intros baseUrl externalServicesPath summaryPath summary Hargv Hdir Hsite Hext
    Href Hparse Hreply Hexisting Hitems Hbundle Hok Hrefs Hnd.
  destruct (import_script_ends env fs targetUrl accessToken inputDir more text
              bundle data items Hargv Hdir Hsite Hext Href Hparse Hreply
              Hexisting Hitems Hbundle Hok)
    as (w1 & Hf & Hw & _ & _ & Hrun).
  fold baseUrl summaryPath in Hrun. rewrite Hrefs in Hrun.
  assert (Hend : run (Import_config.script env) (initial fs)
                 = (0%Z,
                    emit (Print (ImportCompleted summaryPath))
                      (emit (Write summaryPath summary)
                         (set_file summaryPath (File (toWellFormed summary)) w1)))).
  { rewrite Hrun. destruct (fs summaryPath) as [[|c]|]; [congruence| |];
      reflexivity. }
  eexists. split; [exact Hend|]. cbn [events emit set_file files].
  rewrite !written_app, Hw. cbn [written app].
  rewrite jsstring_eqb_refl.
  change summary with (import_summary env baseUrl).
  rewrite import_summary_utf8. repeat split.
  intros p Hp. rewrite jsstring_eqb_neq by exact Hp. now rewrite Hf.
Qed.

Lemma import_success_witness :
  exists w,
    run (Import_config.script (sample_env (target [github])))
      (initial (backup_files (JSON_stringify_pretty (JArray [github; gitlab]))))
    = (0%Z, w)
    /\ files w (path_join backup import_summary_json)
       = Some (File (import_summary (sample_env (target [github])) sample_url)).
Proof.
  destruct (import_success
              (sample_env (target [github]))
              (backup_files (JSON_stringify_pretty (JArray [github; gitlab])))
              (js "https://sourcegraph.example.com/") sample_token backup []
              (JSON_stringify_pretty (JArray [github; gitlab]))
              [github; gitlab]
              (Some (services_data [github]))
              [github])
    as (w & Hrun & _ & Hfile & _).
  - reflexivity.
  - discriminate.
  - discriminate.
  - reflexivity.
  - reflexivity.
  - vm_compute. reflexivity.
  - vm_compute. reflexivity.
  - reflexivity.
  - repeat constructor; discriminate.
  - repeat constructor.
  - intros hist service _ _. vm_compute. reflexivity.
  - reflexivity.
  - discriminate.
  - exists w. split; assumption.
Defined.

(** X9. When the loop can print each entry and everything succeeds but
    the writing of the summary (the path is refused, or is a directory),
    the run prints that the import failed and exits with status 1,
    although every creation asked for was posted and accepted: no file
    is written and nothing is undone. *)
Theorem import_fails_on_summary
  env fs targetUrl accessToken inputDir more text bundle data items :
  let baseUrl := strip_trailing_slash targetUrl in
  let externalServicesPath := path_join inputDir external_services_json in
  let summaryPath := path_join inputDir import_summary_json in
  let created := filter (fun s => negb (already_there items s)) bundle in
  argv env = targetUrl :: accessToken :: inputDir :: more ->
  fs inputDir <> None ->
  fs (path_join inputDir site_config_json) <> None ->
  fs externalServicesPath = Some (File text) ->
  refused env externalServicesPath = false ->
  JSON_parse text = Some (JArray bundle) ->
  settle (remote env [] (list_request baseUrl accessToken)) = Resolve data ->
  Import_config.existing_services data = Some (JArray items) ->
  Forall (fun s => s <> JNull) items ->
  Forall (fun s => printable s = true) bundle ->
  (forall hist service,
      In service bundle -> already_there items service = false ->
      resolves (remote env hist (add_request baseUrl accessToken service)) = true) ->
  refused env summaryPath = true \/ fs summaryPath = Some Directory ->
  exists w pre,
    run (Import_config.script env) (initial fs) = (1%Z, w)
    /\ posted (events w)
       = list_request baseUrl accessToken
         :: map (add_request baseUrl accessToken) created
    /\ written (events w) = []
    /\ files w = fs
    /\ events w = pre ++ [Print (ImportFailed SystemError)].
Proof.
  intros baseUrl externalServicesPath summaryPath created Hargv Hdir Hsite Hext
    Href Hparse Hreply Hexisting Hitems Hbundle Hok Hsummary.
  destruct (import_script_ends env fs targetUrl accessToken inputDir more text
              bundle data items Hargv Hdir Hsite Hext Href Hparse Hreply
              Hexisting Hitems Hbundle Hok)
    as (w1 & Hf & Hw & Hp & _ & Hrun).
  fold baseUrl summaryPath created in Hrun, Hp.
  assert (Hend : run (Import_config.script env) (initial fs)
                 = (1%Z, emit (Print (ImportFailed SystemError)) w1)).
  { rewrite Hrun. destruct Hsummary as [-> | ->]; [reflexivity|].
    now destruct (refused env summaryPath). }
  exists (emit (Print (ImportFailed SystemError)) w1), (events w1).
  split; [exact Hend|]. cbn [events emit files].
  rewrite posted_app, written_app, Hp, Hw, app_nil_r.
  repeat split; auto.
Qed.

Lemma import_fails_on_summary_witness :
  let env :=
    mkEnv [js "https://sourcegraph.example.com/"; sample_token; backup]
      (js "2025-01-01T00:00:00.000Z") (target [github])
      (fun p => jsstring_eqb p (path_join backup import_summary_json)) in
  exists w,
    run (Import_config.script env)
      (initial (backup_files (JSON_stringify_pretty (JArray [github; gitlab]))))
    = (1%Z, w)
    /\ posted (events w)
       = [list_request sample_url sample_token;
          add_request sample_url sample_token gitlab]
    /\ written (events w) = [].
Proof.
  intro env.
  destruct (import_fails_on_summary env
              (backup_files (JSON_stringify_pretty (JArray [github; gitlab])))
              (js "https://sourcegraph.example.com/") sample_token backup []
              (JSON_stringify_pretty (JArray [github; gitlab]))
              [github; gitlab]
              (Some (services_data [github]))
              [github])
    as (w & pre & Hrun & Hposted & Hwritten & _).
  - reflexivity.
  - discriminate.
  - discriminate.
  - reflexivity.
  - reflexivity.
  - vm_compute. reflexivity.
  - vm_compute. reflexivity.
  - reflexivity.
  - repeat constructor; discriminate.
  - repeat constructor.
  - intros hist service _ _. vm_compute. reflexivity.
  - left. reflexivity.
  - exists w. repeat split; assumption.
Defined.

(** The services the loop looks at have a length to print: the list of
    the answer when it is there, an empty list otherwise. *)
Lemma existing_services_length data :
  exists count,
    get_prop (Import_config.existing_services data) txt_length = Normal count.
Proof.
  unfold Import_config.existing_services.
  destruct (truthy (get_opt (get_opt data txt_externalServices) txt_nodes)) eqn:E.
  - destruct (get_opt (get_opt data txt_externalServices) txt_nodes) as [v|];
      [|discriminate E].
    destruct v; try discriminate E; unfold get_prop; eauto.
    + destruct (jsstring_eqb txt_length txt_length); eauto.
      destruct (array_index txt_length); eauto.
    + destruct (jsstring_eqb txt_length txt_length); eauto.
      destruct (array_index txt_length); eauto.
  - eexists. reflexivity.
Qed.

(** X10. When the external-services file holds a JSON text that is
    neither a list nor a string (an object, a number, true, false or
    null), the import posts the query for the services of the target and
    nothing else, and writes no file: the loop has nothing to go
    through.  The run exits with status 1, unless the answer to the query
    breaks off, and then with status 0. *)
Theorem import_not_a_list
  env fs targetUrl accessToken inputDir more text v e :
  let baseUrl := strip_trailing_slash targetUrl in
  let externalServicesPath := path_join inputDir external_services_json in
  argv env = targetUrl :: accessToken :: inputDir :: more ->
  fs inputDir <> None ->
  fs (path_join inputDir site_config_json) <> None ->
  fs externalServicesPath = Some (File text) ->
  refused env externalServicesPath = false ->
  JSON_parse text = Some v ->
  Import_config.iterate (Some v) = Abrupt e ->
  exists w,
    run (Import_config.script env) (initial fs)
    = ((if breaks_off (remote env [] (list_request baseUrl accessToken))
        then 0%Z else 1%Z), w)
    /\ posted (events w) = [list_request baseUrl accessToken]
    /\ written (events w) = []
    /\ files w = fs.
Proof.
  intros baseUrl externalServicesPath Hargv Hdir Hsite Hext Href Hparse Hiter.
  unfold run, Import_config.script. rewrite Hargv.
  unfold bind at 1, existsSync at 1. cbn [initial files events emit].
  destruct (fs inputDir) as [n1|]; [|congruence]. cbn [is_some negb].
  unfold bind at 1, existsSync at 1. cbn [initial files events emit].
  destruct (fs (path_join inputDir site_config_json)) as [n2|]; [|congruence].
  cbn [is_some negb].
  unfold bind at 1, existsSync at 1. cbn [initial files events emit].
  fold externalServicesPath. rewrite Hext. cbn [is_some negb].
  fold baseUrl.
  unfold Import_config.main, try_catch. unfold bind at 1.
  unfold Import_config.importExternalServices.
  fold externalServicesPath.
  rewrite print_bind.
  unfold bind at 1, readFileSync at 1.
  cbn [emit files events initial]. rewrite Href, Hext.
  rewrite lift_bind, Hparse. rewrite query_bind. cbv beta zeta.
  cbn [emit events]. rewrite !posted_app. cbn [initial events posted app].
  fold (list_request baseUrl accessToken). unfold breaks_off.
  destruct (settle (remote env [] (list_request baseUrl accessToken)))
    as [data|err|].
  - destruct (existing_services_length data) as [count Hcount].
    rewrite lift_bind, Hcount. rewrite lift_bind.
    destruct (ToString count) as [countText|err].
    + rewrite print_bind. rewrite lift_bind, Hiter.
      unfold bind, print, process_exit.
      eexists. split; [reflexivity|]. cbn [events emit files].
      rewrite !posted_app, !written_app. cbn [posted written app].
      repeat split.
    + unfold bind, print, process_exit.
      eexists. split; [reflexivity|]. cbn [events emit files].
      rewrite !posted_app, !written_app. cbn [posted written app].
      repeat split.
  - unfold bind, print, process_exit.
    eexists. split; [reflexivity|]. cbn [events emit files].
    rewrite !posted_app, !written_app. cbn [posted written app].
    repeat split.
  - eexists. split; [reflexivity|]. cbn [events emit files].
    rewrite !posted_app, !written_app. cbn [posted written app].
    repeat split.
Qed.

Lemma import_not_a_list_witness :
  (exists w,
      run (Import_config.script (sample_env (target [github])))
        (initial (backup_files (JSON_stringify_pretty github))) = (1%Z, w)
      /\ posted (events w) = [list_request sample_url sample_token]
      /\ written (events w) = [])
  /\ (exists w,
        run (Import_config.script (sample_env (breaking_target [github] 0)))
          (initial (backup_files (JSON_stringify_pretty github))) = (0%Z, w)
        /\ posted (events w) = [list_request sample_url sample_token]
        /\ written (events w) = []).
Proof.
  split.
  - destruct (import_not_a_list (sample_env (target [github]))
                (backup_files (JSON_stringify_pretty github))
                (js "https://sourcegraph.example.com/") sample_token backup []
                (JSON_stringify_pretty github) github TypeError)
      as (w & Hrun & Hposted & Hwritten & _).
    + reflexivity.
    + discriminate.
    + discriminate.
    + reflexivity.
    + reflexivity.
    + vm_compute. reflexivity.
    + reflexivity.
    + exists w. repeat split; assumption.
  - destruct (import_not_a_list (sample_env (breaking_target [github] 0))
                (backup_files (JSON_stringify_pretty github))
                (js "https://sourcegraph.example.com/") sample_token backup []
                (JSON_stringify_pretty github) github TypeError)
      as (w & Hrun & Hposted & Hwritten & _).
    + reflexivity.
    + discriminate.
    + discriminate.
    + reflexivity.
    + reflexivity.
    + vm_compute. reflexivity.
    + reflexivity.
    + exists w. repeat split; assumption.
Defined.

(** X11. The search of the loop, for an entry whose [displayName] and
    [kind] are strings: the entry counts as existing exactly when a
    service of the target has the same two strings, character for
    character; nothing else of the entry or of the service is looked
    at. *)
Theorem existing_by_name_and_kind items entry name kind :
  Forall (fun s => s <> JNull) items ->
  names entry name kind ->
  (already_there items entry = true
   <-> exists s, In s items /\ names s name kind).
Proof.
  intros Hitems He. split.
  - intro Hthere.
    destruct (existsb (fun s =>
                match Import_config.same_service (Some entry) (Some s) with
                | Normal b => b
                | Abrupt _ => false
                end) items) eqn:Ex.
    + apply existsb_exists in Ex as (s & Hin & Hs).
      exists s. split; [exact Hin|].
      assert (Hnn : s <> JNull).
      { rewrite Forall_forall in Hitems. now apply Hitems. }
      destruct (same_service_names entry name kind s He Hnn) as (b & Hb & Hiff).
      rewrite Hb in Hs. subst b. now apply Hiff.
    + exfalso.
      rewrite (already_there_unnamed items entry name kind Hitems He) in Hthere;
        [discriminate|].
      intros s Hin Hs.
      assert (Hnn : s <> JNull).
      { rewrite Forall_forall in Hitems. now apply Hitems. }
      destruct (same_service_names entry name kind s He Hnn) as (b & Hb & Hiff).
      assert (Hfalse : existsb (fun s =>
                match Import_config.same_service (Some entry) (Some s) with
                | Normal b => b
                | Abrupt _ => false
                end) items = true).
      { apply existsb_exists. exists s. split; [exact Hin|].
        rewrite Hb. now apply Hiff. }
      congruence.
  - now apply already_there_named.
Qed.

Lemma existing_by_name_and_kind_witness :
  already_there [gitlab; github] stale = false
  /\ already_there [gitlab; github] github = true.
Proof.
  split.
  - destruct (already_there [gitlab; github] stale) eqn:E; [|reflexivity].
    apply (existing_by_name_and_kind [gitlab; github] stale
             (js "gitlab (NEEDS_UPDATING)") (js "GITLAB")) in E.
    + destruct E as (s & [<-|[<-|[]]] & (m & Hm & Hn & _));
        inversion Hm; subst; vm_compute in Hn; discriminate.
    + repeat constructor; discriminate.
    + eexists. repeat split.
  - apply (existing_by_name_and_kind [gitlab; github] github
             (js "github") (js "GITHUB")).
    + repeat constructor; discriminate.
    + eexists. repeat split.
    + exists github. split; [right; now left|]. eexists. repeat split.
Defined.

(** ** The query for the identifier of the site configuration

    [getCurrentSiteConfigId] of the import script. *)

Lemma get_opt_some v k :
  get_opt v k <> None -> get_prop v k = Normal (get_opt v k).
Proof.
  unfold get_opt. destruct (get_prop v k); [reflexivity|congruence].
Qed.

Lemma get_opt_undefined k : get_opt None k = None.
Proof. reflexivity. Qed.

Lemma truthy_defined v : truthy v = true -> v <> None.
Proof. intros H E. subst v. discriminate H. Qed.

(** X12. [getCurrentSiteConfigId] prints its line, posts one query and
    ends in one of three ways: with the error of the query when the
    query fails; with the identifier [data.site.configuration.id] when
    that is there and truthy; with the error of the retrieval in every
    other case, whatever is missing on the way to the identifier. Once
    the test of the identifier has passed, reading it throws nothing.
    When the answer to the query breaks off, it does not end: it waits
    for the answer. *)
Theorem getCurrentSiteConfigId_result env baseUrl accessToken w :
  let r := mkRequest (graphqlEndpoint baseUrl) accessToken
             Import_config.site_config_id_query (JObject []) in
  let reply := remote env (posted (events w)) r in
  let w' := emit (Post r reply) (emit (Print GettingSiteConfigId) w) in
  Import_config.getCurrentSiteConfigId env baseUrl accessToken w
  = match settle reply with
    | Reject e => (Thrown e, w')
    | Resolve data =>
        let id := get_opt (get_opt (get_opt data txt_site) txt_configuration)
                    txt_id in
        if truthy id then (Returned id, w')
        else (Thrown (RetrievalError "current site configuration ID"), w')
    | Pending => (Stalled, w')
    end.
Proof.
  intros r reply w'.
  unfold Import_config.getCurrentSiteConfigId.
  rewrite print_bind, query_bind. cbv zeta.
  cbn [emit events]. rewrite posted_app. cbn [posted]. rewrite app_nil_r.
  fold r reply. fold w'.
  destruct (settle reply) as [data|e|]; [|reflexivity|reflexivity].
  destruct (truthy (get_opt (get_opt (get_opt data txt_site) txt_configuration)
                      txt_id)) eqn:E; cbn [negb]; [|reflexivity].
  apply truthy_defined in E.
  assert (Hc : get_opt (get_opt data txt_site) txt_configuration <> None).
  { intro Hn. apply E. rewrite Hn. apply get_opt_undefined. }
  assert (Hs : get_opt data txt_site <> None).
  { intro Hn. apply Hc. rewrite Hn. apply get_opt_undefined. }
  rewrite lift_bind, (get_opt_some _ _ Hs).
  rewrite lift_bind, (get_opt_some _ _ Hc).
  rewrite (get_opt_some _ _ E). reflexivity.
Qed.
